(** * react-d3-graph: the graph state engine, its builder and its utilities

    A shallow embedding of [src/lib/components/graph/graph.builder.js]
    (which carries three compiled modules: [graph.builder], [graph.helper]
    and [utils]) together with the properties of the specification that
    were checked against it.

    JavaScript values are embedded as trees.  Own enumerable properties
    are kept in insertion order; [own_keys] yields them in the order of
    [Object.keys] (array indices ascending, then the other keys in insertion
    order).  Numbers are integers (no [NaN], no fractions).  Properties
    found on prototypes are not part of the embedding: a read [o[k]] is a
    read of an own property and [o.hasOwnProperty] is the method that every
    object inherits, which is what the source does on ordinary objects at
    ordinary keys (see [ordinary] and [ordinary_key] below); the statements
    that depend on it say so.  Where the source mutates
    an object that it has just created, the embedding rebinds the variable
    to the updated object; the one function whose specification is about
    sharing ([updateNodeHighlightedValue]) is embedded over an explicit
    store in [Module Store]. *)

From Stdlib Require Import ZArith NArith Nnat String Ascii List Bool Lia Arith PeanoNat.
From Stdlib Require Import Decimal DecimalString DecimalN DecimalZ.
Import ListNotations.
Open Scope string_scope.

(** ** JavaScript values and the primitive operations the program uses *)

#[warnings="-register-all"]
Inductive value : Type :=
| VUndefined
| VNull
| VBool (b : bool)
| VNum (n : Z)
| VStr (s : string)
| VFun (name : string)
| VObj (props : list (string * value))
| VArr (elems : list value).

(** A plain object: its own enumerable properties. *)
Definition object : Type := list (string * value).

(** The constants of the [err] module, whose texts are not part of the
    sources at hand. *)
Inductive err_const : Type :=
| INSUFFICIENT_DATA
| INVALID_LINKS
| INVALID_LINK_VALUE.

(** An error message is the concatenation of its parts. *)
Inductive msg_part : Type :=
| MConst (c : err_const)
| MText (s : string)
| MValue (v : value).

Inductive error : Type :=
| TypeError
| Thrown (msg : list msg_part).

Inductive result (A : Type) : Type :=
| Ok (a : A)
| Throw (e : error).

Arguments Ok {A} a.
Arguments Throw {A} e.

Definition bind {A B : Type} (c : result A) (k : A -> result B) : result B :=
  match c with
  | Ok a => k a
  | Throw e => Throw e
  end.

Notation "x <- c ;; k" := (bind c (fun x => k))
  (at level 61, c at next level, right associativity).

Definition is_ok {A : Type} (c : result A) : bool :=
  match c with Ok _ => true | Throw _ => false end.

Definition typeof (v : value) : string :=
  match v with
  | VUndefined => "undefined"
  | VNull => "object"
  | VBool _ => "boolean"
  | VNum _ => "number"
  | VStr _ => "string"
  | VFun _ => "function"
  | VObj _ | VArr _ => "object"
  end.

Definition truthy (v : value) : bool :=
  match v with
  | VUndefined | VNull => false
  | VBool b => b
  | VNum n => negb (n =? 0)%Z
  | VStr s => negb (s =? "")
  | VFun _ | VObj _ | VArr _ => true
  end.

Definition is_undefined (v : value) : bool :=
  match v with VUndefined => true | _ => false end.

Definition is_null (v : value) : bool :=
  match v with VNull => true | _ => false end.

Definition nullish (v : value) : bool := is_undefined v || is_null v.

(** [a || b] and [a && b] on values whose second operand cannot throw. *)
Definition js_or (a b : value) : value := if truthy a then a else b.
Definition js_and (a b : value) : value := if truthy a then b else a.

(** *** Property keys *)

Definition key_of_index (n : N) : string :=
  NilEmpty.string_of_uint (N.to_uint n).

(** A key is an array index when it is the canonical decimal text of a
    natural number (the bound 2^32 - 1 of JavaScript is not represented:
    no array of the embedding is that long). *)
Definition index_of_key (k : string) : option N :=
  match NilEmpty.uint_of_string k with
  | Some d =>
      let n := N.of_uint d in
      if key_of_index n =? k then Some n else None
  | None => None
  end.

Definition is_index_key (k : string) : bool :=
  match index_of_key k with Some _ => true | None => false end.

Fixpoint insert_index (n : N) (l : list N) : list N :=
  match l with
  | [] => [n]
  | m :: l' => if (n <=? m)%N then n :: l else m :: insert_index n l'
  end.

Definition sorted_indices (ks : list string) : list N :=
  fold_right
    (fun k acc => match index_of_key k with
                  | Some n => insert_index n acc
                  | None => acc
                  end) [] ks.

Definition ordered_keys (ks : list string) : list string :=
  map key_of_index (sorted_indices ks)
  ++ filter (fun k => negb (is_index_key k)) ks.

Definition indices_upto (n : nat) : list string :=
  map (fun i => key_of_index (N.of_nat i)) (seq 0 n).

(** The keys [Object.keys] lists when its argument is neither [null] nor
    [undefined]. *)
Definition own_keys (v : value) : list string :=
  match v with
  | VObj p => ordered_keys (map fst p)
  | VArr l => indices_upto (List.length l)
  | VStr s => indices_upto (String.length s)
  | _ => []
  end.

Definition object_keys (v : value) : result (list string) :=
  if nullish v then Throw TypeError else Ok (own_keys v).

Fixpoint lookup {V : Type} (k : string) (p : list (string * V)) : option V :=
  match p with
  | [] => None
  | (k', v) :: p' => if k' =? k then Some v else lookup k p'
  end.

(** [o[k] = v] on a plain object. *)
Fixpoint assign {V : Type} (k : string) (v : V) (p : list (string * V))
  : list (string * V) :=
  match p with
  | [] => [(k, v)]
  | (k', v') :: p' =>
      if k' =? k then (k, v) :: p' else (k', v') :: assign k v p'
  end.

(** [v[k]] when [v] is neither [null] nor [undefined]: the own property,
    or [undefined] (what [v] would inherit under [k] is not looked up). *)
Definition prop (v : value) (k : string) : value :=
  match v with
  | VObj p => match lookup k p with Some x => x | None => VUndefined end
  | VArr l =>
      match index_of_key k with
      | Some i => nth (N.to_nat i) l VUndefined
      | None => if k =? "length" then VNum (Z.of_nat (List.length l))
                else VUndefined
      end
  | VStr s =>
      match index_of_key k with
      | Some i => match String.get (N.to_nat i) s with
                  | Some c => VStr (String c EmptyString)
                  | None => VUndefined
                  end
      | None => if k =? "length" then VNum (Z.of_nat (String.length s))
                else VUndefined
      end
  | _ => VUndefined
  end.

Definition get (v : value) (k : string) : result value :=
  if nullish v then Throw TypeError else Ok (prop v k).

(** [v.hasOwnProperty(k)] when [v] is neither [null] nor [undefined], and
    the method is the inherited one (no property [hasOwnProperty] of [v]
    itself stands in its way). *)
Definition has_own (v : value) (k : string) : bool :=
  match v with
  | VObj p => match lookup k p with Some _ => true | None => false end
  | VArr l =>
      match index_of_key k with
      | Some i => (N.to_nat i <? List.length l)%nat
      | None => k =? "length"
      end
  | VStr s =>
      match index_of_key k with
      | Some i => (N.to_nat i <? String.length s)%nat
      | None => k =? "length"
      end
  | _ => false
  end.

Definition hasOwnProperty (v : value) (k : string) : result bool :=
  if nullish v then Throw TypeError else Ok (has_own v k).

(** The text of a value when it is used as a property key or printed (a
    number in positional decimal, as JavaScript prints the integers below
    10^21; an object by the inherited [toString]). *)
Fixpoint to_key (v : value) : string :=
  match v with
  | VUndefined => "undefined"
  | VNull => "null"
  | VBool true => "true"
  | VBool false => "false"
  | VNum n => NilZero.string_of_int (Z.to_int n)
  | VStr s => s
  | VFun name => name
  | VObj _ => "[object Object]"
  | VArr l =>
      let elt x := match x with
                   | VUndefined | VNull => ""
                   | _ => to_key x
                   end in
      (fix join (l : list value) : string :=
         match l with
         | [] => ""
         | [x] => elt x
         | x :: l' => elt x ++ "," ++ join l'
         end) l
  end.

(** [v.toString()] *)
Definition toString (v : value) : result string :=
  if nullish v then Throw TypeError else Ok (to_key v).

(** [v.length], [v.map], [v.find] and [v.reduce] are defined on arrays. *)
Definition as_array (v : value) : result (list value) :=
  match v with
  | VArr l => Ok l
  | _ => Throw TypeError
  end.

(** The own enumerable properties a source contributes to [Object.assign]. *)
Definition own_entries (v : value) : object :=
  map (fun k => (k, prop v k)) (own_keys v).

Definition assign_all {V : Type} (target entries : list (string * V))
  : list (string * V) :=
  fold_left (fun acc kv => assign (fst kv) (snd kv) acc) entries target.

(** [Object.assign(target, s1, ..., sn)] for a plain-object target. *)
Definition object_assign (target : object) (sources : list value) : object :=
  fold_left (fun acc s => assign_all acc (own_entries s)) sources target.

(** *** Identity of objects

    [===] compares primitives by value and objects by reference.  The tree
    embedding does not record references, so the comparison of two objects
    is left to an oracle; every theorem below holds for each oracle that
    only identifies objects of equal content. *)

Class ObjectIdentity : Type :=
  same_object : value -> value -> bool.

Class SoundIdentity (I : ObjectIdentity) : Prop :=
  same_object_sound : forall a b : value, same_object a b = true -> a = b.

(** The identity under which any two objects are distinct. *)
Definition all_distinct : ObjectIdentity := fun _ _ => false.

Section Equality.
Context {I : ObjectIdentity}.

Definition strict_equal (a b : value) : bool :=
  match a, b with
  | VUndefined, VUndefined => true
  | VNull, VNull => true
  | VBool x, VBool y => Bool.eqb x y
  | VNum x, VNum y => (x =? y)%Z
  | VStr x, VStr y => (x =? y)
  | (VFun _ | VObj _ | VArr _), (VFun _ | VObj _ | VArr _) => same_object a b
  | _, _ => false
  end.
End Equality.

(** ** The [utils] module *)

Definition MAX_DEPTH : nat := 20.

Definition isEmptyObject (o : value) : bool :=
  truthy o && (typeof o =? "object") && (List.length (own_keys o) =? 0)%nat.

Definition _isPropertyNestedObject (o : value) (k : string) : bool :=
  truthy o && has_own o k && (typeof (prop o k) =? "object")
  && negb (is_null (prop o k))
  && negb (isEmptyObject (prop o k)).

Section DeepEqual.
Context {I : ObjectIdentity}.

(** The loop over [o1Keys]; [nested] is the recursive call, available
    while [_depth < MAX_DEPTH]. *)
Definition compare_keys (nested : option (value -> value -> result bool))
    (o1 o2 : value) : list string -> result (list bool) :=
  fix loop (ks : list string) : result (list bool) :=
    match ks with
    | [] => Ok []
    | k :: ks' =>
        let nestedO :=
          _isPropertyNestedObject o1 k && _isPropertyNestedObject o2 k in
        match nestedO, nested with
        | true, Some rec =>
            d <- rec (prop o1 k) (prop o2 k) ;;
            diffs <- loop ks' ;;
            Ok (d :: diffs)
        | _, _ =>
            let r :=
              (isEmptyObject (prop o1 k) && isEmptyObject (prop o2 k))
              || (has_own o2 k && strict_equal (prop o2 k) (prop o1 k)) in
            if r then diffs <- loop ks' ;; Ok (r :: diffs)
            else Ok [r]
        end
    end.

(** [isDeepEqual(o1, o2, _depth)] with [budget = MAX_DEPTH - _depth]. *)
Fixpoint isDeepEqual_at (budget : nat) (o1 o2 : value) : result bool :=
  let _depth := MAX_DEPTH - budget in
  if (_depth =? 0)%nat && strict_equal o1 o2 then Ok true
  else if (isEmptyObject o1 && negb (isEmptyObject o2))
          || (negb (isEmptyObject o1) && isEmptyObject o2) then Ok false
  else
    o1Keys <- object_keys o1 ;;
    o2Keys <- object_keys o2 ;;
    if negb (List.length o1Keys =? List.length o2Keys)%nat then Ok false
    else
      diffs <- compare_keys
                 (match budget with
                  | S b => Some (isDeepEqual_at b)
                  | O => None
                  end) o1 o2 o1Keys ;;
      Ok (negb (existsb negb diffs)).

Definition isDeepEqual (o1 o2 : value) : result bool :=
  isDeepEqual_at MAX_DEPTH o1 o2.
End DeepEqual.

(** A parameter that was not passed, or was passed as [undefined], takes
    its default. *)
Definition default_arg (v dflt : value) : value :=
  match v with
  | VUndefined => dflt
  | _ => v
  end.

(** The loop of [merge] over [Object.keys(o1)], filling [o]. *)
Definition merge_keys (nested : option (value -> value -> result value))
    (o1 o2 : value) : list string -> object -> result object :=
  fix loop (ks : list string) (o : object) : result object :=
    match ks with
    | [] => Ok o
    | k :: ks' =>
        o2k <- get o2 k ;;
        let o1k := prop o1 k in
        let nestedO :=
          truthy o2k && (typeof o2k =? "object") && (typeof o1k =? "object") in
        match nestedO, nested with
        | true, Some rec =>
            r <- rec o1k o2k ;;
            l1 <- hasOwnProperty o1k "length" ;;
            l2 <- (if l1 then hasOwnProperty o2k "length" else Ok false) ;;
            ok <- (if l1 && l2
                   then rks <- object_keys r ;;
                        Ok (VArr (map (fun rk => prop r rk) rks))
                   else Ok r) ;;
            loop ks' (assign k ok o)
        | _, _ =>
            h <- hasOwnProperty o2 k ;;
            loop ks' (assign k (if h then o2k else o1k) o)
        end
    end.

(** [merge(o1, o2, _depth)] with [budget = MAX_DEPTH - _depth]. *)
Fixpoint merge_at (budget : nat) (a1 a2 : value) : result value :=
  let o1 := default_arg a1 (VObj []) in
  let o2 := default_arg a2 (VObj []) in
  if (List.length (own_keys (js_or o1 (VObj []))) =? 0)%nat
  then Ok (if truthy o2 && negb (isEmptyObject o2) then o2 else VObj [])
  else
    o <- merge_keys (match budget with
                     | S b => Some (merge_at b)
                     | O => None
                     end) o1 o2 (own_keys o1) [] ;;
    Ok (VObj o).

Definition merge (o1 o2 : value) : result value := merge_at MAX_DEPTH o1 o2.

(** The loop of [deepClone] over [Object.keys(o)], filling [_clone];
    [nested] is the recursive call [deepClone(o[k], {}, _depth + 1)],
    available while [_depth < MAX_DEPTH]. *)
Definition deepClone_keys (nested : option (value -> result object))
    (o : value) : list string -> object -> result object :=
  fix loop (ks : list string) (_clone : object) : result object :=
    match ks with
    | [] => Ok _clone
    | k :: ks' =>
        match _isPropertyNestedObject o k, nested with
        | true, Some rec =>
            c <- rec (prop o k) ;;
            loop ks' (assign k (VObj c) _clone)
        | _, _ => loop ks' (assign k (prop o k) _clone)
        end
    end.

(** [deepClone(o, _clone, _depth)] with [budget = MAX_DEPTH - _depth]; the
    accumulator [_clone], which serves the recursion only, is a plain
    object. *)
Fixpoint deepClone_at (budget : nat) (o : value) (_clone : object)
  : result object :=
  oKeys <- object_keys o ;;
  deepClone_keys (match budget with
                  | S b => Some (fun v => deepClone_at b v [])
                  | O => None
                  end) o oKeys _clone.

(** [deepClone(o)] *)
Definition deepClone (o : value) : result object :=
  deepClone_at MAX_DEPTH o [].

(** [pick(o, props)]: the reduction over [props], from [{}]. *)
Fixpoint pick_from (o : value) (props : list string) (acc : object)
  : result object :=
  match props with
  | [] => Ok acc
  | k :: props' =>
      h <- hasOwnProperty o k ;;
      pick_from o props' (if h then assign k (prop o k) acc else acc)
  end.

Definition pick (o : value) (props : list string) : result object :=
  pick_from o props [].

Definition includes (props : list string) (k : string) : bool :=
  existsb (fun p => p =? k) props.

Definition antiPick (o : value) (props : list string) : result object :=
  keys <- object_keys o ;;
  let wanted := filter (fun k => negb (includes props k)) keys in
  pick o wanted.

(** [throwErr(component, msg)] *)
Definition throwErr {A : Type} (component : string) (msg : list msg_part)
  : result A :=
  Throw (Thrown (MText "react-d3-graph :: " :: MText component
                 :: MText " :: " :: msg)).

(** ** Collaborators

    The default configuration ([graph.config]), the constants of
    [graph.const], the force simulation of [d3-force], the path and marker
    helpers and the arithmetic of JavaScript numbers are not part of the
    sources at hand; the program is embedded over any interpretation of
    them. *)

Class Environment : Type := {
  DEFAULT_CONFIG : value;
  KEYWORDS_SAME : value;
  LINK_CLASS_NAME : value;
  FORCE_X : value;
  FORCE_Y : value;
  (** the handle [forceSimulation().force("charge", ..).force("x", ..)
      .force("y", ..)] built from the charge strength and the two centering
      forces, each given by its target and its strength *)
  forceSimulation : value -> value * value -> value * value -> value;
  buildLinkPathDefinition : value -> value -> value;
  getMarkerId : value -> value -> value -> value;
  times : value -> value -> value;
  divide : value -> value -> value;
  plus : value -> value -> value;
  negate : value -> value;
  less_than : value -> value -> bool;
  (** [undefined] compares as [NaN]: neither below nor above anything *)
  less_than_undefined :
    forall a b, is_undefined a || is_undefined b = true ->
                less_than a b = false
}.

(** ** JavaScript array methods over the error monad *)

Fixpoint mapM {A B : Type} (f : A -> result B) (l : list A)
  : result (list B) :=
  match l with
  | [] => Ok []
  | x :: l' => y <- f x ;; ys <- mapM f l' ;; Ok (y :: ys)
  end.

(** [l.map((x, index) => f(x, index))], the first element having index [i] *)
Fixpoint mapMi {A B : Type} (f : A -> nat -> result B) (i : nat) (l : list A)
  : result (list B) :=
  match l with
  | [] => Ok []
  | x :: l' => y <- f x i ;; ys <- mapMi f (S i) l' ;; Ok (y :: ys)
  end.

(** [l.reduce((acc, x) => f(acc, x), init)] *)
Fixpoint reduceM {A B : Type} (f : B -> A -> result B) (l : list A) (acc : B)
  : result B :=
  match l with
  | [] => Ok acc
  | x :: l' => acc' <- f acc x ;; reduceM f l' acc'
  end.

(** [l.find(f)] *)
Fixpoint find_first (f : value -> result bool) (l : list value)
  : result value :=
  match l with
  | [] => Ok VUndefined
  | x :: l' => b <- f x ;; if b then Ok x else find_first f l'
  end.

(** [for (var i = 0; i < n; i++) body(i)], the indices given as a list *)
Fixpoint for_each (body : nat -> result unit) (indices : list nat)
  : result unit :=
  match indices with
  | [] => Ok tt
  | i :: rest => _ <- body i ;; for_each body rest
  end.

(** The number of turns of [for (var i = 0; i < n; i++)]; a bound that is
    not a number (which the comparison of the source would convert) is not
    represented and counts as none. *)
Definition turns (n : value) : nat :=
  match n with
  | VNum z => Z.to_nat z
  | _ => 0
  end.

Definition dquote : string := String (Ascii.ascii_of_nat 34) EmptyString.

(** ** The [collapse.helper] module *)

Record degree : Type := { inDegree : nat; outDegree : nat }.

(** The adjacency matrix under construction: a row per node id, each row
    an object from neighbour id to weight. *)
Definition matrix : Type := list (string * object).

Fixpoint lookup_row (k : string) (m : matrix) : option object :=
  match m with
  | [] => None
  | (k', row) :: m' => if k' =? k then Some row else lookup_row k m'
  end.

Definition matrix_value (m : matrix) : value :=
  VObj (map (fun kr => (fst kr, VObj (snd kr))) m).

Definition nonzero (w : value) : bool :=
  match w with
  | VNum n => negb (n =? 0)%Z
  | _ => true
  end.

(** Modelled from the spec: [computeNodeDegree] of [collapse.helper], which
    is not part of the sources at hand.  It counts, over the full adjacency
    matrix, the incoming edges (any node whose row contains [nodeId] with
    nonzero weight) and the outgoing edges (the nonzero entries of the own
    row of [nodeId]). *)
Definition computeNodeDegree (nodeId : string) (linksMatrix : matrix)
  : degree :=
  {| inDegree :=
       List.length
         (filter (fun kr => match lookup nodeId (snd kr) with
                            | Some w => nonzero w
                            | None => false
                            end) linksMatrix);
     outDegree :=
       match lookup_row nodeId linksMatrix with
       | Some row => List.length (filter (fun kv => nonzero (snd kv)) row)
       | None => 0
       end |}.

(** ** The [graph.helper] module *)

Definition NODE_PROPS_WHITELIST : list string :=
  ["id"; "highlighted"; "x"; "y"; "index"; "vy"; "vx"].

Definition LINK_CUSTOM_PROPS_WHITELIST : list string :=
  ["color"; "opacity"; "strokeWidth"; "label"].

Definition NODE_PROPERTIES_DISCARD_TO_COMPARE : list string :=
  ["x"; "y"; "vx"; "vy"; "index"].

Module GraphState.
Record t : Type := {
  id : string;
  config : object;
  links : matrix;
  d3Links : list value;
  nodes : object;
  d3Nodes : list object;
  highlightedNode : string;
  simulation : value;
  newGraphElements : bool;
  configUpdated : bool;
  transform : Z
}.
End GraphState.

Module ElementsChanges.
Record t : Type := {
  graphElementsUpdated : bool;
  newGraphElements : bool
}.
End ElementsChanges.

Module ConfigChanges.
Record t : Type := {
  configUpdated : value;
  d3ConfigUpdated : value
}.
End ConfigChanges.

(** [e.id !== undefined && e.id !== null ? e.id : e] *)
Definition endpoint_id (e : value) : result value :=
  i <- get e "id" ;;
  Ok (if negb (is_undefined i) && negb (is_null i) then i else e).

(** [links[s][t] = v] on a matrix that has the row [s] *)
Fixpoint set_entry (s t : string) (v : value) (m : matrix) : matrix :=
  match m with
  | [] => []
  | (k, row) :: m' =>
      if k =? s then (k, assign t v row) :: m'
      else (k, row) :: set_entry s t v m'
  end.

(** [if (!links[k]) links[k] = {}], for a key [k] under which the matrix
    inherits nothing *)
Definition ensure_row (k : string) (m : matrix) : matrix :=
  match lookup_row k m with
  | Some _ => m
  | None => (m ++ [(k, [])])%list
  end.

Section Helper.
Context {E : Environment} {I : ObjectIdentity}.

Definition _createForceSimulation (width height gravity : value) : value :=
  let frx := (divide width (VNum 2), FORCE_X) in
  let fry := (divide height (VNum 2), FORCE_Y) in
  let forceStrength := gravity in
  forceSimulation forceStrength frx fry.

Definition _initializeLinks_step (config : value) (links : matrix)
    (l : value) : result matrix :=
  ls <- get l "source" ;;
  source <- endpoint_id ls ;;
  lt <- get l "target" ;;
  target <- endpoint_id lt ;;
  let links := ensure_row (to_key source) links in
  let links := ensure_row (to_key target) links in
  collapsible <- get config "collapsible" ;;
  let value :=
    if truthy (js_and collapsible (prop l "isHidden")) then VNum 0
    else js_or (prop l "value") (VNum 1) in
  let links := set_entry (to_key source) (to_key target) value links in
  directed <- get config "directed" ;;
  Ok (if negb (truthy directed)
      then set_entry (to_key target) (to_key source) value links
      else links).

Definition _initializeLinks (graphLinks : list value) (config : value)
  : result matrix :=
  reduceM (_initializeLinks_step config) graphLinks [].

(** One turn of the loop of [_initializeNodes]: the node is updated in
    place and stored under its id. *)
Definition _initializeNodes_step (nodes : object) (node : object)
  : result (object * object) :=
  let node := assign "highlighted" (VBool false) node in
  let node := if negb (has_own (VObj node) "x")
              then assign "x" (VNum 0) node else node in
  let node := if negb (has_own (VObj node) "y")
              then assign "y" (VNum 0) node else node in
  key <- toString (prop (VObj node) "id") ;;
  Ok (assign key (VObj node) nodes, node).

(** [_initializeNodes(graphNodes)] yields the node map; the elements of
    [graphNodes] are the very objects it stores, so the updated elements
    are returned along. *)
Fixpoint _initializeNodes_from (graphNodes : list object) (nodes : object)
  : result (object * list object) :=
  match graphNodes with
  | [] => Ok (nodes, [])
  | node :: rest =>
      r <- _initializeNodes_step nodes node ;;
      r' <- _initializeNodes_from rest (fst r) ;;
      Ok (fst r', snd r :: snd r')
  end.

Definition _initializeNodes (graphNodes : list object)
  : result (object * list object) :=
  _initializeNodes_from graphNodes [].

Definition _mapDataLinkToD3Link (link : value) (index : nat)
    (d3Links_arg config state_arg : value) : result value :=
  let d3Links := default_arg d3Links_arg (VArr []) in
  let state := default_arg state_arg (VObj []) in
  d3Link <- get d3Links (key_of_index (N.of_nat index)) ;;
  customProps <- pick link LINK_CUSTOM_PROPS_WHITELIST ;;
  if truthy d3Link then
    sconfig <- get state "config" ;;
    toggledDirected <-
      (if truthy sconfig then
         let sdirected := prop sconfig "directed" in
         if truthy sdirected then
           cdirected <- get config "directed" ;;
           Ok (VBool (negb (strict_equal cdirected sdirected)))
         else Ok sdirected
       else Ok sconfig) ;;
    let refinedD3Link := object_assign [] [d3Link; VObj customProps] in
    if truthy toggledDirected then
      Ok (VObj (object_assign []
                  [VObj refinedD3Link; VObj [("isHidden", VBool false)]]))
    else
      collapsible <- get config "collapsible" ;;
      Ok (VObj (if truthy collapsible then refinedD3Link
                else object_assign []
                       [VObj refinedD3Link;
                        VObj [("isHidden", VBool false)]]))
  else
    let highlighted := VBool false in
    lsource <- get link "source" ;;
    let source := VObj [("id", lsource); ("highlighted", highlighted)] in
    ltarget <- get link "target" ;;
    let target := VObj [("id", ltarget); ("highlighted", highlighted)] in
    Ok (VObj (object_assign
                [("index", VNum (Z.of_nat index)); ("source", source);
                 ("target", target)]
                [VObj customProps])).

Definition _tagOrphanNodes_step (nodes : object) (linksMatrix : matrix)
    (acc : object) (nodeId : string) : object :=
  let d := computeNodeDegree nodeId linksMatrix in
  let node := prop (VObj nodes) nodeId in
  let taggedNode :=
    if (inDegree d =? 0)%nat && (outDegree d =? 0)%nat
    then VObj (object_assign [] [node; VObj [("_orphan", VBool true)]])
    else node in
  assign nodeId taggedNode acc.

Definition _tagOrphanNodes (nodes : object) (linksMatrix : matrix)
  : object :=
  fold_left (_tagOrphanNodes_step nodes linksMatrix)
            (own_keys (VObj nodes)) [].

(** [data.nodes.find(function (n) { return n.id === x; })] *)
Definition find_node_with_id (nodes : list value) (l : value)
    (endpoint : string) : result value :=
  find_first (fun n => nid <- get n "id" ;;
                       x <- get l endpoint ;;
                       Ok (strict_equal nid x)) nodes.

Definition _loop (data : value) (i : nat) : result unit :=
  dlinks <- get data "links" ;;
  l <- get dlinks (key_of_index (N.of_nat i)) ;;
  dnodes <- get data "nodes" ;;
  ns <- as_array dnodes ;;
  found <- find_node_with_id ns l "source" ;;
  _ <- (if negb (truthy found) then
          lsource <- get l "source" ;;
          throwErr "Graph"
            [MConst INVALID_LINKS; MText (" - " ++ dquote); MValue lsource;
             MText (dquote ++ " is not a valid source node id")]
        else Ok tt) ;;
  found <- find_node_with_id ns l "target" ;;
  _ <- (if negb (truthy found) then
          ltarget <- get l "target" ;;
          throwErr "Graph"
            [MConst INVALID_LINKS; MText (" - " ++ dquote); MValue ltarget;
             MText (dquote ++ " is not a valid target node id")]
        else Ok tt) ;;
  if truthy l && negb (is_undefined (prop l "value"))
     && negb (typeof (prop l "value") =? "number")
  then
    throwErr "Graph"
      [MConst INVALID_LINK_VALUE;
       MText (" - found in link with source " ++ dquote);
       MValue (prop l "source");
       MText (dquote ++ " and target " ++ dquote);
       MValue (prop l "target"); MText dquote]
  else Ok tt.

Definition _validateGraphData (data : value) : result unit :=
  dnodes <- get data "nodes" ;;
  _ <- (if negb (truthy dnodes) || negb (truthy (prop dnodes "length"))
        then throwErr "Graph" [MConst INSUFFICIENT_DATA]
        else Ok tt) ;;
  dlinks <- get data "links" ;;
  n <- get dlinks "length" ;;
  for_each (_loop data) (seq 0 (turns n)).

(** [{ id: n.id }] *)
Definition id_only (n : value) : value := VObj [("id", prop n "id")].

(** [{ source: l.source, target: l.target }] *)
Definition source_target (l : value) : value :=
  VObj [("source", prop l "source"); ("target", prop l "target")].

Definition comparable_node (n : value) : result value :=
  o <- antiPick n NODE_PROPERTIES_DISCARD_TO_COMPARE ;; Ok (VObj o).

Definition comparable_link (l : value) : result value :=
  ls <- get l "source" ;;
  source <- endpoint_id ls ;;
  lt <- get l "target" ;;
  target <- endpoint_id lt ;;
  Ok (VObj [("source", source); ("target", target)]).

Definition array_length (l : list value) : value :=
  VNum (Z.of_nat (List.length l)).

Definition checkForGraphElementsChanges (nextProps currentState : value)
  : result ElementsChanges.t :=
  data <- get nextProps "data" ;;
  dnodes <- get data "nodes" ;;
  ns <- as_array dnodes ;;
  nextNodes <- mapM comparable_node ns ;;
  nextLinks <- get data "links" ;;
  sd3Nodes <- get currentState "d3Nodes" ;;
  sns <- as_array sd3Nodes ;;
  stateD3Nodes <- mapM comparable_node sns ;;
  sd3Links <- get currentState "d3Links" ;;
  sls <- as_array sd3Links ;;
  stateD3Links <- mapM comparable_link sls ;;
  sameNodes <- isDeepEqual (VArr nextNodes) (VArr stateD3Nodes) ;;
  same <- (if sameNodes then isDeepEqual nextLinks (VArr stateD3Links)
           else Ok false) ;;
  let graphElementsUpdated := negb same in
  newGraphElements <-
    (if negb (strict_equal (array_length nextNodes)
                           (array_length stateD3Nodes))
     then Ok true
     else
       nl <- get nextLinks "length" ;;
       if negb (strict_equal nl (array_length stateD3Links)) then Ok true
       else
         sameIds <- isDeepEqual (VArr (map id_only nextNodes))
                                (VArr (map id_only stateD3Nodes)) ;;
         if negb sameIds then Ok true
         else
           sameEnds <- isDeepEqual nextLinks
                         (VArr (map source_target stateD3Links)) ;;
           Ok (negb sameEnds)) ;;
  Ok {| ElementsChanges.graphElementsUpdated := graphElementsUpdated;
        ElementsChanges.newGraphElements := newGraphElements |}.

(** The two flags are the values of [&&] chains: a boolean, or the operand
    that ended the chain. *)
Definition checkForGraphConfigChanges (nextProps currentState : value)
  : result ConfigChanges.t :=
  nconfig <- get nextProps "config" ;;
  let newConfig := js_or nconfig (VObj []) in
  configUpdated <-
    (if truthy newConfig then
       if negb (isEmptyObject newConfig) then
         sconfig <- get currentState "config" ;;
         same <- isDeepEqual newConfig sconfig ;;
         Ok (VBool (negb same))
       else Ok (VBool false)
     else Ok newConfig) ;;
  d3ConfigUpdated <-
    (if truthy newConfig then
       let d3 := prop newConfig "d3" in
       if truthy d3 then
         sconfig <- get currentState "config" ;;
         sd3 <- get sconfig "d3" ;;
         same <- isDeepEqual d3 sd3 ;;
         Ok (VBool (negb same))
       else Ok d3
     else Ok newConfig) ;;
  Ok {| ConfigChanges.configUpdated := configUpdated;
        ConfigChanges.d3ConfigUpdated := d3ConfigUpdated |}.

(** [id.replace(/ /g, "_")] *)
Fixpoint replace_spaces (s : string) : string :=
  match s with
  | EmptyString => EmptyString
  | String c s' =>
      String (if Ascii.eqb c " "%char then "_"%char else c)
             (replace_spaces s')
  end.

(** The node of the new graph for the input node [n], given the node map
    of the previous state. *)
Definition carried_node (stateNodes : value) (n : value) : result object :=
  nid <- get n "id" ;;
  let previous := prop stateNodes (to_key nid) in
  if truthy previous
  then p <- pick previous NODE_PROPS_WHITELIST ;;
       Ok (object_assign [] [n; VObj p])
  else Ok (object_assign [] [n]).

(** The [graph] of [initializeGraphState]: its nodes and its links. *)
Definition build_graph (data config state : value)
  : result (list object * list value) :=
  if truthy (js_and state (prop state "nodes")) then
    dnodes <- get data "nodes" ;;
    ns <- as_array dnodes ;;
    gnodes <- mapM (carried_node (prop state "nodes")) ns ;;
    dlinks <- get data "links" ;;
    ls <- as_array dlinks ;;
    glinks <- mapMi (fun l index =>
                       _mapDataLinkToD3Link l index
                         (js_and state (prop state "d3Links")) config state)
                    0 ls ;;
    Ok (gnodes, glinks)
  else
    dnodes <- get data "nodes" ;;
    ns <- as_array dnodes ;;
    let gnodes := map (fun n => object_assign [] [n]) ns in
    dlinks <- get data "links" ;;
    ls <- as_array dlinks ;;
    let glinks := map (fun l => VObj (object_assign [] [l])) ls in
    Ok (gnodes, glinks).

(** [focusZoom] brought into [minZoom, maxZoom] *)
Definition clamp_focusZoom (newConfig : object) : object :=
  let minZoom := prop (VObj newConfig) "minZoom" in
  let maxZoom := prop (VObj newConfig) "maxZoom" in
  let focusZoom := prop (VObj newConfig) "focusZoom" in
  if less_than maxZoom focusZoom then assign "focusZoom" maxZoom newConfig
  else if less_than focusZoom minZoom
       then assign "focusZoom" minZoom newConfig
       else newConfig.

Definition initializeGraphState (_ref4 state : value)
  : result GraphState.t :=
  data <- get _ref4 "data" ;;
  id <- get _ref4 "id" ;;
  config <- get _ref4 "config" ;;
  _ <- _validateGraphData data ;;
  graph <- build_graph data config state ;;
  merged <- merge DEFAULT_CONFIG (js_or config (VObj [])) ;;
  let newConfig := object_assign [] [merged] in
  links <- _initializeLinks (snd graph) (VObj newConfig) ;;
  initialized <- _initializeNodes (fst graph) ;;
  let nodes := _tagOrphanNodes (fst initialized) links in
  let d3Nodes := snd initialized in
  let d3Links := snd graph in
  formatedId <- match id with
                | VStr s => Ok (replace_spaces s)
                | _ => Throw TypeError
                end ;;
  let simulation :=
    _createForceSimulation
      (prop (VObj newConfig) "width") (prop (VObj newConfig) "height")
      (js_and (prop (VObj newConfig) "d3")
              (prop (prop (VObj newConfig) "d3") "gravity")) in
  let newConfig := clamp_focusZoom newConfig in
  Ok {| GraphState.id := formatedId;
        GraphState.config := newConfig;
        GraphState.links := links;
        GraphState.d3Links := d3Links;
        GraphState.nodes := nodes;
        GraphState.d3Nodes := d3Nodes;
        GraphState.highlightedNode := "";
        GraphState.simulation := simulation;
        GraphState.newGraphElements := false;
        GraphState.configUpdated := false;
        GraphState.transform := 1 |}.
End Helper.

(** What [buildNodeProps] takes from outside the sources at hand: the
    constant [NODE_CLASS_NAME] of [graph.const], the literal [1.5] (the
    numbers of the embedding are integers) and the call [f(x)] of a function
    that the consumer supplies. *)
Class NodeEnvironment : Type := {
  NODE_CLASS_NAME : value;
  one_and_a_half : value;
  call : value -> value -> result value
}.

(** ** The [graph.builder] module *)

Section Builder.
Context {E : Environment} {I : ObjectIdentity}.

(** [(nodes[k] && nodes[k].c) || 0] *)
Definition coordinate (nodes : value) (k : value) (c : string)
  : result value :=
  node <- get nodes (to_key k) ;;
  Ok (js_or (js_and node (prop node c)) (VNum 0)).

(** [links[source][target] || links[target][source] || 1] *)
Definition link_weight (links source target : value) : result value :=
  row <- get links (to_key source) ;;
  w <- get row (to_key target) ;;
  if truthy w then Ok w
  else
    row' <- get links (to_key target) ;;
    w' <- get row' (to_key source) ;;
    Ok (js_or w' (VNum 1)).

Definition buildLinkProps
    (link nodes links config linkCallbacks highlightedNode highlightedLink
       transform : value) : result object :=
  source <- get link "source" ;;
  target <- get link "target" ;;
  x1 <- coordinate nodes source "x" ;;
  y1 <- coordinate nodes source "y" ;;
  x2 <- coordinate nodes target "x" ;;
  y2 <- coordinate nodes target "y" ;;
  clink <- get config "link" ;;
  ltype <- get clink "type" ;;
  let d :=
    buildLinkPathDefinition
      (VObj [("source", VObj [("x", x1); ("y", y1)]);
             ("target", VObj [("x", x2); ("y", y2)])]) ltype in
  let highlightDegree := prop config "highlightDegree" in
  let mainNodeParticipates :=
    if strict_equal highlightDegree (VNum 0) then false
    else if strict_equal highlightDegree (VNum 2) then true
    else strict_equal source highlightedNode
         || strict_equal target highlightedNode in
  reasonNode <-
    (if mainNodeParticipates then
       nsource <- get nodes (to_key source) ;;
       hs <- get nsource "highlighted" ;;
       if truthy hs then
         ntarget <- get nodes (to_key target) ;;
         get ntarget "highlighted"
       else Ok hs
     else Ok (VBool false)) ;;
  let reasonLink :=
    strict_equal source
      (js_and highlightedLink (prop highlightedLink "source"))
    && strict_equal target
         (js_and highlightedLink (prop highlightedLink "target")) in
  let highlight := js_or reasonNode (VBool reasonLink) in
  let opacity := js_or (prop link "opacity") (prop clink "opacity") in
  let opacity :=
    if truthy (js_or highlightedNode
                     (js_and highlightedLink
                             (prop highlightedLink "source")))
    then if truthy highlight then prop clink "opacity"
         else prop config "highlightOpacity"
    else opacity in
  let stroke := js_or (prop link "color") (prop clink "color") in
  let stroke :=
    if truthy highlight
    then if strict_equal (prop clink "highlightColor") KEYWORDS_SAME
         then prop clink "color" else prop clink "highlightColor"
    else stroke in
  let strokeWidth :=
    times (js_or (prop link "strokeWidth") (prop clink "strokeWidth"))
          (divide (VNum 1) transform) in
  strokeWidth <-
    (if truthy (prop clink "semanticStrokeWidth") then
       linkValue <- link_weight links source target ;;
       Ok (plus strokeWidth
                (divide (times linkValue strokeWidth) (VNum 10)))
     else Ok strokeWidth) ;;
  let markerId :=
    if truthy (prop config "directed")
    then getMarkerId highlight transform config else VNull in
  let t := divide (VNum 1) transform in
  let labelled := truthy (prop clink "renderLabel") in
  let label :=
    if labelled then prop link (to_key (prop clink "labelProperty"))
    else VNull in
  let fontSize :=
    if labelled then js_or (prop link "fontSize") (prop clink "fontSize")
    else VNull in
  let fontColor :=
    if labelled then js_or (prop link "fontColor") (prop clink "fontColor")
    else VNull in
  let fontWeight :=
    if labelled
    then if truthy highlight then prop clink "highlightFontWeight"
         else prop clink "fontWeight"
    else VNull in
  onClickLink <- get linkCallbacks "onClickLink" ;;
  Ok [("markerId", markerId); ("d", d); ("source", source);
      ("target", target); ("strokeWidth", strokeWidth);
      ("stroke", stroke); ("label", label);
      ("mouseCursor", prop clink "mouseCursor");
      ("fontColor", fontColor); ("fontSize", times fontSize t);
      ("fontWeight", fontWeight); ("className", LINK_CLASS_NAME);
      ("opacity", opacity); ("onClickLink", onClickLink);
      ("onRightClickLink", prop linkCallbacks "onRightClickLink");
      ("onMouseOverLink", prop linkCallbacks "onMouseOverLink");
      ("onMouseOutLink", prop linkCallbacks "onMouseOutLink")].
(** [node.highlighted || node.id === (highlightedLink &&
    highlightedLink.source) || node.id === (highlightedLink &&
    highlightedLink.target)], the node having been read *)
Definition node_highlight (node highlightedLink : value) : value :=
  js_or (prop node "highlighted")
        (VBool (strict_equal (prop node "id")
                  (js_and highlightedLink (prop highlightedLink "source"))
                || strict_equal (prop node "id")
                     (js_and highlightedLink
                             (prop highlightedLink "target")))).

(** [x || config.node.k] *)
Definition or_node_option (x config : value) (k : string) : result value :=
  if truthy x then Ok x
  else cnode <- get config "node" ;; get cnode k.

Definition _getNodeOpacity (node highlightedNode highlightedLink config : value)
  : result value :=
  _ <- get node "highlighted" ;;
  let highlight := node_highlight node highlightedLink in
  let someNodeHighlighted :=
    truthy (js_or highlightedNode
                  (js_and (js_and highlightedLink
                                  (prop highlightedLink "source"))
                          (prop highlightedLink "target"))) in
  let choice :=
    if truthy highlight
    then cnode <- get config "node" ;; get cnode "opacity"
    else get config "highlightOpacity" in
  if someNodeHighlighted then
    highlightDegree <- get config "highlightDegree" ;;
    if strict_equal highlightDegree (VNum 0) then choice else choice
  else or_node_option (prop node "opacity") config "opacity".

Section NodeProps.
Context {NE : NodeEnvironment}.

(** [if (highlight && config.node.k !== KEYWORDS.SAME) x = config.node.k] *)
Definition highlight_override (highlight x config : value) (k : string)
  : result value :=
  if truthy highlight then
    cnode <- get config "node" ;;
    override <- get cnode k ;;
    Ok (if negb (strict_equal override KEYWORDS_SAME) then override else x)
  else Ok x.

Definition buildNodeProps
    (node config nodeCallbacks_arg highlightedNode highlightedLink
       transform : value) : result object :=
  let nodeCallbacks := default_arg nodeCallbacks_arg (VObj []) in
  _ <- get node "highlighted" ;;
  let highlight := node_highlight node highlightedLink in
  opacity <- _getNodeOpacity node highlightedNode highlightedLink config ;;
  fill <- or_node_option (prop node "color") config "color" ;;
  fill <- highlight_override highlight fill config "highlightColor" ;;
  stroke <- or_node_option (prop node "strokeColor") config "strokeColor" ;;
  stroke <- highlight_override highlight stroke config
              "highlightStrokeColor" ;;
  cnode <- get config "node" ;;
  labelProperty <- get cnode "labelProperty" ;;
  let label := js_or (prop node (to_key labelProperty)) (prop node "id") in
  label <- (if typeof labelProperty =? "function"
            then call labelProperty node else Ok label) ;;
  let strokeWidth :=
    js_or (prop node "strokeWidth") (prop cnode "strokeWidth") in
  strokeWidth <- highlight_override highlight strokeWidth config
                   "highlightStrokeWidth" ;;
  let t := divide (VNum 1) transform in
  let nodeSize := js_or (prop node "size") (prop cnode "size") in
  let fontSize :=
    if truthy highlight then prop cnode "highlightFontSize"
    else prop cnode "fontSize" in
  let dx :=
    plus (plus (times fontSize t) (divide nodeSize (VNum 100)))
         one_and_a_half in
  let svg := js_or (prop node "svg") (prop cnode "svg") in
  let fontColor := js_or (prop node "fontColor") (prop cnode "fontColor") in
  onClickNode <- get nodeCallbacks "onClickNode" ;;
  Ok (object_assign []
        [node;
         VObj [("className", NODE_CLASS_NAME);
               ("cursor", prop cnode "mouseCursor");
               ("cx", js_or (js_and node (prop node "x")) (VStr "0"));
               ("cy", js_or (js_and node (prop node "y")) (VStr "0"));
               ("fill", fill); ("fontColor", fontColor);
               ("fontSize", times fontSize t); ("dx", dx);
               ("fontWeight",
                if truthy highlight then prop cnode "highlightFontWeight"
                else prop cnode "fontWeight");
               ("id", prop node "id"); ("label", label);
               ("onClickNode", onClickNode);
               ("onRightClickNode", prop nodeCallbacks "onRightClickNode");
               ("onMouseOverNode", prop nodeCallbacks "onMouseOverNode");
               ("onMouseOut", prop nodeCallbacks "onMouseOut");
               ("opacity", opacity);
               ("renderLabel", prop cnode "renderLabel");
               ("size", times nodeSize t); ("stroke", stroke);
               ("strokeWidth", times strokeWidth t); ("svg", svg);
               ("type",
                js_or (prop node "symbolType") (prop cnode "symbolType"));
               ("viewGenerator",
                js_or (prop node "viewGenerator")
                      (prop cnode "viewGenerator"));
               ("overrideGlobalViewGenerator",
                js_and (VBool (negb (truthy (prop node "viewGenerator"))))
                       (prop node "svg"))]]).
End NodeProps.

End Builder.

(** ** [updateNodeHighlightedValue] over an explicit store

    The node map, its node records, the adjacency matrix and the
    configuration are objects of a store; a reference is the address of its
    record.  [{}] and object literals allocate at the next free address,
    [Object.assign] writes to its target.  An address that was never
    allocated reads as an object without properties. *)

Module Store.
Definition loc : Type := nat.

Inductive sval : Type :=
| SUndefined
| SNull
| SBool (b : bool)
| SNum (n : Z)
| SStr (s : string)
| SRef (l : loc).

Definition record : Type := list (string * sval).

Record store : Type := { next : loc; cells : loc -> record }.

Definition empty : store := {| next := 0; cells := fun _ => [] |}.

Definition M (A : Type) : Type := store -> result (A * store).

Definition ret {A : Type} (a : A) : M A := fun h => Ok (a, h).

Definition mbind {A B : Type} (c : M A) (k : A -> M B) : M B :=
  fun h => match c h with
           | Ok (a, h') => k a h'
           | Throw e => Throw e
           end.

Notation "x <~ c ;; k" := (mbind c (fun x => k))
  (at level 61, c at next level, right associativity).

Definition s_truthy (v : sval) : bool :=
  match v with
  | SUndefined | SNull => false
  | SBool b => b
  | SNum n => negb (n =? 0)%Z
  | SStr s => negb (s =? "")
  | SRef _ => true
  end.

Definition s_nullish (v : sval) : bool :=
  match v with
  | SUndefined | SNull => true
  | _ => false
  end.

Definition s_to_key (v : sval) : string :=
  match v with
  | SUndefined => "undefined"
  | SNull => "null"
  | SBool true => "true"
  | SBool false => "false"
  | SNum n => NilZero.string_of_int (Z.to_int n)
  | SStr s => s
  | SRef _ => "[object Object]"
  end.

(** The characters and the length of a string, as [prop] has them. *)
Definition string_prop (s : string) (k : string) : sval :=
  match prop (VStr s) k with
  | VStr c => SStr c
  | VNum n => SNum n
  | _ => SUndefined
  end.

(** [v[k]] when [v] is neither [null] nor [undefined]: the own property,
    or [undefined] *)
Definition sprop (h : store) (v : sval) (k : string) : sval :=
  match v with
  | SRef l => match lookup k (cells h l) with
              | Some x => x
              | None => SUndefined
              end
  | SStr s => string_prop s k
  | _ => SUndefined
  end.

Definition read (v : sval) (k : string) : M sval :=
  fun h => if s_nullish v then Throw TypeError else Ok (sprop h v k, h).

Definition skeys (h : store) (v : sval) : list string :=
  match v with
  | SRef l => ordered_keys (map fst (cells h l))
  | SStr s => own_keys (VStr s)
  | _ => []
  end.

(** [Object.keys(v)] *)
Definition keys_of (v : sval) : M (list string) :=
  fun h => if s_nullish v then Throw TypeError else Ok (skeys h v, h).

Definition write (l : loc) (r : record) (h : store) : store :=
  {| next := next h;
     cells := fun l' => if (l' =? l)%nat then r else cells h l' |}.

(** [{ k1: v1, ... }] *)
Definition alloc (r : record) : M loc :=
  fun h => Ok (next h, write (next h) r
                         {| next := S (next h); cells := cells h |}).

(** The own enumerable properties a source gives to [Object.assign]. *)
Definition sentries (h : store) (v : sval) : record :=
  map (fun k => (k, sprop h v k)) (skeys h v).

Definition assign_from (target : loc) (source : sval) : M unit :=
  fun h => Ok (tt, write target
                     (assign_all (cells h target) (sentries h source)) h).

(** [Object.assign(target, s1, ..., sn)] *)
Fixpoint object_assign (target : loc) (sources : list sval) : M loc :=
  match sources with
  | [] => ret target
  | s :: rest => _ <~ assign_from target s ;; object_assign target rest
  end.

(** [_defineProperty(obj, key, value)] *)
Definition _defineProperty (obj : loc) (key : string) (v : sval) : M loc :=
  fun h => Ok (obj, write obj (assign key v (cells h obj)) h).

Fixpoint reduce {A : Type} (f : A -> string -> M A) (ks : list string)
    (acc : A) : M A :=
  match ks with
  | [] => ret acc
  | k :: ks' => acc' <~ f acc k ;; reduce f ks' acc'
  end.

Record highlight : Type := { nodes : sval; highlightedNode : sval }.

(** [Object.assign({}, source, { highlighted: value })], the operand
    [source] having been read *)
Definition highlighted_copy (source value : sval) : M loc :=
  target <~ alloc [] ;;
  flag <~ alloc [("highlighted", value)] ;;
  object_assign target [source; SRef flag].

(** The callback of the reduction over [Object.keys(links[id])]. *)
Definition highlight_neighbour (updatedNodes : loc) (value : sval)
    (acc : loc) (linkId : string) : M loc :=
  neighbour <~ read (SRef updatedNodes) linkId ;;
  updatedNode <~ highlighted_copy neighbour value ;;
  fresh <~ alloc [] ;;
  entry <~ _defineProperty fresh linkId (SRef updatedNode) ;;
  object_assign acc [SRef entry].

(** [value] when the fifth argument is not passed, or is [undefined] *)
Definition value_or_default (value_arg : sval) : sval :=
  match value_arg with
  | SUndefined => SBool false
  | _ => value_arg
  end.

(** [highlightDegree !== 0] *)
Definition not_zero (highlightDegree : sval) : bool :=
  negb match highlightDegree with
       | SNum n => (n =? 0)%Z
       | _ => false
       end.

Definition updateNodeHighlightedValue
    (nodes links config id value_arg : sval) : M highlight :=
  let value := value_or_default value_arg in
  let highlightedNode := if s_truthy value then id else SStr "" in
  current <~ read nodes (s_to_key id) ;;
  node <~ highlighted_copy current value ;;
  target <~ alloc [] ;;
  fresh <~ alloc [] ;;
  entry <~ _defineProperty fresh (s_to_key id) (SRef node) ;;
  updatedNodes <~ object_assign target [nodes; SRef entry] ;;
  row <~ read links (s_to_key id) ;;
  propagate <~
    (if s_truthy row then
       highlightDegree <~ read config "highlightDegree" ;;
       ret (not_zero highlightDegree)
     else ret false) ;;
  updatedNodes <~
    (if propagate then
       ks <~ keys_of row ;;
       reduce (highlight_neighbour updatedNodes value) ks updatedNodes
     else ret updatedNodes) ;;
  ret {| nodes := SRef updatedNodes; highlightedNode := highlightedNode |}.
End Store.

(** ** Vocabulary of the statements *)

Definition is_number_or_boolean (v : value) : bool :=
  match v with
  | VNum _ | VBool _ => true
  | _ => false
  end.

(** The node [_initializeNodes] leaves in place of [node]. *)
Definition initialized_node (node : object) : object :=
  let node := assign "highlighted" (VBool false) node in
  let node := if negb (has_own (VObj node) "x")
              then assign "x" (VNum 0) node else node in
  if negb (has_own (VObj node) "y") then assign "y" (VNum 0) node else node.

(** The key under which a node is stored: its id as text. *)
Definition node_key (node : value) : string := to_key (prop node "id").

Definition has_id (node : value) : bool := negb (nullish (prop node "id")).

(** The keys of the two ends of a link of the graph. *)
Definition endpoints (l : value) : result (string * string) :=
  ls <- get l "source" ;;
  source <- endpoint_id ls ;;
  lt <- get l "target" ;;
  target <- endpoint_id lt ;;
  Ok (to_key source, to_key target).

(** A node is incident to a link when it is one of its ends. *)
Definition incident (k : string) (l : value) : Prop :=
  exists s t, endpoints l = Ok (s, t) /\ (k = s \/ k = t).

Definition is_orphan (k : string) (m : matrix) : bool :=
  (inDegree (computeNodeDegree k m) =? 0)%nat
  && (outDegree (computeNodeDegree k m) =? 0)%nat.

(** The node [_tagOrphanNodes] stores under [k]. *)
Definition tagged_node (nodes : object) (m : matrix) (k : string) : value :=
  if is_orphan k m
  then VObj (object_assign [] [prop (VObj nodes) k;
                               VObj [("_orphan", VBool true)]])
  else prop (VObj nodes) k.

Definition is_object (v : value) : bool :=
  match v with
  | VObj _ => true
  | _ => false
  end.

(** The node map [_initializeNodes] builds from [acc]. *)
Definition stored_nodes (graphNodes : list object) (acc : object) : object :=
  fold_left (fun a n => assign (node_key (VObj n))
                               (VObj (initialized_node n)) a)
            graphNodes acc.

(** Every row key and every key within a row satisfies [P]. *)
Definition matrix_within (P : string -> Prop) (m : matrix) : Prop :=
  Forall (fun kr => P (fst kr) /\ Forall P (map fst (snd kr))) m.

(** The node map of the previous state, when there is one. *)
Definition previous_nodes (state : value) : value :=
  if truthy (js_and state (prop state "nodes")) then prop state "nodes"
  else VUndefined.

(** The node of the previous state that has the id of [n]. *)
Definition previous_node (state n : value) : value :=
  prop (previous_nodes state) (node_key n).

(** A previous state stores each node under the text of its own id. *)
Definition consistent_state (state : value) : Prop :=
  forall k : string,
    truthy (prop (previous_nodes state) k) = true ->
    has_own (prop (previous_nodes state) k) "id" = true ->
    toString (prop (prop (previous_nodes state) k) "id") = Ok k.

(** The node of the new graph that stands for the input node [n]: the
    whitelisted properties of the previous node with its id, over the
    properties of [n]. *)
Definition graph_node (state n : value) (o : object) : Prop :=
  forall f : string,
    lookup f o
    = if truthy (previous_node state n)
         && (if in_dec string_dec f NODE_PROPS_WHITELIST then true else false)
         && has_own (previous_node state n) f
      then Some (prop (previous_node state n) f)
      else if in_dec string_dec f (own_keys n) then Some (prop n f)
           else None.

(** *** Validity of the input data *)

Section Validity.
Context {I : ObjectIdentity}.

(** Some node has the id the link names as its [endpoint]. *)
Definition endpoint_found (ns : list value) (l : value) (endpoint : string)
  : bool :=
  existsb (fun n => strict_equal (prop n "id") (prop l endpoint)) ns.

(** The link declares no value, or a number. *)
Definition value_ok (l : value) : bool :=
  is_undefined (prop l "value") || (typeof (prop l "value") =? "number").

Definition link_ok (ns : list value) (l : value) : bool :=
  endpoint_found ns l "source" && endpoint_found ns l "target"
  && value_ok l.

(** The error of the first check a link fails, in the order of the
    checks: source, target, value. *)
Definition link_verdict (ns : list value) (l : value) : result unit :=
  if negb (endpoint_found ns l "source") then
    throwErr "Graph"
      [MConst INVALID_LINKS; MText (" - " ++ dquote);
       MValue (prop l "source");
       MText (dquote ++ " is not a valid source node id")]
  else if negb (endpoint_found ns l "target") then
    throwErr "Graph"
      [MConst INVALID_LINKS; MText (" - " ++ dquote);
       MValue (prop l "target");
       MText (dquote ++ " is not a valid target node id")]
  else if negb (value_ok l) then
    throwErr "Graph"
      [MConst INVALID_LINK_VALUE;
       MText (" - found in link with source " ++ dquote);
       MValue (prop l "source");
       MText (dquote ++ " and target " ++ dquote);
       MValue (prop l "target"); MText dquote]
  else Ok tt.

(** The verdict on the first link that fails a check. *)
Fixpoint verdicts (ns ls : list value) : result unit :=
  match ls with
  | [] => Ok tt
  | l :: ls' => _ <- link_verdict ns l ;; verdicts ns ls'
  end.

(** Valid input: at least one node, every node an object with an id,
    every link an object whose ends are ids of nodes and whose value, if
    any, is a number. *)
Definition valid_input (ns ls : list value) : Prop :=
  ns <> []
  /\ Forall (fun n => is_object n = true /\ has_id n = true) ns
  /\ Forall (fun l => is_object l = true /\ link_ok ns l = true) ls.
End Validity.

(** The props [{ data: { nodes, links }, id, config }]. *)
Definition graph_props (id : string) (config : value) (ns ls : list value)
  : value :=
  VObj [("data", VObj [("nodes", VArr ns); ("links", VArr ls)]);
        ("id", VStr id); ("config", config)].

(** The three kinds of error of the validation. *)
Definition is_error {A : Type} (c : err_const) (r : result A) : Prop :=
  exists detail,
    r = Throw (Thrown (MText "react-d3-graph :: " :: MText "Graph"
                       :: MText " :: " :: MConst c :: detail)).

(** *** An interpretation of the collaborators, to run the program

    Its default configuration has the groups the configuration contract of
    the specification names, for a plain undirected graph; its arithmetic is
    that of the integers. *)

Definition on_numbers (f : Z -> Z -> Z) (a b : value) : value :=
  match a, b with
  | VNum x, VNum y => VNum (f x y)
  | _, _ => VUndefined
  end.

Definition sample_config : value :=
  VObj [("width", VNum 800); ("height", VNum 400);
        ("directed", VBool false); ("collapsible", VBool false);
        ("highlightDegree", VNum 1); ("highlightOpacity", VNum 1);
        ("minZoom", VNum 1); ("maxZoom", VNum 8); ("focusZoom", VNum 1);
        ("d3", VObj [("gravity", VNum (-100))]);
        ("node", VObj [("color", VStr "#d3d3d3"); ("size", VNum 200);
                       ("labelProperty", VStr "id")]);
        ("link", VObj [("color", VStr "#d3d3d3"); ("opacity", VNum 1);
                       ("strokeWidth", VNum 2); ("type", VStr "STRAIGHT");
                       ("semanticStrokeWidth", VBool false);
                       ("highlightColor", VStr "#d3d3d3");
                       ("renderLabel", VBool false)])].

Definition less_than_numbers (a b : value) : bool :=
  match a, b with
  | VNum x, VNum y => (x <? y)%Z
  | _, _ => false
  end.

Lemma less_than_numbers_undefined (a b : value) :
  is_undefined a || is_undefined b = true -> less_than_numbers a b = false.
Proof. destruct a, b; simpl; try reflexivity; discriminate. Qed.

Definition sample_environment : Environment :=
  {| DEFAULT_CONFIG := sample_config;
     KEYWORDS_SAME := VStr "SAME";
     LINK_CLASS_NAME := VStr "link";
     FORCE_X := VNum 1;
     FORCE_Y := VNum 1;
     forceSimulation := fun charge frx fry =>
       VObj [("charge", charge); ("x", fst frx); ("y", fst fry)];
     buildLinkPathDefinition := fun ends type => VObj [("ends", ends)];
     getMarkerId := fun highlight transform config => VStr "marker";
     times := on_numbers Z.mul;
     divide := on_numbers Z.div;
     plus := on_numbers Z.add;
     negate := fun a => on_numbers Z.sub (VNum 0) a;
     less_than := less_than_numbers;
     less_than_undefined := less_than_numbers_undefined |}.

(** A node [{ id: name }] and a link [{ source: s, target: t }]. *)
Definition node_named (name : string) : value := VObj [("id", VStr name)].

Definition link_between (s t : string) : value :=
  VObj [("source", VStr s); ("target", VStr t)].

(** An object that holds a leaf below [depth] nested objects. *)
Fixpoint nested_chain (depth : nat) : value :=
  match depth with
  | 0 => VObj [("leaf", VNum 1)]
  | S d => VObj [("inner", nested_chain d)]
  end.

(** [config] with the option [k] set to [v]. *)
Definition with_option (k : string) (v : value) (config : value) : value :=
  match config with
  | VObj p => VObj (assign k v p)
  | _ => config
  end.

(** [config] with the option [k] of its [link] group set to [v]. *)
Definition with_link_option (k : string) (v : value) (config : value)
  : value :=
  with_option "link" (with_option k v (prop config "link")) config.

Definition no_callbacks : value := VObj [].

(** *** Values that [isDeepEqual] compares by content *)

Definition is_primitive (v : value) : bool :=
  match v with
  | VUndefined | VNull | VBool _ | VNum _ | VStr _ => true
  | _ => false
  end.

(** Down to the depth that [budget] allows, every property is a primitive,
    an empty object, or a nested object of the same kind: no function, and
    no object nested deeper than the cutoff. *)
Fixpoint plain (budget : nat) (v : value) : bool :=
  forallb
    (fun k =>
       is_primitive (prop v k) || isEmptyObject (prop v k)
       || match budget with
          | S b => _isPropertyNestedObject v k && plain b (prop v k)
          | O => false
          end)
    (own_keys v).

(** The node as [checkForGraphElementsChanges] compares it: without the
    properties that are discarded. *)
Definition comparable (n : value) : value :=
  match antiPick n NODE_PROPERTIES_DISCARD_TO_COMPARE with
  | Ok o => VObj o
  | Throw _ => VUndefined
  end.

(** The id of an end of a link, which is an id or a node with an id. *)
Definition end_id (e : value) : value :=
  if negb (is_undefined (prop e "id")) && negb (is_null (prop e "id"))
  then prop e "id" else e.

(** The link as [checkForGraphElementsChanges] compares it. *)
Definition ends (l : value) : value :=
  VObj [("source", end_id (prop l "source"));
        ("target", end_id (prop l "target"))].

(** An object whose properties are all primitives. *)
Definition flat (v : value) : bool :=
  match v with
  | VObj p => forallb (fun kv => is_primitive (snd kv)) p
  | _ => false
  end.

(** A link of the state whose two ends can be read. *)
Definition has_ends (l : value) : bool :=
  negb (nullish l) && negb (nullish (prop l "source"))
  && negb (nullish (prop l "target")).

(** What [checkForGraphElementsChanges] reads: the nodes and the links of
    the next props, the nodes and the links of the simulation in the
    current state; the nodes are objects and the ends of the links of the
    state can be read. *)
Definition observed (nextProps currentState : value)
    (ns ls sns sls : list value) : Prop :=
  (exists data,
      get nextProps "data" = Ok data
      /\ get data "nodes" = Ok (VArr ns)
      /\ get data "links" = Ok (VArr ls))
  /\ get currentState "d3Nodes" = Ok (VArr sns)
  /\ get currentState "d3Links" = Ok (VArr sls)
  /\ Forall (fun n => is_object n = true) ns
  /\ Forall (fun n => is_object n = true) sns
  /\ Forall (fun l => has_ends l = true) sls.

(** The links of the next props are exactly the pairs of ids of the links
    of the state, and these ids are primitives. *)
Definition same_links (ls sls : list value) : Prop :=
  ls = map ends sls /\ Forall (fun l => flat (ends l) = true) sls.

Definition primitive_ids (ns : list value) : Prop :=
  Forall (fun n => is_primitive (prop n "id") = true) ns.

Definition changes (updated new : bool) : ElementsChanges.t :=
  {| ElementsChanges.graphElementsUpdated := updated;
     ElementsChanges.newGraphElements := new |}.

(** *** Computations that leave the objects below an address alone *)

(** From a store that has allocated the addresses below [n0], [c] either
    throws or ends in a store in which the cells below [n0] are as they
    were, with a result that satisfies [P]. *)
Definition keeps (n0 : nat) {A : Type} (c : Store.M A) (P : A -> Prop)
  : Prop :=
  forall h, n0 <= Store.next h ->
            match c h with
            | Ok (a, h') =>
                n0 <= Store.next h'
                /\ (forall l, l < n0 -> Store.cells h' l = Store.cells h l)
                /\ P a
            | Throw _ => True
            end.

(** [c] returns from every store, with a result that satisfies [P]. *)
Definition returns {A : Type} (c : Store.M A) (P : A -> Prop) : Prop :=
  forall h, exists a h', c h = Ok (a, h') /\ P a.

(** A value that is no reference, or a reference to an allocated cell. *)
Definition valid (h : Store.store) (v : Store.sval) : Prop :=
  match v with
  | Store.SRef l => l < Store.next h
  | _ => True
  end.

(** The store whose cells are the given records, in order. *)
Definition store_of (records : list Store.record) : Store.store :=
  {| Store.next := List.length records;
     Store.cells := fun l => nth l records [] |}.

(** The store of the examples: at 0 the node map of [A], [B] and [C]; at
    1, 2 and 3 their records; at 4 the adjacency matrix of the link between
    [A] and [B], with its rows at 5 and 6; at 7 the configuration. *)
Definition sample_store : Store.store :=
  store_of
    [[("A", Store.SRef 1); ("B", Store.SRef 2); ("C", Store.SRef 3)];
     [("id", Store.SStr "A"); ("highlighted", Store.SBool false)];
     [("id", Store.SStr "B"); ("highlighted", Store.SBool false)];
     [("id", Store.SStr "C"); ("highlighted", Store.SBool false)];
     [("A", Store.SRef 5); ("B", Store.SRef 6)];
     [("B", Store.SNum 1)];
     [("A", Store.SNum 1)];
     [("highlightDegree", Store.SNum 1)]].

(** Whether the highlight goes to the neighbours: [links[id] &&
    config.highlightDegree !== 0]. *)
Definition spreads (h : Store.store) (links config : Store.sval)
    (key : string) : bool :=
  Store.s_truthy (Store.sprop h links key)
  && Store.not_zero (Store.sprop h config "highlightDegree").

(** The node stored under [k] in the map at [m] is highlighted as
    [value]. *)
Definition highlighted_as (h : Store.store) (m : Store.loc) (k : string)
    (value : Store.sval) : Prop :=
  exists nk,
    lookup k (Store.cells h m) = Some (Store.SRef nk)
    /\ lookup "highlighted" (Store.cells h nk) = Some value.

(** *** Vocabulary of the further properties *)

(** A value that [merge] does not descend into: it is falsy, or not of
    type object. *)
Definition not_merged_into (v : value) : bool :=
  negb (truthy v && (typeof v =? "object")).

(** An override all of whose properties [merge] takes as they are. *)
Definition shallow (p : object) : Prop :=
  Forall (fun kv => not_merged_into (snd kv) = true) p.

(** The operands for which [isDeepEqual] asks [Object.keys] of [null] or
    [undefined]: they are not identical, one of them is [null] or
    [undefined], and the other is not an empty object. *)
Definition keys_of_nothing {I : ObjectIdentity} (o1 o2 : value) : bool :=
  negb (strict_equal o1 o2)
  && ((nullish o1 && negb (isEmptyObject o2))
      || (nullish o2 && negb (isEmptyObject o1))).

(** An object or an array. *)
Definition is_container (v : value) : bool :=
  match v with
  | VObj _ | VArr _ => true
  | _ => false
  end.

(** No key comes twice in the list. *)
Fixpoint no_repeat (ks : list string) : bool :=
  match ks with
  | [] => true
  | k :: ks' => negb (includes ks' k) && no_repeat ks'
  end.

(** Down to the depth that [budget] allows, no object lists a key twice
    (as is the case of every object of JavaScript). *)
Fixpoint distinct_keys (budget : nat) (v : value) : bool :=
  no_repeat (own_keys v)
  && match budget with
     | S b => forallb (fun k => distinct_keys b (prop v k)) (own_keys v)
     | O => true
     end.

(** The property [deepClone] stores under [k]: the clone of a nested
    object, the value itself otherwise. *)
Definition clone_of (nested : option (value -> object)) (v : value)
    (k : string) : value :=
  match _isPropertyNestedObject v k, nested with
  | true, Some rec => VObj (rec (prop v k))
  | _, _ => prop v k
  end.

(** The object [deepClone] builds from [{}]. *)
Fixpoint cloned (budget : nat) (v : value) : object :=
  fold_left
    (fun acc k =>
       assign k (clone_of (match budget with
                           | S b => Some (cloned b)
                           | O => None
                           end) v k) acc)
    (own_keys v) [].

(** Down to the depth that [budget] allows, no property is an array that
    has elements. *)
Fixpoint without_arrays (budget : nat) (v : value) : bool :=
  forallb
    (fun k =>
       match prop v k with
       | VArr (_ :: _) => false
       | _ => true
       end
       && match budget with
          | S b => without_arrays b (prop v k)
          | O => true
          end)
    (own_keys v).

(** The weight [links[a][b]] of the matrix, when there is one. *)
Definition entry (m : matrix) (a b : string) : option value :=
  match lookup_row a m with
  | Some row => lookup b row
  | None => None
  end.

(** The weight a link brings into the matrix:
    [config.collapsible && l.isHidden ? 0 : l.value || 1]. *)
Definition weight (config l : value) : value :=
  if truthy (js_and (prop config "collapsible") (prop l "isHidden"))
  then VNum 0
  else js_or (prop l "value") (VNum 1).

(** The two ends of every link can be read. *)
Definition readable_links (ls : list value) : Prop :=
  Forall (fun l => exists s t, endpoints l = Ok (s, t)) ls.

(** The link sets the weight of the matrix from [a] to [b]: it goes from
    [a] to [b], or the graph is not directed and it goes from [b] to [a]. *)
Definition sets_entry (config l : value) (a b : string) : Prop :=
  endpoints l = Ok (a, b)
  \/ (truthy (prop config "directed") = false /\ endpoints l = Ok (b, a)).

(** No weight of the matrix is a negative number.  (The degrees of a node
    count the weights that are not zero; were the weights added up
    instead, the same degrees would be zero as long as none is
    negative.) *)
Definition no_negative_weight (m : matrix) : bool :=
  forallb (fun kr =>
             forallb (fun kv => match snd kv with
                                | VNum n => (0 <=? n)%Z
                                | _ => true
                                end) (snd kr)) m.

(** No row comes twice in the matrix and no key twice in a row (as is the
    case of every object of JavaScript). *)
Definition well_keyed (m : matrix) : Prop :=
  NoDup (map fst m) /\ Forall (fun kr => NoDup (map fst (snd kr))) m.

(** [x], or [dflt] when there is none. *)
Definition or_default (x : option value) (dflt : value) : value :=
  match x with
  | Some v => v
  | None => dflt
  end.

(** [n'] is the node [n] as [_initializeNodes] leaves it: not highlighted,
    with coordinates ([0] where it had none), and otherwise as it was. *)
Definition normalized (n n' : object) : Prop :=
  lookup "highlighted" n' = Some (VBool false)
  /\ lookup "x" n' = Some (or_default (lookup "x" n) (VNum 0))
  /\ lookup "y" n' = Some (or_default (lookup "y" n) (VNum 0))
  /\ forall k, k <> "highlighted" -> k <> "x" -> k <> "y" ->
               lookup k n' = lookup k n.

(** The configuration of the state was directed and the new one differs in
    that:
    [state.config && state.config.directed
       && config.directed !== state.config.directed]. *)
Definition toggled_directed {I : ObjectIdentity} (config state : value)
  : bool :=
  truthy (prop state "config")
  && truthy (prop (prop state "config") "directed")
  && negb (strict_equal (prop config "directed")
                        (prop (prop state "config") "directed")).

(** The custom properties that a link brings along. *)
Definition custom_property (link : value) (k : string) : option value :=
  if includes LINK_CUSTOM_PROPS_WHITELIST k && has_own link k
  then Some (prop link k) else None.

Definition config_changes (updated d3Updated : value) : ConfigChanges.t :=
  {| ConfigChanges.configUpdated := updated;
     ConfigChanges.d3ConfigUpdated := d3Updated |}.

(** What [checkForGraphConfigChanges] reads when the next props bring a
    configuration that is not empty: that configuration and the one of the
    state, whose [d3] group is there when the new one has it. *)
Definition configurations (nextProps currentState config sconfig : value)
  : Prop :=
  get nextProps "config" = Ok config
  /\ truthy config = true /\ isEmptyObject config = false
  /\ get currentState "config" = Ok sconfig
  /\ nullish sconfig = false
  /\ (truthy (prop config "d3") = true -> nullish (prop sconfig "d3") = false).

(** The comparison of the environment orders [minZoom] and [maxZoom] of a
    configuration as numbers are ordered: neither is below itself, and
    [maxZoom] is not below [minZoom]. *)
Definition ordered_zoom {E : Environment} (c : value) : Prop :=
  less_than (prop c "maxZoom") (prop c "maxZoom") = false
  /\ less_than (prop c "minZoom") (prop c "minZoom") = false
  /\ less_than (prop c "maxZoom") (prop c "minZoom") = false.

(** The default configuration of the examples merged with a configuration
    that asks for a [focusZoom] of 20. *)
Definition sample_merged : object :=
  Eval vm_compute in
    match merge sample_config (VObj [("focusZoom", VNum 20)]) with
    | Ok (VObj merged) => merged
    | _ => []
    end.

(** The props that [buildNodeProps] computes; the other properties of the
    node are handed on as they are. *)
Definition COMPUTED_NODE_PROPS : list string :=
  ["className"; "cursor"; "cx"; "cy"; "fill"; "fontColor"; "fontSize"; "dx";
   "fontWeight"; "id"; "label"; "onClickNode"; "onRightClickNode";
   "onMouseOverNode"; "onMouseOut"; "opacity"; "renderLabel"; "size";
   "stroke"; "strokeWidth"; "svg"; "type"; "viewGenerator";
   "overrideGlobalViewGenerator"].

(** Some node or some link is highlighted:
    [!!(highlightedNode || (highlightedLink && highlightedLink.source
        && highlightedLink.target))]. *)
Definition some_highlight (highlightedNode highlightedLink : value) : bool :=
  truthy (js_or highlightedNode
                (js_and (js_and highlightedLink
                                (prop highlightedLink "source"))
                        (prop highlightedLink "target"))).

(** An interpretation of what [buildNodeProps] takes from outside: the
    literal [1.5] rounded down, as the arithmetic of the examples is that of
    the integers, and one function of the consumer, which returns the name
    of a node. *)
Definition sample_node_environment : NodeEnvironment :=
  {| NODE_CLASS_NAME := VStr "node";
     one_and_a_half := VNum 1;
     call := fun f x =>
       match f with
       | VFun "byName" => Ok (prop x "name")
       | _ => Throw TypeError
       end |}.

(** Two arrays merged index by index, over the indices of the first:
    the element of [l2] where it has one, that of [l1] otherwise. *)
Definition merged_elements (l1 l2 : list value) : list value :=
  map (fun i => if (i <? List.length l2)%nat then nth i l2 VUndefined
                else nth i l1 VUndefined)
      (seq 0 (List.length l1)).

(** *** Ordinary objects and ordinary keys

    Every object inherits the members of [Object.prototype].  A read [o[k]]
    finds them under their names where [o] owns no such property, a write to
    [o["__proto__"]] sets the prototype of [o] instead of a property, and
    [o.hasOwnProperty(k)] calls the inherited method only as long as [o]
    owns no property of that name.  The embedding keeps own properties only
    and takes [hasOwnProperty] for the inherited method: it is the source on
    objects that own no property under the name of an inherited member, read
    and written at keys that are no such names.  The statements that depend
    on a dynamic key, or on a call of [hasOwnProperty] to return, are about
    these. *)

Definition OBJECT_PROTOTYPE_MEMBERS : list string :=
  ["constructor"; "hasOwnProperty"; "isPrototypeOf"; "propertyIsEnumerable";
   "toLocaleString"; "toString"; "valueOf"; "__proto__";
   "__defineGetter__"; "__defineSetter__";
   "__lookupGetter__"; "__lookupSetter__"].

(** A key that is not the name of an inherited member. *)
Definition ordinary_key (k : string) : bool :=
  negb (includes OBJECT_PROTOTYPE_MEMBERS k).

(** No object within [v], [v] included, owns a property under the name of
    an inherited member; and every number within [v] is an integer that
    JavaScript holds exactly and prints in positional decimal (below
    2^53). *)
Fixpoint ordinary (v : value) : bool :=
  match v with
  | VObj p => forallb (fun kv => ordinary_key (fst kv) && ordinary (snd kv)) p
  | VArr l => forallb ordinary l
  | VNum n => (Z.abs n <? 2 ^ 53)%Z
  | _ => true
  end.

(** [v] itself owns no property under the name of an inherited member. *)
Definition ordinary_object (v : value) : bool :=
  forallb ordinary_key (own_keys v).

(** A value of the store that is an object, [null] or [undefined]. *)
Definition object_or_nothing (v : Store.sval) : bool :=
  match v with
  | Store.SRef _ | Store.SNull | Store.SUndefined => true
  | _ => false
  end.

Definition is_string (v : Store.sval) : bool :=
  match v with
  | Store.SStr _ => true
  | _ => false
  end.

(** The two ends of the link, where they can be read, are ordinary keys. *)
Definition ordinary_ends (l : value) : bool :=
  match endpoints l with
  | Ok (s, t) => ordinary_key s && ordinary_key t
  | Throw _ => true
  end.

Definition array_elements (v : value) : list value :=
  match v with
  | VArr l => l
  | _ => []
  end.

(** What [initializeGraphState] is given is ordinary: the default
    configuration, the props and the previous state hold ordinary objects
    only, the configuration of the props is no function, and the ids of the
    nodes and the ends of the links, those of the props and those of the
    simulation of the previous state, are ordinary keys. *)
Definition ordinary_graph {E : Environment} (props state : value) : bool :=
  ordinary DEFAULT_CONFIG && ordinary props && ordinary state
  && negb (typeof (prop props "config") =? "function")
  && forallb (fun n => ordinary_key (node_key n))
             (array_elements (prop (prop props "data") "nodes"))
  && forallb ordinary_ends
             (array_elements (prop (prop props "data") "links")
              ++ array_elements (prop state "d3Links"))%list.

(** * Properties *)

(** ** The error monad *)

Lemma bind_Ok {A B : Type} (c : result A) (k : A -> result B) (b : B) :
  bind c k = Ok b -> exists a, c = Ok a /\ k a = Ok b.
Proof.
  destruct c as [a|e]; simpl; intros H; [exists a; auto | discriminate].
Qed.

Lemma bind_Throw {A B : Type} (c : result A) (k : A -> result B) (e : error) :
  bind c k = Throw e ->
  c = Throw e \/ exists a, c = Ok a /\ k a = Throw e.
Proof.
  destruct c as [a|e']; simpl; intros H.
  - right; exists a; auto.
  - left; congruence.
Qed.

(** Splits a hypothesis [c1 ;; ... ;; cn = Ok r] into its steps. *)
Ltac inv_bind H :=
  match type of H with
  | bind _ _ = Ok _ =>
      let a := fresh "a" in
      let Ha := fresh "Hstep" in
      apply bind_Ok in H; destruct H as [a [Ha H]]; inv_bind H
  | Ok _ = Ok _ => injection H as H
  | Throw _ = Ok _ => discriminate H
  | _ => idtac
  end.

(** Replays the steps that are known to succeed. *)
Ltac run_steps :=
  repeat match goal with
         | H : _ = Ok _ |- _ => rewrite H; cbn [bind]
         end.

(** ** Keys and properties *)

Lemma index_of_key_of_index (n : N) : index_of_key (key_of_index n) = Some n.
Proof.
  unfold index_of_key, key_of_index.
  rewrite NilEmpty.usu, DecimalN.Unsigned.of_to, String.eqb_refl.
  reflexivity.
Qed.

Lemma index_of_key_Some (k : string) (n : N) :
  index_of_key k = Some n -> key_of_index n = k.
Proof.
  unfold index_of_key.
  destruct (NilEmpty.uint_of_string k) as [d|]; [|discriminate].
  destruct (key_of_index (N.of_uint d) =? k) eqn:Hk; [|discriminate].
  intros H; injection H as <-. now apply String.eqb_eq.
Qed.

Lemma key_of_index_inj (n m : N) : key_of_index n = key_of_index m -> n = m.
Proof.
  intros H.
  assert (Some n = Some m) as Hs
    by (rewrite <- (index_of_key_of_index n), H; apply index_of_key_of_index).
  now injection Hs.
Qed.

Lemma In_insert_index (n m : N) (l : list N) :
  In n (insert_index m l) <-> n = m \/ In n l.
Proof.
  induction l as [|x l IH]; simpl.
  - intuition.
  - destruct (m <=? x)%N; simpl; [intuition|].
    rewrite IH. intuition.
Qed.

Lemma In_sorted_indices (n : N) (ks : list string) :
  In n (sorted_indices ks) <-> exists k, In k ks /\ index_of_key k = Some n.
Proof.
  induction ks as [|k ks IH]; simpl.
  - split; [intros [] | intros [k [[] _]]].
  - destruct (index_of_key k) as [m|] eqn:Hk.
    + rewrite In_insert_index, IH. split.
      * intros [-> | [k' [Hin Hk']]]; [exists k; auto | exists k'; auto].
      * intros [k' [[<- | Hin] Hk']].
        -- left. congruence.
        -- right. exists k'; auto.
    + rewrite IH. split.
      * intros [k' [Hin Hk']]. exists k'; auto.
      * intros [k' [[<- | Hin] Hk']]; [congruence | exists k'; auto].
Qed.

Lemma In_ordered_keys (k : string) (ks : list string) :
  In k (ordered_keys ks) <-> In k ks.
Proof.
  unfold ordered_keys. rewrite in_app_iff, in_map_iff, filter_In. split.
  - intros [[n [Hn Hin]] | [Hin _]]; [|assumption].
    apply In_sorted_indices in Hin. destruct Hin as [k' [Hin Hk']].
    apply index_of_key_Some in Hk'. congruence.
  - intros Hin. unfold is_index_key.
    destruct (index_of_key k) as [n|] eqn:Hk.
    + left. exists n. split; [now apply index_of_key_Some|].
      apply In_sorted_indices. exists k; auto.
    + right. auto.
Qed.

Lemma ordered_keys_nil (ks : list string) : ordered_keys ks = [] -> ks = [].
Proof.
  intros H. destruct ks as [|k ks]; [reflexivity|].
  assert (In k (ordered_keys (k :: ks))) as Hin
    by (apply In_ordered_keys; now left).
  rewrite H in Hin. destruct Hin.
Qed.

Section Properties.
Context {V : Type}.
Implicit Types (p : list (string * V)) (k : string) (v : V).

Lemma lookup_assign_same k v p : lookup k (assign k v p) = Some v.
Proof.
  induction p as [|[k' v'] p IH]; simpl.
  - now rewrite String.eqb_refl.
  - destruct (k' =? k) eqn:Hk; simpl.
    + now rewrite String.eqb_refl.
    + now rewrite Hk.
Qed.

Lemma lookup_assign_other k k' v p :
  k <> k' -> lookup k (assign k' v p) = lookup k p.
Proof.
  intros Hne. induction p as [|[k0 v0] p IH]; simpl.
  - destruct (k' =? k) eqn:Hk; [|reflexivity].
    apply String.eqb_eq in Hk. congruence.
  - destruct (k0 =? k') eqn:Hk0; simpl.
    + apply String.eqb_eq in Hk0. subst k0.
      destruct (k' =? k) eqn:Hk; [|reflexivity].
      apply String.eqb_eq in Hk. congruence.
    + destruct (k0 =? k); auto.
Qed.

Lemma lookup_assign k k' v p :
  lookup k (assign k' v p) = if k' =? k then Some v else lookup k p.
Proof.
  destruct (k' =? k) eqn:Hk.
  - apply String.eqb_eq in Hk. subst. apply lookup_assign_same.
  - apply String.eqb_neq in Hk. apply lookup_assign_other. congruence.
Qed.

Lemma lookup_None k p : lookup k p = None <-> ~ In k (map fst p).
Proof.
  induction p as [|[k' v'] p IH]; simpl.
  - intuition.
  - destruct (k' =? k) eqn:Hk.
    + apply String.eqb_eq in Hk. split; [discriminate | intuition].
    + apply String.eqb_neq in Hk. rewrite IH. intuition.
Qed.

Lemma lookup_Some_In k p :
  (exists v, lookup k p = Some v) <-> In k (map fst p).
Proof.
  destruct (lookup k p) as [v|] eqn:H.
  - split; [|eauto]. intros _.
    destruct (in_dec string_dec k (map fst p)) as [Hin|Hn]; [assumption|].
    apply lookup_None in Hn. congruence.
  - split; [intros [v Hv]; discriminate|].
    intros Hin. apply lookup_None in H. contradiction.
Qed.

Lemma In_keys_assign k k' v p :
  In k (map fst (assign k' v p)) <-> k = k' \/ In k (map fst p).
Proof.
  rewrite <- !lookup_Some_In, lookup_assign.
  destruct (k' =? k) eqn:Hk.
  - apply String.eqb_eq in Hk. split; [auto | eauto].
  - apply String.eqb_neq in Hk. split; [auto | intros [?|?]; congruence || auto].
Qed.

(** [Object.assign]: the last source that has the key gives its value. *)
Lemma lookup_assign_all k (target entries : list (string * V)) :
  lookup k (assign_all target entries)
  = match lookup k (List.rev entries) with
    | Some v => Some v
    | None => lookup k target
    end.
Proof.
  unfold assign_all. revert target.
  induction entries as [|[k' v'] es IH]; intros target; simpl; [reflexivity|].
  rewrite IH, lookup_assign.
  assert (forall (l1 l2 : list (string * V)),
             lookup k (l1 ++ l2)%list
             = match lookup k l1 with Some x => Some x | None => lookup k l2 end)
    as Happ.
  { induction l1 as [|[k0 v0] l1 IHl]; intros l2; simpl; [reflexivity|].
    destruct (k0 =? k); auto. }
  rewrite Happ. simpl.
  destruct (lookup k (List.rev es)); [reflexivity|].
  destruct (k' =? k); reflexivity.
Qed.
End Properties.

Lemma has_own_obj (p : object) (k : string) :
  has_own (VObj p) k = true <-> In k (map fst p).
Proof.
  simpl. rewrite <- lookup_Some_In.
  destruct (lookup k p); split; eauto; try discriminate.
  intros [v Hv]. discriminate.
Qed.

Lemma In_own_keys_obj (p : object) (k : string) :
  In k (own_keys (VObj p)) <-> In k (map fst p).
Proof. simpl. apply In_ordered_keys. Qed.

Lemma In_own_keys_has_own_obj (p : object) (k : string) :
  In k (own_keys (VObj p)) <-> has_own (VObj p) k = true.
Proof. now rewrite In_own_keys_obj, has_own_obj. Qed.

(** The entries of a source hold, for each of its keys, its property. *)
Lemma lookup_rev_own_entries (s : value) (k : string) :
  lookup k (List.rev (own_entries s))
  = if in_dec string_dec k (own_keys s) then Some (prop s k) else None.
Proof.
  unfold own_entries. rewrite <- List.map_rev.
  destruct (in_dec string_dec k (own_keys s)) as [Hin|Hn].
  - apply in_rev in Hin. induction (List.rev (own_keys s)) as [|k' ks IH]; [destruct Hin|].
    simpl. destruct (k' =? k) eqn:Hk.
    + apply String.eqb_eq in Hk. now subst.
    + apply String.eqb_neq in Hk. destruct Hin as [->|Hin]; [congruence|auto].
  - apply lookup_None. rewrite map_map. simpl. rewrite map_id.
    now rewrite <- in_rev.
Qed.

Lemma lookup_assign_source (target : object) (s : value) (k : string) :
  lookup k (assign_all target (own_entries s))
  = if in_dec string_dec k (own_keys s) then Some (prop s k)
    else lookup k target.
Proof.
  rewrite lookup_assign_all, lookup_rev_own_entries.
  destruct (in_dec string_dec k (own_keys s)); reflexivity.
Qed.

(** ** [isDeepEqual] on numbers and booleans *)

Lemma isEmptyObject_number_or_boolean (v : value) :
  is_number_or_boolean v = true -> isEmptyObject v = false.
Proof.
  destruct v; try discriminate; intros _; unfold isEmptyObject; simpl.
  - now destruct b.
  - now destruct (negb (n =? 0)%Z).
Qed.

Lemma own_keys_number_or_boolean (v : value) :
  is_number_or_boolean v = true -> own_keys v = [].
Proof. destruct v; try discriminate; reflexivity. Qed.

(** C10. Any two arguments that are numbers or booleans have no own keys,
    so the loop of [isDeepEqual] over the keys records no mismatch and the
    comparison answers [true], whether or not the two are the same value
    (for instance [isDeepEqual(1, 2)]). *)
Theorem isDeepEqual_of_numbers_and_booleans
    {I : ObjectIdentity} (a b : value) :
  is_number_or_boolean a = true ->
  is_number_or_boolean b = true ->
  own_keys a = [] /\ own_keys b = [] /\ isDeepEqual a b = Ok true.
Proof.
  intros Ha Hb.
  split; [now apply own_keys_number_or_boolean|].
  split; [now apply own_keys_number_or_boolean|].
  unfold isDeepEqual, MAX_DEPTH. cbn [isDeepEqual_at].
  destruct ((MAX_DEPTH - 20 =? 0)%nat && strict_equal a b); [reflexivity|].
  rewrite (isEmptyObject_number_or_boolean a Ha),
    (isEmptyObject_number_or_boolean b Hb). cbn [andb orb negb].
  unfold object_keys.
  assert (forall v, is_number_or_boolean v = true -> nullish v = false) as Hn
    by (intros v; destruct v; try discriminate; reflexivity).
  rewrite (Hn a Ha), (Hn b Hb). cbn [bind].
  rewrite (own_keys_number_or_boolean a Ha), (own_keys_number_or_boolean b Hb).
  reflexivity.
Qed.

Lemma isDeepEqual_1_2 :
  own_keys (VNum 1) = [] /\ own_keys (VNum 2) = []
  /\ @isDeepEqual all_distinct (VNum 1) (VNum 2) = Ok true.
Proof.
  apply (@isDeepEqual_of_numbers_and_booleans all_distinct (VNum 1) (VNum 2));
    reflexivity.
Defined.

(** ** [merge] keeps the keys of its base *)

Lemma merge_keys_keys nested (o1 o2 : value) (ks : list string)
    (acc o : object) :
  merge_keys nested o1 o2 ks acc = Ok o ->
  forall k, In k (map fst o) <-> In k ks \/ In k (map fst acc).
Proof.
  revert acc. induction ks as [|k0 ks IH]; intros acc H k.
  - simpl in H. injection H as <-. simpl. intuition.
  - simpl in H. apply bind_Ok in H. destruct H as [o2k [_ H]].
    assert (exists x, merge_keys nested o1 o2 ks (assign k0 x acc) = Ok o)
      as [x Hx].
    { destruct (truthy o2k && (typeof o2k =? "object")
                && (typeof (prop o1 k0) =? "object")); [destruct nested|];
        inv_bind H; eauto. }
    apply IH with (k := k) in Hx. rewrite Hx, In_keys_assign. simpl.
    intuition.
Qed.

Lemma merge_base_keys (o1 o2 r : value) :
  own_keys o1 <> [] ->
  merge o1 o2 = Ok r ->
  exists o, r = VObj o /\ forall k, In k (map fst o) <-> In k (own_keys o1).
Proof.
  intros Hne H. unfold merge, MAX_DEPTH in H. cbn [merge_at] in H.
  assert (default_arg o1 (VObj []) = o1) as Hd
    by (destruct o1; try reflexivity; now elim Hne).
  rewrite Hd in H.
  assert (js_or o1 (VObj []) = o1) as Hor.
  { unfold js_or. destruct o1; simpl in *; try (now elim Hne); try reflexivity.
    destruct s; [now elim Hne | reflexivity]. }
  rewrite Hor in H.
  destruct (List.length (own_keys o1) =? 0)%nat eqn:Hlen.
  - apply Nat.eqb_eq, length_zero_iff_nil in Hlen. contradiction.
  - inv_bind H. subst r. exists a. split; [reflexivity|].
    intros k. rewrite (merge_keys_keys _ _ _ _ _ _ Hstep k). simpl. intuition.
Qed.

(** ** [pick], [Object.assign] and folds that fill an object *)

Lemma pick_from_lookup (o : value) (props : list string) (acc p : object) :
  pick_from o props acc = Ok p ->
  forall k, lookup k p
            = if in_dec string_dec k props
              then if has_own o k then Some (prop o k) else lookup k acc
              else lookup k acc.
Proof.
  revert acc. induction props as [|k0 props IH]; intros acc H k.
  - simpl in H. injection H as <-. reflexivity.
  - simpl in H. inv_bind H.
    unfold hasOwnProperty in Hstep. destruct (nullish o); [discriminate|].
    injection Hstep as <-.
    rewrite (IH _ H k).
    destruct (in_dec string_dec k props) as [Hin|Hn];
      destruct (in_dec string_dec k (k0 :: props)) as [Hin'|Hn'];
      try (exfalso; simpl in *; tauto).
    + destruct (has_own o k) eqn:Hk; [reflexivity|].
      destruct (has_own o k0) eqn:Hk0; [|reflexivity].
      rewrite lookup_assign_other; [reflexivity|]. congruence.
    + destruct Hin' as [->|?]; [|contradiction].
      destruct (has_own o k); [apply lookup_assign_same | reflexivity].
    + destruct (has_own o k0) eqn:Hk0; [|reflexivity].
      apply lookup_assign_other. simpl in Hn'. intuition.
Qed.

Lemma pick_lookup (o : value) (props : list string) (p : object) :
  pick o props = Ok p ->
  forall k, lookup k p
            = if in_dec string_dec k props
              then if has_own o k then Some (prop o k) else None
              else None.
Proof.
  intros H k. rewrite (pick_from_lookup _ _ _ _ H k).
  destruct (in_dec string_dec k props); [destruct (has_own o k)|]; reflexivity.
Qed.

Lemma pick_from_total (o : value) (props : list string) (acc : object) :
  nullish o = false -> exists p, pick_from o props acc = Ok p.
Proof.
  intros Hn. revert acc. induction props as [|k props IH]; intros acc; simpl.
  - eauto.
  - unfold hasOwnProperty. rewrite Hn. simpl. apply IH.
Qed.

(** A fold that stores [f k] under each key [k]. *)
Lemma lookup_fold_assign (f : string -> value) (ks : list string)
    (acc : object) (k : string) :
  lookup k (fold_left (fun a x => assign x (f x) a) ks acc)
  = if in_dec string_dec k ks then Some (f k) else lookup k acc.
Proof.
  revert acc. induction ks as [|k0 ks IH]; intros acc; simpl; [reflexivity|].
  rewrite IH.
  destruct (in_dec string_dec k ks) as [Hin|Hn];
    destruct (string_dec k0 k) as [->|Hne]; try reflexivity.
  - apply lookup_assign_same.
  - apply lookup_assign_other. congruence.
Qed.

Lemma prop_object_assign_1 (s : value) (k : string) :
  prop (VObj (object_assign [] [s])) k
  = if in_dec string_dec k (own_keys s) then prop s k else VUndefined.
Proof.
  simpl. rewrite lookup_assign_source.
  destruct (in_dec string_dec k (own_keys s)); reflexivity.
Qed.

Lemma prop_object_assign_2 (s1 s2 : value) (k : string) :
  prop (VObj (object_assign [] [s1; s2])) k
  = if in_dec string_dec k (own_keys s2) then prop s2 k
    else if in_dec string_dec k (own_keys s1) then prop s1 k
         else VUndefined.
Proof.
  simpl. rewrite !lookup_assign_source.
  destruct (in_dec string_dec k (own_keys s2)); [reflexivity|].
  destruct (in_dec string_dec k (own_keys s1)); reflexivity.
Qed.

Lemma keys_object_assign_1 (s : value) (k : string) :
  In k (map fst (object_assign [] [s])) <-> In k (own_keys s).
Proof.
  rewrite <- lookup_Some_In. simpl. rewrite lookup_assign_source.
  destruct (in_dec string_dec k (own_keys s)); split; eauto; try tauto.
  intros [v Hv]. discriminate.
Qed.

Lemma keys_object_assign_2 (s1 s2 : value) (k : string) :
  In k (map fst (object_assign [] [s1; s2]))
  <-> In k (own_keys s1) \/ In k (own_keys s2).
Proof.
  rewrite <- lookup_Some_In. simpl. rewrite !lookup_assign_source.
  destruct (in_dec string_dec k (own_keys s2));
    destruct (in_dec string_dec k (own_keys s1)); split; eauto; try tauto.
  intros [v Hv]. discriminate.
Qed.

(** On an object, a key is listed exactly when it has a property. *)
Lemma prop_obj_not_own (p : object) (k : string) :
  ~ In k (own_keys (VObj p)) -> prop (VObj p) k = VUndefined.
Proof.
  rewrite In_own_keys_obj. intros H. apply lookup_None in H. simpl.
  now rewrite H.
Qed.

(** ** Array methods *)

Lemma mapM_Forall2 {A B : Type} (f : A -> result B) (l : list A)
    (l' : list B) :
  mapM f l = Ok l' <-> Forall2 (fun x y => f x = Ok y) l l'.
Proof.
  revert l'. induction l as [|x l IH]; intros l'; simpl.
  - split; [intros H; injection H as <-; constructor|].
    intros H; inversion H; reflexivity.
  - split.
    + intros H. inv_bind H. subst l'. constructor; [assumption|].
      now apply IH.
    + intros H. inversion H as [|? y ? ys Hx Hl]; subst.
      rewrite Hx. simpl. apply IH in Hl. rewrite Hl. reflexivity.
Qed.

Lemma mapMi_Forall2 {A B : Type} (f : A -> nat -> result B) (i : nat)
    (l : list A) (l' : list B) :
  mapMi f i l = Ok l' ->
  Forall2 (fun x y => exists j, f x j = Ok y) l l'.
Proof.
  revert i l'. induction l as [|x l IH]; intros i l' H; simpl in H.
  - injection H as <-. constructor.
  - inv_bind H. subst l'. constructor; [eauto|]. eapply IH; eauto.
Qed.

Lemma Forall2_In_l {A B : Type} (R : A -> B -> Prop) (l : list A)
    (l' : list B) (x : A) :
  Forall2 R l l' -> In x l -> exists y, In y l' /\ R x y.
Proof.
  induction 1 as [|a b l l' Hab Hl IH]; intros Hin; [destruct Hin|].
  destruct Hin as [->|Hin].
  - exists b. split; [now left | assumption].
  - destruct (IH Hin) as [y [Hy HR]]. exists y. split; [now right | assumption].
Qed.

Lemma Forall2_In_r {A B : Type} (R : A -> B -> Prop) (l : list A)
    (l' : list B) (y : B) :
  Forall2 R l l' -> In y l' -> exists x, In x l /\ R x y.
Proof.
  induction 1 as [|a b l l' Hab Hl IH]; intros Hin; [destruct Hin|].
  destruct Hin as [<-|Hin].
  - exists a. split; [now left | assumption].
  - destruct (IH Hin) as [x [Hx HR]]. exists x. split; [now right | assumption].
Qed.

(** ** [_initializeNodes] *)

Lemma initialized_node_prop (node : object) (k : string) :
  k <> "highlighted" -> k <> "x" -> k <> "y" ->
  lookup k (initialized_node node) = lookup k node.
Proof.
  intros Hh Hx Hy. unfold initialized_node.
  repeat match goal with
         | |- context [if ?c then _ else _] => destruct c
         end;
    repeat (rewrite lookup_assign_other by assumption); reflexivity.
Qed.

Lemma initialized_node_highlighted (node : object) :
  lookup "highlighted" (initialized_node node) = Some (VBool false).
Proof.
  unfold initialized_node.
  repeat match goal with
         | |- context [if ?c then _ else _] => destruct c
         end;
    repeat (rewrite lookup_assign_other by discriminate);
    apply lookup_assign_same.
Qed.

(** A coordinate the node already has is kept. *)
Lemma initialized_node_coordinate (node : object) (k : string) (v : value) :
  k = "x" \/ k = "y" ->
  lookup k node = Some v ->
  lookup k (initialized_node node) = Some v.
Proof.
  intros Hk Hv. unfold initialized_node. cbn [has_own].
  destruct Hk as [-> | ->].
  - rewrite (lookup_assign_other "x" "highlighted") by discriminate.
    rewrite Hv. cbn [negb].
    match goal with
    | |- context [if ?c then _ else _] => destruct c
    end;
      repeat (rewrite lookup_assign_other by discriminate); assumption.
  - match goal with
    | |- context [if negb ?c then assign "x" _ _ else _] => destruct c
    end; cbn [negb].
    + rewrite (lookup_assign_other "y" "highlighted") by discriminate.
      rewrite Hv. cbn [negb].
      now rewrite lookup_assign_other by discriminate.
    + rewrite (lookup_assign_other "y" "x") by discriminate.
      rewrite (lookup_assign_other "y" "highlighted") by discriminate.
      rewrite Hv. cbn [negb].
      rewrite (lookup_assign_other "y" "x") by discriminate.
      now rewrite lookup_assign_other by discriminate.
Qed.

Lemma node_key_initialized (node : object) :
  prop (VObj (initialized_node node)) "id" = prop (VObj node) "id".
Proof.
  simpl. now rewrite initialized_node_prop by discriminate.
Qed.

Lemma _initializeNodes_step_eq
    {E : Environment} {I : ObjectIdentity} (nodes node : object) :
  _initializeNodes_step nodes node
  = (key <- toString (prop (VObj (initialized_node node)) "id") ;;
     Ok (assign key (VObj (initialized_node node)) nodes,
         initialized_node node)).
Proof. reflexivity. Qed.

Lemma _initializeNodes_from_eq
    {E : Environment} {I : ObjectIdentity}
    (graphNodes : list object) (acc : object) :
  _initializeNodes_from graphNodes acc
  = if forallb (fun n => has_id (VObj n)) graphNodes
    then Ok (stored_nodes graphNodes acc, map initialized_node graphNodes)
    else Throw TypeError.
Proof.
  revert acc. induction graphNodes as [|n ns IH]; intros acc; [reflexivity|].
  cbn [_initializeNodes_from forallb stored_nodes fold_left map].
  rewrite _initializeNodes_step_eq, node_key_initialized.
  unfold toString.
  assert (has_id (VObj n) = negb (nullish (prop (VObj n) "id"))) as Hid
    by reflexivity.
  destruct (nullish (prop (VObj n) "id")); rewrite Hid;
    cbn [negb andb bind]; [reflexivity|].
  cbn [fst snd]. rewrite IH. fold (node_key (VObj n)).
  destruct (forallb (fun n0 => has_id (VObj n0)) ns); reflexivity.
Qed.

Lemma stored_nodes_lookup (graphNodes : list object) (acc : object)
    (k : string) (v : value) :
  lookup k (stored_nodes graphNodes acc) = Some v ->
  lookup k acc = Some v
  \/ exists n, In n graphNodes /\ node_key (VObj n) = k
               /\ v = VObj (initialized_node n).
Proof.
  unfold stored_nodes. revert acc.
  induction graphNodes as [|n ns IH]; intros acc H; simpl in H; [now left|].
  apply IH in H. destruct H as [H | [n' [Hin [Hk Hv]]]].
  - rewrite lookup_assign in H.
    destruct (node_key (VObj n) =? k) eqn:Hk.
    + right. exists n. apply String.eqb_eq in Hk.
      injection H as <-. simpl. auto.
    + now left.
  - right. exists n'. simpl. auto.
Qed.

Lemma stored_nodes_keys (graphNodes : list object) (acc : object)
    (k : string) :
  In k (map fst (stored_nodes graphNodes acc))
  <-> In k (map fst acc)
      \/ exists n, In n graphNodes /\ node_key (VObj n) = k.
Proof.
  unfold stored_nodes. revert acc.
  induction graphNodes as [|n ns IH]; intros acc; simpl.
  - split; [auto | intros [H | [n [[] _]]]; assumption].
  - rewrite IH, In_keys_assign. split.
    + intros [[-> | H] | [n' [Hin Hk]]]; eauto.
    + intros [H | [n' [[<- | Hin] Hk]]]; eauto.
Qed.

(** ** [_tagOrphanNodes] *)

Lemma _tagOrphanNodes_lookup
    {E : Environment} {I : ObjectIdentity}
    (nodes : object) (m : matrix) (k : string) :
  lookup k (_tagOrphanNodes nodes m)
  = if in_dec string_dec k (own_keys (VObj nodes))
    then Some (tagged_node nodes m k) else None.
Proof.
  unfold _tagOrphanNodes.
  change (_tagOrphanNodes_step nodes m)
    with (fun (a : object) (x : string) => assign x (tagged_node nodes m x) a).
  now rewrite lookup_fold_assign.
Qed.

Lemma _tagOrphanNodes_keys
    {E : Environment} {I : ObjectIdentity}
    (nodes : object) (m : matrix) (k : string) :
  In k (map fst (_tagOrphanNodes nodes m)) <-> In k (map fst nodes).
Proof.
  rewrite <- lookup_Some_In, _tagOrphanNodes_lookup, <- In_own_keys_obj.
  destruct (in_dec string_dec k (own_keys (VObj nodes))); split; eauto;
    try tauto.
  intros [v Hv]. discriminate.
Qed.


(** ** The adjacency matrix *)

Lemma keys_ensure_row (k k' : string) (m : matrix) :
  In k (map fst (ensure_row k' m)) <-> k = k' \/ In k (map fst m).
Proof.
  unfold ensure_row. destruct (lookup_row k' m) as [row|] eqn:Hrow.
  - split; [auto|]. intros [->|H]; [|assumption].
    clear -Hrow. induction m as [|[k0 r0] m IH]; simpl in *; [discriminate|].
    destruct (k0 =? k') eqn:Hk; [apply String.eqb_eq in Hk; auto | auto].
  - rewrite map_app, in_app_iff. simpl. intuition.
Qed.

Lemma keys_set_entry (s t : string) (v : value) (m : matrix) :
  map fst (set_entry s t v m) = map fst m.
Proof.
  induction m as [|[k row] m IH]; simpl; [reflexivity|].
  destruct (k =? s); simpl; [reflexivity | now rewrite IH].
Qed.

Lemma matrix_within_ensure_row (P : string -> Prop) (k : string)
    (m : matrix) :
  P k -> matrix_within P m -> matrix_within P (ensure_row k m).
Proof.
  intros Hk Hm. unfold ensure_row.
  destruct (lookup_row k m); [assumption|].
  apply Forall_app. split; [assumption|].
  constructor; [|constructor]. simpl. split; [assumption | constructor].
Qed.

Lemma matrix_within_set_entry (P : string -> Prop) (s t : string)
    (v : value) (m : matrix) :
  P t -> matrix_within P m -> matrix_within P (set_entry s t v m).
Proof.
  intros Ht Hm. induction Hm as [|[k row] m [Hk Hrow] Hm IH]; simpl.
  - constructor.
  - destruct (k =? s); constructor; simpl in *; auto.
    split; [assumption|]. apply Forall_forall. intros x Hx.
    apply In_keys_assign in Hx. destruct Hx as [->|Hx]; [assumption|].
    now apply (proj1 (Forall_forall _ _) Hrow).
Qed.

Lemma matrix_within_weaken (P Q : string -> Prop) (m : matrix) :
  (forall k, P k -> Q k) -> matrix_within P m -> matrix_within Q m.
Proof.
  intros HPQ Hm. unfold matrix_within in *.
  eapply Forall_impl; [|exact Hm]. simpl.
  intros [k row] [Hk Hrow]. split; [auto|].
  eapply Forall_impl; [|exact Hrow]. auto.
Qed.

Section LinksMatrix.
Context {E : Environment} {I : ObjectIdentity}.

Lemma _initializeLinks_step_spec (config : value) (m m' : matrix)
    (l : value) :
  _initializeLinks_step config m l = Ok m' ->
  exists s t,
    endpoints l = Ok (s, t)
    /\ (forall k, In k (map fst m') <-> k = s \/ k = t \/ In k (map fst m))
    /\ (forall P : string -> Prop,
           P s -> P t -> matrix_within P m -> matrix_within P m').
Proof.
  unfold _initializeLinks_step, endpoints. intros H.
  inv_bind H. subst m'.
  exists (to_key a0), (to_key a2). split; [now run_steps|]. split.
  - intros k.
    assert (forall v x y,
               In k (map fst (set_entry x y v
                                (ensure_row (to_key a2)
                                   (ensure_row (to_key a0) m))))
               <-> k = to_key a0 \/ k = to_key a2 \/ In k (map fst m))
      as Hset.
    { intros v x y. rewrite keys_set_entry, !keys_ensure_row. tauto. }
    destruct (negb (truthy a4)).
    + rewrite keys_set_entry. apply Hset.
    + apply Hset.
  - intros P Hs Ht Hm.
    assert (forall v, matrix_within P
                        (set_entry (to_key a0) (to_key a2) v
                           (ensure_row (to_key a2)
                              (ensure_row (to_key a0) m)))) as Hset.
    { intros v. apply matrix_within_set_entry; [assumption|].
      now repeat apply matrix_within_ensure_row. }
    destruct (negb (truthy a4)); [|apply Hset].
    apply matrix_within_set_entry; [assumption | apply Hset].
Qed.

Lemma reduce_initializeLinks_spec (config : value) (ls : list value)
    (acc m : matrix) :
  reduceM (_initializeLinks_step config) ls acc = Ok m ->
  (forall k, In k (map fst m)
             <-> In k (map fst acc) \/ exists l, In l ls /\ incident k l)
  /\ (forall P : string -> Prop,
         (forall k l, In l ls -> incident k l -> P k) ->
         matrix_within P acc -> matrix_within P m).
Proof.
  revert acc. induction ls as [|l ls IH]; intros acc H; simpl in H.
  - injection H as <-. split.
    + intros k. split; [auto | intros [?|[l [[] _]]]; assumption].
    + auto.
  - inv_bind H.
    destruct (_initializeLinks_step_spec _ _ _ _ Hstep)
      as [s [t [Hends [Hkeys Hwithin]]]].
    destruct (IH _ H) as [IHk IHw]. split.
    + intros k. rewrite IHk, Hkeys. split.
      * intros [[->|[->|Hin]] | [l' [Hin Hinc]]].
        -- right. exists l. split; [now left|]. exists s, t. auto.
        -- right. exists l. split; [now left|]. exists s, t. auto.
        -- now left.
        -- right. exists l'. split; [now right | assumption].
      * intros [Hin | [l' [[<-|Hin] Hinc]]].
        -- left. auto.
        -- left. destruct Hinc as [s' [t' [He [->| ->]]]];
             rewrite Hends in He; injection He as <- <-; auto.
        -- right. exists l'. auto.
    + intros P HP Hacc. apply IHw.
      * intros k l' Hin. apply HP. now right.
      * apply Hwithin; [| |assumption].
        -- apply (HP s l); [now left|]. exists s, t. auto.
        -- apply (HP t l); [now left|]. exists s, t. auto.
Qed.

(** The rows of the adjacency matrix are the ends of the links. *)
Lemma _initializeLinks_rows (config : value) (ls : list value)
    (m : matrix) :
  _initializeLinks ls config = Ok m ->
  (forall k, In k (map fst m) <-> exists l, In l ls /\ incident k l)
  /\ matrix_within (fun k => exists l, In l ls /\ incident k l) m.
Proof.
  intros H. apply reduce_initializeLinks_spec in H.
  destruct H as [Hk Hw]. split.
  - intros k. rewrite Hk. simpl. tauto.
  - apply Hw; [eauto | constructor].
Qed.
End LinksMatrix.

(** A node that occurs nowhere in the matrix has degree zero. *)
Lemma is_orphan_absent (k : string) (m : matrix) (P : string -> Prop) :
  matrix_within P m -> ~ P k -> is_orphan k m = true.
Proof.
  intros Hm Hk. unfold is_orphan, computeNodeDegree. cbn [inDegree outDegree].
  assert (lookup_row k m = None) as Hrow.
  { induction Hm as [|[k0 row] m [Hk0 _] Hm IH]; simpl; [reflexivity|].
    destruct (k0 =? k) eqn:Heq; [|assumption].
    apply String.eqb_eq in Heq. simpl in Hk0. congruence. }
  rewrite Hrow.
  assert (filter (fun kr : string * list (string * value) =>
                    match lookup k (snd kr) with
                    | Some w => nonzero w
                    | None => false
                    end) m = []) as Hin.
  { clear Hrow.
    induction Hm as [|[k0 row] m [_ Hr] Hm IH]; simpl; [reflexivity|].
    assert (lookup k row = None) as Hnone.
    { apply lookup_None. intros Hin. simpl in Hr.
      apply (proj1 (Forall_forall _ _) Hr) in Hin. contradiction. }
    rewrite Hnone. assumption. }
  rewrite Hin. reflexivity.
Qed.

(** ** The graph of [initializeGraphState] *)

Lemma get_Ok (v : value) (k : string) (x : value) :
  get v k = Ok x -> x = prop v k /\ nullish v = false.
Proof.
  unfold get. destruct (nullish v); [discriminate|].
  intros H. injection H as <-. auto.
Qed.

Lemma as_array_Ok (v : value) (l : list value) :
  as_array v = Ok l -> v = VArr l.
Proof. destruct v; try discriminate. intros H. now injection H as <-. Qed.

(** A key that is neither an index nor [length] is a property only of the
    objects that list it. *)
Lemma prop_absent (v : value) (k : string) :
  index_of_key k = None -> k <> "length" ->
  ~ In k (own_keys v) -> prop v k = VUndefined.
Proof.
  intros Hi Hl Hn. apply String.eqb_neq in Hl.
  destruct v; try reflexivity.
  - simpl. now rewrite Hi, Hl.
  - now apply prop_obj_not_own.
  - simpl. now rewrite Hi, Hl.
Qed.

Section Graph.
Context {E : Environment} {I : ObjectIdentity}.

Lemma carried_node_graph_node (state n : value) (o : object) :
  truthy (js_and state (prop state "nodes")) = true ->
  carried_node (prop state "nodes") n = Ok o ->
  graph_node state n o.
Proof.
  intros Hs H f. unfold previous_node, previous_nodes. rewrite Hs.
  unfold carried_node in H. apply bind_Ok in H. destruct H as [nid [Hid H]].
  apply get_Ok in Hid. destruct Hid as [-> _]. fold (node_key n) in H.
  destruct (truthy (prop (prop state "nodes") (node_key n))) eqn:Hp.
  - inv_bind H. subst o. cbn [andb object_assign fold_left].
    rewrite !lookup_assign_source.
    assert (forall (p : object) (k : string),
               (if in_dec string_dec k (own_keys (VObj p))
                then Some (prop (VObj p) k) else lookup k []) = lookup k p)
      as Hobj.
    { intros p k. destruct (in_dec string_dec k (own_keys (VObj p))) as [Hin|Hn].
      - apply In_own_keys_obj, lookup_Some_In in Hin. destruct Hin as [v Hv].
        simpl. now rewrite Hv.
      - rewrite In_own_keys_obj in Hn. apply lookup_None in Hn.
        now rewrite Hn. }
    destruct (in_dec string_dec f (own_keys (VObj a))) as [Hin|Hn].
    + apply In_own_keys_obj, lookup_Some_In in Hin. destruct Hin as [v Hv].
      cbn [prop]. rewrite Hv.
      rewrite (pick_lookup _ _ _ Hstep f) in Hv.
      destruct (in_dec string_dec f NODE_PROPS_WHITELIST); [|discriminate].
      destruct (has_own _ f); [|discriminate]. cbn [andb]. now symmetry.
    + rewrite In_own_keys_obj in Hn. apply lookup_None in Hn.
      rewrite (pick_lookup _ _ _ Hstep f) in Hn.
      destruct (in_dec string_dec f NODE_PROPS_WHITELIST);
        [destruct (has_own _ f); [discriminate|]|]; reflexivity.
  - injection H as <-. cbn [andb object_assign fold_left].
    now rewrite lookup_assign_source.
Qed.

Lemma copied_node_graph_node (state n : value) :
  truthy (js_and state (prop state "nodes")) = false ->
  graph_node state n (object_assign [] [n]).
Proof.
  intros Hs f. unfold previous_node, previous_nodes. rewrite Hs.
  cbn [prop truthy andb object_assign fold_left].
  now rewrite lookup_assign_source.
Qed.

Lemma build_graph_spec (data config state : value)
    (g : list object * list value) :
  build_graph data config state = Ok g ->
  exists ns ls,
    prop data "nodes" = VArr ns
    /\ prop data "links" = VArr ls
    /\ Forall2 (graph_node state) ns (fst g)
    /\ (truthy (js_and state (prop state "nodes")) = false ->
        snd g = map (fun l => VObj (object_assign [] [l])) ls).
Proof.
  unfold build_graph. intros H.
  destruct (truthy (js_and state (prop state "nodes"))) eqn:Hs.
  - inv_bind H. subst g.
    apply get_Ok in Hstep, Hstep2. destruct Hstep as [-> _].
    destruct Hstep2 as [-> _].
    apply as_array_Ok in Hstep0, Hstep3.
    exists a0, a3. repeat split; try assumption; try discriminate.
    cbn [fst]. apply mapM_Forall2 in Hstep1.
    eapply Forall2_impl; [|exact Hstep1].
    intros n o Hno. now apply carried_node_graph_node.
  - inv_bind H. subst g.
    apply get_Ok in Hstep, Hstep1. destruct Hstep as [-> _].
    destruct Hstep1 as [-> _].
    apply as_array_Ok in Hstep0, Hstep2.
    exists a0, a2. repeat split; try assumption.
    cbn [fst]. clear -Hs. induction a0 as [|n ns IH]; simpl; constructor;
      [now apply copied_node_graph_node | assumption].
Qed.

(** The steps of a successful [initializeGraphState]. *)
Lemma initializeGraphState_Ok (props state : value) (st : GraphState.t) :
  initializeGraphState props state = Ok st ->
  exists data id config graph merged initialized,
    get props "data" = Ok data
    /\ get props "id" = Ok (VStr id)
    /\ get props "config" = Ok config
    /\ _validateGraphData data = Ok tt
    /\ build_graph data config state = Ok graph
    /\ merge DEFAULT_CONFIG (js_or config (VObj [])) = Ok merged
    /\ _initializeLinks (snd graph) (VObj (object_assign [] [merged]))
       = Ok (GraphState.links st)
    /\ _initializeNodes (fst graph) = Ok initialized
    /\ GraphState.nodes st
       = _tagOrphanNodes (fst initialized) (GraphState.links st)
    /\ GraphState.d3Nodes st = snd initialized
    /\ GraphState.d3Links st = snd graph
    /\ GraphState.config st = clamp_focusZoom (object_assign [] [merged])
    /\ GraphState.id st = replace_spaces id
    /\ GraphState.highlightedNode st = "".
Proof.
  unfold initializeGraphState. intros H. inv_bind H.
  destruct a0; try discriminate. injection Hstep7 as <-. subst st.
  destruct a2. exists a, s, a1, a3, a4, a6.
  cbn [GraphState.links GraphState.nodes GraphState.d3Nodes
       GraphState.d3Links GraphState.config GraphState.id
       GraphState.highlightedNode].
  repeat split; assumption || reflexivity.
Qed.
End Graph.

(** ** [_validateGraphData] *)

Lemma prop_array_index (l : list value) (i : nat) :
  prop (VArr l) (key_of_index (N.of_nat i)) = nth i l VUndefined.
Proof. simpl. now rewrite index_of_key_of_index, Nat2N.id. Qed.

Section Validation.
Context {E : Environment} {I : ObjectIdentity}.

Lemma find_node_with_id_objects (ns : list value) (l : value)
    (endpoint : string) :
  Forall (fun n => is_object n = true) ns ->
  nullish l = false ->
  exists found,
    find_node_with_id ns l endpoint = Ok found
    /\ truthy found = endpoint_found ns l endpoint.
Proof.
  intros Hns Hl. unfold find_node_with_id, endpoint_found.
  induction Hns as [|n ns Hn Hns IH]; simpl.
  - exists VUndefined. auto.
  - destruct n; try discriminate Hn. unfold get at 1 2. rewrite Hl.
    cbn [nullish is_undefined is_null orb bind].
    destruct (strict_equal (prop (VObj props) "id") (prop l endpoint)).
    + exists (VObj props). auto.
    + exact IH.
Qed.

Lemma _loop_verdict (data : value) (ns ls : list value) (i : nat)
    (l : value) :
  get data "nodes" = Ok (VArr ns) ->
  get data "links" = Ok (VArr ls) ->
  Forall (fun n => is_object n = true) ns ->
  nth i ls VUndefined = l ->
  is_object l = true ->
  _loop data i = link_verdict ns l.
Proof.
  intros Hn Hl Hns Hi Hobj. unfold _loop, link_verdict.
  rewrite Hl, Hn. cbn [bind as_array]. unfold get at 1.
  cbn [nullish is_undefined is_null orb bind].
  rewrite prop_array_index, Hi.
  assert (nullish l = false) as Hnl by (destruct l; try discriminate; reflexivity).
  assert (truthy l = true) as Htl by (destruct l; try discriminate; reflexivity).
  destruct (find_node_with_id_objects ns l "source" Hns Hnl)
    as [fs [Hfs Hts]].
  destruct (find_node_with_id_objects ns l "target" Hns Hnl)
    as [ft [Hft Htt]].
  rewrite Hfs. cbn [bind]. rewrite Hts.
  destruct (endpoint_found ns l "source"); cbn [negb].
  - cbn [bind]. rewrite Hft. cbn [bind]. rewrite Htt.
    destruct (endpoint_found ns l "target"); cbn [negb].
    + cbn [bind]. rewrite Htl. unfold value_ok. cbn [andb].
      rewrite negb_orb. reflexivity.
    + unfold get. rewrite Hnl. reflexivity.
  - unfold get. rewrite Hnl. reflexivity.
Qed.

Lemma for_each_loop_verdicts (data : value) (ns : list value)
    (pre ls : list value) :
  get data "nodes" = Ok (VArr ns) ->
  get data "links" = Ok (VArr (pre ++ ls)) ->
  Forall (fun n => is_object n = true) ns ->
  Forall (fun l => is_object l = true) ls ->
  for_each (_loop data) (seq (List.length pre) (List.length ls))
  = verdicts ns ls.
Proof.
  intros Hn Hl Hns Hls. revert pre Hl.
  induction Hls as [|l ls Hobj Hls IH]; intros pre Hl; [reflexivity|].
  cbn [List.length seq for_each verdicts].
  rewrite (_loop_verdict data ns (pre ++ l :: ls) (List.length pre) l);
    try assumption.
  - destruct (link_verdict ns l) as [[]|e]; [|reflexivity]. cbn [bind].
    specialize (IH (pre ++ [l])%list).
    rewrite length_app, Nat.add_1_r in IH. apply IH.
    now rewrite <- app_assoc.
  - now rewrite app_nth2, Nat.sub_diag by lia.
Qed.

(** The validation of data whose nodes and links are arrays of objects:
    no node, or else the verdict on the first link that fails a check. *)
Lemma _validateGraphData_eq (data : value) (ns ls : list value) :
  get data "nodes" = Ok (VArr ns) ->
  get data "links" = Ok (VArr ls) ->
  Forall (fun n => is_object n = true) ns ->
  Forall (fun l => is_object l = true) ls ->
  _validateGraphData data
  = match ns with
    | [] => throwErr "Graph" [MConst INSUFFICIENT_DATA]
    | _ :: _ => verdicts ns ls
    end.
Proof.
  intros Hn Hl Hns Hls. unfold _validateGraphData.
  rewrite Hn. cbn [bind truthy negb orb].
  destruct ns as [|n ns]; [reflexivity|].
  assert (truthy (prop (VArr (n :: ns)) "length") = true) as Hlen.
  { cbn. now destruct (List.length ns). }
  rewrite Hlen. cbn [negb bind]. rewrite Hl. cbn [bind].
  unfold get. cbn [nullish is_undefined is_null orb bind].
  assert (turns (prop (VArr ls) "length") = List.length ls) as Ht
    by (cbn; apply Nat2Z.id).
  rewrite Ht.
  now apply (for_each_loop_verdicts data (n :: ns) [] ls).
Qed.

Lemma verdicts_valid (ns ls : list value) :
  Forall (fun l => link_ok ns l = true) ls -> verdicts ns ls = Ok tt.
Proof.
  induction 1 as [|l ls Hl Hls IH]; [reflexivity|].
  cbn [verdicts]. unfold link_verdict, link_ok in *.
  apply andb_prop in Hl. destruct Hl as [Hl Hv].
  apply andb_prop in Hl. destruct Hl as [Hs Ht].
  rewrite Hs, Ht, Hv. cbn [negb bind]. exact IH.
Qed.

Lemma verdicts_first_invalid (ns pre post : list value) (l : value) :
  Forall (fun l => link_ok ns l = true) pre ->
  link_ok ns l = false ->
  verdicts ns (pre ++ l :: post) = link_verdict ns l
  /\ exists e, link_verdict ns l = Throw e.
Proof.
  intros Hpre Hl.
  assert (exists e, link_verdict ns l = Throw e) as [e He].
  { unfold link_verdict, link_ok in *.
    destruct (endpoint_found ns l "source"); cbn [negb]; [|eexists; reflexivity].
    destruct (endpoint_found ns l "target"); cbn [negb]; [|eexists; reflexivity].
    destruct (value_ok l); [discriminate | eexists; reflexivity]. }
  split; [|eauto].
  induction Hpre as [|l0 pre Hl0 Hpre IH].
  - rewrite app_nil_l. cbn [verdicts]. rewrite He. reflexivity.
  - assert (link_verdict ns l0 = Ok tt) as H0.
    { unfold link_verdict, link_ok in *.
      apply andb_prop in Hl0. destruct Hl0 as [Hl0 Hv].
      apply andb_prop in Hl0. destruct Hl0 as [Hs Ht].
      now rewrite Hs, Ht, Hv. }
    rewrite <- app_comm_cons. cbn [verdicts].
    rewrite H0. cbn [bind]. exact IH.
Qed.
End Validation.

(** ** Validation errors of [initializeGraphState] *)

Section ValidationErrors.
Context {E : Environment} {I : ObjectIdentity}.

Lemma initializeGraphState_validation_throws (props state data : value)
    (e : error) :
  get props "data" = Ok data ->
  _validateGraphData data = Throw e ->
  initializeGraphState props state = Throw e.
Proof.
  intros Hd Hv. unfold initializeGraphState. rewrite Hd. cbn [bind].
  apply get_Ok in Hd. destruct Hd as [_ Hn].
  unfold get. rewrite Hn. cbn [bind]. rewrite Hv. reflexivity.
Qed.

Lemma validation_of_props (id : string) (config : value)
    (ns ls : list value) (state : value) (e : error) :
  Forall (fun n => is_object n = true) ns ->
  Forall (fun l => is_object l = true) ls ->
  match ns with
  | [] => throwErr "Graph" [MConst INSUFFICIENT_DATA]
  | _ :: _ => verdicts ns ls
  end = Throw e ->
  initializeGraphState (graph_props id config ns ls) state = Throw e.
Proof.
  intros Hns Hls He.
  apply initializeGraphState_validation_throws
    with (data := VObj [("nodes", VArr ns); ("links", VArr ls)]);
    [reflexivity|].
  now rewrite (_validateGraphData_eq _ ns ls) by (reflexivity || assumption).
Qed.
End ValidationErrors.

(** C2 (as amended). The validation reports the first check that fails and
    no state is built: no nodes (empty or absent) gives the insufficient
    data error whatever the links are; otherwise the links are checked in
    order, each for its source, then its target, then its value, and the
    error is that of the first link that fails a check -- the invalid link
    error when its source, or else its target, is the id of no node, the
    invalid value error when both ends exist and the declared value is not
    a number. *)
Theorem initializeGraphState_reports_first_violation
    {E : Environment} {I : ObjectIdentity} :
  (forall props state data,
      get props "data" = Ok data ->
      nullish data = false ->
      truthy (prop data "nodes") = false
      \/ truthy (prop (prop data "nodes") "length") = false ->
      is_error INSUFFICIENT_DATA (initializeGraphState props state))
  /\ (forall id config state ns pre l post,
        ns <> [] ->
        Forall (fun n => is_object n = true) ns ->
        Forall (fun l => is_object l = true) (pre ++ l :: post) ->
        Forall (fun l => link_ok ns l = true) pre ->
        link_ok ns l = false ->
        let outcome :=
          initializeGraphState (graph_props id config ns (pre ++ l :: post))
                               state in
        (endpoint_found ns l "source" = false ->
         is_error INVALID_LINKS outcome)
        /\ (endpoint_found ns l "source" = true ->
            endpoint_found ns l "target" = false ->
            is_error INVALID_LINKS outcome)
        /\ (endpoint_found ns l "source" = true ->
            endpoint_found ns l "target" = true ->
            is_error INVALID_LINK_VALUE outcome)).
Proof.
  split.
  - intros props state data Hd Hn Hnodes.
    eexists. apply initializeGraphState_validation_throws with (data := data);
      [assumption|].
    unfold _validateGraphData, get. rewrite Hn. cbn [bind].
    assert (negb (truthy (prop data "nodes"))
            || negb (truthy (prop (prop data "nodes") "length")) = true) as Hc.
    { destruct Hnodes as [-> | ->]; [reflexivity | apply orb_true_r]. }
    rewrite Hc. reflexivity.
  - intros id config state ns pre l post Hne Hns Hls Hpre Hl outcome.
    destruct (verdicts_first_invalid ns pre post l Hpre Hl) as [Hv _].
    assert (forall e, link_verdict ns l = Throw e -> outcome = Throw e) as Hout.
    { intros e He. apply validation_of_props; try assumption.
      destruct ns; [now elim Hne|]. now rewrite Hv. }
    unfold link_ok in Hl. unfold link_verdict in Hout.
    repeat split.
    + intros Hs. rewrite Hs in Hout. eexists. apply Hout. reflexivity.
    + intros Hs Ht. rewrite Hs, Ht in Hout. eexists. apply Hout. reflexivity.
    + intros Hs Ht. rewrite Hs, Ht in Hout, Hl. cbn [andb] in Hl.
      rewrite Hl in Hout. eexists. apply Hout. reflexivity.
Qed.

(** The input of the witness and of the counterexample of C2: one node,
    a first link with a text for value, a second link from an unknown
    node. *)
Lemma first_violation_example :
  is_error INVALID_LINK_VALUE
    (@initializeGraphState sample_environment all_distinct
       (graph_props "g" VUndefined [node_named "A"]
          ([] ++ VObj [("source", VStr "A"); ("target", VStr "A");
                       ("value", VStr "x")]
              :: [link_between "B" "A"]))
       VUndefined).
Proof.
  apply (proj2 (@initializeGraphState_reports_first_violation
                  sample_environment all_distinct)
           "g" VUndefined VUndefined [node_named "A"] []
           (VObj [("source", VStr "A"); ("target", VStr "A");
                  ("value", VStr "x")])
           [link_between "B" "A"]).
  - discriminate.
  - repeat constructor.
  - repeat constructor.
  - constructor.
  - reflexivity.
  - reflexivity.
  - reflexivity.
Defined.

(** The second link of that input names a source that is the id of no
    node, and yet the error is the invalid value error of the first link,
    not the invalid link error. *)
Lemma invalid_link_hidden_by_earlier_value :
  let ns := [node_named "A"] in
  let bad_value :=
    VObj [("source", VStr "A"); ("target", VStr "A"); ("value", VStr "x")] in
  let bad_source := link_between "B" "A" in
  let outcome :=
    @initializeGraphState sample_environment all_distinct
      (graph_props "g" VUndefined ns [bad_value; bad_source]) VUndefined in
  @endpoint_found all_distinct ns bad_source "source" = false
  /\ is_error INVALID_LINK_VALUE outcome
  /\ ~ is_error INVALID_LINKS outcome.
Proof.
  cbv zeta. split; [reflexivity|]. split.
  - eexists. vm_compute. reflexivity.
  - intros [detail H]. vm_compute in H. discriminate H.
Qed.

(** ** The node map and the rows of the adjacency matrix *)

Lemma prop_copy (v : value) (k : string) :
index_of_key k = None -> k <> "length" ->
prop (VObj (object_assign [] [v])) k = prop v k.
Proof.
intros Hi Hl. rewrite prop_object_assign_1.
destruct (in_dec string_dec k (own_keys v)) as [_|Hn]; [reflexivity|].
symmetry. now apply prop_absent.
Qed.

Lemma endpoints_copy (l : value) :
endpoints (VObj (object_assign [] [l])) = endpoints l.
Proof.
assert (forall k, get (VObj (object_assign [] [l])) k
                  = Ok (prop (VObj (object_assign [] [l])) k)) as Hget
  by reflexivity.
unfold endpoints. rewrite !Hget. cbn [bind].
rewrite !prop_copy by (reflexivity || discriminate).
unfold get. destruct (nullish l) eqn:Hn; [|reflexivity].
assert (prop l "source" = VUndefined) as ->
  by (destruct l; try discriminate Hn; reflexivity).
reflexivity.
Qed.

Lemma graph_node_key (state n : value) (o : object) :
consistent_state state -> graph_node state n o ->
node_key (VObj o) = node_key n.
Proof.
intros Hc Hg. unfold node_key at 1. cbn [prop]. rewrite (Hg "id").
destruct (in_dec string_dec "id" NODE_PROPS_WHITELIST) as [_|Hn];
  [|elim Hn; simpl; auto].
destruct (truthy (previous_node state n)) eqn:Ht;
  [destruct (has_own (previous_node state n) "id") eqn:Hh|];
  cbn [andb].
- specialize (Hc (node_key n) Ht Hh). unfold toString in Hc.
  destruct (nullish _); [discriminate|]. now injection Hc.
- destruct (in_dec string_dec "id" (own_keys n)) as [_|Hno]; [reflexivity|].
  unfold node_key. rewrite prop_absent; [reflexivity | reflexivity | discriminate | assumption].
- destruct (in_dec string_dec "id" (own_keys n)) as [_|Hno]; [reflexivity|].
  unfold node_key. rewrite prop_absent; [reflexivity | reflexivity | discriminate | assumption].
Qed.

Lemma In_own_keys_matrix (m : matrix) (k : string) :
In k (own_keys (matrix_value m)) <-> In k (map fst m).
Proof.
unfold matrix_value. rewrite In_own_keys_obj, map_map. simpl. reflexivity.
Qed.

Lemma strict_equal_not_nullish {I : ObjectIdentity} (a b : value) :
strict_equal a b = true -> nullish a = false -> nullish b = false.
Proof. destruct a, b; simpl; intros; try discriminate; reflexivity. Qed.

Section NodeMap.
Context {E : Environment} {I : ObjectIdentity}.

Lemma _initializeNodes_Ok (graphNodes : list object)
    (r : object * list object) :
_initializeNodes graphNodes = Ok r ->
r = (stored_nodes graphNodes [], map initialized_node graphNodes)
/\ forallb (fun n => has_id (VObj n)) graphNodes = true.
Proof.
unfold _initializeNodes. rewrite _initializeNodes_from_eq.
destruct (forallb (fun n => has_id (VObj n)) graphNodes); [|discriminate].
intros H. injection H as <-. auto.
Qed.

(** Whenever a state is returned, for a previous state that stores each
    node under its id (or for none), the keys of the node map are the ids of
    the input nodes, and the rows of the adjacency matrix are the ends of
    the links of the graph. *)
Lemma initializeGraphState_keys (props state data : value)
    (ns : list value) (st : GraphState.t) :
get props "data" = Ok data ->
prop data "nodes" = VArr ns ->
consistent_state state ->
initializeGraphState props state = Ok st ->
(forall k, In k (own_keys (VObj (GraphState.nodes st)))
           <-> exists n, In n ns /\ node_key n = k)
/\ (forall k, In k (own_keys (matrix_value (GraphState.links st)))
              <-> exists l, In l (GraphState.d3Links st) /\ incident k l).
Proof.
intros Hd Hns Hc H.
destruct (initializeGraphState_Ok _ _ _ H)
  as (data' & id & config & graph & merged & initialized & Hd' & _ & _ & _
      & Hg & _ & Hl & Hn & Hnodes & _ & Hd3 & _).
rewrite Hd in Hd'. injection Hd' as <-.
destruct (build_graph_spec _ _ _ _ Hg) as (ns' & ls & Hns' & _ & Hf & _).
rewrite Hns in Hns'. injection Hns' as <-.
apply _initializeNodes_Ok in Hn. destruct Hn as [-> _].
split.
- intros k. rewrite In_own_keys_obj, Hnodes, _tagOrphanNodes_keys.
  cbn [fst]. rewrite stored_nodes_keys. split.
  + intros [[] | [o [Ho Hk]]].
    destruct (Forall2_In_r _ _ _ _ Hf Ho) as [n [Hin Hno]].
    exists n. split; [assumption|].
    now rewrite <- (graph_node_key state n o Hc Hno).
  + intros [n [Hin Hk]]. right.
    destruct (Forall2_In_l _ _ _ _ Hf Hin) as [o [Ho Hno]].
    exists o. split; [assumption|].
    now rewrite (graph_node_key state n o Hc Hno).
- intros k. rewrite In_own_keys_matrix, Hd3.
  apply (_initializeLinks_rows _ _ _ Hl).
Qed.

Lemma _initializeLinks_step_total (config : value) (acc : matrix)
    (l : value) :
nullish config = false ->
(exists s t, endpoints l = Ok (s, t)) ->
exists m, _initializeLinks_step config acc l = Ok m.
Proof.
intros Hc [s [t Hl]]. unfold _initializeLinks_step.
unfold endpoints in Hl. inv_bind Hl. run_steps.
unfold get. rewrite Hc. cbn [bind]. eauto.
Qed.

Lemma _initializeLinks_total (config : value) (ls : list value) :
nullish config = false ->
Forall (fun l => exists s t, endpoints l = Ok (s, t)) ls ->
forall acc, exists m, reduceM (_initializeLinks_step config) ls acc = Ok m.
Proof.
intros Hc Hls. induction Hls as [|l ls Hl Hls IH]; intros acc.
- exists acc. reflexivity.
- cbn [reduceM].
  destruct (_initializeLinks_step_total config acc l Hc Hl) as [m' ->].
  cbn [bind]. apply IH.
Qed.

Lemma valid_link_has_ends (ns : list value) (l : value) :
Forall (fun n => is_object n = true /\ has_id n = true) ns ->
is_object l = true -> link_ok ns l = true ->
exists s t, endpoints l = Ok (s, t).
Proof.
intros Hns Hobj Hok. unfold link_ok in Hok.
apply andb_prop in Hok. destruct Hok as [Hok _].
apply andb_prop in Hok. destruct Hok as [Hs Ht].
assert (forall e, endpoint_found ns l e = true ->
                  nullish (prop l e) = false) as Hnn.
{ intros e He. unfold endpoint_found in He.
  apply existsb_exists in He. destruct He as [n [Hin Heq]].
  apply (proj1 (Forall_forall _ _) Hns) in Hin. destruct Hin as [_ Hid].
  apply (strict_equal_not_nullish _ _ Heq).
  unfold has_id in Hid. now apply negb_true_iff in Hid. }
unfold endpoints, endpoint_id, get.
assert (nullish l = false) as -> by (destruct l; try discriminate; reflexivity).
cbn [bind]. rewrite (Hnn "source" Hs). cbn [bind].
rewrite (Hnn "target" Ht). cbn [bind]. eauto.
Qed.

(** Valid input given without a previous state is initialized. *)
Lemma initializeGraphState_returns (id : string) (config state : value)
    (ns ls : list value) (merged : value) :
valid_input ns ls ->
truthy (js_and state (prop state "nodes")) = false ->
merge DEFAULT_CONFIG (js_or config (VObj [])) = Ok merged ->
exists st,
  initializeGraphState (graph_props id config ns ls) state = Ok st.
Proof.
intros (Hne & Hns & Hls) Hs Hm.
assert (Forall (fun n => is_object n = true) ns) as Hns'
  by (eapply Forall_impl; [|exact Hns]; simpl; tauto).
assert (Forall (fun l => is_object l = true) ls) as Hls'
  by (eapply Forall_impl; [|exact Hls]; simpl; tauto).
assert (Forall (fun l => link_ok ns l = true) ls) as Hok
  by (eapply Forall_impl; [|exact Hls]; simpl; tauto).
unfold initializeGraphState.
change (get (graph_props id config ns ls) "data")
  with (Ok (VObj [("nodes", VArr ns); ("links", VArr ls)])).
change (get (graph_props id config ns ls) "id") with (Ok (VStr id)).
change (get (graph_props id config ns ls) "config") with (Ok config).
cbn [bind].
rewrite (_validateGraphData_eq _ ns ls) by (reflexivity || assumption).
destruct ns as [|n0 ns0]; [now elim Hne|].
rewrite (verdicts_valid _ _ Hok). cbn [bind].
unfold build_graph. rewrite Hs.
change (get (VObj [("nodes", VArr (n0 :: ns0)); ("links", VArr ls)]) "nodes")
  with (Ok (VArr (n0 :: ns0))).
change (get (VObj [("nodes", VArr (n0 :: ns0)); ("links", VArr ls)]) "links")
  with (Ok (VArr ls)).
cbn [bind as_array fst snd]. rewrite Hm. cbn [bind].
destruct (_initializeLinks_total
            (VObj (object_assign [] [merged]))
            (map (fun l => VObj (object_assign [] [l])) ls)
            eq_refl) with (acc := @nil (string * object)) as [m Hlinks].
{ apply Forall_forall. intros l' Hin. apply in_map_iff in Hin.
  destruct Hin as [l [<- Hin]]. rewrite endpoints_copy.
  apply (proj1 (Forall_forall _ _) Hls) in Hin. destruct Hin as [Hobj Hlok].
  now apply (valid_link_has_ends (n0 :: ns0)). }
unfold _initializeLinks. rewrite Hlinks. cbn [bind].
unfold _initializeNodes. rewrite _initializeNodes_from_eq.
assert (forallb (fun n => has_id (VObj n))
          (map (fun n => object_assign [] [n]) (n0 :: ns0)) = true) as Hids.
{ apply forallb_forall. intros o Hin. apply in_map_iff in Hin.
  destruct Hin as [n [<- Hin]].
  apply (proj1 (Forall_forall _ _) Hns) in Hin. destruct Hin as [_ Hid].
  unfold has_id in *. now rewrite prop_copy by (reflexivity || discriminate). }
rewrite Hids. cbn [bind]. eexists. reflexivity.
Qed.
End NodeMap.


Lemma no_previous_state_consistent (state : value) :
truthy (js_and state (prop state "nodes")) = false -> consistent_state state.
Proof.
intros Hs k. unfold previous_nodes. rewrite Hs. discriminate.
Qed.

Lemma incident_copy (k : string) (l : value) :
incident k (VObj (object_assign [] [l])) <-> incident k l.
Proof. unfold incident. now rewrite endpoints_copy. Qed.

(** C1 (as amended). Ordinary props ([ordinary_graph]: no object of the
    props, of the default configuration or of the previous state owns a
    property under the name of an inherited member, every number in them
    is an integer below 2^53, the configuration is no function, and no id
    of a node and no end of a link is the name of an inherited member) with
    valid data, a string for [id] and a configuration that [merge] merges
    into the defaults, given without a previous state, are initialized to a
    state whose node map has exactly the ids of the input nodes (as text)
    for keys, and whose adjacency matrix has a row exactly for the ids that
    are the source or the target of some link: a node with no incident link
    has no row.  With a previous state that stores each node under its id,
    every state that is returned for ordinary props has those node keys,
    and a row exactly for the ends of the links of its graph. *)
Theorem initializeGraphState_node_keys_and_matrix_rows
    {E : Environment} {I : ObjectIdentity} :
(forall id config state ns ls merged,
    ordinary_graph (graph_props id config ns ls) state = true ->
    valid_input ns ls ->
    truthy (js_and state (prop state "nodes")) = false ->
    merge DEFAULT_CONFIG (js_or config (VObj [])) = Ok merged ->
    exists st,
      initializeGraphState (graph_props id config ns ls) state = Ok st
      /\ (forall k, In k (own_keys (VObj (GraphState.nodes st)))
                    <-> exists n, In n ns /\ node_key n = k)
      /\ (forall k, In k (own_keys (matrix_value (GraphState.links st)))
                    <-> exists l, In l ls /\ incident k l))
/\ (forall props state data ns st,
      ordinary_graph props state = true ->
      get props "data" = Ok data ->
      prop data "nodes" = VArr ns ->
      consistent_state state ->
      initializeGraphState props state = Ok st ->
      (forall k, In k (own_keys (VObj (GraphState.nodes st)))
                 <-> exists n, In n ns /\ node_key n = k)
      /\ (forall k, In k (own_keys (matrix_value (GraphState.links st)))
                    <-> exists l, In l (GraphState.d3Links st)
                                  /\ incident k l)).
Proof.
split; [|intros; eapply initializeGraphState_keys; eauto].
intros id config state ns ls merged Hordinary Hv Hs Hm.
destruct (initializeGraphState_returns id config state ns ls merged Hv Hs Hm)
  as [st Hst].
exists st. split; [assumption|].
destruct (initializeGraphState_keys
            (graph_props id config ns ls) state
            (VObj [("nodes", VArr ns); ("links", VArr ls)]) ns st
            eq_refl eq_refl (no_previous_state_consistent state Hs) Hst)
  as [Hnodes Hrows].
split; [assumption|].
intros k. rewrite Hrows.
destruct (initializeGraphState_Ok _ _ _ Hst)
  as (data & _ & config' & graph & _ & _ & Hd & _ & _ & _ & Hg & _ & _ & _
      & _ & _ & Hd3 & _).
injection Hd as <-.
destruct (build_graph_spec _ _ _ _ Hg) as (_ & ls' & _ & Hls & _ & Hcopy).
injection Hls as <-. rewrite Hd3, (Hcopy Hs). split.
- intros [l' [Hin Hinc]]. apply in_map_iff in Hin.
  destruct Hin as [l [<- Hin]]. exists l. split; [assumption|].
  now apply incident_copy.
- intros [l [Hin Hinc]]. exists (VObj (object_assign [] [l])). split.
  + apply in_map_iff. eauto.
  + now apply incident_copy.
Qed.

Lemma three_nodes_two_links_initialized :
exists st,
  @initializeGraphState sample_environment all_distinct
    (graph_props "g" VUndefined
       [node_named "A"; node_named "B"; node_named "C"]
       [link_between "A" "B"; link_between "B" "C"]) VUndefined = Ok st
  /\ (forall k, In k (own_keys (VObj (GraphState.nodes st)))
                <-> exists n, In n [node_named "A"; node_named "B";
                                    node_named "C"] /\ node_key n = k)
  /\ (forall k, In k (own_keys (matrix_value (GraphState.links st)))
                <-> exists l, In l [link_between "A" "B";
                                    link_between "B" "C"]
                              /\ incident k l).
Proof.
apply (proj1 (@initializeGraphState_node_keys_and_matrix_rows
                sample_environment all_distinct)
         "g" VUndefined VUndefined
         [node_named "A"; node_named "B"; node_named "C"]
         [link_between "A" "B"; link_between "B" "C"] sample_config).
- reflexivity.
- split; [discriminate|]. split; repeat constructor.
- reflexivity.
- reflexivity.
Defined.

(** A single node without links is stored in the node map, and the
    adjacency matrix has no entry for it. *)
Lemma isolated_node_has_no_matrix_entry :
exists st,
  @initializeGraphState sample_environment all_distinct
    (graph_props "g" VUndefined [node_named "A"] []) VUndefined = Ok st
  /\ In "A" (own_keys (VObj (GraphState.nodes st)))
  /\ ~ In "A" (own_keys (matrix_value (GraphState.links st))).
Proof.
eexists. split; [vm_compute; reflexivity|]. split.
- vm_compute. auto.
- vm_compute. auto.
Qed.

(** ** The nodes of the returned state *)

Section StateNodes.
Context {E : Environment} {I : ObjectIdentity}.

(** Each entry of the returned node map is the tagged, initialized node of
    the graph that stands for some input node. *)
Lemma initializeGraphState_node (props state data : value)
    (ns : list value) (st : GraphState.t) (k : string) :
get props "data" = Ok data ->
prop data "nodes" = VArr ns ->
initializeGraphState props state = Ok st ->
In k (own_keys (VObj (GraphState.nodes st))) ->
exists n o stored,
  In n ns /\ graph_node state n o /\ node_key (VObj o) = k
  /\ lookup k stored = Some (VObj (initialized_node o))
  /\ prop (VObj (GraphState.nodes st)) k
     = tagged_node stored (GraphState.links st) k.
Proof.
intros Hd Hns H Hk.
destruct (initializeGraphState_Ok _ _ _ H)
  as (data' & id & config & graph & merged & initialized & Hd' & _ & _ & _
      & Hg & _ & Hl & Hn & Hnodes & _).
rewrite Hd in Hd'. injection Hd' as <-.
destruct (build_graph_spec _ _ _ _ Hg) as (ns' & ls & Hns' & _ & Hf & _).
rewrite Hns in Hns'. injection Hns' as <-.
apply _initializeNodes_Ok in Hn. destruct Hn as [-> _]. cbn [fst] in Hnodes.
rewrite In_own_keys_obj, Hnodes, _tagOrphanNodes_keys in Hk.
apply lookup_Some_In in Hk. destruct Hk as [v Hv].
destruct (stored_nodes_lookup _ _ _ _ Hv) as [Hnil | [o [Ho [Hko ->]]]];
  [discriminate|].
destruct (Forall2_In_r _ _ _ _ Hf Ho) as [n [Hin Hno]].
exists n, o, (stored_nodes (fst graph) []).
repeat split; try assumption.
cbn [prop]. rewrite Hnodes, _tagOrphanNodes_lookup.
destruct (in_dec string_dec k (own_keys (VObj (stored_nodes (fst graph) []))))
  as [_|Hnot]; [reflexivity|].
elim Hnot. apply In_own_keys_obj, lookup_Some_In. eauto.
Qed.

Lemma graph_node_not_whitelisted (state n : value) (o : object)
    (f : string) :
graph_node state n o ->
~ In f NODE_PROPS_WHITELIST ->
index_of_key f = None -> f <> "length" ->
prop (VObj o) f = prop n f.
Proof.
intros Hg Hw Hi Hl. cbn [prop]. rewrite (Hg f).
destruct (in_dec string_dec f NODE_PROPS_WHITELIST) as [Hin|_];
  [contradiction|].
rewrite andb_false_r. cbn [andb].
destruct (in_dec string_dec f (own_keys n)) as [_|Hn]; [reflexivity|].
symmetry. now apply prop_absent.
Qed.

Lemma orphan_flag_of_tagged_node (stored : object) (m : matrix)
    (k : string) (node : object) :
lookup k stored = Some (VObj node) ->
prop (VObj node) "_orphan" <> VBool true ->
(prop (tagged_node stored m k) "_orphan" = VBool true
 <-> is_orphan k m = true).
Proof.
intros Hk Hflag. unfold tagged_node.
assert (prop (VObj stored) k = VObj node) as Hp
  by (cbn [prop]; now rewrite Hk).
rewrite Hp. destruct (is_orphan k m).
- split; [reflexivity|]. intros _. now rewrite prop_object_assign_2.
- split; [intros H; contradiction | discriminate].
Qed.
End StateNodes.

(** With collapsing enabled, the two ends of a hidden link are tagged
    orphans although each has an incident link. *)
Lemma ends_of_hidden_link_are_tagged :
exists st,
  @initializeGraphState sample_environment all_distinct
    (graph_props "g" (VObj [("collapsible", VBool true)])
       [node_named "A"; node_named "B"]
       [VObj [("source", VStr "A"); ("target", VStr "B");
              ("isHidden", VBool true)]]) VUndefined = Ok st
  /\ (exists l, In l (GraphState.d3Links st) /\ incident "A" l)
  /\ prop (prop (VObj (GraphState.nodes st)) "A") "_orphan" = VBool true.
Proof.
eexists. split; [vm_compute; reflexivity|]. split.
- eexists. split; [left; reflexivity|].
  exists "A", "B". split; [reflexivity | now left].
- reflexivity.
Qed.

(** ** Re-initialization *)



Section Reinitialization.
Context {E : Environment} {I : ObjectIdentity}.



End Reinitialization.




(** ** The merged configuration *)

Lemma clamp_focusZoom_keys {E : Environment} (newConfig : object)
    (k : string) :
In k (map fst (clamp_focusZoom newConfig)) <-> In k (map fst newConfig).
Proof.
unfold clamp_focusZoom.
destruct (in_dec string_dec "focusZoom" (map fst newConfig)) as [Hin|Hn].
- assert (forall v, In k (map fst (assign "focusZoom" v newConfig))
                    <-> In k (map fst newConfig)) as Ha.
  { intros v. rewrite In_keys_assign. split; [intros [->|?]; assumption | auto]. }
  destruct (less_than _ _); [apply Ha|].
  destruct (less_than _ _); [apply Ha | reflexivity].
- assert (prop (VObj newConfig) "focusZoom" = VUndefined) as ->.
  { apply prop_obj_not_own. now rewrite In_own_keys_obj. }
  rewrite !less_than_undefined by (reflexivity || apply orb_true_r).
  reflexivity.
Qed.

(** C9. When the base object is not empty, the result of [merge] has
    exactly the keys of the base: every key of the override that the base
    lacks is dropped.  So the configuration of the state returned by
    [initializeGraphState] has exactly the keys of the default
    configuration, and a key of the user configuration that the default
    configuration lacks is not in it. *)
Theorem merge_keeps_only_the_keys_of_its_base
    {E : Environment} {I : ObjectIdentity} :
(forall o1 o2 r,
    own_keys o1 <> [] ->
    merge o1 o2 = Ok r ->
    (forall k, has_own r k = true <-> In k (own_keys o1))
    /\ (forall k, In k (own_keys o2) -> ~ In k (own_keys o1) ->
                  has_own r k = false))
/\ (forall props state config st,
      own_keys DEFAULT_CONFIG <> [] ->
      get props "config" = Ok config ->
      initializeGraphState props state = Ok st ->
      (forall k, In k (own_keys (VObj (GraphState.config st)))
                 <-> In k (own_keys DEFAULT_CONFIG))
      /\ (forall k, In k (own_keys config) ->
                    ~ In k (own_keys DEFAULT_CONFIG) ->
                    has_own (VObj (GraphState.config st)) k = false)).
Proof.
assert (forall o1 o2 r,
           own_keys o1 <> [] -> merge o1 o2 = Ok r ->
           forall k, has_own r k = true <-> In k (own_keys o1)) as Hmerge.
{ intros o1 o2 r Hne Hm k.
  destruct (merge_base_keys o1 o2 r Hne Hm) as [o [-> Hk]].
  now rewrite has_own_obj. }
split.
- intros o1 o2 r Hne Hm. split; [now apply (Hmerge o1 o2)|].
  intros k _ Hn. destruct (has_own r k) eqn:Hh; [|reflexivity].
  apply (Hmerge o1 o2 r Hne Hm) in Hh. contradiction.
- intros props state config st Hne Hc H.
  assert (forall k, In k (own_keys (VObj (GraphState.config st)))
                    <-> In k (own_keys DEFAULT_CONFIG)) as Hkeys.
  { intros k.
    destruct (initializeGraphState_Ok _ _ _ H)
      as (_ & _ & config' & _ & merged & _ & _ & _ & _ & _ & _ & Hm & _ & _
          & _ & _ & _ & Hcfg & _).
    rewrite Hcfg, In_own_keys_obj, clamp_focusZoom_keys,
      keys_object_assign_1.
    destruct (merge_base_keys _ _ _ Hne Hm) as [o [-> Hk]].
    now rewrite In_own_keys_obj. }
  split; [assumption|].
  intros k _ Hn. destruct (has_own (VObj (GraphState.config st)) k) eqn:Hh;
    [|reflexivity].
  apply In_own_keys_has_own_obj, Hkeys in Hh. contradiction.
Qed.

Lemma user_only_key_is_dropped :
exists st,
  @initializeGraphState sample_environment all_distinct
    (graph_props "g" (VObj [("directed", VBool true);
                            ("panAndZoom", VBool true)])
       [node_named "A"] []) VUndefined = Ok st
  /\ (forall k, In k (own_keys (VObj (GraphState.config st)))
                <-> In k (own_keys sample_config))
  /\ (forall k, In k (own_keys (VObj [("directed", VBool true);
                                      ("panAndZoom", VBool true)])) ->
                ~ In k (own_keys sample_config) ->
                has_own (VObj (GraphState.config st)) k = false).
Proof.
eexists. split; [vm_compute; reflexivity|].
apply (proj2 (@merge_keeps_only_the_keys_of_its_base
                sample_environment all_distinct)
         (graph_props "g" (VObj [("directed", VBool true);
                                 ("panAndZoom", VBool true)])
            [node_named "A"] []) VUndefined).
- discriminate.
- reflexivity.
- vm_compute. reflexivity.
Defined.

(** ** [buildLinkProps] and missing nodes or rows *)

Section LinkProps.
Context {E : Environment} {I : ObjectIdentity}.

(** The coordinates of a missing node default to 0. *)
Lemma coordinate_of_missing_node (nodes k : value) (c : string) :
nullish nodes = false ->
truthy (prop nodes (to_key k)) = false ->
coordinate nodes k c = Ok (VNum 0).
Proof.
intros Hn Hk. unfold coordinate, get. rewrite Hn. cbn [bind].
unfold js_or, js_and. now rewrite Hk, Hk.
Qed.

(** The weight of a missing entry between two existing rows defaults
    to 1. *)
Lemma link_weight_of_missing_entry (links source target : value) :
nullish links = false ->
nullish (prop links (to_key source)) = false ->
nullish (prop links (to_key target)) = false ->
truthy (prop (prop links (to_key source)) (to_key target)) = false ->
truthy (prop (prop links (to_key target)) (to_key source)) = false ->
link_weight links source target = Ok (VNum 1).
Proof.
intros Hl Hs Ht Hst Hts. unfold link_weight, get.
rewrite Hl. cbn [bind]. rewrite Hs. cbn [bind]. rewrite Hst.
cbn [bind]. rewrite Ht. cbn [bind]. unfold js_or. now rewrite Hts.
Qed.

(** With every link taking part in the highlight, a missing source node
    makes [buildLinkProps] throw. *)
Lemma buildLinkProps_missing_source (link nodes links config linkCallbacks
    highlightedNode highlightedLink transform source target clink : value) :
get link "source" = Ok source ->
get link "target" = Ok target ->
nullish nodes = false ->
prop nodes (to_key source) = VUndefined ->
get config "link" = Ok clink ->
nullish clink = false ->
prop config "highlightDegree" = VNum 2 ->
buildLinkProps link nodes links config linkCallbacks highlightedNode
  highlightedLink transform = Throw TypeError.
Proof.
intros Hs Ht Hn Hmiss Hc Hcl Hd. unfold buildLinkProps.
rewrite Hs, Ht. cbn [bind]. unfold coordinate, get at 1 2 3 4.
rewrite Hn. cbn [bind]. rewrite Hc. cbn [bind].
unfold get at 1. rewrite Hcl. cbn [bind]. rewrite Hd.
cbn [strict_equal Z.eqb Pos.eqb]. unfold get at 1. rewrite Hn. cbn [bind].
rewrite Hmiss. reflexivity.
Qed.
End LinkProps.

(** C8 (the code departs from it). On a link whose source node is missing
    from the node map, the coordinates of that end default to 0, but with
    [highlightDegree = 2] [buildLinkProps] raises a type error when it
    reads [nodes[source].highlighted]; and with [semanticStrokeWidth] it
    raises a type error when the adjacency matrix has no row for the
    source. *)
Theorem buildLinkProps_raises_on_missing_node_or_row :
let link := link_between "A" "B" in
let nodes :=
  VObj [("B", VObj [("id", VStr "B"); ("x", VNum 10); ("y", VNum 20);
                    ("highlighted", VBool true)])] in
let links := VObj [("A", VObj [("B", VNum 1)]); ("B", VObj [("A", VNum 1)])] in
@coordinate nodes (VStr "A") "x" = Ok (VNum 0)
/\ @coordinate nodes (VStr "A") "y" = Ok (VNum 0)
/\ is_ok (@buildLinkProps sample_environment all_distinct link nodes links
            (with_option "highlightDegree" (VNum 0) sample_config)
            no_callbacks (VStr "B") VUndefined (VNum 1)) = true
/\ @buildLinkProps sample_environment all_distinct link nodes links
     (with_option "highlightDegree" (VNum 2) sample_config)
     no_callbacks (VStr "B") VUndefined (VNum 1) = Throw TypeError
/\ @buildLinkProps sample_environment all_distinct link nodes (VObj [])
     (with_link_option "semanticStrokeWidth" (VBool true)
        (with_option "highlightDegree" (VNum 0) sample_config))
     no_callbacks (VStr "B") VUndefined (VNum 1) = Throw TypeError.
Proof.
cbv zeta. repeat split; vm_compute; reflexivity.
Qed.

(** ** [isDeepEqual] *)

Lemma has_own_own_keys (v : value) (k : string) :
In k (own_keys v) -> has_own v k = true.
Proof.
assert (forall n, In k (indices_upto n) ->
                  exists i, index_of_key k = Some (N.of_nat i) /\ i < n)
  as Hidx.
{ intros n Hin. unfold indices_upto in Hin. apply in_map_iff in Hin.
  destruct Hin as [i [<- Hi]]. apply in_seq in Hi.
  exists i. split; [apply index_of_key_of_index | lia]. }
destruct v; simpl; try (intros []).
- intros Hin. destruct (Hidx _ Hin) as [i [-> Hi]].
  rewrite Nat2N.id. now apply Nat.ltb_lt.
- apply In_own_keys_has_own_obj.
- intros Hin. destruct (Hidx _ Hin) as [i [-> Hi]].
  rewrite Nat2N.id. now apply Nat.ltb_lt.
Qed.

Lemma nested_not_nullish (o : value) (k : string) :
_isPropertyNestedObject o k = true -> nullish (prop o k) = false.
Proof.
unfold _isPropertyNestedObject. intros H.
repeat (apply andb_prop in H; destruct H as [H ?]).
destruct (prop o k); try discriminate; reflexivity.
Qed.

Lemma primitive_not_nested (o : value) (k : string) :
is_primitive (prop o k) || isEmptyObject (prop o k) = true ->
_isPropertyNestedObject o k = false.
Proof.
unfold _isPropertyNestedObject. intros H.
destruct (isEmptyObject (prop o k)) eqn:He.
- cbn [negb]. now rewrite !andb_false_r.
- rewrite orb_false_r in H.
  destruct (prop o k); try discriminate H; cbn;
    now rewrite ?andb_false_r.
Qed.

Section DeepEqualFacts.
Context {I : ObjectIdentity}.

Lemma strict_equal_primitive_refl (x : value) :
is_primitive x = true -> strict_equal x x = true.
Proof.
destruct x; try discriminate; intros _; simpl;
  auto using Z.eqb_refl, String.eqb_refl.
now destruct b.
Qed.

Lemma strict_equal_primitive_eq (x y : value) :
is_primitive x = true -> strict_equal x y = true -> x = y.
Proof.
destruct x, y; try discriminate; simpl; intros _ H; try reflexivity.
- f_equal. now apply Bool.eqb_prop.
- f_equal. now apply Z.eqb_eq.
- f_equal. now apply String.eqb_eq.
Qed.

Lemma isDeepEqual_at_eq (budget : nat) (o1 o2 : value) :
isDeepEqual_at budget o1 o2
= if (MAX_DEPTH - budget =? 0)%nat && strict_equal o1 o2 then Ok true
  else if (isEmptyObject o1 && negb (isEmptyObject o2))
          || (negb (isEmptyObject o1) && isEmptyObject o2) then Ok false
  else
    o1Keys <- object_keys o1 ;;
    o2Keys <- object_keys o2 ;;
    if negb (List.length o1Keys =? List.length o2Keys)%nat then Ok false
    else
      diffs <- compare_keys
                 (match budget with
                  | S b => Some (isDeepEqual_at b)
                  | O => None
                  end) o1 o2 o1Keys ;;
      Ok (negb (existsb negb diffs)).
Proof. destruct budget; reflexivity. Qed.

(** The loop ends, whatever the keys, when the nested comparison does. *)
Lemma compare_keys_total nested (o1 o2 : value) (ks : list string) :
(forall f k, nested = Some f ->
             _isPropertyNestedObject o1 k && _isPropertyNestedObject o2 k
             = true ->
             exists r, f (prop o1 k) (prop o2 k) = Ok r) ->
exists diffs, compare_keys nested o1 o2 ks = Ok diffs.
Proof.
intros Hrec. induction ks as [|k ks [ds IH]]; cbn [compare_keys].
- eauto.
- fold (compare_keys nested o1 o2) in *.
  destruct (_isPropertyNestedObject o1 k && _isPropertyNestedObject o2 k)
    eqn:Hn; [destruct nested as [f|] eqn:Hf|].
  + destruct (Hrec f k eq_refl Hn) as [r ->]. cbn [bind].
    rewrite IH. cbn [bind]. eauto.
  + destruct (_ || _); [rewrite IH; cbn [bind]|]; eauto.
  + destruct nested; (destruct (_ || _); [rewrite IH; cbn [bind]|]; eauto).
Qed.

Lemma isDeepEqual_at_total (budget : nat) (o1 o2 : value) :
nullish o1 = false -> nullish o2 = false ->
exists r, isDeepEqual_at budget o1 o2 = Ok r.
Proof.
revert o1 o2. induction budget as [|b IH]; intros o1 o2 H1 H2;
  rewrite isDeepEqual_at_eq; unfold object_keys; rewrite H1, H2;
  cbn [bind];
  (destruct (_ && strict_equal o1 o2); [eauto|]);
  (destruct (_ || _); [eauto|]);
  (destruct (negb _); [eauto|]).
- destruct (compare_keys_total None o1 o2 (own_keys o1)) as [ds ->];
    [discriminate | cbn [bind]; eauto].
- destruct (compare_keys_total (Some (isDeepEqual_at b)) o1 o2 (own_keys o1))
    as [ds ->]; [|cbn [bind]; eauto].
  intros f k Hf Hn. injection Hf as <-.
  apply andb_prop in Hn. destruct Hn as [Hn1 Hn2].
  apply IH; now apply nested_not_nullish.
Qed.

Lemma loop_step_mismatch (c : bool) (rest : result (list bool))
    (ds : list bool) :
rest = Ok ds -> existsb negb ds = true ->
exists diffs,
  (if c then d <- rest ;; Ok (c :: d) else Ok [c]) = Ok diffs
  /\ existsb negb diffs = true.
Proof.
intros -> Hex. destruct c; cbn [bind]; eexists; (split; [reflexivity|]);
  cbn [existsb negb orb]; auto.
Qed.

(** A loop that meets a mismatch records [false]. *)
Lemma compare_keys_detects nested (o1 o2 : value) (ks : list string)
    (k : string) :
(forall f k, nested = Some f ->
             _isPropertyNestedObject o1 k && _isPropertyNestedObject o2 k
             = true ->
             exists r, f (prop o1 k) (prop o2 k) = Ok r) ->
In k ks ->
(_isPropertyNestedObject o1 k && _isPropertyNestedObject o2 k = true
 /\ exists f, nested = Some f /\ f (prop o1 k) (prop o2 k) = Ok false)
\/ (_isPropertyNestedObject o1 k && _isPropertyNestedObject o2 k = false
    /\ (isEmptyObject (prop o1 k) && isEmptyObject (prop o2 k))
       || (has_own o2 k && strict_equal (prop o2 k) (prop o1 k)) = false) ->
exists diffs,
  compare_keys nested o1 o2 ks = Ok diffs /\ existsb negb diffs = true.
Proof.
intros Hrec Hin Hk. induction ks as [|k0 ks IH]; [destruct Hin|].
cbn [compare_keys]. fold (compare_keys nested o1 o2).
destruct (string_dec k0 k) as [->|Hne].
- destruct Hk as [[Hn [f [-> Hf]]] | [Hn Hr]]; rewrite Hn.
  + rewrite Hf. cbn [bind].
    destruct (compare_keys_total (Some f) o1 o2 ks Hrec) as [ds ->].
    cbn [bind]. eexists. split; [reflexivity | reflexivity].
  + rewrite Hr. destruct nested; eexists; split; reflexivity.
- destruct Hin as [?|Hin]; [contradiction|].
  destruct (IH Hin) as [ds [Hds Hex]].
  destruct (_isPropertyNestedObject o1 k0 && _isPropertyNestedObject o2 k0)
    eqn:Hn; [destruct nested as [f|] eqn:Hf|].
  + destruct (Hrec f k0 eq_refl Hn) as [r ->]. cbn [bind].
    rewrite Hds. cbn [bind]. eexists. split; [reflexivity|].
    cbn [existsb]. rewrite Hex. apply orb_true_r.
  + now apply loop_step_mismatch with (ds := ds).
  + destruct nested; now apply loop_step_mismatch with (ds := ds).
Qed.

(** A loop over properties that all compare equal records no mismatch. *)
Lemma compare_keys_same nested (v : value) (ks : list string) :
(forall k, In k ks -> has_own v k = true) ->
(forall k, In k ks ->
           is_primitive (prop v k) || isEmptyObject (prop v k) = true
           \/ (_isPropertyNestedObject v k = true
               /\ exists f, nested = Some f
                            /\ f (prop v k) (prop v k) = Ok true)) ->
exists diffs,
  compare_keys nested v v ks = Ok diffs /\ existsb negb diffs = false.
Proof.
intros Hown Hks. induction ks as [|k ks IH].
- exists []. split; reflexivity.
- destruct IH as [ds [Hds Hex]].
  { intros k' Hk'. apply Hown. now right. }
  { intros k' Hk'. apply Hks. now right. }
  cbn [compare_keys]. fold (compare_keys nested v v). rewrite Hds.
  destruct (Hks k (or_introl eq_refl)) as [Hp | [Hn [f [-> Hf]]]].
  + rewrite (primitive_not_nested v k Hp). cbn [andb].
    assert ((isEmptyObject (prop v k) && isEmptyObject (prop v k))
            || (has_own v k && strict_equal (prop v k) (prop v k)) = true)
      as ->.
    { rewrite (Hown k (or_introl eq_refl)). cbn [andb].
      destruct (isEmptyObject (prop v k)) eqn:He; [reflexivity|].
      rewrite orb_false_r in Hp. cbn [andb orb].
      now apply strict_equal_primitive_refl. }
    destruct nested; cbn [bind]; eexists; (split; [reflexivity|]);
      cbn [existsb negb orb]; assumption.
  + rewrite Hn. cbn [andb]. rewrite Hf. cbn [bind].
    eexists. split; [reflexivity|]. cbn [existsb negb orb]. assumption.
Qed.

(** A value of plain content is deep-equal to itself, whichever objects
    the identity takes for the same. *)
Lemma isDeepEqual_at_plain (budget : nat) (v : value) :
nullish v = false -> plain budget v = true ->
isDeepEqual_at budget v v = Ok true.
Proof.
revert v. induction budget as [|b IH]; intros v Hv Hp;
  rewrite isDeepEqual_at_eq; unfold object_keys; rewrite Hv; cbn [bind];
  (destruct (_ && strict_equal v v); [reflexivity|]);
  (assert ((isEmptyObject v && negb (isEmptyObject v))
           || (negb (isEmptyObject v) && isEmptyObject v) = false) as ->
      by (now destruct (isEmptyObject v)));
  rewrite Nat.eqb_refl; cbn [negb];
  cbn [plain] in Hp; rewrite forallb_forall in Hp.
- destruct (compare_keys_same None v (own_keys v)) as [ds [-> Hex]].
  + apply has_own_own_keys.
  + intros k Hk. left. specialize (Hp k Hk). now rewrite orb_false_r in Hp.
  + cbn [bind]. now rewrite Hex.
- destruct (compare_keys_same (Some (isDeepEqual_at b)) v (own_keys v))
    as [ds [-> Hex]].
  + apply has_own_own_keys.
  + intros k Hk. specialize (Hp k Hk).
    apply orb_prop in Hp. destruct Hp as [Hp | Hp]; [now left|].
    apply andb_prop in Hp. destruct Hp as [Hn Hpl]. right.
    split; [assumption|]. eexists. split; [reflexivity|].
    apply IH; [now apply nested_not_nullish | assumption].
  + cbn [bind]. now rewrite Hex.
Qed.
End DeepEqualFacts.

Lemma isEmptyObject_primitive (x : value) :
is_primitive x = true -> isEmptyObject x = false.
Proof.
destruct x; try discriminate; intros _; unfold isEmptyObject; cbn;
  now rewrite ?andb_false_r.
Qed.

Lemma isEmptyObject_obj (p : object) :
isEmptyObject (VObj p) = false <-> p <> [].
Proof.
unfold isEmptyObject. cbn [truthy typeof String.eqb andb own_keys].
change ("object" =? "object") with true. cbn [andb]. split.
- intros H ->. discriminate H.
- intros Hne. apply Nat.eqb_neq. intros Hlen.
  apply length_zero_iff_nil, ordered_keys_nil in Hlen.
  destruct p; [now elim Hne | discriminate].
Qed.

Lemma length_indices_upto (n : nat) : List.length (indices_upto n) = n.
Proof. unfold indices_upto. now rewrite length_map, length_seq. Qed.

Lemma In_indices_upto (i n : nat) :
i < n -> In (key_of_index (N.of_nat i)) (indices_upto n).
Proof.
intros Hi. unfold indices_upto. apply in_map_iff. exists i.
split; [reflexivity | apply in_seq; lia].
Qed.

Lemma isEmptyObject_arr (l : list value) :
isEmptyObject (VArr l) = false <-> l <> [].
Proof.
unfold isEmptyObject. cbn [truthy typeof own_keys].
change ("object" =? "object") with true. cbn [andb].
rewrite length_indices_upto. split.
- intros H ->. discriminate H.
- intros Hne. destruct l; [now elim Hne | reflexivity].
Qed.

Section Detection.
Context {I : ObjectIdentity} {Sound : SoundIdentity I}.

Lemma strict_equal_objects_sound (a b : value) :
is_primitive a = false -> strict_equal a b = true -> a = b.
Proof.
intros Ha H. destruct a; try discriminate Ha;
  destruct b; try discriminate H; now apply same_object_sound.
Qed.

Lemma nested_total (b : nat) (o1 o2 : value) :
forall f k,
  match b with S b' => Some (isDeepEqual_at b') | O => None end = Some f ->
  _isPropertyNestedObject o1 k && _isPropertyNestedObject o2 k = true ->
  exists r, f (prop o1 k) (prop o2 k) = Ok r.
Proof.
intros f k Hf Hn. destruct b as [|b']; [discriminate|].
injection Hf as <-. apply andb_prop in Hn. destruct Hn as [Hn1 Hn2].
apply isDeepEqual_at_total; now apply nested_not_nullish.
Qed.

(** Two objects that differ in a property of primitive value are found
    different. *)
Lemma isDeepEqual_at_detects_property (b : nat) (p q : object) (k : string)
    (x x' : value) :
lookup k p = Some x -> lookup k q = Some x' ->
is_primitive x = true -> is_primitive x' = true -> x <> x' ->
isDeepEqual_at b (VObj p) (VObj q) = Ok false.
Proof.
intros Hp Hq Hx Hx' Hne. rewrite isDeepEqual_at_eq.
assert (strict_equal (VObj p) (VObj q) = false) as ->.
{ destruct (strict_equal (VObj p) (VObj q)) eqn:Hs; [|reflexivity].
  apply strict_equal_objects_sound in Hs; [|reflexivity].
  injection Hs as ->. congruence. }
rewrite andb_false_r.
assert (isEmptyObject (VObj p) = false) as ->
  by (apply isEmptyObject_obj; intros ->; discriminate).
assert (isEmptyObject (VObj q) = false) as ->
  by (apply isEmptyObject_obj; intros ->; discriminate).
cbn [andb orb negb object_keys nullish is_undefined is_null bind].
destruct (negb _); [reflexivity|].
destruct (compare_keys_detects
            (match b with S b' => Some (isDeepEqual_at b') | O => None end)
            (VObj p) (VObj q) (own_keys (VObj p)) k) as [ds [-> Hex]].
- apply nested_total.
- apply In_own_keys_obj, lookup_Some_In. eauto.
- right.
  assert (prop (VObj p) k = x) as Hpx by (cbn; now rewrite Hp).
  assert (prop (VObj q) k = x') as Hqx by (cbn; now rewrite Hq).
  split.
  + rewrite (primitive_not_nested (VObj p) k); [reflexivity|].
    now rewrite Hpx, Hx.
  + rewrite Hpx, Hqx, (isEmptyObject_primitive x Hx). cbn [andb orb].
    destruct (strict_equal x' x) eqn:Hs; [|apply andb_false_r].
    apply strict_equal_primitive_eq in Hs; [congruence | assumption].
- cbn [bind]. now rewrite Hex.
Qed.

(** Two arrays of equal length that hold, at some index, two objects
    found different, are found different. *)
Lemma isDeepEqual_detects_element (l1 l2 : list value) (i : nat)
    (p q : object) :
List.length l1 = List.length l2 -> i < List.length l1 ->
nth i l1 VUndefined = VObj p -> nth i l2 VUndefined = VObj q ->
p <> [] -> q <> [] -> p <> q ->
isDeepEqual_at 19 (VObj p) (VObj q) = Ok false ->
isDeepEqual (VArr l1) (VArr l2) = Ok false.
Proof.
intros Hlen Hi H1 H2 Hp Hq Hpq Hd. unfold isDeepEqual, MAX_DEPTH.
rewrite isDeepEqual_at_eq.
assert (strict_equal (VArr l1) (VArr l2) = false) as ->.
{ destruct (strict_equal (VArr l1) (VArr l2)) eqn:Hs; [|reflexivity].
  apply strict_equal_objects_sound in Hs; [|reflexivity].
  injection Hs as ->. congruence. }
rewrite andb_false_r.
assert (isEmptyObject (VArr l1) = false) as ->
  by (apply isEmptyObject_arr; intros ->; simpl in Hi; lia).
assert (isEmptyObject (VArr l2) = false) as ->
  by (apply isEmptyObject_arr; intros ->; simpl in Hlen; lia).
cbn [andb orb negb object_keys nullish is_undefined is_null bind own_keys].
rewrite !length_indices_upto, Hlen, Nat.eqb_refl. cbn [negb].
destruct (compare_keys_detects (Some (isDeepEqual_at 19))
            (VArr l1) (VArr l2) (indices_upto (List.length l2))
            (key_of_index (N.of_nat i))) as [ds [-> Hex]].
- apply (nested_total 20).
- apply In_indices_upto. lia.
- left.
  assert (forall l r, nth i l VUndefined = VObj r -> i < List.length l ->
                      r <> [] ->
                      _isPropertyNestedObject (VArr l)
                        (key_of_index (N.of_nat i)) = true) as Hnest.
  { intros l r Hnth Hil Hr. unfold _isPropertyNestedObject.
    rewrite (has_own_own_keys (VArr l))
      by (now apply In_indices_upto).
    rewrite prop_array_index, Hnth.
    assert (isEmptyObject (VObj r) = false) as ->
      by (now apply isEmptyObject_obj).
    reflexivity. }
  split.
  + rewrite (Hnest l1 p), (Hnest l2 q); try assumption; [reflexivity | lia].
  + exists (isDeepEqual_at 19). split; [reflexivity|].
    now rewrite !prop_array_index, H1, H2.
- cbn [bind]. now rewrite Hex.
Qed.

(** Two arrays of different lengths are found different. *)
Lemma isDeepEqual_detects_length (l1 l2 : list value) :
List.length l1 <> List.length l2 ->
isDeepEqual (VArr l1) (VArr l2) = Ok false.
Proof.
intros Hlen. unfold isDeepEqual, MAX_DEPTH. rewrite isDeepEqual_at_eq.
assert (strict_equal (VArr l1) (VArr l2) = false) as ->.
{ destruct (strict_equal (VArr l1) (VArr l2)) eqn:Hs; [|reflexivity].
  apply strict_equal_objects_sound in Hs; [|reflexivity].
  injection Hs as ->. congruence. }
rewrite andb_false_r.
destruct (_ || _); [reflexivity|].
cbn [object_keys nullish is_undefined is_null orb bind own_keys].
rewrite !length_indices_upto.
apply Nat.eqb_neq in Hlen. now rewrite Hlen.
Qed.
End Detection.

(** ** [checkForGraphElementsChanges] *)

Lemma lookup_In {V : Type} (k : string) (p : list (string * V)) (v : V) :
lookup k p = Some v -> In (k, v) p.
Proof.
induction p as [|[k' v'] p IH]; simpl; [discriminate|].
destruct (k' =? k) eqn:Hk.
- apply String.eqb_eq in Hk. intros H. injection H as <-. subst. now left.
- intros H. right. now apply IH.
Qed.

Lemma includes_In (props : list string) (k : string) :
includes props k = true <-> In k props.
Proof.
unfold includes. rewrite existsb_exists. split.
- intros [x [Hin Hx]]. apply String.eqb_eq in Hx. now subst.
- intros Hin. exists k. split; [assumption | apply String.eqb_refl].
Qed.

Lemma antiPick_object (p : object) (props : list string) :
exists o,
  antiPick (VObj p) props = Ok o
  /\ forall k, lookup k o = if includes props k then None else lookup k p.
Proof.
unfold antiPick, object_keys.
cbn [nullish is_undefined is_null orb bind].
destruct (pick_from_total (VObj p)
            (filter (fun k => negb (includes props k)) (own_keys (VObj p)))
            [] eq_refl) as [o Ho].
exists o. split; [exact Ho|]. intros k.
rewrite (pick_lookup _ _ _ Ho k).
destruct (in_dec string_dec k
            (filter (fun k0 => negb (includes props k0)) (own_keys (VObj p))))
  as [Hin|Hn].
- apply filter_In in Hin. destruct Hin as [Hin Hinc].
  apply negb_true_iff in Hinc. rewrite Hinc.
  rewrite (has_own_own_keys _ _ Hin).
  apply In_own_keys_obj, lookup_Some_In in Hin. destruct Hin as [v Hv].
  cbn [prop]. now rewrite Hv.
- destruct (includes props k) eqn:Hinc; [reflexivity|].
  symmetry. apply lookup_None. intros Hin. apply Hn, filter_In.
  split; [now apply In_own_keys_obj | now rewrite Hinc].
Qed.

Lemma comparable_object (p : object) :
exists o,
  comparable (VObj p) = VObj o
  /\ antiPick (VObj p) NODE_PROPERTIES_DISCARD_TO_COMPARE = Ok o
  /\ forall k, lookup k o
               = if includes NODE_PROPERTIES_DISCARD_TO_COMPARE k then None
                 else lookup k p.
Proof.
destruct (antiPick_object p NODE_PROPERTIES_DISCARD_TO_COMPARE)
  as [o [Ho Hk]].
exists o. unfold comparable. rewrite Ho. auto.
Qed.

Lemma plain_flat (b : nat) (v : value) :
flat v = true -> plain b v = true.
Proof.
destruct v; try discriminate. cbn [flat]. intros Hf.
rewrite forallb_forall in Hf.
assert (forall k, In k (own_keys (VObj props)) ->
                  is_primitive (prop (VObj props) k) = true) as Hprim.
{ intros k Hk. apply In_own_keys_obj, lookup_Some_In in Hk.
  destruct Hk as [x Hx]. cbn [prop]. rewrite Hx.
  apply (Hf (k, x)). now apply lookup_In. }
destruct b; cbn [plain]; apply forallb_forall; intros k Hk;
  now rewrite (Hprim k Hk).
Qed.

Lemma plain_array_of_flat (b : nat) (l : list value) :
Forall (fun v => flat v = true) l -> plain (S b) (VArr l) = true.
Proof.
intros Hl. cbn [plain]. apply forallb_forall. intros k Hk.
cbn [own_keys] in Hk. unfold indices_upto in Hk. apply in_map_iff in Hk.
destruct Hk as [i [<- Hi]]. apply in_seq in Hi.
assert (flat (nth i l VUndefined) = true) as Hf.
{ apply (proj1 (Forall_forall _ _) Hl). apply nth_In. lia. }
unfold _isPropertyNestedObject.
rewrite (has_own_own_keys (VArr l)) by (apply In_indices_upto; lia).
rewrite prop_array_index.
rewrite (plain_flat b _ Hf).
destruct (nth i l VUndefined) eqn:Hn; try discriminate Hf.
destruct (isEmptyObject (VObj props)); reflexivity.
Qed.

Section ElementsChanges.
Context {E : Environment} {I : ObjectIdentity}.

Lemma mapM_comparable_node (ns : list value) :
Forall (fun n => is_object n = true) ns ->
mapM comparable_node ns = Ok (map comparable ns).
Proof.
induction 1 as [|n ns Hn Hns IH]; [reflexivity|].
cbn [mapM map]. destruct n; try discriminate Hn.
destruct (comparable_object props) as [o [Hc [Ha _]]].
assert (comparable_node (VObj props) = Ok (VObj o)) as ->
  by (unfold comparable_node; now rewrite Ha).
rewrite Hc. cbn [bind]. now rewrite IH.
Qed.

Lemma comparable_link_ends (l : value) :
has_ends l = true -> comparable_link l = Ok (ends l).
Proof.
unfold has_ends. intros H.
apply andb_prop in H. destruct H as [H Ht].
apply andb_prop in H. destruct H as [Hl Hs].
apply negb_true_iff in Hl, Hs, Ht.
unfold comparable_link, endpoint_id, get. rewrite Hl. cbn [bind].
rewrite Hs. cbn [bind]. now rewrite Ht.
Qed.

Lemma mapM_comparable_link (ls : list value) :
Forall (fun l => has_ends l = true) ls ->
mapM comparable_link ls = Ok (map ends ls).
Proof.
induction 1 as [|l ls Hl Hls IH]; [reflexivity|].
cbn [mapM map]. rewrite (comparable_link_ends l Hl). cbn [bind].
now rewrite IH.
Qed.

Lemma source_target_ends (ls : list value) :
map source_target (map ends ls) = map ends ls.
Proof. rewrite map_map. apply map_ext. reflexivity. Qed.

(** The comparisons [checkForGraphElementsChanges] makes, on nodes that
    are objects and state links whose ends can be read. *)
Lemma checkForGraphElementsChanges_eq (nextProps currentState data : value)
    (ns ls sns sls : list value) :
get nextProps "data" = Ok data ->
get data "nodes" = Ok (VArr ns) ->
get data "links" = Ok (VArr ls) ->
get currentState "d3Nodes" = Ok (VArr sns) ->
get currentState "d3Links" = Ok (VArr sls) ->
Forall (fun n => is_object n = true) ns ->
Forall (fun n => is_object n = true) sns ->
Forall (fun l => has_ends l = true) sls ->
checkForGraphElementsChanges nextProps currentState
= (sameNodes <- isDeepEqual (VArr (map comparable ns))
                            (VArr (map comparable sns)) ;;
   same <- (if sameNodes then isDeepEqual (VArr ls) (VArr (map ends sls))
            else Ok false) ;;
   newGraphElements <-
     (if negb (List.length ns =? List.length sns)%nat then Ok true
      else if negb (List.length ls =? List.length sls)%nat then Ok true
      else
        sameIds <- isDeepEqual
                     (VArr (map id_only (map comparable ns)))
                     (VArr (map id_only (map comparable sns))) ;;
        if negb sameIds then Ok true
        else
          sameEnds <- isDeepEqual (VArr ls) (VArr (map ends sls)) ;;
          Ok (negb sameEnds)) ;;
   Ok {| ElementsChanges.graphElementsUpdated := negb same;
         ElementsChanges.newGraphElements := newGraphElements |}).
Proof.
intros Hd Hn Hl Hsn Hsl Hns Hsns Hsls. unfold checkForGraphElementsChanges.
rewrite Hd. cbn [bind]. rewrite Hn. cbn [bind as_array].
rewrite (mapM_comparable_node ns Hns). cbn [bind]. rewrite Hl. cbn [bind].
rewrite Hsn. cbn [bind as_array].
rewrite (mapM_comparable_node sns Hsns). cbn [bind]. rewrite Hsl.
cbn [bind as_array]. rewrite (mapM_comparable_link sls Hsls). cbn [bind].
rewrite source_target_ends.
assert (forall a b : list value,
           strict_equal (array_length a) (array_length b)
           = (List.length a =? List.length b)%nat) as Hlen.
{ intros a b. unfold array_length. cbn [strict_equal].
  destruct (List.length a =? List.length b)%nat eqn:Hab.
  - apply Nat.eqb_eq in Hab. rewrite Hab. apply Z.eqb_refl.
  - apply Nat.eqb_neq in Hab. apply Z.eqb_neq. lia. }
rewrite Hlen, !length_map.
change (get (VArr ls) "length") with (Ok (array_length ls)). cbn [bind].
rewrite Hlen, !length_map. reflexivity.
Qed.
End ElementsChanges.

Section ElementsChangesCases.
Context {E : Environment} {I : ObjectIdentity}.

Lemma isDeepEqual_plain_array (l : list value) :
plain MAX_DEPTH (VArr l) = true -> isDeepEqual (VArr l) (VArr l) = Ok true.
Proof. intros Hp. now apply isDeepEqual_at_plain. Qed.

Lemma id_only_comparable (ns : list value) :
Forall (fun n => is_object n = true) ns ->
map id_only (map comparable ns)
= map (fun i => VObj [("id", i)]) (map (fun n => prop n "id") ns).
Proof.
intros Hns. rewrite !map_map. apply map_ext_in. intros n Hin.
apply (proj1 (Forall_forall _ _) Hns) in Hin.
destruct n; try discriminate Hin.
destruct (comparable_object props) as [o [-> [_ Hk]]].
unfold id_only. cbn [prop]. now rewrite (Hk "id").
Qed.

Lemma plain_ids (ns : list value) :
primitive_ids ns ->
plain MAX_DEPTH
  (VArr (map (fun i => VObj [("id", i)]) (map (fun n => prop n "id") ns)))
= true.
Proof.
intros Hids. apply plain_array_of_flat. rewrite map_map.
apply Forall_forall. intros v Hv. apply in_map_iff in Hv.
destruct Hv as [n [<- Hin]]. cbn [flat forallb snd].
now rewrite (proj1 (Forall_forall _ _) Hids n Hin).
Qed.

Lemma same_links_deep_equal (ls sls : list value) :
same_links ls sls ->
List.length ls = List.length sls
/\ isDeepEqual (VArr ls) (VArr (map ends sls)) = Ok true.
Proof.
intros [-> Hflat]. split; [apply length_map|].
apply isDeepEqual_plain_array, plain_array_of_flat.
apply Forall_forall. intros v Hv. apply in_map_iff in Hv.
destruct Hv as [l [<- Hin]].
now apply (proj1 (Forall_forall _ _) Hflat).
Qed.

(** Same ids and same links: no new graph element. *)
Lemma no_new_elements (ns ls sns sls : list value) :
Forall (fun n => is_object n = true) ns ->
Forall (fun n => is_object n = true) sns ->
List.length ns = List.length sns ->
map (fun n => prop n "id") ns = map (fun n => prop n "id") sns ->
primitive_ids ns ->
same_links ls sls ->
(if negb (List.length ns =? List.length sns)%nat then Ok true
 else if negb (List.length ls =? List.length sls)%nat then Ok true
 else
   sameIds <- isDeepEqual (VArr (map id_only (map comparable ns)))
                          (VArr (map id_only (map comparable sns))) ;;
   if negb sameIds then Ok true
   else
     sameEnds <- isDeepEqual (VArr ls) (VArr (map ends sls)) ;;
     Ok (negb sameEnds)) = Ok false.
Proof.
intros Hns Hsns Hlen Hids Hprim Hlinks.
destruct (same_links_deep_equal ls sls Hlinks) as [Hll Hle].
rewrite Hlen, Hll, !Nat.eqb_refl. cbn [negb].
rewrite (id_only_comparable ns Hns), (id_only_comparable sns Hsns), <- Hids.
rewrite (isDeepEqual_plain_array _ (plain_ids ns Hprim)). cbn [bind negb].
rewrite Hle. reflexivity.
Qed.
End ElementsChangesCases.

Lemma all_distinct_sound : SoundIdentity all_distinct.
Proof. intros a b H. discriminate H. Qed.

(** Two departures from the claim as it is written.  A node property that
    goes from the empty object to the empty array is a change that is not
    seen, since two empty objects count as equal: both flags are [false].
    A node that is the node of the state, but holds objects nested beyond
    [MAX_DEPTH], is compared there by identity: it is reported as updated,
    where one level less is not. *)
Lemma elements_changes_beyond_the_comparison :
let run ns sns :=
  @checkForGraphElementsChanges all_distinct
    (graph_props "g" VUndefined ns [link_between "A" "B"])
    (VObj [("d3Nodes", VArr sns);
           ("d3Links", VArr [link_between "A" "B"])]) in
let tagged tags := VObj [("id", VStr "A"); ("tags", tags)] in
let deep d := VObj [("id", VStr "A"); ("meta", nested_chain d)] in
run [tagged (VArr []); node_named "B"] [tagged (VObj []); node_named "B"]
= Ok (changes false false)
/\ run [deep 19; node_named "B"] [deep 19; node_named "B"]
   = Ok (changes true false)
/\ run [deep 18; node_named "B"] [deep 18; node_named "B"]
   = Ok (changes false false).
Proof.
cbv zeta. repeat split; vm_compute; reflexivity.
Qed.

(** The input is the current state but for the discarded fields, and its
    one link declares a value as the link of the state does: both flags
    are [true]. *)
Lemma link_with_value_reported_as_new :
let ns := [node_named "A"; node_named "B"] in
let sns :=
  [VObj [("id", VStr "A"); ("x", VNum 1); ("y", VNum 2)];
   VObj [("id", VStr "B"); ("x", VNum 3); ("y", VNum 4)]] in
let ls :=
  [VObj [("source", VStr "A"); ("target", VStr "B"); ("value", VNum 2)]] in
map comparable ns = map comparable sns
/\ @checkForGraphElementsChanges all_distinct
     (graph_props "g" VUndefined ns ls)
     (VObj [("d3Nodes", VArr sns); ("d3Links", VArr ls)])
   = Ok (changes true true).
Proof.
cbv zeta. split; vm_compute; reflexivity.
Qed.

(** ** [updateNodeHighlightedValue] leaves its arguments alone *)

Section Frame.
Variable n0 : nat.

Lemma keeps_ret {A : Type} (a : A) (P : A -> Prop) :
P a -> keeps n0 (Store.ret a) P.
Proof. intros Ha h Hh. cbn. auto. Qed.

Lemma keeps_bind {A B : Type} (c : Store.M A) (k : A -> Store.M B)
    (P : A -> Prop) (Q : B -> Prop) :
keeps n0 c P -> (forall a, P a -> keeps n0 (k a) Q) ->
keeps n0 (Store.mbind c k) Q.
Proof.
intros Hc Hk h Hh. unfold Store.mbind. specialize (Hc h Hh).
destruct (c h) as [[a h1]|e]; [|exact I].
destruct Hc as (Hn & Hcells & Ha). specialize (Hk a Ha h1 Hn).
destruct (k a h1) as [[b h2]|e]; [|exact I].
destruct Hk as (Hn2 & Hcells2 & Hb). repeat split; try assumption.
intros l Hl. now rewrite Hcells2, Hcells.
Qed.

Lemma keeps_read (v : Store.sval) (k : string) :
keeps n0 (Store.read v k) (fun _ => True).
Proof.
intros h Hh. unfold Store.read. destruct (Store.s_nullish v); cbn; auto.
Qed.

Lemma keeps_keys_of (v : Store.sval) :
keeps n0 (Store.keys_of v) (fun _ => True).
Proof.
intros h Hh. unfold Store.keys_of. destruct (Store.s_nullish v); cbn; auto.
Qed.

Lemma keeps_alloc (r : Store.record) :
keeps n0 (Store.alloc r) (fun l => n0 <= l).
Proof.
intros h Hh. cbn. repeat split; try lia.
intros l Hl. destruct (Nat.eqb_spec l (Store.next h)); [lia | reflexivity].
Qed.

Lemma keeps_write (t : Store.loc) (r : Store.record) (h : Store.store) :
n0 <= t -> n0 <= Store.next h ->
n0 <= Store.next (Store.write t r h)
/\ forall l, l < n0 ->
             Store.cells (Store.write t r h) l = Store.cells h l.
Proof.
intros Ht Hh. cbn. split; [assumption|].
intros l Hl. destruct (Nat.eqb_spec l t); [lia | reflexivity].
Qed.

Lemma keeps_assign_from (t : Store.loc) (s : Store.sval) :
n0 <= t -> keeps n0 (Store.assign_from t s) (fun _ => True).
Proof.
intros Ht h Hh. unfold Store.assign_from.
destruct (keeps_write t
            (assign_all (Store.cells h t) (Store.sentries h s)) h Ht Hh).
auto.
Qed.

Lemma keeps_object_assign (t : Store.loc) (sources : list Store.sval) :
n0 <= t -> keeps n0 (Store.object_assign t sources) (fun l => l = t).
Proof.
intros Ht. induction sources as [|s rest IH]; cbn [Store.object_assign].
- now apply keeps_ret.
- eapply keeps_bind; [now apply keeps_assign_from | intros _ _; exact IH].
Qed.

Lemma keeps_defineProperty (obj : Store.loc) (key : string)
    (v : Store.sval) :
n0 <= obj -> keeps n0 (Store._defineProperty obj key v) (fun l => l = obj).
Proof.
intros Ho h Hh. unfold Store._defineProperty.
destruct (keeps_write obj (assign key v (Store.cells h obj)) h Ho Hh).
auto.
Qed.

Lemma keeps_reduce {A : Type} (f : A -> string -> Store.M A)
    (P : A -> Prop) (ks : list string) (acc : A) :
(forall a k, P a -> keeps n0 (f a k) P) -> P acc ->
keeps n0 (Store.reduce f ks acc) P.
Proof.
intros Hf. revert acc. induction ks as [|k ks IH]; intros acc Hacc;
  cbn [Store.reduce].
- now apply keeps_ret.
- eapply keeps_bind; [now apply Hf | exact IH].
Qed.

Lemma keeps_weaken {A : Type} (c : Store.M A) (P Q : A -> Prop) :
keeps n0 c P -> (forall a, P a -> Q a) -> keeps n0 c Q.
Proof.
intros Hc HPQ h Hh. specialize (Hc h Hh).
destruct (c h) as [[a h']|e]; [|exact I]. intuition.
Qed.

Lemma keeps_highlighted_copy (source value : Store.sval) :
keeps n0 (Store.highlighted_copy source value) (fun l => n0 <= l).
Proof.
unfold Store.highlighted_copy.
eapply keeps_bind; [apply keeps_alloc|]. intros target Ht.
eapply keeps_bind; [apply keeps_alloc|]. intros flag _.
eapply keeps_weaken; [now apply keeps_object_assign|].
intros l ->. assumption.
Qed.

Lemma keeps_highlight_neighbour (updatedNodes : Store.loc)
    (value : Store.sval) (acc : Store.loc) (linkId : string) :
n0 <= acc ->
keeps n0 (Store.highlight_neighbour updatedNodes value acc linkId)
  (fun l => n0 <= l).
Proof.
intros Hacc. unfold Store.highlight_neighbour.
eapply keeps_bind; [apply keeps_read|]. intros neighbour _.
eapply keeps_bind; [apply keeps_highlighted_copy|]. intros updatedNode _.
eapply keeps_bind; [apply keeps_alloc|]. intros fresh Hf.
eapply keeps_bind; [now apply keeps_defineProperty|]. intros entry _.
eapply keeps_weaken; [now apply keeps_object_assign|].
intros l ->. assumption.
Qed.

Lemma keeps_updateNodeHighlightedValue
    (nodes links config id value_arg : Store.sval) :
keeps n0 (Store.updateNodeHighlightedValue nodes links config id value_arg)
  (fun res => exists m, Store.nodes res = Store.SRef m /\ n0 <= m).
Proof.
unfold Store.updateNodeHighlightedValue.
eapply keeps_bind; [apply keeps_read|]. intros current _.
eapply keeps_bind; [apply keeps_highlighted_copy|]. intros node _.
eapply keeps_bind; [apply keeps_alloc|]. intros target Ht.
eapply keeps_bind; [apply keeps_alloc|]. intros fresh Hf.
eapply keeps_bind; [now apply keeps_defineProperty|]. intros entry _.
eapply keeps_bind; [now apply keeps_object_assign|]. intros updatedNodes ->.
eapply keeps_bind; [apply keeps_read|]. intros row _.
eapply keeps_bind with (P := fun _ => True).
{ destruct (Store.s_truthy row); [|now apply keeps_ret].
  eapply keeps_bind; [apply keeps_read|]. intros d _. now apply keeps_ret. }
intros propagate _.
eapply keeps_bind with (P := fun l => n0 <= l).
{ destruct propagate; [|now apply keeps_ret].
  eapply keeps_bind; [apply keeps_keys_of|]. intros ks _.
  apply keeps_reduce; [|assumption].
  intros a k Ha. now apply keeps_highlight_neighbour. }
intros m Hm. apply keeps_ret. exists m. auto.
Qed.
End Frame.

Section Returns.
Lemma returns_bind {A B : Type} (c : Store.M A) (k : A -> Store.M B)
    (P : A -> Prop) (Q : B -> Prop) :
returns c P -> (forall a, P a -> returns (k a) Q) ->
returns (Store.mbind c k) Q.
Proof.
intros Hc Hk h. unfold Store.mbind.
destruct (Hc h) as (a & h1 & -> & Ha). now apply Hk.
Qed.

Lemma returns_ret {A : Type} (a : A) (P : A -> Prop) :
P a -> returns (Store.ret a) P.
Proof. intros Ha h. unfold Store.ret. eauto. Qed.

Lemma returns_weaken {A : Type} (c : Store.M A) (P Q : A -> Prop) :
returns c P -> (forall a, P a -> Q a) -> returns c Q.
Proof. intros Hc HPQ h. destruct (Hc h) as (a & h' & Hr & Ha). eauto. Qed.

Lemma returns_read (v : Store.sval) (k : string) :
Store.s_nullish v = false -> returns (Store.read v k) (fun _ => True).
Proof. intros Hv h. unfold Store.read. rewrite Hv. eauto. Qed.

Lemma returns_keys_of (v : Store.sval) :
Store.s_nullish v = false -> returns (Store.keys_of v) (fun _ => True).
Proof. intros Hv h. unfold Store.keys_of. rewrite Hv. eauto. Qed.

Lemma returns_alloc (r : Store.record) :
returns (Store.alloc r) (fun _ => True).
Proof. intros h. unfold Store.alloc. eauto. Qed.

Lemma returns_defineProperty (obj : Store.loc) (key : string)
    (v : Store.sval) :
returns (Store._defineProperty obj key v) (fun _ => True).
Proof. intros h. unfold Store._defineProperty. eauto. Qed.

Lemma returns_object_assign (t : Store.loc) (sources : list Store.sval) :
returns (Store.object_assign t sources) (fun _ => True).
Proof.
induction sources as [|s rest IH]; cbn [Store.object_assign].
- now apply returns_ret.
- apply returns_bind with (P := fun _ => True); [|intros _ _; exact IH].
  intros h. unfold Store.assign_from. eauto.
Qed.

Lemma returns_highlighted_copy (source value : Store.sval) :
returns (Store.highlighted_copy source value) (fun _ => True).
Proof.
unfold Store.highlighted_copy.
eapply returns_bind; [apply returns_alloc|]. intros target _.
eapply returns_bind; [apply returns_alloc|]. intros flag _.
apply returns_object_assign.
Qed.

Lemma returns_highlight_neighbour (updatedNodes : Store.loc)
    (value : Store.sval) (acc : Store.loc) (linkId : string) :
returns (Store.highlight_neighbour updatedNodes value acc linkId)
  (fun _ => True).
Proof.
unfold Store.highlight_neighbour.
eapply returns_bind; [now apply returns_read|]. intros neighbour _.
eapply returns_bind; [apply returns_highlighted_copy|]. intros updatedNode _.
eapply returns_bind; [apply returns_alloc|]. intros fresh _.
eapply returns_bind; [apply returns_defineProperty|]. intros entry _.
apply returns_object_assign.
Qed.

Lemma returns_reduce {A : Type} (f : A -> string -> Store.M A)
    (ks : list string) (acc : A) :
(forall a k, returns (f a k) (fun _ => True)) ->
returns (Store.reduce f ks acc) (fun _ => True).
Proof.
intros Hf. revert acc. induction ks as [|k ks IH]; intros acc;
  cbn [Store.reduce].
- now apply returns_ret.
- eapply returns_bind; [apply Hf | intros a _; exact (IH a)].
Qed.

(** On a node map, a matrix and a configuration that are not [null] or
    [undefined], [updateNodeHighlightedValue] returns. *)
Lemma returns_updateNodeHighlightedValue
    (nodes links config id value_arg : Store.sval) :
Store.s_nullish nodes = false ->
Store.s_nullish links = false ->
Store.s_nullish config = false ->
returns (Store.updateNodeHighlightedValue nodes links config id value_arg)
  (fun _ => True).
Proof.
intros Hn Hl Hc. unfold Store.updateNodeHighlightedValue.
eapply returns_bind; [now apply returns_read|]. intros current _.
eapply returns_bind; [apply returns_highlighted_copy|]. intros node _.
eapply returns_bind; [apply returns_alloc|]. intros target _.
eapply returns_bind; [apply returns_alloc|]. intros fresh _.
eapply returns_bind; [apply returns_defineProperty|]. intros entry _.
eapply returns_bind; [apply returns_object_assign|]. intros updatedNodes _.
eapply returns_bind; [now apply returns_read|]. intros row _.
eapply returns_bind
  with (P := fun p => p = true -> Store.s_truthy row = true).
{ destruct (Store.s_truthy row); [|now apply returns_ret].
  eapply returns_bind; [now apply returns_read|]. intros d _.
  now apply returns_ret. }
intros propagate Hp.
eapply returns_bind with (P := fun _ => True);
  [|intros m _; now apply returns_ret].
destruct propagate; [|now apply returns_ret].
eapply returns_bind.
- apply returns_keys_of. specialize (Hp eq_refl).
  destruct row; try discriminate Hp; reflexivity.
- intros ks _. apply returns_reduce. intros a k.
  apply returns_highlight_neighbour.
Qed.
End Returns.

(** C7. [updateNodeHighlightedValue] returns whenever the node map, the
    matrix and the configuration are objects; it writes to none of the
    objects that exist when it is called -- the node map it receives and
    every node record reachable from it are as they were -- and the node
    map it returns is a new object. *)
Theorem updateNodeHighlightedValue_does_not_mutate
    (nodes links config id value_arg : Store.sval) (h : Store.store) :
(Store.s_nullish nodes = false ->
 Store.s_nullish links = false ->
 Store.s_nullish config = false ->
 exists res h',
   Store.updateNodeHighlightedValue nodes links config id value_arg h
   = Ok (res, h'))
/\ (forall res h',
      Store.updateNodeHighlightedValue nodes links config id value_arg h
      = Ok (res, h') ->
      (forall l, l < Store.next h -> Store.cells h' l = Store.cells h l)
      /\ exists m, Store.nodes res = Store.SRef m /\ Store.next h <= m).
Proof.
split.
- intros Hn Hl Hc.
  destruct (returns_updateNodeHighlightedValue nodes links config id
              value_arg Hn Hl Hc h) as (res & h' & Hr & _).
  eauto.
- intros res h' Hr.
  pose proof (keeps_updateNodeHighlightedValue (Store.next h) nodes links
                config id value_arg h (le_n _)) as Hk.
  rewrite Hr in Hk. destruct Hk as (_ & Hcells & Hm). auto.
Qed.


Lemma sample_update_does_not_mutate :
exists res h',
  Store.updateNodeHighlightedValue (Store.SRef 0) (Store.SRef 4)
    (Store.SRef 7) (Store.SStr "A") (Store.SBool true) sample_store
  = Ok (res, h')
  /\ (forall l, l < Store.next sample_store ->
                Store.cells h' l = Store.cells sample_store l)
  /\ exists m, Store.nodes res = Store.SRef m
               /\ Store.next sample_store <= m.
Proof.
destruct (proj1 (updateNodeHighlightedValue_does_not_mutate
                   (Store.SRef 0) (Store.SRef 4) (Store.SRef 7)
                   (Store.SStr "A") (Store.SBool true) sample_store)
            eq_refl eq_refl eq_refl) as (res & h' & Hr).
exists res, h'. split; [exact Hr|].
exact (proj2 (updateNodeHighlightedValue_does_not_mutate
                (Store.SRef 0) (Store.SRef 4) (Store.SRef 7)
                (Store.SStr "A") (Store.SBool true) sample_store)
         res h' Hr).
Defined.

(** ** The nodes [updateNodeHighlightedValue] highlights *)

Lemma ordered_keys_singleton (k : string) : ordered_keys [k] = [k].
Proof.
unfold ordered_keys, sorted_indices, is_index_key. cbn [fold_right filter].
destruct (index_of_key k) as [n|] eqn:Hk; cbn.
- now rewrite (index_of_key_Some k n Hk).
- reflexivity.
Qed.

Lemma sentries_singleton (h : Store.store) (l : Store.loc) (k : string)
    (v : Store.sval) :
Store.cells h l = [(k, v)] -> Store.sentries h (Store.SRef l) = [(k, v)].
Proof.
intros Hl. unfold Store.sentries, Store.skeys, Store.sprop. rewrite Hl.
cbn [map fst]. rewrite ordered_keys_singleton. cbn [map lookup].
now rewrite String.eqb_refl.
Qed.

Lemma lookup_rev_tabulate {V : Type} (f : string -> V) (ks : list string)
    (k : string) :
lookup k (List.rev (map (fun x => (x, f x)) ks))
= if in_dec string_dec k ks then Some (f k) else None.
Proof.
rewrite <- List.map_rev.
destruct (in_dec string_dec k ks) as [Hin|Hn].
- apply in_rev in Hin.
  induction (List.rev ks) as [|k' l IH]; [destruct Hin|].
  simpl. destruct (k' =? k) eqn:Hk.
  + apply String.eqb_eq in Hk. now subst.
  + apply String.eqb_neq in Hk. destruct Hin as [->|Hin]; [congruence|auto].
- apply lookup_None. rewrite map_map. simpl. rewrite map_id.
  now rewrite <- in_rev.
Qed.

(** [Object.assign] from an object of the store copies its properties. *)
Lemma lookup_assign_from_object (h : Store.store) (l : Store.loc)
    (target : Store.record) (k : string) :
lookup k (assign_all target (Store.sentries h (Store.SRef l)))
= match lookup k (Store.cells h l) with
  | Some x => Some x
  | None => lookup k target
  end.
Proof.
rewrite lookup_assign_all. unfold Store.sentries.
rewrite (lookup_rev_tabulate (Store.sprop h (Store.SRef l))).
cbn [Store.skeys Store.sprop].
destruct (in_dec string_dec k (ordered_keys (map fst (Store.cells h l))))
  as [Hin|Hn].
- apply In_ordered_keys, lookup_Some_In in Hin. destruct Hin as [x Hx].
  now rewrite Hx.
- rewrite In_ordered_keys in Hn. apply lookup_None in Hn. now rewrite Hn.
Qed.

Lemma alloc_run (r : Store.record) (h : Store.store) :
exists h',
  Store.alloc r h = Ok (Store.next h, h')
  /\ Store.next h' = S (Store.next h)
  /\ Store.cells h' (Store.next h) = r
  /\ forall l, l <> Store.next h -> Store.cells h' l = Store.cells h l.
Proof.
eexists. split; [reflexivity|]. cbn. split; [reflexivity|]. split.
- now rewrite Nat.eqb_refl.
- intros l Hl. apply Nat.eqb_neq in Hl. now rewrite Hl.
Qed.

Lemma assign_from_run (t : Store.loc) (s : Store.sval) (h : Store.store) :
exists h',
  Store.assign_from t s h = Ok (tt, h')
  /\ Store.next h' = Store.next h
  /\ Store.cells h' t = assign_all (Store.cells h t) (Store.sentries h s)
  /\ forall l, l <> t -> Store.cells h' l = Store.cells h l.
Proof.
eexists. split; [reflexivity|]. cbn. split; [reflexivity|]. split.
- now rewrite Nat.eqb_refl.
- intros l Hl. apply Nat.eqb_neq in Hl. now rewrite Hl.
Qed.

Lemma defineProperty_run (obj : Store.loc) (key : string) (v : Store.sval)
    (h : Store.store) :
exists h',
  Store._defineProperty obj key v h = Ok (obj, h')
  /\ Store.next h' = Store.next h
  /\ Store.cells h' obj = assign key v (Store.cells h obj)
  /\ forall l, l <> obj -> Store.cells h' l = Store.cells h l.
Proof.
eexists. split; [reflexivity|]. cbn. split; [reflexivity|]. split.
- now rewrite Nat.eqb_refl.
- intros l Hl. apply Nat.eqb_neq in Hl. now rewrite Hl.
Qed.

(** [Object.assign(target, source, other)] *)
Lemma object_assign_2_run (t : Store.loc) (s1 s2 : Store.sval)
    (h : Store.store) :
exists h1 h',
  Store.object_assign t [s1; s2] h = Ok (t, h')
  /\ Store.next h' = Store.next h
  /\ Store.cells h1 t = assign_all (Store.cells h t) (Store.sentries h s1)
  /\ (forall l, l <> t -> Store.cells h1 l = Store.cells h l)
  /\ Store.cells h' t = assign_all (Store.cells h1 t) (Store.sentries h1 s2)
  /\ forall l, l <> t -> Store.cells h' l = Store.cells h l.
Proof.
cbn [Store.object_assign]. unfold Store.mbind.
destruct (assign_from_run t s1 h) as (h1 & -> & Hn1 & Ht1 & Hf1).
destruct (assign_from_run t s2 h1) as (h2 & -> & Hn2 & Ht2 & Hf2).
exists h1, h2. unfold Store.ret. repeat split; try assumption.
- congruence.
- intros l Hl. now rewrite Hf2, Hf1.
Qed.

(** The copy is a new object, highlighted as [value]; nothing else is
    written. *)
Lemma highlighted_copy_run (source value : Store.sval) (h : Store.store) :
exists h',
  Store.highlighted_copy source value h = Ok (Store.next h, h')
  /\ Store.next h' = S (S (Store.next h))
  /\ lookup "highlighted" (Store.cells h' (Store.next h)) = Some value
  /\ forall l, l < Store.next h -> Store.cells h' l = Store.cells h l.
Proof.
unfold Store.highlighted_copy, Store.mbind.
destruct (alloc_run [] h) as (h1 & -> & Hn1 & Hc1 & Hf1).
destruct (alloc_run [("highlighted", value)] h1)
  as (h2 & -> & Hn2 & Hc2 & Hf2).
rewrite Hn1 in *.
destruct (object_assign_2_run (Store.next h) source
            (Store.SRef (S (Store.next h))) h2)
  as (h3 & h4 & -> & Hn4 & Ht3 & Hf3 & Ht4 & Hf4).
exists h4. split; [reflexivity|]. split; [congruence|]. split.
- rewrite Ht4.
  rewrite (sentries_singleton h3 (S (Store.next h)) "highlighted" value).
  + now rewrite lookup_assign_all.
  + rewrite Hf3 by lia. exact Hc2.
- intros l Hl. rewrite Hf4, Hf2, Hf1 by lia. reflexivity.
Qed.

(** One turn of the reduction stores, under [linkId], a new highlighted
    copy in the map [m], and writes nothing else. *)
Lemma highlight_neighbour_run (m : Store.loc) (value : Store.sval)
    (linkId : string) (h : Store.store) :
m < Store.next h ->
exists h',
  Store.highlight_neighbour m value m linkId h = Ok (m, h')
  /\ Store.next h < Store.next h'
  /\ Store.cells h' m
     = assign linkId (Store.SRef (Store.next h)) (Store.cells h m)
  /\ lookup "highlighted" (Store.cells h' (Store.next h)) = Some value
  /\ forall l, l < Store.next h -> l <> m ->
               Store.cells h' l = Store.cells h l.
Proof.
intros Hm. unfold Store.highlight_neighbour, Store.mbind at 1.
cbn [Store.read Store.s_nullish].
destruct (highlighted_copy_run (Store.sprop h (Store.SRef m) linkId) value h)
  as (h1 & Hrun & Hn1 & Hflag & Hf1).
unfold Store.mbind at 1. rewrite Hrun. unfold Store.mbind.
destruct (alloc_run [] h1) as (h2 & -> & Hn2 & Hc2 & Hf2).
destruct (defineProperty_run (Store.next h1) linkId
            (Store.SRef (Store.next h)) h2)
  as (h3 & -> & Hn3 & Hc3 & Hf3).
cbn [Store.object_assign]. unfold Store.mbind.
destruct (assign_from_run m (Store.SRef (Store.next h1)) h3)
  as (h4 & -> & Hn4 & Hc4 & Hf4).
exists h4. unfold Store.ret. split; [reflexivity|].
split; [lia|]. split; [|split].
- rewrite Hc4.
  rewrite (sentries_singleton h3 (Store.next h1) linkId
             (Store.SRef (Store.next h))).
  + cbn [assign_all fold_left fst snd].
    rewrite Hf3, Hf2, Hf1 by lia. reflexivity.
  + rewrite Hc3, Hc2. reflexivity.
- rewrite Hf4, Hf3, Hf2 by lia. exact Hflag.
- intros l Hl Hne. rewrite Hf4, Hf3, Hf2 by lia. now apply Hf1.
Qed.

(** The reduction over the keys of the row: every key gets a highlighted
    copy, the other entries of the map stay. *)
Lemma reduce_highlight_neighbour_run (m : Store.loc) (value : Store.sval)
    (ks : list string) (h : Store.store) :
m < Store.next h ->
exists h',
  Store.reduce (Store.highlight_neighbour m value) ks m h = Ok (m, h')
  /\ Store.next h <= Store.next h'
  /\ (forall l, l < Store.next h -> l <> m ->
                Store.cells h' l = Store.cells h l)
  /\ (forall k, In k ks -> highlighted_as h' m k value)
  /\ (forall k, ~ In k ks ->
                lookup k (Store.cells h' m) = lookup k (Store.cells h m)).
Proof.
revert h. induction ks as [|k0 ks IH]; intros h Hm.
- exists h. cbn. repeat split; auto. intros k [].
- cbn [Store.reduce]. unfold Store.mbind.
  destruct (highlight_neighbour_run m value k0 h Hm)
    as (h1 & -> & Hn1 & Hmap1 & Hflag1 & Hframe1).
  destruct (IH h1) as (h' & Hrun & Hn & Hframe & Hin & Hout); [lia|].
  exists h'. split; [exact Hrun|]. split; [lia|]. split; [|split].
  + intros l Hl Hne. rewrite Hframe by (lia || assumption).
    now apply Hframe1.
  + intros k Hk. destruct (in_dec string_dec k ks) as [Hks|Hks];
      [now apply Hin|].
    destruct Hk as [<-|Hk]; [|contradiction].
    exists (Store.next h). split.
    * rewrite (Hout k0 Hks), Hmap1. apply lookup_assign_same.
    * rewrite Hframe by lia. exact Hflag1.
  + intros k Hk. rewrite Hout by (intros Hks; apply Hk; now right).
    rewrite Hmap1. apply lookup_assign_other.
    intros ->. apply Hk. now left.
Qed.

Lemma sprop_frame (h h' : Store.store) (v : Store.sval) (k : string) :
(forall l, l < Store.next h -> Store.cells h' l = Store.cells h l) ->
valid h v ->
Store.sprop h' v k = Store.sprop h v k /\ Store.skeys h' v = Store.skeys h v.
Proof.
intros Hf Hv. destruct v; cbn in *; try (split; reflexivity).
now rewrite (Hf l Hv).
Qed.

(** The run of [updateNodeHighlightedValue] on a node map, a matrix and a
    configuration of the store. *)
Lemma updateNodeHighlightedValue_run
    (ln : Store.loc) (links config id value_arg : Store.sval)
    (h : Store.store) :
let key := Store.s_to_key id in
let value := Store.value_or_default value_arg in
let row := Store.sprop h links key in
let m := S (S (Store.next h)) in
ln < Store.next h -> valid h links -> valid h config -> valid h row ->
Store.s_nullish links = false ->
(Store.s_truthy row = true -> Store.s_nullish config = false) ->
exists h',
  Store.updateNodeHighlightedValue (Store.SRef ln) links config id
    value_arg h
  = Ok ({| Store.nodes := Store.SRef m;
           Store.highlightedNode :=
             if Store.s_truthy value then id else Store.SStr "" |}, h')
  /\ (forall k,
        k = key \/ (spreads h links config key = true
                    /\ In k (Store.skeys h row)) ->
        highlighted_as h' m k value)
  /\ (forall k,
        k <> key ->
        ~ (spreads h links config key = true /\ In k (Store.skeys h row)) ->
        lookup k (Store.cells h' m) = lookup k (Store.cells h ln)).
Proof.
intros key value row m Hln Hvl Hvc Hvr Hnl Hnc.
unfold Store.updateNodeHighlightedValue. fold key value.
unfold Store.mbind at 1. cbn [Store.read Store.s_nullish].
destruct (highlighted_copy_run (Store.sprop h (Store.SRef ln) key) value h)
  as (h1 & Hrun1 & Hn1 & Hflag & Hf1).
unfold Store.mbind at 1. rewrite Hrun1. unfold Store.mbind at 1.
destruct (alloc_run [] h1) as (h2 & -> & Hn2 & Hc2 & Hf2).
unfold Store.mbind at 1.
destruct (alloc_run [] h2) as (h3 & -> & Hn3 & Hc3 & Hf3).
unfold Store.mbind at 1.
destruct (defineProperty_run (Store.next h2) key
            (Store.SRef (Store.next h)) h3) as (h4 & -> & Hn4 & Hc4 & Hf4).
unfold Store.mbind at 1.
destruct (object_assign_2_run (Store.next h1) (Store.SRef ln)
            (Store.SRef (Store.next h2)) h4)
  as (h5 & h6 & -> & Hn6 & Hc5 & Hf5 & Hc6 & Hf6).
assert (Store.next h1 = m) as Hm by (unfold m; lia).
rewrite Hm in *.
(* the store [h6] after the map was built *)
assert (forall l, l < Store.next h -> Store.cells h6 l = Store.cells h l)
  as Hframe6.
{ intros l Hl. rewrite Hf6, Hf4, Hf3, Hf2 by lia. now apply Hf1. }
assert (forall k, lookup k (Store.cells h6 m)
                  = if key =? k then Some (Store.SRef (Store.next h))
                    else lookup k (Store.cells h ln)) as Hmap6.
{ intros k. rewrite Hc6.
  rewrite (sentries_singleton h5 (Store.next h2) key
             (Store.SRef (Store.next h))).
  - cbn [assign_all fold_left fst snd]. rewrite lookup_assign.
    destruct (key =? k); [reflexivity|].
    rewrite Hc5, lookup_assign_from_object.
    rewrite (Hf4 m), (Hf3 m), Hc2 by lia.
    rewrite (Hf4 ln), (Hf3 ln), (Hf2 ln), (Hf1 ln) by lia.
    now destruct (lookup k (Store.cells h ln)).
  - rewrite Hf5, Hc4, Hc3 by lia. reflexivity. }
assert (lookup "highlighted" (Store.cells h6 (Store.next h)) = Some value)
  as Hflag6.
{ rewrite Hf6, Hf4, Hf3, Hf2 by lia. exact Hflag. }
assert (m < Store.next h6) as Hm6 by lia.
assert (Store.next h <= Store.next h6) as Hle6 by lia.
clear Hrun1 Hc2 Hf2 Hn2 Hc3 Hf3 Hn3 Hc4 Hf4 Hn4 Hc5 Hf5 Hc6 Hf6 Hn6 Hf1
  Hflag Hn1 h1 h2 h3 h4 h5 Hm.
unfold Store.mbind at 1. unfold Store.read at 1. rewrite Hnl.
destruct (sprop_frame h h6 links key Hframe6 Hvl) as [Hrow _].
rewrite Hrow. fold row.
assert (exists h7,
           (if Store.s_truthy row
            then Store.mbind (Store.read config "highlightDegree")
                   (fun d => Store.ret (Store.not_zero d))
            else Store.ret false) h6
           = Ok (spreads h links config key, h7) /\ h7 = h6)
  as (h7 & Hprop & ->).
{ unfold spreads. fold row. destruct (Store.s_truthy row) eqn:Ht.
  - unfold Store.mbind, Store.read. rewrite (Hnc eq_refl).
    destruct (sprop_frame h h6 config "highlightDegree" Hframe6 Hvc)
      as [-> _].
    exists h6. split; reflexivity.
  - exists h6. split; reflexivity. }
unfold Store.mbind at 1. rewrite Hprop.
destruct (spreads h links config key) eqn:Hsp.
- unfold Store.mbind at 1. unfold Store.mbind at 1. unfold Store.keys_of.
  assert (Store.s_nullish row = false) as ->.
  { unfold spreads in Hsp. fold row in Hsp.
    apply andb_prop in Hsp. destruct Hsp as [Ht _].
    destruct row; try discriminate Ht; reflexivity. }
  destruct (sprop_frame h h6 row key Hframe6 Hvr) as [_ ->].
  destruct (reduce_highlight_neighbour_run m value (Store.skeys h row) h6 Hm6)
    as (h' & -> & Hn' & Hframe' & Hin & Hout).
  exists h'. split; [reflexivity|]. split.
  + intros k [-> | [_ Hk]]; [|now apply Hin].
    destruct (in_dec string_dec key (Store.skeys h row)) as [Hk|Hk];
      [now apply Hin|].
    exists (Store.next h). split.
    * rewrite (Hout key Hk), Hmap6. now rewrite String.eqb_refl.
    * rewrite Hframe' by (unfold m; lia). exact Hflag6.
  + intros k Hk Hnot.
    rewrite Hout by (intros Hin'; apply Hnot; auto).
    rewrite Hmap6. apply String.eqb_neq in Hk.
    rewrite String.eqb_sym in Hk. now rewrite Hk.
- exists h6. split; [reflexivity|]. split.
  + intros k [-> | [Hf _]]; [|discriminate Hf].
    exists (Store.next h). split; [|exact Hflag6].
    rewrite Hmap6. now rewrite String.eqb_refl.
  + intros k Hk _. rewrite Hmap6. apply String.eqb_neq in Hk.
    rewrite String.eqb_sym in Hk. now rewrite Hk.
Qed.

(** C5. With [highlightDegree] different from 0, in the node map that
    [updateNodeHighlightedValue] returns for the node id [X] and the value
    [true], [X] and every node adjacent to [X] in the adjacency matrix are
    highlighted, and the entry of every other node is the one of the input
    map; with [highlightDegree = 0], only [X] is highlighted.  The returned
    [highlightedNode] is [X] when the value is truthy, the empty string
    otherwise. *)
Theorem updateNodeHighlightedValue_highlights
    (ln : Store.loc) (links config id value_arg : Store.sval)
    (h h' : Store.store) (res : Store.highlight) :
let key := Store.s_to_key id in
let value := Store.value_or_default value_arg in
let row := Store.sprop h links key in
let degree := Store.sprop h config "highlightDegree" in
ln < Store.next h -> valid h links -> valid h config -> valid h row ->
Store.updateNodeHighlightedValue (Store.SRef ln) links config id value_arg h
= Ok (res, h') ->
exists m,
  Store.nodes res = Store.SRef m
  /\ Store.highlightedNode res
     = (if Store.s_truthy value then id else Store.SStr "")
  /\ highlighted_as h' m key value
  /\ (degree <> Store.SNum 0 ->
      (forall k, Store.s_truthy row = true -> In k (Store.skeys h row) ->
                 highlighted_as h' m k value)
      /\ (forall k, k <> key ->
                    ~ (Store.s_truthy row = true
                       /\ In k (Store.skeys h row)) ->
                    lookup k (Store.cells h' m)
                    = lookup k (Store.cells h ln)))
  /\ (degree = Store.SNum 0 ->
      forall k, k <> key ->
                lookup k (Store.cells h' m) = lookup k (Store.cells h ln)).
Proof.
intros key value row degree Hln Hvl Hvc Hvr Hrun.
assert (Store.s_nullish links = false) as Hnl.
{ destruct (Store.s_nullish links) eqn:Hn; [|reflexivity].
  unfold Store.updateNodeHighlightedValue in Hrun.
  unfold Store.mbind at 1 in Hrun. cbn [Store.read Store.s_nullish] in Hrun.
  destruct (highlighted_copy_run
              (Store.sprop h (Store.SRef ln) (Store.s_to_key id))
              (Store.value_or_default value_arg) h) as (h1 & Hr1 & _).
  unfold Store.mbind at 1 in Hrun. rewrite Hr1 in Hrun.
  unfold Store.mbind at 1 in Hrun.
  destruct (alloc_run [] h1) as (h2 & Hr2 & _). rewrite Hr2 in Hrun.
  unfold Store.mbind at 1 in Hrun.
  destruct (alloc_run [] h2) as (h3 & Hr3 & _). rewrite Hr3 in Hrun.
  unfold Store.mbind at 1 in Hrun.
  destruct (defineProperty_run (Store.next h2) (Store.s_to_key id)
              (Store.SRef (Store.next h)) h3) as (h4 & Hr4 & _).
  rewrite Hr4 in Hrun. unfold Store.mbind at 1 in Hrun.
  destruct (object_assign_2_run (Store.next h1) (Store.SRef ln)
              (Store.SRef (Store.next h2)) h4) as (h5 & h6 & Hr6 & _).
  rewrite Hr6 in Hrun. unfold Store.mbind at 1 in Hrun.
  unfold Store.read at 1 in Hrun. rewrite Hn in Hrun. discriminate Hrun. }
destruct (Store.s_nullish config) eqn:Hncfg.
- (* the configuration is read only when the row is truthy *)
  assert (Store.s_truthy row = false) as Hrow.
  { destruct (Store.s_truthy row) eqn:Ht; [|reflexivity]. exfalso.
    unfold Store.updateNodeHighlightedValue in Hrun.
    unfold Store.mbind at 1 in Hrun.
    cbn [Store.read Store.s_nullish] in Hrun.
    destruct (highlighted_copy_run
                (Store.sprop h (Store.SRef ln) (Store.s_to_key id))
                (Store.value_or_default value_arg) h)
      as (h1 & Hr1 & Hn1 & _ & Hf1).
    unfold Store.mbind at 1 in Hrun. rewrite Hr1 in Hrun.
    unfold Store.mbind at 1 in Hrun.
    destruct (alloc_run [] h1) as (h2 & Hr2 & Hn2 & _ & Hf2).
    rewrite Hr2 in Hrun. unfold Store.mbind at 1 in Hrun.
    destruct (alloc_run [] h2) as (h3 & Hr3 & Hn3 & _ & Hf3).
    rewrite Hr3 in Hrun. unfold Store.mbind at 1 in Hrun.
    destruct (defineProperty_run (Store.next h2) (Store.s_to_key id)
                (Store.SRef (Store.next h)) h3)
      as (h4 & Hr4 & Hn4 & _ & Hf4).
    rewrite Hr4 in Hrun. unfold Store.mbind at 1 in Hrun.
    destruct (object_assign_2_run (Store.next h1) (Store.SRef ln)
                (Store.SRef (Store.next h2)) h4)
      as (h5 & h6 & Hr6 & Hn6 & _ & _ & _ & Hf6).
    rewrite Hr6 in Hrun. unfold Store.mbind at 1 in Hrun.
    unfold Store.read at 1 in Hrun. rewrite Hnl in Hrun.
    assert (forall l, l < Store.next h -> Store.cells h6 l = Store.cells h l)
      as Hframe6
      by (intros l Hl; rewrite Hf6, Hf4, Hf3, Hf2 by lia; now apply Hf1).
    destruct (sprop_frame h h6 links key Hframe6 Hvl) as [Hr _].
    fold key in Hrun. rewrite Hr in Hrun. fold row in Hrun.
    rewrite Ht in Hrun. unfold Store.mbind at 1 2 in Hrun.
    unfold Store.read in Hrun. rewrite Hncfg in Hrun. discriminate Hrun. }
  destruct (updateNodeHighlightedValue_run ln links config id value_arg h
              Hln Hvl Hvc Hvr Hnl) as (h'' & Hrun' & Hin & Hout).
  { fold key row. rewrite Hrow. discriminate. }
  fold key value row in Hrun', Hin, Hout.
  rewrite Hrun in Hrun'. injection Hrun' as -> ->.
  exists (S (S (Store.next h))). cbn [Store.nodes Store.highlightedNode].
  assert (spreads h links config key = false) as Hsp
    by (unfold spreads; fold row; now rewrite Hrow).
  split; [reflexivity|]. split; [reflexivity|].
  split; [apply Hin; now left|]. split.
  + intros _. split.
    * intros k Ht. rewrite Hrow in Ht. discriminate Ht.
    * intros k Hk Hnot. apply Hout; [assumption|].
      rewrite Hsp. intros [Hf _]. discriminate Hf.
  + intros _ k Hk. apply Hout; [assumption|].
    rewrite Hsp. intros [Hf _]. discriminate Hf.
- destruct (updateNodeHighlightedValue_run ln links config id value_arg h
              Hln Hvl Hvc Hvr Hnl (fun _ => Hncfg))
    as (h'' & Hrun' & Hin & Hout).
  fold key value row in Hrun', Hin, Hout.
  rewrite Hrun in Hrun'. injection Hrun' as -> ->.
  exists (S (S (Store.next h))). cbn [Store.nodes Store.highlightedNode].
  assert (degree <> Store.SNum 0 ->
          spreads h links config key = Store.s_truthy row) as Hsp.
  { intros Hd. unfold spreads. fold row degree.
    assert (Store.not_zero degree = true) as ->; [|apply andb_true_r].
    unfold Store.not_zero. destruct degree; try reflexivity.
    destruct (Z.eqb_spec n 0); [subst; now elim Hd | reflexivity]. }
  split; [reflexivity|]. split; [reflexivity|].
  split; [apply Hin; now left|]. split.
  + intros Hd. split.
    * intros k Ht Hk. apply Hin. right. rewrite (Hsp Hd). auto.
    * intros k Hk Hnot. apply Hout; [assumption|]. now rewrite (Hsp Hd).
  + intros Hd k Hk. apply Hout; [assumption|].
    unfold spreads. fold degree. rewrite Hd. cbn. rewrite andb_false_r.
    intros [Hf _]. discriminate Hf.
Qed.

Lemma sample_highlight_of_A :
exists res h' m,
  Store.updateNodeHighlightedValue (Store.SRef 0) (Store.SRef 4)
    (Store.SRef 7) (Store.SStr "A") (Store.SBool true) sample_store
  = Ok (res, h')
  /\ Store.nodes res = Store.SRef m
  /\ Store.highlightedNode res = Store.SStr "A"
  /\ highlighted_as h' m "A" (Store.SBool true)
  /\ highlighted_as h' m "B" (Store.SBool true)
  /\ lookup "C" (Store.cells h' m) = Some (Store.SRef 3).
Proof.
destruct (returns_updateNodeHighlightedValue
            (Store.SRef 0) (Store.SRef 4) (Store.SRef 7) (Store.SStr "A")
            (Store.SBool true) eq_refl eq_refl eq_refl sample_store)
  as (res & h' & Hr & _).
destruct (updateNodeHighlightedValue_highlights
            0 (Store.SRef 4) (Store.SRef 7) (Store.SStr "A")
            (Store.SBool true) sample_store h' res)
  as (m & Hm & Hn & HA & Hspread & _).
- cbn. lia.
- cbn. lia.
- cbn. lia.
- cbn. lia.
- exact Hr.
- exists res, h', m. split; [exact Hr|]. split; [exact Hm|].
  split; [exact Hn|]. split; [exact HA|].
  destruct Hspread as [Hin Hout]; [discriminate|]. split.
  + apply Hin; [reflexivity | cbn; auto].
  + rewrite Hout; [reflexivity | discriminate |].
    cbn. intros [_ [H|[]]]. discriminate H.
Defined.

(** * Further properties of the code *)

(** ** [isEmptyObject], [pick] and [antiPick] *)

(** [isEmptyObject] holds of the object and of the array without elements
    and of nothing else: not of [null], not of the empty string, not of a
    number. *)
Lemma isEmptyObject_cases (o : value) :
isEmptyObject o = true <-> o = VObj [] \/ o = VArr [].
Proof.
destruct o as [| |b|n|s|f|p|l];
  try (split; [|intros [H|H]; discriminate H];
       rewrite isEmptyObject_primitive by reflexivity; discriminate).
- split; [|intros [H|H]; discriminate H]. cbn. discriminate.
- destruct p as [|kv p].
  + split; [auto | reflexivity].
  + split.
    * intros H. assert (isEmptyObject (VObj (kv :: p)) = false) as H'
        by (apply isEmptyObject_obj; discriminate).
      congruence.
    * intros [H|H]; discriminate H.
- destruct l as [|x l].
  + split; [auto | reflexivity].
  + split.
    * intros H. assert (isEmptyObject (VArr (x :: l)) = false) as H'
        by (apply isEmptyObject_arr; discriminate).
      congruence.
    * intros [H|H]; discriminate H.
Qed.

Lemma in_dec_includes (props : list string) (k : string) :
(if in_dec string_dec k props then true else false) = includes props k.
Proof.
destruct (in_dec string_dec k props) as [Hin|Hout].
- symmetry. now apply includes_In.
- destruct (includes props k) eqn:Hi; [|reflexivity].
  apply includes_In in Hi. contradiction.
Qed.

(** X1. Of an ordinary object, array, string, number or boolean [o] (no
    function, and owning no property under the name of an inherited member,
    [hasOwnProperty] among them) [pick(o, props)] returns the own
    properties that [props] names, with the values they have in [o], and
    nothing else.  On [null] and [undefined] it raises a [TypeError],
    unless [props] is empty: then it returns the empty object. *)
Theorem pick_own_properties (o : value) (props : list string) :
(nullish o = false -> ordinary_object o = true -> typeof o <> "function" ->
 exists p,
   pick o props = Ok p
   /\ forall k, lookup k p
                = if includes props k && has_own o k then Some (prop o k)
                  else None)
/\ (nullish o = true ->
    pick o props = match props with
                   | [] => Ok []
                   | _ :: _ => Throw TypeError
                   end).
Proof.
split.
- intros Hn Hordinary Hfun.
  destruct (pick_from_total o props [] Hn) as [p Hp].
  exists p. split; [exact Hp|]. intros k.
  rewrite (pick_lookup o props p Hp k), <- in_dec_includes.
  destruct (in_dec string_dec k props); reflexivity.
- intros Hn. destruct props as [|k props]; [reflexivity|].
  unfold pick. cbn [pick_from]. unfold hasOwnProperty. rewrite Hn.
  reflexivity.
Qed.

Lemma pick_of_a_node :
nullish (VObj [("id", VStr "A"); ("x", VNum 3)]) = false
/\ exists p,
     pick (VObj [("id", VStr "A"); ("x", VNum 3)]) ["x"; "y"] = Ok p
     /\ forall k, lookup k p
                  = if includes ["x"; "y"] k
                       && has_own (VObj [("id", VStr "A"); ("x", VNum 3)]) k
                    then Some (prop (VObj [("id", VStr "A"); ("x", VNum 3)]) k)
                    else None.
Proof.
split; [reflexivity|].
apply (proj1 (pick_own_properties (VObj [("id", VStr "A"); ("x", VNum 3)])
                ["x"; "y"])).
- reflexivity.
- reflexivity.
- discriminate.
Defined.

Lemma antiPick_total (o : value) (props : list string) :
nullish o = false ->
exists r,
  antiPick o props = Ok r
  /\ forall k, lookup k r
               = if negb (includes props k) && includes (own_keys o) k
                 then Some (prop o k) else None.
Proof.
intros Hn. unfold antiPick, object_keys. rewrite Hn. cbn [bind].
destruct (pick_from_total o
            (filter (fun k => negb (includes props k)) (own_keys o)) [] Hn)
  as [r Hr].
exists r. split; [exact Hr|]. intros k.
rewrite (pick_lookup o _ r Hr k).
destruct (in_dec string_dec k
            (filter (fun k0 => negb (includes props k0)) (own_keys o)))
  as [Hin|Hout].
- apply filter_In in Hin. destruct Hin as [Hk Hp].
  rewrite Hp, (has_own_own_keys o k Hk).
  now rewrite (proj2 (includes_In (own_keys o) k) Hk).
- destruct (negb (includes props k)) eqn:Hp; [|reflexivity].
  destruct (includes (own_keys o) k) eqn:Hk; [|reflexivity].
  exfalso. apply Hout, filter_In. split; [now apply includes_In | exact Hp].
Qed.

(** X2. Of an ordinary [o] (owning no property under the name of an inherited
    member, [hasOwnProperty] among them) [antiPick(o, props)] returns the
    own enumerable properties that [props] does not name, with the values
    they have in [o]; on [null] and [undefined] it raises a [TypeError],
    whatever [props] is. *)
Theorem antiPick_other_properties (o : value) (props : list string) :
(nullish o = false -> ordinary_object o = true ->
 exists r,
   antiPick o props = Ok r
   /\ forall k, lookup k r
                = if negb (includes props k) && includes (own_keys o) k
                  then Some (prop o k) else None)
/\ (nullish o = true -> antiPick o props = Throw TypeError).
Proof.
split.
- intros Hn Hordinary. now apply antiPick_total.
- intros Hn. unfold antiPick, object_keys. now rewrite Hn.
Qed.

Lemma antiPick_of_a_node :
nullish (VObj [("id", VStr "A"); ("x", VNum 3)]) = false
/\ exists r,
     antiPick (VObj [("id", VStr "A"); ("x", VNum 3)]) ["x"; "y"] = Ok r
     /\ forall k, lookup k r
                  = if negb (includes ["x"; "y"] k)
                       && includes
                            (own_keys (VObj [("id", VStr "A"); ("x", VNum 3)]))
                            k
                    then Some (prop (VObj [("id", VStr "A"); ("x", VNum 3)]) k)
                    else None.
Proof.
split; [reflexivity|].
apply (proj1 (antiPick_other_properties
                (VObj [("id", VStr "A"); ("x", VNum 3)]) ["x"; "y"])).
- reflexivity.
- reflexivity.
Defined.


Lemma lookup_own_entries_obj (target a : object) (k : string) :
lookup k (assign_all target (own_entries (VObj a)))
= match lookup k a with
  | Some v => Some v
  | None => lookup k target
  end.
Proof.
rewrite lookup_assign_source.
destruct (in_dec string_dec k (own_keys (VObj a))) as [Hin|Hout].
- apply In_own_keys_obj, lookup_Some_In in Hin. destruct Hin as [v Hv].
  cbn [prop]. now rewrite Hv.
- assert (lookup k a = None) as ->; [|reflexivity].
  apply lookup_None. intros Hin. now apply Hout, In_own_keys_obj.
Qed.

Lemma lookup_object_assign_objects (a b : object) (k : string) :
lookup k (object_assign [] [VObj a; VObj b])
= match lookup k b with
  | Some v => Some v
  | None => lookup k a
  end.
Proof.
unfold object_assign. cbn [fold_left].
rewrite !lookup_own_entries_obj. cbn [lookup].
now destruct (lookup k b), (lookup k a).
Qed.

Lemma includes_own_keys_obj (p : object) (k : string) :
includes (own_keys (VObj p)) k = has_own (VObj p) k.
Proof.
destruct (has_own (VObj p) k) eqn:Hh.
- now apply includes_In, In_own_keys_has_own_obj.
- destruct (includes (own_keys (VObj p)) k) eqn:Hi; [|reflexivity].
  apply includes_In, In_own_keys_has_own_obj in Hi. congruence.
Qed.

(** X3. [pick] and [antiPick] split an ordinary object (one that owns no
    property under the name of an inherited member) in two: both return, no
    key is in both parts, and
    [Object.assign({}, pick(o, props), antiPick(o, props))] has the
    properties of [o], each with its value. *)
Theorem pick_and_antiPick_split (p : object) (props : list string) :
ordinary_object (VObj p) = true ->
exists picked rest,
  pick (VObj p) props = Ok picked
  /\ antiPick (VObj p) props = Ok rest
  /\ (forall k, lookup k picked = None \/ lookup k rest = None)
  /\ forall k, lookup k (object_assign [] [VObj picked; VObj rest])
               = lookup k p.
Proof.
intros Hordinary.
destruct (pick_from_total (VObj p) props [] eq_refl) as [picked Hp].
destruct (antiPick_total (VObj p) props eq_refl) as [rest [Hr Hrest]].
pose proof (pick_lookup (VObj p) props picked Hp) as Hpicked.
exists picked, rest. split; [exact Hp|]. split; [exact Hr|].
assert (forall k, lookup k picked
                  = if includes props k && has_own (VObj p) k
                    then lookup k p else None) as Hpk.
{ intros k. rewrite Hpicked, <- in_dec_includes.
  destruct (in_dec string_dec k props); [|reflexivity].
  cbn [andb has_own prop]. now destruct (lookup k p). }
assert (forall k, lookup k rest
                  = if negb (includes props k) && has_own (VObj p) k
                    then lookup k p else None) as Hrk.
{ intros k. rewrite Hrest, includes_own_keys_obj.
  destruct (negb (includes props k)); [|reflexivity].
  cbn [andb has_own prop]. now destruct (lookup k p). }
split.
- intros k. rewrite Hpk, Hrk.
  destruct (includes props k); cbn [negb andb]; auto.
- intros k. rewrite lookup_object_assign_objects, Hpk, Hrk.
  cbn [has_own].
  destruct (includes props k), (lookup k p); reflexivity.
Qed.

Lemma split_of_a_node :
exists picked rest,
  pick (VObj [("id", VStr "A"); ("x", VNum 3); ("color", VStr "red")])
       ["x"; "y"] = Ok picked
  /\ antiPick (VObj [("id", VStr "A"); ("x", VNum 3); ("color", VStr "red")])
              ["x"; "y"] = Ok rest
  /\ lookup "x" picked = Some (VNum 3)
  /\ lookup "x" rest = None
  /\ lookup "color" rest = Some (VStr "red").
Proof.
destruct (pick_and_antiPick_split
            [("id", VStr "A"); ("x", VNum 3); ("color", VStr "red")]
            ["x"; "y"] eq_refl)
  as (picked & rest & Hp & Hr & _ & _).
exists picked, rest. split; [exact Hp|]. split; [exact Hr|].
vm_compute in Hp, Hr.
injection Hp as <-. injection Hr as <-. repeat split.
Defined.


(** ** [merge] *)

Lemma shallow_prop (p : object) (k : string) :
shallow p -> not_merged_into (prop (VObj p) k) = true.
Proof.
intros Hs. cbn [prop]. destruct (lookup k p) as [v|] eqn:Hv; [|reflexivity].
apply lookup_In in Hv.
exact (proj1 (Forall_forall _ _) Hs (k, v) Hv).
Qed.

Lemma merge_keys_shallow nested (o1 : value) (p2 : object)
    (ks : list string) (acc : object) :
shallow p2 ->
exists r,
  merge_keys nested o1 (VObj p2) ks acc = Ok r
  /\ forall k, lookup k r
               = if in_dec string_dec k ks
                 then Some (if has_own (VObj p2) k then prop (VObj p2) k
                            else prop o1 k)
                 else lookup k acc.
Proof.
intros Hs. revert acc. induction ks as [|k0 ks IH]; intros acc.
- exists acc. split; [reflexivity|]. intros k. reflexivity.
- cbn [merge_keys]. unfold get at 1. cbn [nullish is_undefined is_null orb bind].
  pose proof (shallow_prop p2 k0 Hs) as Hk0. unfold not_merged_into in Hk0.
  apply negb_true_iff in Hk0. rewrite Hk0. cbn [andb].
  unfold hasOwnProperty at 1.
  cbn [nullish is_undefined is_null orb bind].
  destruct (IH (assign k0 (if has_own (VObj p2) k0 then prop (VObj p2) k0
                           else prop o1 k0) acc)) as [r [Hr Hlk]].
  exists r. split; [exact Hr|]. intros k. rewrite Hlk, lookup_assign.
  destruct (in_dec string_dec k ks) as [Hin|Hout];
    destruct (in_dec string_dec k (k0 :: ks)) as [Hin'|Hout'];
    try reflexivity.
  + elim Hout'. now right.
  + destruct Hin' as [->|Hin']; [|contradiction].
    now rewrite String.eqb_refl.
  + destruct (String.eqb_spec k0 k) as [->|Hne]; [|reflexivity].
    elim Hout'. now left.
Qed.

Lemma own_keys_obj_not_nil (p : object) : p <> [] -> own_keys (VObj p) <> [].
Proof.
intros Hp Hk. cbn [own_keys] in Hk. apply ordered_keys_nil in Hk.
destruct p; [now elim Hp | discriminate Hk].
Qed.

Lemma merge_at_nonempty_base (budget : nat) (o1 a2 : value) :
own_keys o1 <> [] ->
merge_at budget o1 a2
= (o <- merge_keys (match budget with
                    | S b => Some (merge_at b)
                    | O => None
                    end) o1 (default_arg a2 (VObj [])) (own_keys o1) [] ;;
   Ok (VObj o)).
Proof.
intros Hne.
assert (default_arg o1 (VObj []) = o1) as Hd
  by (destruct o1; try reflexivity; now elim Hne).
assert (js_or o1 (VObj []) = o1) as Hor.
{ unfold js_or. destruct o1; simpl in *; try (now elim Hne); try reflexivity.
  destruct s; [now elim Hne | reflexivity]. }
destruct budget; cbn [merge_at]; rewrite Hd, Hor;
  (destruct (List.length (own_keys o1) =? 0)%nat eqn:Hlen;
   [apply Nat.eqb_eq, length_zero_iff_nil in Hlen; contradiction
   | reflexivity]).
Qed.

(** X4. When no property of the override [o2] is an object, and neither
    operand owns a property under the name of an inherited member
    ([hasOwnProperty] among them), [merge(o1, o2)] returns a new object
    with exactly the keys of [o1]: under each, the value of [o2] when [o2]
    has the key, that of [o1] otherwise. *)
Theorem merge_shallow_override (p1 p2 : object) :
ordinary_object (VObj p1) = true -> ordinary_object (VObj p2) = true ->
p1 <> [] -> shallow p2 ->
exists r,
  merge (VObj p1) (VObj p2) = Ok (VObj r)
  /\ forall k, lookup k r
               = if has_own (VObj p1) k
                 then Some (if has_own (VObj p2) k then prop (VObj p2) k
                            else prop (VObj p1) k)
                 else None.
Proof.
intros Hordinary1 Hordinary2 Hp1 Hs. unfold merge.
rewrite merge_at_nonempty_base by now apply own_keys_obj_not_nil.
cbn [default_arg].
destruct (merge_keys_shallow (Some (merge_at 19)) (VObj p1) p2
            (own_keys (VObj p1)) [] Hs) as [r [Hr Hlk]].
unfold MAX_DEPTH. rewrite Hr. cbn [bind]. exists r. split; [reflexivity|].
intros k. rewrite Hlk.
destruct (in_dec string_dec k (own_keys (VObj p1))) as [Hin|Hout].
- now rewrite (proj1 (In_own_keys_has_own_obj p1 k) Hin).
- destruct (has_own (VObj p1) k) eqn:Hh; [|reflexivity].
  elim Hout. now apply In_own_keys_has_own_obj.
Qed.

Lemma merge_of_a_small_configuration :
exists r,
  merge (VObj [("width", VNum 800); ("directed", VBool false)])
        (VObj [("directed", VBool true); ("depth", VNum 3)])
  = Ok (VObj r)
  /\ lookup "width" r = Some (VNum 800)
  /\ lookup "directed" r = Some (VBool true)
  /\ lookup "depth" r = None.
Proof.
destruct (merge_shallow_override
            [("width", VNum 800); ("directed", VBool false)]
            [("directed", VBool true); ("depth", VNum 3)])
  as [r [Hr Hlk]].
- reflexivity.
- reflexivity.
- discriminate.
- repeat constructor.
- exists r. split; [exact Hr|]. rewrite !Hlk. repeat split.
Defined.


(** X5. At its borders [merge] hands out its operand or fails.  A base without
    own keys ([undefined], [null], [{}], a number) yields the override
    itself -- not a copy, and whatever its type -- or [{}] when the override
    is falsy or empty; a base with keys and the override [null] raise a
    [TypeError]. *)
Theorem merge_at_the_borders (a1 a2 : value) :
(own_keys a1 = [] ->
 merge a1 a2
 = Ok (if truthy (default_arg a2 (VObj []))
          && negb (isEmptyObject (default_arg a2 (VObj [])))
       then default_arg a2 (VObj []) else VObj []))
/\ (own_keys a1 <> [] -> merge a1 VNull = Throw TypeError).
Proof.
split.
- intros Hk. unfold merge, MAX_DEPTH. cbn [merge_at].
  assert (own_keys (js_or (default_arg a1 (VObj [])) (VObj [])) = []) as ->;
    [|reflexivity].
  destruct a1 as [| |b|n|s|f|p|l]; try reflexivity; try exact Hk;
    cbn [default_arg]; unfold js_or;
    match goal with
    | |- context [truthy ?v] => destruct (truthy v)
    end; reflexivity || exact Hk.
- intros Hk. unfold merge. rewrite merge_at_nonempty_base by exact Hk.
  cbn [default_arg]. destruct (own_keys a1) as [|k ks]; [now elim Hk|].
  reflexivity.
Qed.

Lemma merge_of_empty_base_and_of_null :
merge (VObj []) (VNum 5) = Ok (VNum 5)
/\ merge (VObj [("width", VNum 800)]) VNull = Throw TypeError.
Proof.
split.
- exact (proj1 (merge_at_the_borders (VObj []) (VNum 5)) eq_refl).
- apply (proj2 (merge_at_the_borders (VObj [("width", VNum 800)]) VNull)).
  discriminate.
Defined.

Lemma get_TypeError (v : value) (k : string) (e : error) :
get v k = Throw e -> e = TypeError.
Proof. unfold get. destruct (nullish v); congruence. Qed.

Lemma hasOwnProperty_TypeError (v : value) (k : string) (e : error) :
hasOwnProperty v k = Throw e -> e = TypeError.
Proof. unfold hasOwnProperty. destruct (nullish v); congruence. Qed.

Lemma object_keys_TypeError (v : value) (e : error) :
object_keys v = Throw e -> e = TypeError.
Proof. unfold object_keys. destruct (nullish v); congruence. Qed.

(** Splits a hypothesis [c1 ;; ... ;; cn = Throw e] at the step that
    throws. *)
Ltac inv_throw H :=
  match type of H with
  | bind _ _ = Throw _ =>
      let a := fresh "a" in
      let Ha := fresh "Hstep" in
      apply bind_Throw in H; destruct H as [H | [a [Ha H]]];
      [|inv_throw H]
  | Ok _ = Throw _ => discriminate H
  | _ => idtac
  end.

Lemma merge_keys_TypeError nested (o1 o2 : value) (ks : list string)
    (acc : object) (e : error) :
(forall f a b e', nested = Some f -> f a b = Throw e' -> e' = TypeError) ->
merge_keys nested o1 o2 ks acc = Throw e -> e = TypeError.
Proof.
intros Hnested. revert acc. induction ks as [|k0 ks IH]; intros acc H.
- discriminate H.
- cbn [merge_keys] in H. apply bind_Throw in H.
  destruct H as [H | [o2k [_ H]]]; [now apply get_TypeError in H|].
  destruct (truthy o2k && (typeof o2k =? "object")
            && (typeof (prop o1 k0) =? "object")).
  + destruct nested as [rec|].
    * inv_throw H.
      -- exact (Hnested rec _ _ e eq_refl H).
      -- now apply hasOwnProperty_TypeError in H.
      -- destruct a0; [now apply hasOwnProperty_TypeError in H
                      | discriminate H].
      -- destruct (a0 && a1).
         ++ inv_throw H. now apply object_keys_TypeError in H.
         ++ discriminate H.
      -- now apply IH in H.
    * inv_throw H; [now apply hasOwnProperty_TypeError in H|].
      now apply IH in H.
  + inv_throw H; [now apply hasOwnProperty_TypeError in H|].
    now apply IH in H.
Qed.

Lemma merge_at_TypeError (budget : nat) (a1 a2 : value) (e : error) :
merge_at budget a1 a2 = Throw e -> e = TypeError.
Proof.
revert a1 a2 e. induction budget as [|b IH]; intros a1 a2 e H;
  cbn [merge_at] in H;
  (destruct (List.length
               (own_keys (js_or (default_arg a1 (VObj [])) (VObj []))) =? 0)%nat;
   [discriminate H|]);
  inv_throw H; apply merge_keys_TypeError in H; auto.
- intros f x y e' Hf. discriminate Hf.
- intros f x y e' Hf Hab. injection Hf as <-. now apply IH in Hab.
Qed.

Lemma merge_keys_null_base_property nested (o1 o2 : value)
    (ks : list string) (acc r : object) (k : string) (rec : value -> value -> result value) :
nested = Some rec ->
In k ks -> prop o1 k = VNull ->
not_merged_into (prop o2 k) = false ->
merge_keys nested o1 o2 ks acc = Ok r -> False.
Proof.
intros -> Hin Hnull Hobj. revert acc.
induction ks as [|k0 ks IH]; intros acc H; [now elim Hin|].
cbn [merge_keys] in H. apply bind_Ok in H. destruct H as [o2k [Hget H]].
apply get_Ok in Hget. destruct Hget as [-> _].
destruct (String.eqb_spec k0 k) as [->|Hne].
- unfold not_merged_into in Hobj. apply negb_false_iff in Hobj.
  rewrite Hobj, Hnull in H.
  change (typeof VNull =? "object") with true in H. cbn [andb] in H.
  apply bind_Ok in H. destruct H as [merged [_ H]].
  discriminate H.
- destruct Hin as [Heq|Hin]; [congruence|].
  assert (exists x, merge_keys (Some rec) o1 o2 ks (assign k0 x acc) = Ok r)
    as [x Hx].
  { destruct (truthy (prop o2 k0) && (typeof (prop o2 k0) =? "object")
              && (typeof (prop o1 k0) =? "object"));
      inv_bind H; eauto. }
  exact (IH Hin _ Hx).
Qed.

(** X6. Where the base holds [null] under a key and the override holds an
    object, [merge] raises a [TypeError]: the merge of the two is followed
    by [o1[k].hasOwnProperty("length")] on the [null] of the base. *)
Theorem merge_null_base_property (o1 o2 : value) (k : string) :
In k (own_keys o1) -> prop o1 k = VNull ->
truthy (prop o2 k) = true -> typeof (prop o2 k) = "object" ->
merge o1 o2 = Throw TypeError.
Proof.
intros Hin Hnull Ht Hty.
destruct (merge o1 o2) as [r|e] eqn:Hm.
- exfalso. unfold merge in Hm.
  rewrite merge_at_nonempty_base in Hm
    by (intros Hk; rewrite Hk in Hin; exact Hin).
  inv_bind Hm.
  apply (merge_keys_null_base_property _ _ _ _ _ _ k (merge_at 19) eq_refl
           Hin Hnull) in Hstep; [exact Hstep|].
  unfold not_merged_into.
  assert (prop (default_arg o2 (VObj [])) k = prop o2 k) as ->
    by (destruct o2; reflexivity).
  now rewrite Ht, Hty.
- f_equal. now apply merge_at_TypeError in Hm.
Qed.

Lemma merge_of_a_null_default :
merge (VObj [("width", VNum 800); ("viewGenerator", VNull)])
      (VObj [("viewGenerator", VObj [("kind", VStr "svg")])])
= Throw TypeError.
Proof.
apply (merge_null_base_property _ _ "viewGenerator");
  [cbn; auto | reflexivity | reflexivity | reflexivity].
Defined.


(** ** [isDeepEqual] *)

Lemma isEmptyObject_nullish (o : value) :
nullish o = true -> isEmptyObject o = false.
Proof. destruct o; try discriminate; reflexivity. Qed.

(** X7. On ordinary operands ([ordinary]: no object within them owns a
    property under the name of an inherited member, [hasOwnProperty] among
    them, and every number in them is an integer below 2^53) [isDeepEqual]
    raises a [TypeError] exactly when one operand is [null] or [undefined]
    while the operands are not identical and the other one is not an empty
    object; on all other ordinary operands it returns a boolean. *)
Theorem isDeepEqual_raises_exactly {I : ObjectIdentity} (o1 o2 : value) :
ordinary o1 = true -> ordinary o2 = true ->
if keys_of_nothing o1 o2 then isDeepEqual o1 o2 = Throw TypeError
else exists r, isDeepEqual o1 o2 = Ok r.
Proof.
intros Hordinary1 Hordinary2. unfold keys_of_nothing.
destruct (nullish o1) eqn:Hn1; [|destruct (nullish o2) eqn:Hn2].
- unfold isDeepEqual. rewrite isDeepEqual_at_eq, Nat.sub_diag.
  cbn [Nat.eqb andb].
  rewrite (isEmptyObject_nullish o1 Hn1).
  destruct (strict_equal o1 o2); cbn [negb andb orb]; [eauto|].
  destruct (isEmptyObject o2) eqn:He2; cbn [negb andb orb].
  + assert (nullish o2 = false) as ->
      by (destruct o2; try discriminate He2; reflexivity).
    cbn [andb]. eauto.
  + unfold object_keys. rewrite Hn1. reflexivity.
- unfold isDeepEqual. rewrite isDeepEqual_at_eq, Nat.sub_diag.
  cbn [Nat.eqb andb].
  rewrite (isEmptyObject_nullish o2 Hn2).
  destruct (strict_equal o1 o2); cbn [negb andb orb]; [eauto|].
  destruct (isEmptyObject o1) eqn:He1; cbn [negb andb orb]; [eauto|].
  unfold object_keys. rewrite Hn1, Hn2. reflexivity.
- cbn [andb orb]. rewrite andb_false_r.
  apply isDeepEqual_at_total; assumption.
Qed.

Lemma isDeepEqual_of_null_and_of_a_node :
isDeepEqual (I := all_distinct) VNull (node_named "A") = Throw TypeError
/\ exists r,
     isDeepEqual (I := all_distinct)
       (VObj [("id", VStr "A"); ("at", VObj [("x", VNum 1)])])
       (node_named "A") = Ok r.
Proof.
split.
- exact (isDeepEqual_raises_exactly (I := all_distinct) VNull
           (node_named "A") eq_refl eq_refl).
- exact (isDeepEqual_raises_exactly (I := all_distinct)
           (VObj [("id", VStr "A"); ("at", VObj [("x", VNum 1)])])
           (node_named "A") eq_refl eq_refl).
Defined.


Lemma length_insert_index (n : N) (l : list N) :
List.length (insert_index n l) = S (List.length l).
Proof.
induction l as [|m l IH]; [reflexivity|].
cbn [insert_index]. destruct (n <=? m)%N; cbn [List.length]; congruence.
Qed.

Lemma length_ordered_keys (ks : list string) :
List.length (ordered_keys ks) = List.length ks.
Proof.
unfold ordered_keys, sorted_indices, is_index_key.
rewrite length_app, length_map.
induction ks as [|k ks IH]; [reflexivity|].
cbn [fold_right filter]. destruct (index_of_key k) as [n|].
- rewrite length_insert_index. cbn [negb List.length]. lia.
- cbn [negb List.length]. lia.
Qed.

Lemma strict_equal_to_primitive {I : ObjectIdentity} (y x : value) :
is_primitive x = true -> strict_equal y x = true -> y = x.
Proof.
intros Hx Hs. destruct x, y; try discriminate; cbn in Hs.
- reflexivity.
- reflexivity.
- now apply Bool.eqb_prop in Hs; subst.
- now apply Z.eqb_eq in Hs; subst.
- now apply String.eqb_eq in Hs; subst.
Qed.

Lemma lookup_of_prop (p : object) (k : string) :
has_own (VObj p) k = true -> lookup k p = Some (prop (VObj p) k).
Proof. cbn. now destruct (lookup k p). Qed.

Section DeepEqualSound.
Context {I : ObjectIdentity} {Sound : SoundIdentity I}.

(** X8. [isDeepEqual] does not take a flat object for another: when it returns
    [true] for an object [p] whose properties are all primitives, the other
    object has the keys of [p] and no other, each with the same value. *)
Theorem isDeepEqual_of_flat_object (p q : object) :
flat (VObj p) = true ->
NoDup (map fst p) -> NoDup (map fst q) ->
isDeepEqual (VObj p) (VObj q) = Ok true ->
forall k, lookup k q = lookup k p.
Proof.
intros Hflat Hdp Hdq H. unfold isDeepEqual in H.
rewrite isDeepEqual_at_eq in H.
destruct (strict_equal (VObj p) (VObj q)) eqn:Hs.
{ apply strict_equal_objects_sound in Hs; [|reflexivity].
  injection Hs as ->. reflexivity. }
rewrite andb_false_r in H.
destruct ((isEmptyObject (VObj p) && negb (isEmptyObject (VObj q)))
          || (negb (isEmptyObject (VObj p)) && isEmptyObject (VObj q)));
  [discriminate H|].
cbn [object_keys nullish is_undefined is_null orb bind] in H.
destruct (List.length (own_keys (VObj p))
          =? List.length (own_keys (VObj q)))%nat eqn:Hlen;
  [|discriminate H].
cbn [negb] in H. apply Nat.eqb_eq in Hlen. cbn [own_keys] in Hlen.
rewrite !length_ordered_keys in Hlen.
apply bind_Ok in H. destruct H as [diffs [Hcmp H]].
injection H as H. apply negb_true_iff in H.
assert (forall k, In k (map fst p) ->
                  has_own (VObj q) k = true
                  /\ prop (VObj q) k = prop (VObj p) k) as Hsame.
{ intros k Hk.
  assert (is_primitive (prop (VObj p) k) = true) as Hprim.
  { apply lookup_Some_In in Hk. destruct Hk as [v Hv]. cbn [prop].
    rewrite Hv. apply lookup_In in Hv. cbn [flat] in Hflat.
    exact (proj1 (forallb_forall _ _) Hflat (k, v) Hv). }
  destruct (has_own (VObj q) k
            && strict_equal (prop (VObj q) k) (prop (VObj p) k)) eqn:Hr.
  - apply andb_prop in Hr. destruct Hr as [Hown Heq]. split; [exact Hown|].
    now apply strict_equal_to_primitive.
  - exfalso.
    destruct (compare_keys_detects
                (match MAX_DEPTH with
                 | S b' => Some (isDeepEqual_at b')
                 | O => None
                 end) (VObj p) (VObj q) (own_keys (VObj p)) k)
      as [ds [Hds Hex]].
    + apply nested_total.
    + now apply In_own_keys_obj.
    + right. split.
      * rewrite (primitive_not_nested (VObj p) k); [reflexivity|].
        now rewrite Hprim.
      * rewrite (isEmptyObject_primitive _ Hprim). exact Hr.
    + rewrite Hcmp in Hds. injection Hds as <-. congruence. }
assert (incl (map fst q) (map fst p)) as Hincl.
{ apply NoDup_length_incl; [exact Hdp | rewrite !length_map in *; lia |].
  intros k Hk. apply Hsame in Hk. now apply has_own_obj. }
intros k. destruct (lookup k p) as [v|] eqn:Hp.
- assert (In k (map fst p)) as Hk by (apply lookup_Some_In; eauto).
  destruct (Hsame k Hk) as [Hown Heq].
  rewrite (lookup_of_prop q k Hown), Heq. cbn [prop]. now rewrite Hp.
- apply lookup_None. intros Hk. apply Hincl in Hk.
  now apply lookup_None in Hp.
Qed.

(** [isDeepEqual] holds between two objects of the same content,
    whatever their identity, when the content has no function and is not
    nested beyond the cutoff. *)
Lemma isDeepEqual_of_equal_content (v : value) :
nullish v = false -> plain MAX_DEPTH v = true ->
isDeepEqual v v = Ok true.
Proof. intros Hn Hp. unfold isDeepEqual. now apply isDeepEqual_at_plain. Qed.
End DeepEqualSound.

Lemma isDeepEqual_of_two_links :
isDeepEqual (I := all_distinct)
  (VObj [("source", VStr "A"); ("target", VStr "B")])
  (VObj [("target", VStr "B"); ("source", VStr "A")]) = Ok true
/\ forall k,
     lookup k [("target", VStr "B"); ("source", VStr "A")]
     = lookup k [("source", VStr "A"); ("target", VStr "B")].
Proof.
assert (isDeepEqual (I := all_distinct)
          (VObj [("source", VStr "A"); ("target", VStr "B")])
          (VObj [("target", VStr "B"); ("source", VStr "A")]) = Ok true)
  as H by (vm_compute; reflexivity).
split; [exact H|].
apply (isDeepEqual_of_flat_object (I := all_distinct)
         (Sound := all_distinct_sound)
         [("source", VStr "A"); ("target", VStr "B")]
         [("target", VStr "B"); ("source", VStr "A")]).
- reflexivity.
- repeat constructor; cbn; intuition discriminate.
- repeat constructor; cbn; intuition discriminate.
- exact H.
Defined.


(** ** [deepClone] *)

Lemma deepClone_keys_cloned
    (nested : option (value -> result object))
    (pure : option (value -> object)) (o : value) (ks : list string)
    (acc : object) :
match nested, pure with
| Some f, Some g =>
    forall k, _isPropertyNestedObject o k = true ->
              f (prop o k) = Ok (g (prop o k))
| None, None => True
| _, _ => False
end ->
deepClone_keys nested o ks acc
= Ok (fold_left (fun a k => assign k (clone_of pure o k) a) ks acc).
Proof.
intros Hf. revert acc. induction ks as [|k ks IH]; intros acc;
  [reflexivity|].
cbn [deepClone_keys fold_left]. unfold clone_of at 2.
destruct (_isPropertyNestedObject o k) eqn:Hn.
- destruct nested as [f|], pure as [g|]; try contradiction.
  + rewrite (Hf k Hn). cbn [bind]. apply IH.
  + apply IH.
- destruct nested as [f|], pure as [g|]; try contradiction; apply IH.
Qed.

Lemma deepClone_at_cloned (budget : nat) (v : value) :
nullish v = false -> deepClone_at budget v [] = Ok (cloned budget v).
Proof.
revert v. induction budget as [|b IH]; intros v Hv;
  cbn [deepClone_at cloned]; unfold object_keys; rewrite Hv; cbn [bind].
- now apply (deepClone_keys_cloned None None).
- apply (deepClone_keys_cloned (Some (fun x => deepClone_at b x []))
           (Some (cloned b))).
  intros k Hk. apply IH. now apply nested_not_nullish.
Qed.

Lemma keys_assign_fresh {V : Type} (k : string) (v : V)
    (p : list (string * V)) :
~ In k (map fst p) -> map fst (assign k v p) = (map fst p ++ [k])%list.
Proof.
induction p as [|[k' v'] p IH]; intros Hk; [reflexivity|].
cbn [assign]. destruct (String.eqb_spec k' k) as [->|Hne].
- elim Hk. now left.
- cbn [map fst]. rewrite <- app_comm_cons. f_equal. apply IH.
  intros Hin. apply Hk. now right.
Qed.

Lemma keys_fold_assign (f : string -> value) (ks : list string)
    (acc : object) :
NoDup ks -> (forall k, In k ks -> ~ In k (map fst acc)) ->
map fst (fold_left (fun a k => assign k (f k) a) ks acc)
= (map fst acc ++ ks)%list.
Proof.
revert acc. induction ks as [|k ks IH]; intros acc Hnd Hfresh.
- cbn. now rewrite app_nil_r.
- cbn [fold_left]. inversion Hnd as [|? ? Hk Hnd']; subst.
  rewrite IH.
  + rewrite keys_assign_fresh by (apply Hfresh; now left).
    now rewrite <- app_assoc.
  + exact Hnd'.
  + intros k' Hk' Hin. apply In_keys_assign in Hin.
    destruct Hin as [->|Hin]; [contradiction|].
    apply (Hfresh k'); [now right | exact Hin].
Qed.

Lemma no_repeat_NoDup (ks : list string) : no_repeat ks = true -> NoDup ks.
Proof.
induction ks as [|k ks IH]; intros H; [constructor|].
cbn [no_repeat] in H. apply andb_prop in H. destruct H as [Hk Hks].
constructor; [|now apply IH].
intros Hin. apply includes_In in Hin. now rewrite Hin in Hk.
Qed.

Lemma distinct_keys_NoDup (budget : nat) (v : value) :
distinct_keys budget v = true -> NoDup (own_keys v).
Proof.
intros H. apply no_repeat_NoDup.
destruct budget; cbn [distinct_keys] in H; apply andb_prop in H; apply H.
Qed.

Lemma distinct_keys_prop (b : nat) (v : value) (k : string) :
distinct_keys (S b) v = true -> In k (own_keys v) ->
distinct_keys b (prop v k) = true.
Proof.
intros H Hk. cbn [distinct_keys] in H. apply andb_prop in H.
destruct H as [_ H]. exact (proj1 (forallb_forall _ _) H k Hk).
Qed.

Lemma keys_cloned (budget : nat) (v : value) :
NoDup (own_keys v) -> map fst (cloned budget v) = own_keys v.
Proof.
intros Hnd.
destruct budget; cbn [cloned]; rewrite keys_fold_assign; auto.
Qed.

Lemma lookup_cloned (budget : nat) (v : value) (k : string) :
In k (own_keys v) ->
prop (VObj (cloned budget v)) k
= clone_of (match budget with
            | S b => Some (cloned b)
            | O => None
            end) v k.
Proof.
intros Hk. cbn [prop].
destruct budget; cbn [cloned]; rewrite lookup_fold_assign;
  (destruct (in_dec string_dec k (own_keys v)); [reflexivity|contradiction]).
Qed.

Lemma isEmptyObject_container (v : value) :
is_container v = true ->
isEmptyObject v = (List.length (own_keys v) =? 0)%nat.
Proof. destruct v; try discriminate; reflexivity. Qed.

Lemma nested_is_container (o : value) (k : string) :
_isPropertyNestedObject o k = true ->
is_container (prop o k) = true /\ own_keys (prop o k) <> [].
Proof.
unfold _isPropertyNestedObject. intros H.
apply andb_prop in H. destruct H as [H He].
apply andb_prop in H. destruct H as [H Hnull].
apply andb_prop in H. destruct H as [_ Hty].
assert (is_container (prop o k) = true) as Hc
  by (destruct (prop o k); try discriminate; reflexivity).
split; [exact Hc|].
rewrite (isEmptyObject_container _ Hc) in He. intros Hk.
now rewrite Hk in He.
Qed.

Section CloneEqual.
Context {I : ObjectIdentity}.

Lemma compare_keys_alike nested (o1 o2 : value) (ks : list string) :
(forall k, In k ks ->
   (_isPropertyNestedObject o1 k && _isPropertyNestedObject o2 k = true
    /\ exists f, nested = Some f /\ f (prop o1 k) (prop o2 k) = Ok true)
   \/ (_isPropertyNestedObject o1 k && _isPropertyNestedObject o2 k = false
       /\ (isEmptyObject (prop o1 k) && isEmptyObject (prop o2 k))
          || (has_own o2 k && strict_equal (prop o2 k) (prop o1 k))
          = true)) ->
exists diffs,
  compare_keys nested o1 o2 ks = Ok diffs /\ existsb negb diffs = false.
Proof.
intros Hks. induction ks as [|k ks IH].
- exists []. split; reflexivity.
- destruct IH as [ds [Hds Hex]].
  { intros k' Hk'. apply Hks. now right. }
  cbn [compare_keys]. fold (compare_keys nested o1 o2). rewrite Hds.
  destruct (Hks k (or_introl eq_refl)) as [[Hn [f [-> Hf]]] | [Hn Hr]].
  + rewrite Hn, Hf. cbn [bind]. eexists. split; [reflexivity|].
    cbn [existsb negb orb]. assumption.
  + rewrite Hn, Hr. cbn [bind]. eexists. split; [reflexivity|].
    cbn [existsb negb orb]. assumption.
Qed.

Lemma isDeepEqual_at_same_keys (budget : nat) (v : value) (c : object) :
is_container v = true -> map fst c = own_keys v ->
(exists ds,
   compare_keys (match budget with
                 | S b => Some (isDeepEqual_at b)
                 | O => None
                 end) v (VObj c) (own_keys v) = Ok ds
   /\ existsb negb ds = false) ->
isDeepEqual_at budget v (VObj c) = Ok true.
Proof.
intros Hc Hkeys [ds [Hds Hex]]. rewrite isDeepEqual_at_eq.
destruct (_ && strict_equal v (VObj c)); [reflexivity|].
rewrite (isEmptyObject_container v Hc),
  (isEmptyObject_container (VObj c) eq_refl).
cbn [own_keys]. rewrite Hkeys, length_ordered_keys.
assert (forall x : bool, (x && negb x) || (negb x && x) = false) as ->
  by (now intros []).
assert (nullish v = false) as Hv by (now destruct v).
unfold object_keys. rewrite Hv.
cbn [nullish is_undefined is_null orb bind own_keys].
rewrite Hkeys, length_ordered_keys, Nat.eqb_refl. cbn [negb].
rewrite Hds. cbn [bind]. now rewrite Hex.
Qed.

Lemma cloned_unchanged (nested : option (value -> object)) (v : value)
    (c : object) (k : string) :
has_own (VObj c) k = true ->
is_primitive (prop v k) || isEmptyObject (prop v k) = true ->
prop (VObj c) k = clone_of nested v k ->
_isPropertyNestedObject v k && _isPropertyNestedObject (VObj c) k = false
/\ (isEmptyObject (prop v k) && isEmptyObject (prop (VObj c) k))
   || (has_own (VObj c) k && strict_equal (prop (VObj c) k) (prop v k))
   = true.
Proof.
intros Hown Hp Hlk. unfold clone_of in Hlk.
rewrite (primitive_not_nested v k Hp) in Hlk.
rewrite (primitive_not_nested v k Hp). split; [reflexivity|].
rewrite Hlk, Hown. cbn [andb].
destruct (isEmptyObject (prop v k)) eqn:He; [reflexivity|].
rewrite orb_false_r in Hp. cbn [andb orb].
now apply strict_equal_primitive_refl.
Qed.

Lemma isDeepEqual_at_cloned (budget : nat) (v : value) :
is_container v = true -> plain budget v = true ->
distinct_keys budget v = true ->
isDeepEqual_at budget v (VObj (cloned budget v)) = Ok true.
Proof.
revert v. induction budget as [|b IH]; intros v Hc Hp Hd.
- pose proof (keys_cloned 0 v (distinct_keys_NoDup _ _ Hd)) as Hkeys.
  apply isDeepEqual_at_same_keys; [exact Hc | exact Hkeys |].
  apply compare_keys_alike. intros k Hk. right.
  cbn [plain] in Hp. rewrite forallb_forall in Hp. specialize (Hp k Hk).
  rewrite orb_false_r in Hp.
  apply (cloned_unchanged None); [|exact Hp|now apply lookup_cloned].
  apply has_own_obj. rewrite Hkeys. exact Hk.
- pose proof (keys_cloned (S b) v (distinct_keys_NoDup _ _ Hd)) as Hkeys.
  apply isDeepEqual_at_same_keys; [exact Hc | exact Hkeys |].
  apply compare_keys_alike. intros k Hk.
  cbn [plain] in Hp. rewrite forallb_forall in Hp. specialize (Hp k Hk).
  assert (has_own (VObj (cloned (S b) v)) k = true) as Hown
    by (apply has_own_obj; rewrite Hkeys; exact Hk).
  pose proof (lookup_cloned (S b) v k Hk) as Hlk.
  apply orb_prop in Hp. destruct Hp as [Hp | Hp].
  + right. now apply (cloned_unchanged (Some (cloned b))).
  + apply andb_prop in Hp. destruct Hp as [Hn Hpl]. left.
    unfold clone_of in Hlk. rewrite Hn in Hlk.
    destruct (nested_is_container v k Hn) as [Hck Hne].
    pose proof (distinct_keys_prop b v k Hd Hk) as Hdk.
    split.
    * rewrite Hn. cbn [andb]. unfold _isPropertyNestedObject.
      rewrite Hown, Hlk. cbn [truthy andb typeof is_null negb].
      change ("object" =? "object") with true. cbn [andb].
      apply negb_true_iff, isEmptyObject_obj. intros Hnil.
      apply Hne.
      rewrite <- (keys_cloned b _ (distinct_keys_NoDup _ _ Hdk)), Hnil.
      reflexivity.
    * eexists. split; [reflexivity|]. rewrite Hlk. now apply IH.
Qed.
End CloneEqual.

Lemma fold_assign_ext (f g : string -> value) (ks : list string)
    (acc : object) :
(forall k, In k ks -> f k = g k) ->
fold_left (fun a k => assign k (f k) a) ks acc
= fold_left (fun a k => assign k (g k) a) ks acc.
Proof.
revert acc. induction ks as [|k ks IH]; intros acc H; [reflexivity|].
cbn [fold_left]. rewrite (H k (or_introl eq_refl)). apply IH.
intros k' Hk'. apply H. now right.
Qed.

(** The clone of an object that is not nested beyond the cutoff does not
    depend on how far the cutoff is. *)
Lemma cloned_of_plain (b : nat) (v : value) :
plain b v = true -> cloned (S b) v = cloned b v.
Proof.
revert v. induction b as [|b IH]; intros v Hp; cbn [cloned];
  apply fold_assign_ext; intros k Hk; cbn [plain] in Hp;
  rewrite forallb_forall in Hp; specialize (Hp k Hk); unfold clone_of.
- rewrite orb_false_r in Hp. now rewrite (primitive_not_nested v k Hp).
- apply orb_prop in Hp. destruct Hp as [Hp|Hp].
  + now rewrite (primitive_not_nested v k Hp).
  + apply andb_prop in Hp. destruct Hp as [Hn Hp]. rewrite Hn.
    f_equal. now apply IH.
Qed.

Lemma prop_of_string_primitive (s k : string) :
is_primitive (prop (VStr s) k) = true.
Proof.
cbn [prop]. destruct (index_of_key k) as [i|].
- now destruct (String.get (N.to_nat i) s).
- now destruct (k =? "length").
Qed.

Lemma without_arrays_primitive (b : nat) (x : value) :
is_primitive x || isEmptyObject x = true -> without_arrays b x = true.
Proof.
revert x. induction b as [|b IH]; intros x Hx;
  (destruct x as [| |c|n|s|f|p|l]; try reflexivity;
   [ cbn [without_arrays]; apply forallb_forall; intros k _;
     pose proof (prop_of_string_primitive s k) as Hs;
     apply andb_true_intro; split;
     [ now destruct (prop (VStr s) k) | ]
   | cbn [is_primitive orb] in Hx; apply isEmptyObject_cases in Hx;
     destruct Hx as [Hx|Hx]; inversion Hx; reflexivity
   | cbn [is_primitive orb] in Hx; apply isEmptyObject_cases in Hx;
     destruct Hx as [Hx|Hx]; inversion Hx; reflexivity ]).
- reflexivity.
- apply IH. now rewrite Hs.
Qed.

(** In the clone every array with elements has become an object, at
    every level. *)
Lemma without_arrays_cloned (b : nat) (v : value) :
plain b v = true -> distinct_keys b v = true ->
without_arrays b (VObj (cloned b v)) = true.
Proof.
revert v. induction b as [|b IH]; intros v Hp Hd;
  cbn [without_arrays]; apply forallb_forall; intros k Hk;
  apply In_own_keys_obj in Hk;
  rewrite (keys_cloned _ v (distinct_keys_NoDup _ _ Hd)) in Hk;
  rewrite (lookup_cloned _ v k Hk); unfold clone_of;
  cbn [plain] in Hp; rewrite forallb_forall in Hp; specialize (Hp k Hk).
- rewrite orb_false_r in Hp. rewrite (primitive_not_nested v k Hp).
  rewrite andb_true_r.
  destruct (prop v k) as [| |c|n|s|f|p|[|x l]]; try reflexivity.
  discriminate Hp.
- apply orb_prop in Hp. destruct Hp as [Hp|Hp].
  + rewrite (primitive_not_nested v k Hp).
    rewrite (without_arrays_primitive b _ Hp), andb_true_r.
    destruct (prop v k) as [| |c|n|s|f|p|[|x l]]; try reflexivity.
    discriminate Hp.
  + apply andb_prop in Hp. destruct Hp as [Hn Hp]. rewrite Hn.
    cbn [andb]. apply IH; [exact Hp|].
    now apply distinct_keys_prop.
Qed.

Lemma lookup_cloned_nested (b : nat) (v : value) (k : string) :
plain (S b) v = true -> In k (own_keys v) ->
if _isPropertyNestedObject v k
then exists c', deepClone_at (S b) (prop v k) [] = Ok c'
                /\ lookup k (cloned (S b) v) = Some (VObj c')
else lookup k (cloned (S b) v) = Some (prop v k).
Proof.
intros Hp Hk. cbn [cloned]. rewrite lookup_fold_assign.
destruct (in_dec string_dec k (own_keys v)) as [_|Hout]; [|contradiction].
unfold clone_of.
destruct (_isPropertyNestedObject v k) eqn:Hn; [|reflexivity].
exists (cloned b (prop v k)). split; [|reflexivity].
rewrite deepClone_at_cloned by now apply nested_not_nullish.
f_equal. apply cloned_of_plain.
cbn [plain] in Hp. rewrite forallb_forall in Hp. specialize (Hp k Hk).
apply orb_prop in Hp. destruct Hp as [Hp|Hp].
- now rewrite (primitive_not_nested v k Hp) in Hn.
- apply andb_prop in Hp. apply Hp.
Qed.

(** X9. Of an object or an array that is ordinary ([ordinary]: no object
    within it owns a property under the name of an inherited member,
    [hasOwnProperty] among them, and every number in it is an integer below
    2^53), has no function and is not nested beyond the cutoff, [deepClone]
    returns a plain object with the keys of its argument.  A property that
    is a nested object is cloned in its turn: the clone holds under its key
    what [deepClone] returns for it, all others it holds as they are.  An
    array is cloned into a plain object with the indices for keys, so that
    at no level the clone holds an array with elements.  [isDeepEqual] does
    not tell the clone from its original. *)
Theorem deepClone_is_deep_equal {I : ObjectIdentity} (v : value) :
ordinary v = true -> is_container v = true ->
plain MAX_DEPTH v = true -> distinct_keys MAX_DEPTH v = true ->
exists c,
  deepClone v = Ok c
  /\ map fst c = own_keys v
  /\ (forall k, In k (own_keys v) ->
                if _isPropertyNestedObject v k
                then exists c', deepClone (prop v k) = Ok c'
                                /\ lookup k c = Some (VObj c')
                else lookup k c = Some (prop v k))
  /\ without_arrays MAX_DEPTH (VObj c) = true
  /\ isDeepEqual v (VObj c) = Ok true.
Proof.
intros Hordinary Hc Hp Hd. exists (cloned MAX_DEPTH v).
split; [|split; [|split; [|split]]].
- apply deepClone_at_cloned. now destruct v.
- exact (keys_cloned _ _ (distinct_keys_NoDup _ _ Hd)).
- intros k Hk. exact (lookup_cloned_nested 19 v k Hp Hk).
- now apply without_arrays_cloned.
- now apply isDeepEqual_at_cloned.
Qed.

Lemma deepClone_of_a_configuration :
exists c,
  deepClone (VObj [("link", VObj [("color", VStr "red")]);
                   ("sizes", VArr [VNum 1; VNum 2])]) = Ok c
  /\ map fst c = ["link"; "sizes"]
  /\ lookup "link" c = Some (VObj [("color", VStr "red")])
  /\ lookup "sizes" c = Some (VObj [("0", VNum 1); ("1", VNum 2)])
  /\ isDeepEqual (I := all_distinct)
       (VObj [("link", VObj [("color", VStr "red")]);
              ("sizes", VArr [VNum 1; VNum 2])]) (VObj c) = Ok true.
Proof.
destruct (deepClone_is_deep_equal (I := all_distinct)
            (VObj [("link", VObj [("color", VStr "red")]);
                   ("sizes", VArr [VNum 1; VNum 2])]))
  as (c & Hc & Hk & _ & _ & He);
  [vm_compute; reflexivity | reflexivity | vm_compute; reflexivity
  | vm_compute; reflexivity |].
exists c. split; [exact Hc|]. split; [exact Hk|].
vm_compute in Hc. injection Hc as <-.
split; [reflexivity|]. split; [reflexivity|]. exact He.
Defined.


(** ** The adjacency matrix of [_initializeLinks] *)

Lemma lookup_row_set_entry (s t : string) (v : value) (m : matrix)
    (a : string) :
lookup_row a (set_entry s t v m)
= match lookup_row a m with
  | Some r => Some (if a =? s then assign t v r else r)
  | None => None
  end.
Proof.
induction m as [|[k row] m IH]; [reflexivity|].
cbn [set_entry]. destruct (String.eqb_spec k s) as [->|Hks].
- cbn [lookup_row]. destruct (String.eqb_spec s a) as [->|Hsa].
  + now rewrite String.eqb_refl.
  + destruct (lookup_row a m); [|reflexivity].
    destruct (String.eqb_spec a s); [congruence | reflexivity].
- cbn [lookup_row]. destruct (String.eqb_spec k a) as [->|Hka].
  + destruct (String.eqb_spec a s); [congruence | reflexivity].
  + exact IH.
Qed.

Lemma lookup_row_app (a : string) (m m' : matrix) :
lookup_row a (m ++ m')%list
= match lookup_row a m with
  | Some r => Some r
  | None => lookup_row a m'
  end.
Proof.
induction m as [|[k row] m IH]; [reflexivity|].
rewrite <- app_comm_cons. cbn [lookup_row]. now destruct (k =? a).
Qed.

Lemma entry_ensure_row (k : string) (m : matrix) (a b : string) :
entry (ensure_row k m) a b = entry m a b.
Proof.
unfold entry, ensure_row. destruct (lookup_row k m); [reflexivity|].
rewrite lookup_row_app. destruct (lookup_row a m); [reflexivity|].
cbn [lookup_row]. now destruct (k =? a).
Qed.

Lemma row_of_ensure_row (k k' : string) (m : matrix) :
k = k' \/ lookup_row k m <> None -> lookup_row k (ensure_row k' m) <> None.
Proof.
unfold ensure_row. intros H.
destruct (lookup_row k' m) eqn:Hk'.
- destruct H as [->|H]; [congruence | exact H].
- rewrite lookup_row_app. destruct (lookup_row k m); [discriminate|].
  destruct H as [->|H]; [|now elim H].
  cbn [lookup_row]. now rewrite String.eqb_refl.
Qed.

Lemma entry_set_entry (s t : string) (v : value) (m : matrix)
    (a b : string) :
lookup_row s m <> None ->
entry (set_entry s t v m) a b
= if (a =? s) && (b =? t) then Some v else entry m a b.
Proof.
intros Hs. unfold entry. rewrite lookup_row_set_entry.
destruct (String.eqb_spec a s) as [->|Has].
- destruct (lookup_row s m) as [r|]; [|now elim Hs].
  rewrite lookup_assign, (String.eqb_sym t b). reflexivity.
- now destruct (lookup_row a m).
Qed.

Section LinkEntries.
Context {E : Environment} {I : ObjectIdentity}.

Lemma _initializeLinks_step_entries (config : value) (m m' : matrix)
    (l : value) :
_initializeLinks_step config m l = Ok m' ->
exists s t,
  endpoints l = Ok (s, t)
  /\ forall a b,
       entry m' a b
       = if ((a =? s) && (b =? t))
            || (negb (truthy (prop config "directed"))
                && ((a =? t) && (b =? s)))
         then Some (weight config l) else entry m a b.
Proof.
unfold _initializeLinks_step, endpoints. intros H.
inv_bind H. subst m'.
exists (to_key a0), (to_key a2). split; [now run_steps|].
apply get_Ok in Hstep3, Hstep4.
destruct Hstep3 as [-> _], Hstep4 as [-> _].
fold (weight config l).
set (m2 := ensure_row (to_key a2) (ensure_row (to_key a0) m)).
assert (lookup_row (to_key a0) m2 <> None) as Hs
  by (apply row_of_ensure_row; right; apply row_of_ensure_row; now left).
assert (lookup_row (to_key a2) m2 <> None) as Ht
  by (apply row_of_ensure_row; now left).
assert (forall x y, entry m2 x y = entry m x y) as Hm2
  by (intros x y; unfold m2; now rewrite !entry_ensure_row).
intros x y. destruct (negb (truthy (prop config "directed"))).
- rewrite entry_set_entry.
  + rewrite entry_set_entry by exact Hs. rewrite Hm2. cbn [andb].
    destruct ((x =? to_key a0) && (y =? to_key a2)),
      ((x =? to_key a2) && (y =? to_key a0)); reflexivity.
  + rewrite lookup_row_set_entry.
    destruct (lookup_row (to_key a2) m2); [discriminate | now elim Ht].
- rewrite entry_set_entry by exact Hs. rewrite Hm2. cbn [andb].
  now rewrite orb_false_r.
Qed.

Lemma reduce_initializeLinks_entries (config : value) (ls : list value)
    (acc m : matrix) :
reduceM (_initializeLinks_step config) ls acc = Ok m ->
forall a b w,
  entry m a b = Some w ->
  entry acc a b = Some w
  \/ exists l, In l ls /\ sets_entry config l a b /\ w = weight config l.
Proof.
revert acc. induction ls as [|l ls IH]; intros acc H a b w Hw;
  cbn [reduceM] in H.
- injection H as <-. now left.
- inv_bind H.
  destruct (_initializeLinks_step_entries _ _ _ _ Hstep)
    as [s [t [Hends Hentry]]].
  destruct (IH _ H a b w Hw) as [Hacc | [l' [Hin Hl']]].
  + rewrite Hentry in Hacc.
    destruct ((a =? s) && (b =? t)) eqn:Hst.
    * right. exists l. split; [now left|]. cbn [orb] in Hacc.
      injection Hacc as <-. split; [|reflexivity]. left.
      apply andb_prop in Hst. destruct Hst as [Ha Hb].
      apply String.eqb_eq in Ha, Hb. now subst.
    * cbn [orb] in Hacc.
      destruct (negb (truthy (prop config "directed"))) eqn:Hd;
        [|now left].
      destruct ((a =? t) && (b =? s)) eqn:Hts; [|now left].
      right. exists l. split; [now left|]. cbn [andb] in Hacc.
      injection Hacc as <-. split; [|reflexivity]. right.
      apply negb_true_iff in Hd. split; [exact Hd|].
      apply andb_prop in Hts. destruct Hts as [Ha Hb].
      apply String.eqb_eq in Ha, Hb. now subst.
  + right. exists l'. split; [now right | exact Hl'].
Qed.

Lemma reduce_initializeLinks_defined (config : value) (ls : list value)
    (acc m : matrix) :
reduceM (_initializeLinks_step config) ls acc = Ok m ->
forall a b,
  (entry acc a b <> None \/ exists l, In l ls /\ sets_entry config l a b) ->
  entry m a b <> None.
Proof.
revert acc. induction ls as [|l ls IH]; intros acc H a b Hab;
  cbn [reduceM] in H.
- injection H as <-. destruct Hab as [Hacc | [l [[] _]]]. exact Hacc.
- inv_bind H.
  destruct (_initializeLinks_step_entries _ _ _ _ Hstep)
    as [s [t [Hends Hentry]]].
  apply (IH _ H). rewrite Hentry.
  destruct Hab as [Hacc | [l' [[<-|Hin] Hl']]].
  + left. now destruct (_ || _).
  + left. destruct Hl' as [Hl' | [Hd Hl']]; rewrite Hends in Hl';
      injection Hl' as <- <-; rewrite !String.eqb_refl; cbn [andb orb].
    * discriminate.
    * rewrite Hd. cbn [negb andb]. rewrite orb_true_r. discriminate.
  + right. exists l'. auto.
Qed.

(** X10. For ordinary links ([ordinary]: no object within them owns a
    property under the name of an inherited member, and every number in
    them is an integer below 2^53) whose ends are ordinary keys
    ([ordinary_ends]: no name of an inherited member, such as [constructor]
    or [__proto__]), the matrix of [_initializeLinks] has a weight from [a]
    to [b] exactly when some link goes from [a] to [b] or, the graph not
    being directed, from [b] to [a]; and each weight is that of such a
    link. *)
Theorem _initializeLinks_entries (config : value) (ls : list value) :
ordinary (VArr ls) = true -> forallb ordinary_ends ls = true ->
nullish config = false -> readable_links ls ->
exists m,
  _initializeLinks ls config = Ok m
  /\ (forall a b,
        entry m a b <> None
        <-> exists l, In l ls /\ sets_entry config l a b)
  /\ (forall a b w,
        entry m a b = Some w ->
        exists l, In l ls /\ sets_entry config l a b
                  /\ w = weight config l).
Proof.
intros Hordinary Hends Hc Hls. unfold _initializeLinks.
destruct (_initializeLinks_total config ls Hc Hls []) as [m Hm].
exists m. split; [exact Hm|]. split.
- intros a b. split.
  + intros Hab. destruct (entry m a b) as [w|] eqn:Hw; [|now elim Hab].
    destruct (reduce_initializeLinks_entries _ _ _ _ Hm a b w Hw)
      as [Hacc | [l [Hin [Hl _]]]]; [discriminate Hacc|].
    exists l. auto.
  + intros Hl. apply (reduce_initializeLinks_defined _ _ _ _ Hm).
    now right.
- intros a b w Hw.
  destruct (reduce_initializeLinks_entries _ _ _ _ Hm a b w Hw)
    as [Hacc | Hl]; [discriminate Hacc | exact Hl].
Qed.
End LinkEntries.


Section LinkWeights.
Context {E : Environment} {I : ObjectIdentity}.

Lemma reduce_initializeLinks_symmetric (config : value) (ls : list value)
    (acc m : matrix) :
truthy (prop config "directed") = false ->
reduceM (_initializeLinks_step config) ls acc = Ok m ->
(forall a b, entry acc a b = entry acc b a) ->
forall a b, entry m a b = entry m b a.
Proof.
intros Hd. revert acc. induction ls as [|l ls IH]; intros acc H Hacc;
  cbn [reduceM] in H.
- injection H as <-. exact Hacc.
- inv_bind H.
  destruct (_initializeLinks_step_entries _ _ _ _ Hstep)
    as [s [t [_ Hentry]]].
  apply (IH _ H). intros x y. rewrite !Hentry, Hd, Hacc. cbn [negb andb].
  now rewrite orb_comm, (andb_comm (y =? t)), (andb_comm (y =? s)).
Qed.

(** X11. For a graph that is not directed, of ordinary links ([ordinary])
    whose ends are ordinary keys ([ordinary_ends]), the matrix is
    symmetric: the weight from [a] to [b] is the weight from [b] to [a]. *)
Theorem _initializeLinks_symmetric (config : value) (ls : list value) :
ordinary (VArr ls) = true -> forallb ordinary_ends ls = true ->
nullish config = false -> readable_links ls ->
truthy (prop config "directed") = false ->
exists m,
  _initializeLinks ls config = Ok m
  /\ forall a b, entry m a b = entry m b a.
Proof.
intros Hordinary Hends Hc Hls Hd. unfold _initializeLinks.
destruct (_initializeLinks_total config ls Hc Hls []) as [m Hm].
exists m. split; [exact Hm|].
apply (reduce_initializeLinks_symmetric config ls [] m Hd Hm).
reflexivity.
Qed.

End LinkWeights.

Lemma readable_sample_links :
readable_links [link_between "A" "B";
                VObj [("source", VStr "B"); ("target", VStr "C");
                      ("value", VNum 0)]].
Proof.
repeat constructor.
- exists "A", "B". reflexivity.
- exists "B", "C". reflexivity.
Defined.

Lemma entries_of_a_directed_graph :
exists m,
  _initializeLinks
    [link_between "A" "B";
     VObj [("source", VStr "B"); ("target", VStr "C"); ("value", VNum 0)]]
    (with_option "directed" (VBool true) sample_config) = Ok m
  /\ entry m "A" "B" = Some (VNum 1)
  /\ entry m "B" "A" = None.
Proof.
destruct (_initializeLinks_entries
            (with_option "directed" (VBool true) sample_config)
            [link_between "A" "B";
             VObj [("source", VStr "B"); ("target", VStr "C");
                   ("value", VNum 0)]] eq_refl eq_refl eq_refl
            readable_sample_links)
  as [m [Hm [Hiff Hw]]].
exists m. split; [exact Hm|].
vm_compute in Hm. injection Hm as <-. split; reflexivity.
Defined.

Lemma entries_of_an_undirected_graph :
exists m,
  _initializeLinks
    [link_between "A" "B";
     VObj [("source", VStr "B"); ("target", VStr "C"); ("value", VNum 0)]]
    sample_config = Ok m
  /\ forall a b, entry m a b = entry m b a.
Proof.
exact (_initializeLinks_symmetric sample_config
         [link_between "A" "B";
          VObj [("source", VStr "B"); ("target", VStr "C");
                ("value", VNum 0)]]
         eq_refl eq_refl eq_refl readable_sample_links eq_refl).
Defined.



(** ** The node map of [_initializeNodes] *)

Lemma initialized_node_default (node : object) (k : string) :
k = "x" \/ k = "y" ->
lookup k (initialized_node node)
= Some (or_default (lookup k node) (VNum 0)).
Proof.
intros Hk. destruct (lookup k node) as [v|] eqn:Hv.
- now apply initialized_node_coordinate.
- unfold initialized_node. cbn [has_own or_default].
  destruct Hk as [-> | ->].
  + rewrite (lookup_assign_other "x" "highlighted") by discriminate.
    rewrite Hv. cbn [negb].
    match goal with
    | |- context [if ?c then _ else _] => destruct c
    end.
    * rewrite lookup_assign_other by discriminate.
      apply lookup_assign_same.
    * apply lookup_assign_same.
  + match goal with
    | |- context [if negb ?c then assign "x" _ _ else _] => destruct c
    end; cbn [negb].
    * rewrite (lookup_assign_other "y" "highlighted") by discriminate.
      rewrite Hv. cbn [negb]. apply lookup_assign_same.
    * rewrite (lookup_assign_other "y" "x") by discriminate.
      rewrite (lookup_assign_other "y" "highlighted") by discriminate.
      rewrite Hv. cbn [negb]. apply lookup_assign_same.
Qed.

Lemma initialized_node_normalized (node : object) :
normalized node (initialized_node node).
Proof.
split; [apply initialized_node_highlighted|].
split; [apply initialized_node_default; now left|].
split; [apply initialized_node_default; now right|].
intros k. apply initialized_node_prop.
Qed.

Lemma stored_nodes_other (graphNodes : list object) (acc : object)
    (k : string) :
(forall n, In n graphNodes -> node_key (VObj n) <> k) ->
lookup k (stored_nodes graphNodes acc) = lookup k acc.
Proof.
unfold stored_nodes. revert acc.
induction graphNodes as [|n ns IH]; intros acc Hk; [reflexivity|].
cbn [fold_left]. rewrite IH by (intros n' Hn'; apply Hk; now right).
apply lookup_assign_other. intros Heq. apply (Hk n); [now left|].
now symmetry.
Qed.

(** X13. Given ordinary nodes ([ordinary]: no object within a node owns a
    property under the name of an inherited member, such as
    [hasOwnProperty], and every number in it is an integer below 2^53)
    whose ids are ordinary keys ([ordinary_key]: no such name, as
    [__proto__] is), [_initializeNodes] raises a [TypeError] when some node
    has no id ([undefined] or [null]).  Otherwise it returns: every node
    comes out not highlighted, with [x] and [y] ([0] where it had none) and
    with its other properties as they were, and the map stores nothing but
    these nodes, each under the text of its id. *)
Theorem _initializeNodes_normalizes (graphNodes : list object) :
forallb (fun n => ordinary (VObj n) && ordinary_key (node_key (VObj n)))
        graphNodes = true ->
if forallb (fun n => has_id (VObj n)) graphNodes
then exists nodes d3Nodes,
       _initializeNodes graphNodes = Ok (nodes, d3Nodes)
       /\ Forall2 normalized graphNodes d3Nodes
       /\ forall k v,
            lookup k nodes = Some v ->
            exists n', In n' d3Nodes /\ v = VObj n' /\ node_key v = k
else _initializeNodes graphNodes = Throw TypeError.
Proof.
intros Hordinary. unfold _initializeNodes.
rewrite (_initializeNodes_from_eq (E := sample_environment)
           (I := all_distinct)).
destruct (forallb (fun n => has_id (VObj n)) graphNodes); [|reflexivity].
exists (stored_nodes graphNodes []), (map initialized_node graphNodes).
split; [reflexivity|]. clear Hordinary. split.
- induction graphNodes as [|n ns IH]; constructor;
    [apply initialized_node_normalized | exact IH].
- intros k v Hv. apply stored_nodes_lookup in Hv.
  destruct Hv as [Hv | [n [Hin [Hk ->]]]]; [discriminate Hv|].
  exists (initialized_node n). split; [now apply in_map|].
  split; [reflexivity|]. unfold node_key in *.
  now rewrite node_key_initialized.
Qed.

(** X14. Of several ordinary nodes ([ordinary]) with the same id, an ordinary
    key ([ordinary_key]), the map of [_initializeNodes] holds the last
    one. *)
Theorem _initializeNodes_last_node_wins (before after : list object)
    (n : object) :
forallb (fun n => ordinary (VObj n) && ordinary_key (node_key (VObj n)))
        (before ++ n :: after)%list = true ->
forallb (fun n => has_id (VObj n)) (before ++ n :: after)%list = true ->
(forall n', In n' after -> node_key (VObj n') <> node_key (VObj n)) ->
exists nodes d3Nodes n',
  _initializeNodes (before ++ n :: after)%list = Ok (nodes, d3Nodes)
  /\ lookup (node_key (VObj n)) nodes = Some (VObj n')
  /\ normalized n n'.
Proof.
intros Hordinary Hids Hafter. unfold _initializeNodes.
rewrite (_initializeNodes_from_eq (E := sample_environment)
           (I := all_distinct)), Hids.
exists (stored_nodes (before ++ n :: after)%list []),
  (map initialized_node (before ++ n :: after)%list), (initialized_node n).
split; [reflexivity|]. split; [|apply initialized_node_normalized].
unfold stored_nodes. rewrite fold_left_app. cbn [fold_left].
fold (stored_nodes after
        (assign (node_key (VObj n)) (VObj (initialized_node n))
           (fold_left
              (fun a n0 =>
                 assign (node_key (VObj n0)) (VObj (initialized_node n0)) a)
              before []))).
rewrite stored_nodes_other by exact Hafter.
apply lookup_assign_same.
Qed.

Lemma nodes_with_and_without_id :
(exists nodes d3Nodes,
   _initializeNodes [[("id", VStr "A"); ("x", VNum 5)]; [("id", VNum 7)]]
   = Ok (nodes, d3Nodes)
   /\ Forall2 normalized [[("id", VStr "A"); ("x", VNum 5)]; [("id", VNum 7)]]
        d3Nodes
   /\ forall k v,
        lookup k nodes = Some v ->
        exists n', In n' d3Nodes /\ v = VObj n' /\ node_key v = k)
/\ _initializeNodes [[("id", VStr "A")]; [("name", VStr "B")]]
   = Throw TypeError.
Proof.
split.
- exact (_initializeNodes_normalizes
           [[("id", VStr "A"); ("x", VNum 5)]; [("id", VNum 7)]] eq_refl).
- exact (_initializeNodes_normalizes
           [[("id", VStr "A")]; [("name", VStr "B")]] eq_refl).
Defined.

Lemma two_nodes_with_one_id :
exists nodes d3Nodes n',
  _initializeNodes
    [[("id", VStr "A"); ("color", VStr "red")];
     [("id", VStr "A"); ("color", VStr "blue")]; [("id", VStr "B")]]
  = Ok (nodes, d3Nodes)
  /\ lookup "A" nodes = Some (VObj n')
  /\ normalized [("id", VStr "A"); ("color", VStr "blue")] n'.
Proof.
apply (_initializeNodes_last_node_wins
         [[("id", VStr "A"); ("color", VStr "red")]]
         [[("id", VStr "B")]] [("id", VStr "A"); ("color", VStr "blue")]).
- reflexivity.
- reflexivity.
- intros n' [<-|[]]. discriminate.
Defined.


(** ** The links of the simulation, [_mapDataLinkToD3Link] *)

Lemma pick_custom_properties (link : value) :
nullish link = false ->
exists p,
  pick link LINK_CUSTOM_PROPS_WHITELIST = Ok p
  /\ forall k, lookup k p = custom_property link k.
Proof.
intros Hn. destruct (pick_from_total link LINK_CUSTOM_PROPS_WHITELIST [] Hn)
  as [p Hp].
exists p. split; [exact Hp|]. intros k.
rewrite (pick_lookup link _ p Hp k). unfold custom_property.
rewrite <- in_dec_includes.
destruct (in_dec string_dec k LINK_CUSTOM_PROPS_WHITELIST); reflexivity.
Qed.

Lemma lookup_object_assign_value (s : value) (a : object) (k : string) :
lookup k (object_assign [] [s; VObj a])
= match lookup k a with
  | Some v => Some v
  | None => if includes (own_keys s) k then Some (prop s k) else None
  end.
Proof.
unfold object_assign. cbn [fold_left].
rewrite lookup_own_entries_obj, lookup_assign_source, <- in_dec_includes.
cbn [lookup]. now destruct (in_dec string_dec k (own_keys s)).
Qed.

Section D3Links.
Context {E : Environment} {I : ObjectIdentity}.

(** X15. For an ordinary link ([ordinary_object]: it owns no property under
    the name of an inherited member, such as [hasOwnProperty]) that the
    simulation does not know yet (no link of the state at its index)
    [_mapDataLinkToD3Link] returns a new link that has the index, the two
    ends as nodes [{ id, highlighted: false }], and of the properties of
    the input link only the custom ones ([color], [opacity],
    [strokeWidth], [label]): a declared [value] is not carried over. *)
Theorem _mapDataLinkToD3Link_of_new_link
    (link d3Links_arg config state_arg : value) (index : nat) :
ordinary_object link = true ->
nullish link = false ->
nullish (default_arg d3Links_arg (VArr [])) = false ->
truthy (prop (default_arg d3Links_arg (VArr []))
             (key_of_index (N.of_nat index))) = false ->
exists r,
  _mapDataLinkToD3Link link index d3Links_arg config state_arg = Ok (VObj r)
  /\ forall k,
       lookup k r
       = match custom_property link k with
         | Some v => Some v
         | None =>
             lookup k
               [("index", VNum (Z.of_nat index));
                ("source", VObj [("id", prop link "source");
                                 ("highlighted", VBool false)]);
                ("target", VObj [("id", prop link "target");
                                 ("highlighted", VBool false)])]
         end.
Proof.
intros Hordinary Hl Hd Hnew. unfold _mapDataLinkToD3Link.
unfold get at 1. rewrite Hd. cbn [bind].
destruct (pick_custom_properties link Hl) as [p [-> Hp]]. cbn [bind].
rewrite Hnew. unfold get. rewrite Hl. cbn [bind].
eexists. split; [reflexivity|]. intros k.
unfold object_assign. cbn [fold_left].
now rewrite lookup_own_entries_obj, Hp.
Qed.

(** X16. For an ordinary link that the simulation knows already as an
    ordinary link ([ordinary_object]: neither owns a property under the
    name of an inherited member) [_mapDataLinkToD3Link] returns the link of
    the state with the custom properties of the input link over it; and
    with [isHidden: false] over that when the graph is not collapsible or
    its directedness was toggled. *)
Theorem _mapDataLinkToD3Link_of_known_link
    (link d3Links_arg config state_arg : value) (index : nat) :
let d3Link :=
  prop (default_arg d3Links_arg (VArr [])) (key_of_index (N.of_nat index)) in
let state := default_arg state_arg (VObj []) in
ordinary_object link = true -> ordinary_object d3Link = true ->
nullish link = false ->
nullish (default_arg d3Links_arg (VArr [])) = false ->
nullish config = false -> nullish state = false ->
truthy d3Link = true ->
exists r,
  _mapDataLinkToD3Link link index d3Links_arg config state_arg = Ok (VObj r)
  /\ forall k,
       lookup k r
       = if (k =? "isHidden")
            && (toggled_directed config state
                || negb (truthy (prop config "collapsible")))
         then Some (VBool false)
         else match custom_property link k with
              | Some v => Some v
              | None => if includes (own_keys d3Link) k
                        then Some (prop d3Link k) else None
              end.
Proof.
intros d3Link state Hordinary Hordinary' Hl Hd Hc Hs Hknown.
unfold _mapDataLinkToD3Link.
unfold get at 1. rewrite Hd. cbn [bind]. fold d3Link.
destruct (pick_custom_properties link Hl) as [p [-> Hp]]. cbn [bind].
rewrite Hknown. fold state. unfold get. rewrite Hs, Hc. cbn [bind].
unfold toggled_directed.
assert (forall k (shown : bool),
          lookup k (if shown
                    then object_assign []
                           [VObj (object_assign [] [d3Link; VObj p]);
                            VObj [("isHidden", VBool false)]]
                    else object_assign [] [d3Link; VObj p])
          = if (k =? "isHidden") && shown then Some (VBool false)
            else match custom_property link k with
                 | Some v => Some v
                 | None => if includes (own_keys d3Link) k
                           then Some (prop d3Link k) else None
                 end) as Hshown.
{ intros k shown. destruct shown.
  - rewrite lookup_object_assign_objects. cbn [lookup].
    rewrite (String.eqb_sym "isHidden" k), andb_true_r.
    destruct (k =? "isHidden"); [reflexivity|].
    now rewrite lookup_object_assign_value, Hp.
  - rewrite andb_false_r. now rewrite lookup_object_assign_value, Hp. }
destruct (truthy (prop state "config")) eqn:Hsc; cbn [andb bind].
- destruct (truthy (prop (prop state "config") "directed")) eqn:Hsd;
    cbn [andb bind truthy].
  + destruct (negb (strict_equal (prop config "directed")
                      (prop (prop state "config") "directed")));
      cbn [orb bind].
    * eexists. split; [reflexivity|]. intros k.
      apply (Hshown k true).
    * destruct (truthy (prop config "collapsible")); cbn [negb];
        eexists; (split; [reflexivity|]); intros k.
      -- apply (Hshown k false).
      -- apply (Hshown k true).
  + rewrite Hsd. cbn [orb bind].
    destruct (truthy (prop config "collapsible")); cbn [negb];
      eexists; (split; [reflexivity|]); intros k.
    * apply (Hshown k false).
    * apply (Hshown k true).
- rewrite Hsc. cbn [orb bind].
  destruct (truthy (prop config "collapsible")); cbn [negb];
    eexists; (split; [reflexivity|]); intros k.
  + apply (Hshown k false).
  + apply (Hshown k true).
Qed.
End D3Links.


Lemma new_link_loses_its_value :
exists r,
  _mapDataLinkToD3Link (I := all_distinct)
    (VObj [("source", VStr "A"); ("target", VStr "B"); ("value", VNum 3);
           ("color", VStr "red")]) 0 VUndefined sample_config VUndefined
  = Ok (VObj r)
  /\ lookup "color" r = Some (VStr "red")
  /\ lookup "index" r = Some (VNum 0)
  /\ lookup "value" r = None.
Proof.
destruct (_mapDataLinkToD3Link_of_new_link (I := all_distinct)
            (VObj [("source", VStr "A"); ("target", VStr "B");
                   ("value", VNum 3); ("color", VStr "red")])
            VUndefined sample_config VUndefined 0 eq_refl eq_refl eq_refl
            eq_refl)
  as [r [Hr Hlk]].
exists r. split; [exact Hr|]. rewrite !Hlk. repeat split.
Defined.

Lemma known_link_is_shown_again :
exists r,
  _mapDataLinkToD3Link (I := all_distinct)
    (VObj [("source", VStr "A"); ("target", VStr "B");
           ("color", VStr "blue")]) 0
    (VArr [VObj [("index", VNum 0); ("source", node_named "A");
                 ("target", node_named "B"); ("isHidden", VBool true);
                 ("color", VStr "red")]])
    sample_config (VObj [("config", sample_config)])
  = Ok (VObj r)
  /\ lookup "isHidden" r = Some (VBool false)
  /\ lookup "color" r = Some (VStr "blue")
  /\ lookup "source" r = Some (node_named "A").
Proof.
destruct (_mapDataLinkToD3Link_of_known_link (I := all_distinct)
            (VObj [("source", VStr "A"); ("target", VStr "B");
                   ("color", VStr "blue")])
            (VArr [VObj [("index", VNum 0); ("source", node_named "A");
                         ("target", node_named "B");
                         ("isHidden", VBool true); ("color", VStr "red")]])
            sample_config (VObj [("config", sample_config)]) 0
            eq_refl eq_refl eq_refl eq_refl eq_refl eq_refl eq_refl)
  as [r [Hr Hlk]].
exists r. split; [exact Hr|]. rewrite !Hlk. repeat split.
Defined.


(** ** Changes of the configuration, [checkForGraphConfigChanges] *)

Lemma truthy_not_nullish (v : value) : truthy v = true -> nullish v = false.
Proof. destruct v; try discriminate; reflexivity. Qed.

Lemma plain_mono (b : nat) (v : value) :
plain b v = true -> plain (S b) v = true.
Proof.
revert v. induction b as [|b IH]; intros v Hp; cbn [plain] in *;
  rewrite forallb_forall in *; intros k Hk; specialize (Hp k Hk).
- rewrite orb_false_r in Hp. now rewrite Hp.
- apply orb_prop in Hp. destruct Hp as [-> | Hp]; [reflexivity|].
  apply andb_prop in Hp. destruct Hp as [Hn Hp].
  apply IH in Hp. cbn [plain] in Hp. rewrite Hn, Hp. cbn [andb].
  apply orb_true_r.
Qed.

Section ConfigChangesCases.
Context {E : Environment} {I : ObjectIdentity} {Sound : SoundIdentity I}.

Lemma strict_equal_sound (a b : value) : strict_equal a b = true -> a = b.
Proof.
intros H. destruct (is_primitive a) eqn:Ha.
- now apply strict_equal_primitive_eq.
- now apply strict_equal_objects_sound.
Qed.

Lemma checkForGraphConfigChanges_eq
    (nextProps currentState config sconfig : value) :
configurations nextProps currentState config sconfig ->
checkForGraphConfigChanges nextProps currentState
= (same <- isDeepEqual config sconfig ;;
   d3Updated <-
     (if truthy (prop config "d3") then
        same' <- isDeepEqual (prop config "d3") (prop sconfig "d3") ;;
        Ok (VBool (negb same'))
      else Ok (prop config "d3")) ;;
   Ok (config_changes (VBool (negb same)) d3Updated)).
Proof.
intros (Hn & Ht & He & Hs & Hsn & _). unfold checkForGraphConfigChanges.
rewrite Hn. cbn [bind]. unfold js_or. rewrite Ht, Ht, He, Hs. cbn [negb bind].
destruct (isDeepEqual config sconfig) as [same|e]; [|reflexivity].
cbn [bind]. unfold get. rewrite Hsn. cbn [bind].
destruct (truthy (prop config "d3")); [|reflexivity].
destruct (isDeepEqual (prop config "d3") (prop sconfig "d3"));
  reflexivity.
Qed.

Lemma d3_changes_total (config sconfig : value) :
(truthy (prop config "d3") = true -> nullish (prop sconfig "d3") = false) ->
exists d3Updated,
  (if truthy (prop config "d3") then
     same' <- isDeepEqual (prop config "d3") (prop sconfig "d3") ;;
     Ok (VBool (negb same'))
   else Ok (prop config "d3")) = Ok d3Updated.
Proof.
intros Hd3. destruct (truthy (prop config "d3")) eqn:Ht; [|eauto].
destruct (isDeepEqual_at_total MAX_DEPTH (prop config "d3")
            (prop sconfig "d3")) as [r Hr].
- now apply truthy_not_nullish.
- now apply Hd3.
- unfold isDeepEqual. rewrite Hr. cbn [bind]. eauto.
Qed.

(** X17. Without a configuration in the next props, or with an empty one,
    nothing is reported as updated, and the state is not looked at. *)
Theorem checkForGraphConfigChanges_without_config
    (nextProps currentState : value) :
nullish nextProps = false ->
truthy (prop nextProps "config") = false
\/ isEmptyObject (prop nextProps "config") = true ->
checkForGraphConfigChanges nextProps currentState
= Ok (config_changes (VBool false) VUndefined).
Proof.
intros Hn Hc. unfold checkForGraphConfigChanges, get. rewrite Hn.
cbn [bind]. destruct Hc as [Hc | Hc].
- unfold js_or. rewrite Hc. reflexivity.
- apply isEmptyObject_cases in Hc. destruct Hc as [-> | ->]; reflexivity.
Qed.

(** X18. Among ordinary props and states ([ordinary]: no object within them
    owns a property under the name of an inherited member, such as
    [hasOwnProperty], and every number in them is an integer below 2^53), a
    configuration that has not as many keys as the configuration of the
    state is reported as updated, whatever it holds: so is every partial
    configuration, the state holding the defaults merged with it. *)
Theorem checkForGraphConfigChanges_of_partial_config
    (nextProps currentState config sconfig : value) :
ordinary nextProps = true -> ordinary currentState = true ->
configurations nextProps currentState config sconfig ->
List.length (own_keys config) <> List.length (own_keys sconfig) ->
exists d3Updated,
  checkForGraphConfigChanges nextProps currentState
  = Ok (config_changes (VBool true) d3Updated).
Proof.
intros Hordinary Hordinary' Hcs Hlen.
rewrite (checkForGraphConfigChanges_eq _ _ _ _ Hcs).
destruct Hcs as (_ & Ht & He & _ & Hsn & Hd3).
assert (isDeepEqual config sconfig = Ok false) as ->.
{ unfold isDeepEqual. rewrite isDeepEqual_at_eq.
  assert (strict_equal config sconfig = false) as ->.
  { destruct (strict_equal config sconfig) eqn:Hs; [|reflexivity].
    apply strict_equal_sound in Hs. subst. now elim Hlen. }
  rewrite andb_false_r, He. cbn [negb andb orb].
  destruct (isEmptyObject sconfig); [reflexivity|].
  unfold object_keys. rewrite (truthy_not_nullish _ Ht), Hsn. cbn [bind].
  apply Nat.eqb_neq in Hlen. now rewrite Hlen. }
cbn [bind negb]. destruct (d3_changes_total config sconfig Hd3) as [d ->].
cbn [bind]. eauto.
Qed.

(** X19. Among ordinary props and states ([ordinary]), a configuration in
    which an option has another primitive value than in the configuration
    of the state is reported as updated. *)
Theorem checkForGraphConfigChanges_of_changed_option
    (nextProps currentState : value) (p q : object) (k : string)
    (x x' : value) :
ordinary nextProps = true -> ordinary currentState = true ->
configurations nextProps currentState (VObj p) (VObj q) ->
lookup k p = Some x -> lookup k q = Some x' ->
is_primitive x = true -> is_primitive x' = true -> x <> x' ->
exists d3Updated,
  checkForGraphConfigChanges nextProps currentState
  = Ok (config_changes (VBool true) d3Updated).
Proof.
intros Hordinary Hordinary' Hcs Hp Hq Hx Hx' Hne.
rewrite (checkForGraphConfigChanges_eq _ _ _ _ Hcs).
destruct Hcs as (_ & _ & _ & _ & _ & Hd3).
unfold isDeepEqual at 1.
rewrite (isDeepEqual_at_detects_property MAX_DEPTH p q k x x' Hp Hq Hx Hx'
           Hne).
cbn [bind negb]. destruct (d3_changes_total (VObj p) (VObj q) Hd3) as [d ->].
cbn [bind]. eauto.
Qed.

Lemma isDeepEqual_of_plain_property (p : object) (k : string) :
plain MAX_DEPTH (VObj p) = true ->
truthy (prop (VObj p) k) = true ->
isDeepEqual (prop (VObj p) k) (prop (VObj p) k) = Ok true.
Proof.
intros Hp Ht. unfold isDeepEqual.
assert (In k (own_keys (VObj p))) as Hk.
{ apply In_own_keys_obj, lookup_Some_In. cbn [prop] in Ht.
  destruct (lookup k p); [eauto | discriminate Ht]. }
unfold MAX_DEPTH in Hp. cbn [plain] in Hp. rewrite forallb_forall in Hp.
specialize (Hp k Hk). fold MAX_DEPTH.
apply orb_prop in Hp. destruct Hp as [Hp | Hp].
- apply orb_prop in Hp. destruct Hp as [Hp | Hp].
  + rewrite isDeepEqual_at_eq, Nat.sub_diag.
    now rewrite (strict_equal_primitive_refl _ Hp).
  + apply isDeepEqual_at_plain; [now apply truthy_not_nullish|].
    apply isEmptyObject_cases in Hp. destruct Hp as [-> | ->]; reflexivity.
- apply isDeepEqual_at_plain; [now apply truthy_not_nullish|].
  apply andb_prop in Hp. destruct Hp as [_ Hp]. now apply plain_mono.
Qed.

(** X20. Among ordinary props and states ([ordinary]), a configuration of the
    content of the configuration of the state, with no function in it and
    not nested beyond the cutoff, is not reported as updated, and neither
    is its [d3] group. *)
Theorem checkForGraphConfigChanges_of_same_config
    (nextProps currentState : value) (p : object) :
ordinary nextProps = true -> ordinary currentState = true ->
configurations nextProps currentState (VObj p) (VObj p) ->
plain MAX_DEPTH (VObj p) = true ->
checkForGraphConfigChanges nextProps currentState
= Ok (config_changes (VBool false)
        (if truthy (prop (VObj p) "d3") then VBool false
         else prop (VObj p) "d3")).
Proof.
intros Hordinary Hordinary' Hcs Hp.
rewrite (checkForGraphConfigChanges_eq _ _ _ _ Hcs).
unfold isDeepEqual at 1. rewrite isDeepEqual_at_plain by auto.
cbn [bind negb].
destruct (truthy (prop (VObj p) "d3")) eqn:Ht; [|reflexivity].
now rewrite isDeepEqual_of_plain_property.
Qed.
End ConfigChangesCases.


Lemma no_configuration_no_update :
nullish (graph_props "g" VUndefined [] []) = false
/\ checkForGraphConfigChanges (I := all_distinct)
     (graph_props "g" VUndefined [] []) VNull
   = Ok (config_changes (VBool false) VUndefined).
Proof.
split; [reflexivity|].
apply (checkForGraphConfigChanges_without_config (I := all_distinct));
  [reflexivity | now left].
Defined.

Lemma partial_configuration_is_an_update :
exists d3Updated,
  checkForGraphConfigChanges (I := all_distinct)
    (graph_props "g" (VObj [("directed", VBool false)]) [] [])
    (VObj [("config", sample_config)])
  = Ok (config_changes (VBool true) d3Updated).
Proof.
apply (checkForGraphConfigChanges_of_partial_config (I := all_distinct)
         (Sound := all_distinct_sound) _ _
         (VObj [("directed", VBool false)]) sample_config).
- reflexivity.
- reflexivity.
- repeat split.
- cbn. discriminate.
Defined.

Lemma changed_width_is_an_update :
exists d3Updated,
  checkForGraphConfigChanges (I := all_distinct)
    (graph_props "g" (VObj [("width", VNum 600); ("height", VNum 400)])
       [] [])
    (VObj [("config", VObj [("width", VNum 800); ("height", VNum 400)])])
  = Ok (config_changes (VBool true) d3Updated).
Proof.
apply (checkForGraphConfigChanges_of_changed_option (I := all_distinct)
         (Sound := all_distinct_sound) _ _
         [("width", VNum 600); ("height", VNum 400)]
         [("width", VNum 800); ("height", VNum 400)] "width"
         (VNum 600) (VNum 800)).
- reflexivity.
- reflexivity.
- repeat split. intros H. discriminate H.
- reflexivity.
- reflexivity.
- reflexivity.
- reflexivity.
- discriminate.
Defined.

Lemma same_configuration_no_update :
checkForGraphConfigChanges (I := all_distinct)
  (graph_props "g"
     (VObj [("width", VNum 800); ("d3", VObj [("gravity", VNum (-100))])])
     [] [])
  (VObj [("config",
          VObj [("width", VNum 800);
                ("d3", VObj [("gravity", VNum (-100))])])])
= Ok (config_changes (VBool false) (VBool false)).
Proof.
apply (checkForGraphConfigChanges_of_same_config (I := all_distinct) _ _
         [("width", VNum 800); ("d3", VObj [("gravity", VNum (-100))])]).
- reflexivity.
- reflexivity.
- repeat split.
- reflexivity.
Defined.


(** ** Links that carry properties, in [checkForGraphElementsChanges] *)

Section LinksWithProperties.
Context {E : Environment} {I : ObjectIdentity} {Sound : SoundIdentity I}.

Lemma isDeepEqual_links_with_properties (ls sls : list value) (l : object) :
In (VObj l) ls -> 2 < List.length l ->
isDeepEqual (VArr ls) (VArr (map ends sls)) = Ok false.
Proof.
intros Hin Hlen.
destruct (Nat.eq_dec (List.length ls) (List.length sls)) as [Heq|Hne];
  [|apply isDeepEqual_detects_length; now rewrite length_map].
destruct (In_nth ls (VObj l) VUndefined Hin) as [i [Hi Hnth]].
apply (isDeepEqual_detects_element ls (map ends sls) i l
         [("source", end_id (prop (nth i sls VUndefined) "source"));
          ("target", end_id (prop (nth i sls VUndefined) "target"))]).
- now rewrite length_map.
- exact Hi.
- exact Hnth.
- rewrite (nth_indep _ VUndefined (ends VUndefined))
    by (rewrite length_map; lia).
  rewrite map_nth. reflexivity.
- intros ->. cbn in Hlen. lia.
- discriminate.
- intros ->. cbn in Hlen. lia.
- rewrite isDeepEqual_at_eq.
  change (MAX_DEPTH - 19 =? 0)%nat with false. cbn [andb].
  assert (isEmptyObject (VObj l) = false) as ->
    by (apply isEmptyObject_obj; intros ->; cbn in Hlen; lia).
  match goal with
  | |- context [isEmptyObject (VObj ?q)] =>
      assert (isEmptyObject (VObj q) = false) as ->
        by (apply isEmptyObject_obj; discriminate)
  end.
  cbn [negb andb orb object_keys nullish is_undefined is_null bind own_keys].
  rewrite !length_ordered_keys, length_map. cbn [map List.length].
  destruct (List.length l =? 2)%nat eqn:Hl; [|reflexivity].
  apply Nat.eqb_eq in Hl. lia.
Qed.

(** X21. Among ordinary props and states ([ordinary]: no object within them
    owns a property under the name of an inherited member, such as
    [hasOwnProperty], and every number in them is an integer below 2^53):
    when a link of the next props holds more than its two ends (a [value],
    a [color]), both flags are raised, whatever the state is.  The links of
    the next props are compared as they are with the [{ source, target }]
    pairs of the links of the state, a difference of the two sides that the
    source marks as one to be solved. *)
Theorem checkForGraphElementsChanges_of_links_with_properties
    (nextProps currentState : value) (ns ls sns sls : list value)
    (l : object) :
ordinary nextProps = true -> ordinary currentState = true ->
observed nextProps currentState ns ls sns sls ->
In (VObj l) ls -> 2 < List.length l ->
checkForGraphElementsChanges nextProps currentState
= Ok (changes true true).
Proof.
intros Hordinary Hordinary'
  ([data (Hd & Hn & Hl)] & Hsn & Hsl & Hns & Hsns & Hsls) Hin Hlen.
rewrite (checkForGraphElementsChanges_eq _ _ data ns ls sns sls)
  by assumption.
rewrite (isDeepEqual_links_with_properties ls sls l Hin Hlen).
destruct (isDeepEqual_at_total MAX_DEPTH (VArr (map comparable ns))
            (VArr (map comparable sns)) eq_refl eq_refl) as [r Hr].
unfold isDeepEqual at 1. rewrite Hr. cbn [bind].
assert ((if r then Ok false else Ok false) = @Ok bool false) as ->
  by (now destruct r).
cbn [bind negb].
destruct (negb (List.length ns =? List.length sns)%nat); [reflexivity|].
destruct (negb (List.length ls =? List.length sls)%nat); [reflexivity|].
destruct (isDeepEqual_at_total MAX_DEPTH
            (VArr (map id_only (map comparable ns)))
            (VArr (map id_only (map comparable sns))) eq_refl eq_refl)
  as [r' Hr'].
unfold isDeepEqual. rewrite Hr'. cbn [bind].
destruct r'; reflexivity.
Qed.
End LinksWithProperties.

Lemma links_with_a_value_are_new :
checkForGraphElementsChanges (I := all_distinct)
  (graph_props "g" VUndefined [node_named "A"; node_named "B"]
     [VObj [("source", VStr "A"); ("target", VStr "B"); ("value", VNum 2)]])
  (VObj [("d3Nodes", VArr [node_named "A"; node_named "B"]);
         ("d3Links",
          VArr [VObj [("source", VStr "A"); ("target", VStr "B");
                      ("value", VNum 2)]])])
= Ok (changes true true).
Proof.
apply (checkForGraphElementsChanges_of_links_with_properties
         (I := all_distinct) (Sound := all_distinct_sound) _ _
         [node_named "A"; node_named "B"]
         [VObj [("source", VStr "A"); ("target", VStr "B");
                ("value", VNum 2)]]
         [node_named "A"; node_named "B"]
         [VObj [("source", VStr "A"); ("target", VStr "B");
                ("value", VNum 2)]]
         [("source", VStr "A"); ("target", VStr "B"); ("value", VNum 2)]).
- reflexivity.
- reflexivity.
- split.
  + exists (VObj [("nodes", VArr [node_named "A"; node_named "B"]);
                  ("links",
                   VArr [VObj [("source", VStr "A"); ("target", VStr "B");
                               ("value", VNum 2)]])]).
    repeat split.
  + repeat split; repeat constructor.
- now left.
- cbn. lia.
Defined.


(** ** The identifier and the zoom of the state of [initializeGraphState] *)

Lemma replace_spaces_get (s : string) (i : nat) :
String.get i (replace_spaces s)
= match String.get i s with
  | Some c => Some (if Ascii.eqb c " "%char then "_"%char else c)
  | None => None
  end.
Proof.
revert i. induction s as [|c s IH]; intros i; [reflexivity|].
cbn [replace_spaces]. destruct i as [|i]; [reflexivity|].
cbn [String.get]. apply IH.
Qed.

Lemma replace_spaces_length (s : string) :
String.length (replace_spaces s) = String.length s.
Proof. induction s as [|c s IH]; cbn; congruence. Qed.

Section StateIdentifier.
Context {E : Environment} {I : ObjectIdentity}.

(** X22. For ordinary props ([ordinary_graph]) with valid data, a string for
    [id] and a configuration that [merge] merges into the defaults, given
    without a previous state, [initializeGraphState] returns, and the
    identifier of the state is the [id] of the props with every space
    replaced by an underscore: it has the length of [id], no space, and the
    other characters of [id] in their places. *)
Theorem initializeGraphState_identifier (id : string) (config state : value)
    (ns ls : list value) (merged : value) :
ordinary_graph (graph_props id config ns ls) state = true ->
valid_input ns ls ->
truthy (js_and state (prop state "nodes")) = false ->
merge DEFAULT_CONFIG (js_or config (VObj [])) = Ok merged ->
exists st,
  initializeGraphState (graph_props id config ns ls) state = Ok st
  /\ String.length (GraphState.id st) = String.length id
  /\ forall i,
       String.get i (GraphState.id st) <> Some " "%char
       /\ forall c, String.get i id = Some c ->
                    String.get i (GraphState.id st)
                    = Some (if Ascii.eqb c " "%char then "_"%char else c).
Proof.
intros Hordinary Hvalid Hstate Hmerge.
destruct (initializeGraphState_returns id config state ns ls merged
            Hvalid Hstate Hmerge) as [st Hst].
exists st. split; [exact Hst|].
destruct (initializeGraphState_Ok _ _ _ Hst)
  as (data & id' & config' & graph & merged' & initialized & _ & Hid & _
      & _ & _ & _ & _ & _ & _ & _ & _ & _ & -> & _).
cbn in Hid. injection Hid as <-.
split; [apply replace_spaces_length|]. intros i.
rewrite replace_spaces_get. split.
- destruct (String.get i id) as [c|]; [|discriminate].
  destruct (Ascii.eqb_spec c " "%char) as [->|Hne]; [discriminate|].
  congruence.
- intros c ->. reflexivity.
Qed.

Lemma clamp_focusZoom_other (newConfig : object) (k : string) :
k <> "focusZoom" ->
lookup k (clamp_focusZoom newConfig) = lookup k newConfig.
Proof.
intros Hk. unfold clamp_focusZoom.
destruct (less_than _ _); [now apply lookup_assign_other|].
destruct (less_than _ _); [now apply lookup_assign_other | reflexivity].
Qed.

Lemma clamp_focusZoom_within (newConfig : object) :
ordered_zoom (VObj newConfig) ->
less_than (prop (VObj newConfig) "maxZoom")
          (prop (VObj (clamp_focusZoom newConfig)) "focusZoom") = false
/\ less_than (prop (VObj (clamp_focusZoom newConfig)) "focusZoom")
             (prop (VObj newConfig) "minZoom") = false.
Proof.
intros (Hmax & Hmin & Hle). unfold clamp_focusZoom.
destruct (less_than (prop (VObj newConfig) "maxZoom")
            (prop (VObj newConfig) "focusZoom")) eqn:Habove.
- cbn [prop]. rewrite lookup_assign_same. auto.
- destruct (less_than (prop (VObj newConfig) "focusZoom")
              (prop (VObj newConfig) "minZoom")) eqn:Hbelow.
  + cbn [prop]. rewrite lookup_assign_same. auto.
  + auto.
Qed.

(** X23. For ordinary props ([ordinary_graph]) with valid data, a string for
    [id] and a configuration that [merge] merges into the defaults, given
    without a previous state, [initializeGraphState] returns, and the
    configuration of the state is the merged configuration with its
    [focusZoom] brought between [minZoom] and [maxZoom]: every other option
    is that of the merged configuration, and [focusZoom] is not above
    [maxZoom] and not below [minZoom] when these two are in order. *)
Theorem initializeGraphState_focusZoom (id : string) (config state : value)
    (ns ls : list value) (merged : object) :
ordinary_graph (graph_props id config ns ls) state = true ->
valid_input ns ls ->
truthy (js_and state (prop state "nodes")) = false ->
merge DEFAULT_CONFIG (js_or config (VObj [])) = Ok (VObj merged) ->
exists st,
  initializeGraphState (graph_props id config ns ls) state = Ok st
  /\ (forall k, k <> "focusZoom" ->
                prop (VObj (GraphState.config st)) k
                = prop (VObj merged) k)
  /\ (ordered_zoom (VObj merged) ->
      less_than (prop (VObj merged) "maxZoom")
                (prop (VObj (GraphState.config st)) "focusZoom") = false
      /\ less_than (prop (VObj (GraphState.config st)) "focusZoom")
                   (prop (VObj merged) "minZoom") = false).
Proof.
intros Hordinary Hvalid Hstate Hmerge.
destruct (initializeGraphState_returns id config state ns ls (VObj merged)
            Hvalid Hstate Hmerge) as [st Hst].
exists st. split; [exact Hst|].
destruct (initializeGraphState_Ok _ _ _ Hst)
  as (data & id' & config' & graph & merged' & initialized & _ & _ & Hc
      & _ & _ & Hm & _ & _ & _ & _ & _ & -> & _ & _).
cbn in Hc. injection Hc as <-. rewrite Hmerge in Hm. injection Hm as <-.
assert (forall k, prop (VObj (object_assign [] [VObj merged])) k
                  = prop (VObj merged) k) as Hcopy.
{ intros k. cbn [prop]. unfold object_assign. cbn [fold_left].
  rewrite lookup_own_entries_obj. cbn [lookup].
  now destruct (lookup k merged). }
split.
- intros k Hk. rewrite <- Hcopy. cbn [prop].
  now rewrite clamp_focusZoom_other.
- intros Hz. rewrite <- !Hcopy. apply clamp_focusZoom_within.
  unfold ordered_zoom. now rewrite !Hcopy.
Qed.
End StateIdentifier.


Lemma valid_single_node : valid_input (I := all_distinct) [node_named "A"] [].
Proof.
split; [discriminate|]. split; repeat constructor.
Defined.

Lemma identifier_of_my_graph :
exists st,
  initializeGraphState (E := sample_environment) (I := all_distinct)
    (graph_props "my graph" VUndefined [node_named "A"] []) VUndefined
  = Ok st
  /\ String.length (GraphState.id st) = 8
  /\ forall i,
       String.get i (GraphState.id st) <> Some " "%char
       /\ forall c, String.get i "my graph" = Some c ->
                    String.get i (GraphState.id st)
                    = Some (if Ascii.eqb c " "%char then "_"%char else c).
Proof.
apply (initializeGraphState_identifier (E := sample_environment)
         (I := all_distinct) "my graph" VUndefined VUndefined
         [node_named "A"] [] sample_config eq_refl valid_single_node eq_refl
         eq_refl).
Defined.

Lemma focusZoom_of_twenty_is_clamped :
exists st,
  initializeGraphState (E := sample_environment) (I := all_distinct)
    (graph_props "g" (VObj [("focusZoom", VNum 20)]) [node_named "A"] [])
    VUndefined
  = Ok st
  /\ prop (VObj (GraphState.config st)) "width" = VNum 800
  /\ @less_than sample_environment (VNum 8)
       (prop (VObj (GraphState.config st)) "focusZoom") = false
  /\ @less_than sample_environment
       (prop (VObj (GraphState.config st)) "focusZoom") (VNum 1) = false.
Proof.
destruct (initializeGraphState_focusZoom (E := sample_environment)
            (I := all_distinct) "g" (VObj [("focusZoom", VNum 20)])
            VUndefined [node_named "A"] [] sample_merged
            eq_refl valid_single_node eq_refl eq_refl)
  as [st [Hst [Hother Hzoom]]].
exists st. split; [exact Hst|]. split.
- rewrite Hother by discriminate. reflexivity.
- apply Hzoom. repeat split.
Defined.


(** ** The props of a link that [buildLinkProps] returns *)

Section LinkPropsReturned.
Context {E : Environment} {I : ObjectIdentity}.

(** X24. [buildLinkProps] returns when the two ends of the link are nodes of
    the node map and, under [semanticStrokeWidth], have rows in the matrix.
    The props name the ends of the link and the class of links and pass the
    callbacks on; the marker is [null] unless the graph is directed; label,
    font color and font weight are [null] unless labels are rendered; and
    while no node and no link is highlighted the opacity is that of the
    link, or else that of the configuration. *)
Theorem buildLinkProps_returns
    (link nodes links config linkCallbacks highlightedNode highlightedLink
       transform : value) :
let source := prop link "source" in
let target := prop link "target" in
let clink := prop config "link" in
nullish link = false -> nullish nodes = false ->
nullish config = false -> nullish clink = false ->
nullish linkCallbacks = false ->
nullish (prop nodes (to_key source)) = false ->
nullish (prop nodes (to_key target)) = false ->
(truthy (prop clink "semanticStrokeWidth") = true ->
 nullish links = false
 /\ nullish (prop links (to_key source)) = false
 /\ nullish (prop links (to_key target)) = false) ->
exists r,
  buildLinkProps link nodes links config linkCallbacks highlightedNode
    highlightedLink transform = Ok r
  /\ lookup "source" r = Some source
  /\ lookup "target" r = Some target
  /\ lookup "className" r = Some LINK_CLASS_NAME
  /\ (forall callback,
        In callback ["onClickLink"; "onRightClickLink"; "onMouseOverLink";
                     "onMouseOutLink"] ->
        lookup callback r = Some (prop linkCallbacks callback))
  /\ (truthy (prop config "directed") = false ->
      lookup "markerId" r = Some VNull)
  /\ (truthy (prop clink "renderLabel") = false ->
      lookup "label" r = Some VNull
      /\ lookup "fontColor" r = Some VNull
      /\ lookup "fontWeight" r = Some VNull)
  /\ (truthy highlightedNode = false ->
      truthy (js_and highlightedLink (prop highlightedLink "source"))
      = false ->
      lookup "opacity" r
      = Some (js_or (prop link "opacity") (prop clink "opacity"))).
Proof.
intros source target clink Hlink Hnodes Hconfig Hclink Hcb Hs Ht Hsem.
unfold buildLinkProps. unfold get at 1 2. rewrite Hlink. cbn [bind].
fold source target.
unfold coordinate, get at 1 2 3 4. rewrite Hnodes. cbn [bind].
unfold get at 1. rewrite Hconfig. cbn [bind]. fold clink.
unfold get at 1. rewrite Hclink. cbn [bind].
match goal with
| |- context [bind (if ?c then ?a else Ok (VBool false)) _] =>
    assert (exists rn, (if c then a else Ok (VBool false)) = Ok rn)
      as [rn ->]
end.
{ match goal with |- context [if ?c then _ else _] => destruct c end;
    [|eauto].
  unfold get at 1. rewrite Hnodes. cbn [bind].
  unfold get at 1. rewrite Hs. cbn [bind].
  destruct (truthy (prop (prop nodes (to_key source)) "highlighted"));
    [|eauto].
  unfold get at 1. rewrite Hnodes. cbn [bind].
  unfold get. rewrite Ht. eauto. }
cbn [bind].
match goal with
| |- context [bind (if truthy (prop clink "semanticStrokeWidth")
                    then ?a else ?b) _] =>
    assert (exists sw, (if truthy (prop clink "semanticStrokeWidth")
                        then a else b) = Ok sw) as [sw ->]
end.
{ destruct (truthy (prop clink "semanticStrokeWidth")) eqn:Hw; [|eauto].
  destruct (Hsem eq_refl) as (Hl & Hrs & Hrt).
  unfold link_weight. unfold get at 1. rewrite Hl. cbn [bind].
  unfold get at 1. rewrite Hrs. cbn [bind].
  destruct (truthy (prop (prop links (to_key source)) (to_key target)));
    cbn [bind]; [eauto|].
  unfold get at 1. rewrite Hl. cbn [bind].
  unfold get. rewrite Hrt. cbn [bind]. eauto. }
cbn [bind]. unfold get. rewrite Hcb. cbn [bind].
eexists. split; [reflexivity|].
split; [reflexivity|]. split; [reflexivity|]. split; [reflexivity|].
split; [|split; [|split]].
- intros callback [<-|[<-|[<-|[<-|[]]]]]; reflexivity.
- intros Hd. cbn [lookup String.eqb Ascii.eqb Bool.eqb]. now rewrite Hd.
- intros Hr. cbn. rewrite Hr. auto.
- intros Hn Hl. cbn. unfold js_or at 1. rewrite Hn, Hl. reflexivity.
Qed.
End LinkPropsReturned.


Lemma props_of_a_plain_link :
exists r,
  buildLinkProps (E := sample_environment) (I := all_distinct)
    (link_between "A" "B")
    (VObj [("A", VObj [("id", VStr "A"); ("x", VNum 1); ("y", VNum 2)]);
           ("B", VObj [("id", VStr "B"); ("x", VNum 3); ("y", VNum 4)])])
    (VObj []) sample_config no_callbacks (VStr "") VUndefined (VNum 1)
  = Ok r
  /\ lookup "source" r = Some (VStr "A")
  /\ lookup "target" r = Some (VStr "B")
  /\ lookup "markerId" r = Some VNull
  /\ lookup "label" r = Some VNull
  /\ lookup "opacity" r = Some (VNum 1).
Proof.
destruct (buildLinkProps_returns (E := sample_environment)
            (I := all_distinct) (link_between "A" "B")
            (VObj [("A", VObj [("id", VStr "A"); ("x", VNum 1);
                               ("y", VNum 2)]);
                   ("B", VObj [("id", VStr "B"); ("x", VNum 3);
                               ("y", VNum 4)])])
            (VObj []) sample_config no_callbacks (VStr "") VUndefined
            (VNum 1))
  as (r & Hr & Hs & Ht & _ & _ & Hm & Hl & Ho);
  try reflexivity.
- intros H. discriminate H.
- exists r. split; [exact Hr|]. split; [exact Hs|]. split; [exact Ht|].
  split; [exact (Hm eq_refl)|]. split; [exact (proj1 (Hl eq_refl))|].
  exact (Ho eq_refl eq_refl).
Defined.


(** ** The props of a node: [_getNodeOpacity] and [buildNodeProps] *)

Section NodePropsReturned.
Context {E : Environment} {I : ObjectIdentity} {NE : NodeEnvironment}.

Lemma or_node_option_eq (x config : value) (k : string) :
nullish config = false -> nullish (prop config "node") = false ->
or_node_option x config k = Ok (js_or x (prop (prop config "node") k)).
Proof.
intros Hc Hn. unfold or_node_option, js_or.
destruct (truthy x); [reflexivity|].
unfold get at 1. rewrite Hc. cbn [bind]. unfold get. now rewrite Hn.
Qed.

Lemma highlight_override_eq (highlight x config : value) (k : string) :
nullish config = false -> nullish (prop config "node") = false ->
highlight_override highlight x config k
= Ok (if truthy highlight
         && negb (strict_equal (prop (prop config "node") k) KEYWORDS_SAME)
      then prop (prop config "node") k else x).
Proof.
intros Hc Hn. unfold highlight_override.
destruct (truthy highlight); [|reflexivity].
unfold get at 1. rewrite Hc. cbn [bind]. unfold get at 1. rewrite Hn.
reflexivity.
Qed.

Lemma _getNodeOpacity_eq
    (node highlightedNode highlightedLink config : value) :
nullish node = false -> nullish config = false ->
nullish (prop config "node") = false ->
_getNodeOpacity node highlightedNode highlightedLink config
= Ok (if some_highlight highlightedNode highlightedLink
      then if truthy (node_highlight node highlightedLink)
           then prop (prop config "node") "opacity"
           else prop config "highlightOpacity"
      else js_or (prop node "opacity") (prop (prop config "node") "opacity")).
Proof.
intros Hnode Hc Hn. unfold _getNodeOpacity, some_highlight.
unfold get at 1. rewrite Hnode. cbn [bind].
destruct (truthy (js_or highlightedNode _)).
- unfold get at 1. rewrite Hc. cbn [bind].
  assert ((if truthy (node_highlight node highlightedLink)
           then cnode <- get config "node" ;; get cnode "opacity"
           else get config "highlightOpacity")
          = Ok (if truthy (node_highlight node highlightedLink)
                then prop (prop config "node") "opacity"
                else prop config "highlightOpacity")) as ->.
  { destruct (truthy (node_highlight node highlightedLink)).
    - unfold get at 1. rewrite Hc. cbn [bind]. unfold get. now rewrite Hn.
    - unfold get. now rewrite Hc. }
  now destruct (strict_equal _ _).
- now apply or_node_option_eq.
Qed.

(** X25. The opacity of a node.  While no node and no link is highlighted it
    is the opacity of the node, or else that of the configuration; as soon
    as one is, it is the opacity of the configuration for a highlighted
    node and [highlightOpacity] for the others -- the opacity of the node
    itself is not looked at, nor is [highlightDegree]. *)
Theorem _getNodeOpacity_cases
    (node highlightedNode highlightedLink config : value) :
nullish node = false -> nullish config = false ->
nullish (prop config "node") = false ->
_getNodeOpacity node highlightedNode highlightedLink config
= Ok (if some_highlight highlightedNode highlightedLink
      then if truthy (node_highlight node highlightedLink)
           then prop (prop config "node") "opacity"
           else prop config "highlightOpacity"
      else js_or (prop node "opacity") (prop (prop config "node") "opacity")).
Proof.
intros Hnode Hc Hn. unfold _getNodeOpacity, some_highlight.
unfold get at 1. rewrite Hnode. cbn [bind].
destruct (truthy (js_or highlightedNode _)).
- unfold get at 1. rewrite Hc. cbn [bind].
  assert ((if truthy (node_highlight node highlightedLink)
           then cnode <- get config "node" ;; get cnode "opacity"
           else get config "highlightOpacity")
          = Ok (if truthy (node_highlight node highlightedLink)
                then prop (prop config "node") "opacity"
                else prop config "highlightOpacity")) as ->.
  { destruct (truthy (node_highlight node highlightedLink)).
    - unfold get at 1. rewrite Hc. cbn [bind]. unfold get. now rewrite Hn.
    - unfold get. now rewrite Hc. }
  now destruct (strict_equal _ _).
- now apply or_node_option_eq.
Qed.
End NodePropsReturned.


Lemma lookup_outside {V : Type} (k : string) (p : list (string * V)) :
~ In k (map fst p) -> lookup k p = None.
Proof. intros H. now apply lookup_None. Qed.

Section NodePropsBuilt.
Context {E : Environment} {I : ObjectIdentity} {NE : NodeEnvironment}.

(** X26. [buildNodeProps] returns for an ordinary node object ([ordinary])
    when the ordinary configuration has its [node] group, the callbacks are
    not [null], the label is not computed by a function and [labelProperty]
    is an ordinary key ([ordinary_key]: no name of an inherited member, such
    as [toString] or [constructor]).  The props are the properties of the
    node with the computed props over them.  Among these: [id] is the id of
    the node; [cx] and [cy] are the coordinates of the node, or else the
    text ["0"] (also for a coordinate of [0]); [fill] is the color of the
    node, or else of the configuration, unless the node is highlighted and
    [highlightColor] is not the keyword for the same color; [label] is the
    property that [labelProperty] names, or else the id. *)
Theorem buildNodeProps_returns
    (n : object)
    (config nodeCallbacks_arg highlightedNode highlightedLink transform
       : value) :
let node := VObj n in
let cnode := prop config "node" in
let highlight := node_highlight node highlightedLink in
ordinary node = true -> ordinary config = true ->
ordinary_key (to_key (prop cnode "labelProperty")) = true ->
nullish config = false -> nullish cnode = false ->
is_null nodeCallbacks_arg = false ->
typeof (prop cnode "labelProperty") <> "function" ->
exists r,
  buildNodeProps node config nodeCallbacks_arg highlightedNode
    highlightedLink transform = Ok r
  /\ (forall k, ~ In k COMPUTED_NODE_PROPS -> lookup k r = lookup k n)
  /\ lookup "id" r = Some (prop node "id")
  /\ lookup "cx" r = Some (js_or (prop node "x") (VStr "0"))
  /\ lookup "cy" r = Some (js_or (prop node "y") (VStr "0"))
  /\ lookup "fill" r
     = Some (if truthy highlight
                && negb (strict_equal (prop cnode "highlightColor")
                           KEYWORDS_SAME)
             then prop cnode "highlightColor"
             else js_or (prop node "color") (prop cnode "color"))
  /\ lookup "label" r
     = Some (js_or (prop node (to_key (prop cnode "labelProperty")))
                   (prop node "id")).
Proof.
intros node cnode highlight Hordinary Hordinary' Hkey Hc Hn Hcb Hlabel.
unfold buildNodeProps.
fold node. unfold get at 1. cbn [nullish is_undefined is_null orb bind].
rewrite (_getNodeOpacity_eq node highlightedNode highlightedLink config
           eq_refl Hc Hn). cbn [bind].
rewrite !or_node_option_eq by assumption. cbn [bind].
rewrite !highlight_override_eq by assumption. cbn [bind].
unfold get at 1. rewrite Hc. cbn [bind]. fold cnode.
unfold get at 1. rewrite Hn. cbn [bind].
destruct (String.eqb_spec (typeof (prop cnode "labelProperty")) "function")
  as [Hf|_]; [contradiction|].
cbn [bind]. rewrite highlight_override_eq by assumption. cbn [bind].
assert (nullish (default_arg nodeCallbacks_arg (VObj [])) = false) as Hd
  by (destruct nodeCallbacks_arg; try reflexivity; discriminate Hcb).
unfold get. rewrite Hd. cbn [bind].
eexists. split; [reflexivity|]. split; [|split; [|split; [|split; [|split]]]].
- intros k Hk. rewrite lookup_object_assign_value.
  rewrite lookup_outside by exact Hk.
  unfold node. rewrite includes_own_keys_obj. cbn [has_own prop].
  now destruct (lookup k n).
- now rewrite lookup_object_assign_value.
- now rewrite lookup_object_assign_value.
- now rewrite lookup_object_assign_value.
- now rewrite lookup_object_assign_value.
- now rewrite lookup_object_assign_value.
Qed.

(** X27. When [labelProperty] is a function the label is what it returns for
    the node, and an error it throws is the error of [buildNodeProps]. *)
Theorem buildNodeProps_label_function
    (n : object)
    (config nodeCallbacks_arg highlightedNode highlightedLink transform
       : value) :
let node := VObj n in
let cnode := prop config "node" in
nullish config = false -> nullish cnode = false ->
is_null nodeCallbacks_arg = false ->
typeof (prop cnode "labelProperty") = "function" ->
match call (prop cnode "labelProperty") node with
| Ok label =>
    exists r,
      buildNodeProps node config nodeCallbacks_arg highlightedNode
        highlightedLink transform = Ok r
      /\ lookup "label" r = Some label
| Throw e =>
    buildNodeProps node config nodeCallbacks_arg highlightedNode
      highlightedLink transform = Throw e
end.
Proof.
intros node cnode Hc Hn Hcb Hlabel.
destruct (call (prop cnode "labelProperty") node) as [label|e] eqn:Hcall;
  unfold buildNodeProps; fold node;
  unfold get at 1; cbn [nullish is_undefined is_null orb bind];
  rewrite (_getNodeOpacity_eq node highlightedNode highlightedLink config
             eq_refl Hc Hn); cbn [bind];
  rewrite !or_node_option_eq by assumption; cbn [bind];
  rewrite !highlight_override_eq by assumption; cbn [bind];
  unfold get at 1; rewrite Hc; cbn [bind]; fold cnode;
  unfold get at 1; rewrite Hn; cbn [bind];
  rewrite Hlabel, String.eqb_refl, Hcall; [|reflexivity].
cbn [bind]. rewrite highlight_override_eq by assumption. cbn [bind].
assert (nullish (default_arg nodeCallbacks_arg (VObj [])) = false) as Hd
  by (destruct nodeCallbacks_arg; try reflexivity; discriminate Hcb).
unfold get. rewrite Hd. cbn [bind].
eexists. split; [reflexivity|].
now rewrite lookup_object_assign_value.
Qed.
End NodePropsBuilt.


Lemma opacity_beside_a_highlighted_node :
_getNodeOpacity (I := all_distinct)
  (VObj [("id", VStr "A"); ("opacity", VNum 5)]) (VStr "B") VUndefined
  sample_config
= Ok (VNum 1).
Proof.
apply (_getNodeOpacity_cases (I := all_distinct)
         (VObj [("id", VStr "A"); ("opacity", VNum 5)]) (VStr "B")
         VUndefined sample_config); reflexivity.
Defined.

Lemma props_of_a_node_at_the_origin :
exists r,
  buildNodeProps (E := sample_environment) (I := all_distinct)
    (NE := sample_node_environment)
    (VObj [("id", VStr "A"); ("x", VNum 0); ("name", VStr "Ada")])
    sample_config VUndefined (VStr "") VUndefined (VNum 1)
  = Ok r
  /\ lookup "name" r = Some (VStr "Ada")
  /\ lookup "id" r = Some (VStr "A")
  /\ lookup "cx" r = Some (VStr "0")
  /\ lookup "fill" r = Some (VStr "#d3d3d3")
  /\ lookup "label" r = Some (VStr "A").
Proof.
destruct (buildNodeProps_returns (E := sample_environment)
            (I := all_distinct) (NE := sample_node_environment)
            [("id", VStr "A"); ("x", VNum 0); ("name", VStr "Ada")]
            sample_config VUndefined (VStr "") VUndefined (VNum 1))
  as (r & Hr & Hkeep & Hid & Hcx & _ & Hfill & Hlabel);
  try reflexivity.
- discriminate.
- exists r. split; [exact Hr|]. split; [|auto].
  rewrite Hkeep; [reflexivity|]. cbn. intuition discriminate.
Defined.

Lemma label_by_the_name_of_the_node :
exists r,
  buildNodeProps (E := sample_environment) (I := all_distinct)
    (NE := sample_node_environment)
    (VObj [("id", VStr "A"); ("name", VStr "Ada")])
    (VObj [("node", VObj [("labelProperty", VFun "byName")])])
    VUndefined (VStr "") VUndefined (VNum 1)
  = Ok r
  /\ lookup "label" r = Some (VStr "Ada").
Proof.
exact (buildNodeProps_label_function (E := sample_environment)
         (I := all_distinct) (NE := sample_node_environment)
         [("id", VStr "A"); ("name", VStr "Ada")]
         (VObj [("node", VObj [("labelProperty", VFun "byName")])])
         VUndefined (VStr "") VUndefined (VNum 1)
         eq_refl eq_refl eq_refl eq_refl).
Defined.


(** ** When [updateNodeHighlightedValue] raises *)

(** X28. Given a node map, a matrix that is an object, [null] or
    [undefined], and an id that is a string and an ordinary key (no name of
    an inherited member, such as [constructor]),
    [updateNodeHighlightedValue] raises a [TypeError] exactly when the
    matrix is [null] or [undefined], or the node has a row in the matrix
    while the configuration is [null] or [undefined]; in all other cases it
    returns.  (The configuration is only read for a node that has a
    row.) *)
Theorem updateNodeHighlightedValue_raises_exactly
    (ln : Store.loc) (links config id value_arg : Store.sval)
    (h : Store.store) :
let row := Store.sprop h links (Store.s_to_key id) in
object_or_nothing links = true -> is_string id = true ->
ordinary_key (Store.s_to_key id) = true ->
ln < Store.next h -> valid h links -> valid h config -> valid h row ->
if Store.s_nullish links || (Store.s_truthy row && Store.s_nullish config)
then Store.updateNodeHighlightedValue (Store.SRef ln) links config id
       value_arg h = Throw TypeError
else exists res h',
       Store.updateNodeHighlightedValue (Store.SRef ln) links config id
         value_arg h = Ok (res, h').
Proof.
intros row Hobject Hstring Hordinary Hln Hvl Hvc Hvr.
destruct (Store.s_nullish links
          || (Store.s_truthy row && Store.s_nullish config)) eqn:Hcase.
- unfold Store.updateNodeHighlightedValue.
  unfold Store.mbind at 1. cbn [Store.read Store.s_nullish].
  destruct (highlighted_copy_run
              (Store.sprop h (Store.SRef ln) (Store.s_to_key id))
              (Store.value_or_default value_arg) h)
    as (h1 & Hr1 & Hn1 & _ & Hf1).
  unfold Store.mbind at 1. rewrite Hr1. unfold Store.mbind at 1.
  destruct (alloc_run [] h1) as (h2 & -> & Hn2 & _ & Hf2).
  unfold Store.mbind at 1.
  destruct (alloc_run [] h2) as (h3 & -> & Hn3 & _ & Hf3).
  unfold Store.mbind at 1.
  destruct (defineProperty_run (Store.next h2) (Store.s_to_key id)
              (Store.SRef (Store.next h)) h3)
    as (h4 & -> & Hn4 & _ & Hf4).
  unfold Store.mbind at 1.
  destruct (object_assign_2_run (Store.next h1) (Store.SRef ln)
              (Store.SRef (Store.next h2)) h4)
    as (h5 & h6 & -> & Hn6 & _ & _ & _ & Hf6).
  unfold Store.mbind at 1. unfold Store.read at 1.
  destruct (Store.s_nullish links) eqn:Hnl; [reflexivity|].
  cbn [orb] in Hcase. apply andb_prop in Hcase.
  destruct Hcase as [Ht Hncfg].
  assert (forall l, l < Store.next h -> Store.cells h6 l = Store.cells h l)
    as Hframe6
    by (intros l Hl; rewrite Hf6, Hf4, Hf3, Hf2 by lia; now apply Hf1).
  destruct (sprop_frame h h6 links (Store.s_to_key id) Hframe6 Hvl)
    as [Hr _].
  rewrite Hr. fold row. rewrite Ht. unfold Store.mbind at 1 2.
  unfold Store.read. now rewrite Hncfg.
- apply orb_false_iff in Hcase. destruct Hcase as [Hnl Hc].
  destruct (updateNodeHighlightedValue_run ln links config id value_arg h
              Hln Hvl Hvc Hvr Hnl) as (h' & Hrun & _).
  + intros Ht. fold row in Ht. rewrite Ht in Hc. exact Hc.
  + eauto.
Qed.

Lemma string_is_no_reference (s : string) :
forall l, Store.SStr s <> Store.SRef l.
Proof. intros l H. discriminate H. Qed.

Lemma update_without_matrix_or_configuration :
Store.updateNodeHighlightedValue (Store.SRef 0) Store.SNull (Store.SRef 7)
  (Store.SStr "A") (Store.SBool true) sample_store = Throw TypeError
/\ Store.updateNodeHighlightedValue (Store.SRef 0) (Store.SRef 4)
     Store.SUndefined (Store.SStr "A") (Store.SBool true) sample_store
   = Throw TypeError
/\ exists res h',
     Store.updateNodeHighlightedValue (Store.SRef 0) (Store.SRef 4)
       Store.SUndefined (Store.SStr "C") (Store.SBool true) sample_store
     = Ok (res, h').
Proof.
split; [|split].
- apply (updateNodeHighlightedValue_raises_exactly 0 Store.SNull
           (Store.SRef 7) (Store.SStr "A") (Store.SBool true) sample_store
           eq_refl eq_refl eq_refl);
    cbn; lia || exact I.
- apply (updateNodeHighlightedValue_raises_exactly 0 (Store.SRef 4)
           Store.SUndefined (Store.SStr "A") (Store.SBool true)
           sample_store
           eq_refl eq_refl eq_refl);
    cbn; lia || exact I.
- apply (updateNodeHighlightedValue_raises_exactly 0 (Store.SRef 4)
           Store.SUndefined (Store.SStr "C") (Store.SBool true)
           sample_store
           eq_refl eq_refl eq_refl);
    cbn; lia || exact I.
Defined.


(** ** What [_validateGraphData] accepts *)

Section Accepted.
Context {E : Environment} {I : ObjectIdentity}.

Lemma link_verdict_Ok (ns : list value) (l : value) :
link_verdict ns l = Ok tt <-> link_ok ns l = true.
Proof.
unfold link_verdict, link_ok.
destruct (endpoint_found ns l "source"); cbn [negb andb];
  [|split; discriminate].
destruct (endpoint_found ns l "target"); cbn [negb andb];
  [|split; discriminate].
destruct (value_ok l); cbn [negb]; split; auto; discriminate.
Qed.

Lemma verdicts_Ok (ns ls : list value) :
verdicts ns ls = Ok tt <-> Forall (fun l => link_ok ns l = true) ls.
Proof.
induction ls as [|l ls IH]; cbn [verdicts].
- split; [constructor | reflexivity].
- split.
  + intros H. apply bind_Ok in H. destruct H as [[] [Hl Hls]].
    constructor; [now apply link_verdict_Ok | now apply IH].
  + intros H. inversion H as [|? ? Hl Hls]; subst.
    rewrite (proj2 (link_verdict_Ok ns l) Hl). cbn [bind]. now apply IH.
Qed.

(** X29. Of data whose nodes and links are arrays of objects
    [_validateGraphData] accepts exactly those with at least one node in
    which every link has the id of a node for source and for target (under
    [===]) and no value or a number for value.  Data with nodes but
    without links are not found invalid: reading the length of the links
    raises a [TypeError]. *)
Theorem _validateGraphData_accepts_exactly (data : value)
    (ns : list value) :
get data "nodes" = Ok (VArr ns) ->
Forall (fun n => is_object n = true) ns ->
(forall ls,
   get data "links" = Ok (VArr ls) ->
   Forall (fun l => is_object l = true) ls ->
   (_validateGraphData data = Ok tt
    <-> ns <> [] /\ Forall (fun l => link_ok ns l = true) ls))
/\ (ns <> [] -> nullish (prop data "links") = true ->
    _validateGraphData data = Throw TypeError).
Proof.
intros Hn Hns. split.
- intros ls Hl Hls. rewrite (_validateGraphData_eq data ns ls) by assumption.
  destruct ns as [|n ns'].
  + split; [discriminate | intros [H _]; now elim H].
  + rewrite verdicts_Ok. split; [intros H; split; [discriminate | exact H]|].
    intros [_ H]. exact H.
- intros Hne Hl. unfold _validateGraphData. rewrite Hn. cbn [bind].
  destruct ns as [|n ns']; [now elim Hne|].
  cbn [truthy prop index_of_key negb orb].
  change (negb (truthy (prop (VArr (n :: ns')) "length"))) with false.
  cbn [orb bind].
  apply get_Ok in Hn. destruct Hn as [_ Hd].
  unfold get at 1. rewrite Hd. cbn [bind]. unfold get. now rewrite Hl.
Qed.
End Accepted.

Lemma validation_of_two_nodes :
(_validateGraphData (I := all_distinct)
   (VObj [("nodes", VArr [node_named "A"; node_named "B"]);
          ("links", VArr [link_between "A" "B"])]) = Ok tt
 <-> [node_named "A"; node_named "B"] <> []
     /\ Forall (fun l => link_ok (I := all_distinct)
                           [node_named "A"; node_named "B"] l = true)
          [link_between "A" "B"])
/\ _validateGraphData (I := all_distinct)
     (VObj [("nodes", VArr [node_named "A"; node_named "B"])])
   = Throw TypeError.
Proof.
split.
- apply (proj1 (_validateGraphData_accepts_exactly (I := all_distinct)
                  (VObj [("nodes", VArr [node_named "A"; node_named "B"]);
                         ("links", VArr [link_between "A" "B"])])
                  [node_named "A"; node_named "B"] eq_refl
                  ltac:(repeat constructor)) [link_between "A" "B"]
           eq_refl ltac:(repeat constructor)).
- apply (proj2 (_validateGraphData_accepts_exactly (I := all_distinct)
                  (VObj [("nodes", VArr [node_named "A"; node_named "B"])])
                  [node_named "A"; node_named "B"] eq_refl
                  ltac:(repeat constructor))).
  + discriminate.
  + reflexivity.
Defined.


(** ** [merge] on arrays *)

Lemma sorted_indices_ascending (a n : nat) :
sorted_indices (map (fun i => key_of_index (N.of_nat i)) (seq a n))
= map N.of_nat (seq a n).
Proof.
revert a. induction n as [|n IH]; intros a; [reflexivity|].
cbn [seq map]. unfold sorted_indices in *. cbn [fold_right].
rewrite index_of_key_of_index, IH.
destruct n as [|n]; [reflexivity|].
cbn [seq map insert_index].
destruct (N.leb_spec (N.of_nat a) (N.of_nat (S a))); [reflexivity|lia].
Qed.

Lemma ordered_keys_indices (n : nat) :
ordered_keys (indices_upto n) = indices_upto n.
Proof.
unfold ordered_keys, indices_upto. rewrite sorted_indices_ascending.
rewrite map_map.
assert (filter (fun k => negb (is_index_key k))
          (map (fun i => key_of_index (N.of_nat i)) (seq 0 n)) = []) as ->.
{ generalize (seq 0 n) as l. induction l as [|i l IH]; [reflexivity|].
  cbn [map filter]. unfold is_index_key at 1.
  now rewrite index_of_key_of_index. }
now rewrite app_nil_r.
Qed.

Lemma NoDup_indices_upto (n : nat) : NoDup (indices_upto n).
Proof.
unfold indices_upto. generalize (seq_NoDup n 0).
generalize (seq 0 n) as l. induction l as [|i l IH]; intros Hnd;
  [constructor|].
inversion Hnd as [|? ? Hi Hl]; subst. cbn [map]. constructor; [|now apply IH].
intros Hin. apply in_map_iff in Hin. destruct Hin as [j [Hj Hin]].
apply key_of_index_inj in Hj. assert (j = i) as -> by lia. contradiction.
Qed.

Lemma has_own_array_index (l : list value) (i : nat) :
has_own (VArr l) (key_of_index (N.of_nat i)) = (i <? List.length l)%nat.
Proof. cbn [has_own]. now rewrite index_of_key_of_index, Nat2N.id. Qed.

Lemma map_nth_seq (l : list value) :
map (fun i => nth i l VUndefined) (seq 0 (List.length l)) = l.
Proof.
induction l as [|x l IH]; [reflexivity|].
cbn [List.length seq map nth]. f_equal.
rewrite <- seq_shift, map_map. exact IH.
Qed.

Lemma elements_of_array (l : list value) :
map (fun rk => prop (VArr l) rk) (own_keys (VArr l)) = l.
Proof.
cbn [own_keys]. unfold indices_upto. rewrite map_map.
etransitivity; [|apply (map_nth_seq l)]. apply map_ext. intros i.
apply prop_array_index.
Qed.

(** One turn of the loop of [merge], from the empty object. *)
Lemma merge_keys_turn nested (o1 o2 : value) (k : string)
    (ks : list string) (acc : object) (v : value) :
merge_keys nested o1 o2 [k] [] = Ok [(k, v)] ->
merge_keys nested o1 o2 (k :: ks) acc
= merge_keys nested o1 o2 ks (assign k v acc).
Proof.
cbn [merge_keys]. intros H.
repeat match type of H with
       | bind ?c _ = _ => destruct c; cbn [bind] in *; [|discriminate H]
       | match ?c with _ => _ end = _ => destruct c; cbn [bind] in *
       | (if ?c then _ else _) = _ => destruct c; cbn [bind] in *
       end;
  cbn [assign] in H; injection H as <-; reflexivity.
Qed.

Lemma merge_keys_turns nested (o1 o2 : value) (val : string -> value)
    (ks : list string) (acc : object) :
(forall k, In k ks -> merge_keys nested o1 o2 [k] [] = Ok [(k, val k)]) ->
merge_keys nested o1 o2 ks acc
= Ok (fold_left (fun a k => assign k (val k) a) ks acc).
Proof.
revert acc. induction ks as [|k ks IH]; intros acc H; [reflexivity|].
rewrite (merge_keys_turn nested o1 o2 k ks acc (val k))
  by (apply H; now left).
cbn [fold_left]. apply IH. intros k' Hk'. apply H. now right.
Qed.

Lemma merge_keys_turn_shallow nested (o1 o2 : value) (k : string) :
nullish o2 = false -> not_merged_into (prop o2 k) = true ->
merge_keys nested o1 o2 [k] []
= Ok [(k, if has_own o2 k then prop o2 k else prop o1 k)].
Proof.
intros Hn Hs. cbn [merge_keys]. unfold get, hasOwnProperty. rewrite Hn.
cbn [bind]. unfold not_merged_into in Hs. apply negb_true_iff in Hs.
rewrite Hs. reflexivity.
Qed.


Lemma shallow_array_prop (l : list value) (k : string) :
Forall (fun v => not_merged_into v = true) l ->
not_merged_into (prop (VArr l) k) = true.
Proof.
intros Hl. cbn [prop]. destruct (index_of_key k) as [i|].
- destruct (nth_in_or_default (N.to_nat i) l VUndefined) as [Hin | ->];
    [|reflexivity].
  exact (proj1 (Forall_forall _ _) Hl _ Hin).
- destruct (k =? "length"); [|reflexivity].
  unfold not_merged_into. cbn [typeof].
  change ("number" =? "object") with false. now rewrite andb_false_r.
Qed.

Lemma merge_at_arrays (budget : nat) (l1 l2 : list value) :
l1 <> [] -> Forall (fun v => not_merged_into v = true) l2 ->
merge_at budget (VArr l1) (VArr l2)
= Ok (VObj (fold_left
              (fun a k => assign k (if has_own (VArr l2) k
                                    then prop (VArr l2) k
                                    else prop (VArr l1) k) a)
              (indices_upto (List.length l1)) [])).
Proof.
intros Hne Hl2. rewrite merge_at_nonempty_base.
- cbn [default_arg own_keys].
  rewrite (merge_keys_turns _ _ _
             (fun k => if has_own (VArr l2) k then prop (VArr l2) k
                       else prop (VArr l1) k)); [reflexivity|].
  intros k _. apply merge_keys_turn_shallow; [reflexivity|].
  now apply shallow_array_prop.
- cbn [own_keys]. intros H. apply (f_equal (@List.length string)) in H.
  rewrite length_indices_upto in H. destruct l1; [now elim Hne|].
  discriminate H.
Qed.

Lemma elements_of_merged_arrays (l1 l2 : list value) :
let o := fold_left
           (fun a k => assign k (if has_own (VArr l2) k
                                 then prop (VArr l2) k
                                 else prop (VArr l1) k) a)
           (indices_upto (List.length l1)) [] in
map (fun rk => prop (VObj o) rk) (own_keys (VObj o)) = merged_elements l1 l2.
Proof.
intros o. cbn [own_keys]. unfold o at 2.
rewrite keys_fold_assign;
  [|apply NoDup_indices_upto | intros k _ Hin; exact Hin].
rewrite app_nil_l, ordered_keys_indices.
unfold merged_elements, indices_upto. rewrite map_map.
apply map_ext_in. intros i Hi. cbn [prop]. unfold o.
rewrite lookup_fold_assign.
destruct (in_dec string_dec _ _) as [_|Hout].
- now rewrite has_own_array_index, !prop_array_index.
- elim Hout. apply In_indices_upto. apply in_seq in Hi. lia.
Qed.

Lemma merge_keys_turn_arrays (b : nat) (o1 o2 : value) (k : string)
    (l1 l2 : list value) :
nullish o2 = false ->
prop o1 k = VArr l1 -> prop o2 k = VArr l2 ->
Forall (fun v => not_merged_into v = true) l2 ->
merge_keys (Some (merge_at b)) o1 o2 [k] []
= Ok [(k, VArr (match l1 with
                | [] => l2
                | _ :: _ => merged_elements l1 l2
                end))].
Proof.
intros Hn H1 H2 Hl2. cbn [merge_keys]. unfold get. rewrite Hn. cbn [bind].
rewrite H1, H2. cbn [truthy typeof].
change ("object" =? "object") with true. cbn [andb].
assert (forall l, hasOwnProperty (VArr l) "length" = Ok true) as Hlen
  by reflexivity.
destruct l1 as [|x l1].
- assert (merge_at b (VArr []) (VArr l2)
          = Ok (if negb (isEmptyObject (VArr l2)) then VArr l2 else VObj []))
    as -> by (destruct b; reflexivity).
  cbn [bind]. rewrite !Hlen. cbn [bind andb].
  destruct l2 as [|y l2]; [reflexivity|].
  assert (isEmptyObject (VArr (y :: l2)) = false) as ->
    by (apply isEmptyObject_arr; discriminate).
  cbn [negb object_keys nullish is_undefined is_null orb bind].
  now rewrite elements_of_array.
- rewrite merge_at_arrays by (discriminate || assumption).
  cbn [bind]. rewrite !Hlen. cbn [bind andb].
  cbn [object_keys nullish is_undefined is_null orb bind].
  now rewrite elements_of_merged_arrays.
Qed.

(** X30. [merge] merges two arrays index by index over the indices of the
    array of the base: an element of the override takes the place of the
    element of the base at its index, and the elements of the override
    beyond the length of the base are dropped -- unless the array of the
    base is empty, in which case the array of the override is taken whole.
    (Stated for operands that own no property under the name of an
    inherited member, [hasOwnProperty] among them, and for an override
    whose other properties, and whose elements, are not objects.) *)
Theorem merge_of_arrays (p1 p2 : object) (k : string)
    (l1 l2 : list value) :
ordinary_object (VObj p1) = true -> ordinary_object (VObj p2) = true ->
lookup k p1 = Some (VArr l1) -> lookup k p2 = Some (VArr l2) ->
Forall (fun v => not_merged_into v = true) l2 ->
(forall k' v, k' <> k -> lookup k' p2 = Some v ->
              not_merged_into v = true) ->
exists r,
  merge (VObj p1) (VObj p2) = Ok (VObj r)
  /\ lookup k r
     = Some (VArr (match l1 with
                   | [] => l2
                   | _ :: _ => merged_elements l1 l2
                   end)).
Proof.
intros Hordinary1 Hordinary2 H1 H2 Hl2 Hother. unfold merge.
assert (In k (own_keys (VObj p1))) as Hk
  by (apply In_own_keys_obj, lookup_Some_In; eauto).
rewrite merge_at_nonempty_base
  by (intros Hnil; rewrite Hnil in Hk; exact Hk).
cbn [default_arg]. unfold MAX_DEPTH.
rewrite (merge_keys_turns _ _ _
           (fun k' => if k' =? k
                      then VArr (match l1 with
                                 | [] => l2
                                 | _ :: _ => merged_elements l1 l2
                                 end)
                      else if has_own (VObj p2) k' then prop (VObj p2) k'
                           else prop (VObj p1) k')).
- cbn [bind]. eexists. split; [reflexivity|].
  rewrite lookup_fold_assign.
  destruct (in_dec string_dec k (own_keys (VObj p1))); [|contradiction].
  now rewrite String.eqb_refl.
- intros k' _. destruct (String.eqb_spec k' k) as [->|Hne].
  + apply merge_keys_turn_arrays; [reflexivity | | | exact Hl2];
      cbn [prop]; [now rewrite H1 | now rewrite H2].
  + apply merge_keys_turn_shallow; [reflexivity|].
    cbn [prop]. destruct (lookup k' p2) as [v|] eqn:Hv; [|reflexivity].
    exact (Hother k' v Hne Hv).
Qed.

Lemma merge_of_two_arrays_of_numbers :
exists r,
  merge (VObj [("sizes", VArr [VNum 1; VNum 2; VNum 3]); ("tags", VArr [])])
        (VObj [("sizes", VArr [VNum 9])])
  = Ok (VObj r)
  /\ lookup "sizes" r = Some (VArr [VNum 9; VNum 2; VNum 3]).
Proof.
apply (merge_of_arrays
         [("sizes", VArr [VNum 1; VNum 2; VNum 3]); ("tags", VArr [])]
         [("sizes", VArr [VNum 9])] "sizes" [VNum 1; VNum 2; VNum 3]
         [VNum 9]).
- reflexivity.
- reflexivity.
- reflexivity.
- reflexivity.
- repeat constructor.
- intros k' v Hne Hv. cbn [lookup] in Hv.
  destruct (String.eqb_spec "sizes" k') as [<-|_];
    [now elim Hne | discriminate Hv].
Defined.


(** ** The cases of [checkForGraphElementsChanges] *)

Lemma NoDup_keys_assign {V : Type} (k : string) (v : V)
    (p : list (string * V)) :
NoDup (map fst p) -> NoDup (map fst (assign k v p)).
Proof.
induction p as [|[k' v'] p IH]; intros Hnd.
- cbn. constructor; [intros []|constructor].
- cbn [assign]. cbn [map fst] in Hnd.
  inversion Hnd as [|? ? Hk' Hnd']; subst.
  destruct (String.eqb_spec k' k) as [->|Hne].
  + cbn [map fst]. now constructor.
  + cbn [map fst]. constructor; [|now apply IH].
    intros Hin. apply In_keys_assign in Hin.
    destruct Hin as [Heq|Hin]; [now elim Hne | contradiction].
Qed.

Lemma pick_from_NoDup (o : value) (props : list string) (acc r : object) :
pick_from o props acc = Ok r -> NoDup (map fst acc) -> NoDup (map fst r).
Proof.
revert acc. induction props as [|k props IH]; intros acc H Hacc;
  cbn [pick_from] in H.
- now injection H as <-.
- destruct (hasOwnProperty o k) as [h|] eqn:Hh; [|discriminate H].
  cbn [bind] in H. apply (IH _ H).
  destruct h; [now apply NoDup_keys_assign | exact Hacc].
Qed.

(** The object that [antiPick] builds lists no key twice. *)
Lemma antiPick_NoDup (o : value) (props : list string) (r : object) :
antiPick o props = Ok r -> NoDup (map fst r).
Proof.
unfold antiPick, pick. intros H.
destruct (object_keys o) as [keys|]; [|discriminate H]. cbn [bind] in H.
apply (pick_from_NoDup _ _ _ _ H). constructor.
Qed.

(** Of two lists of the same length without repetition, when the second
    has an element that the first has not, the first has one that the
    second has not. *)
Lemma element_of_the_first_only (ks ks' : list string) (k : string) :
NoDup ks -> List.length ks = List.length ks' ->
In k ks' -> ~ In k ks ->
exists k1, In k1 ks /\ ~ In k1 ks'.
Proof.
intros Hnd Hlen Hk' Hk.
destruct (existsb (fun x => negb (includes ks' x)) ks) eqn:Hex.
- apply existsb_exists in Hex. destruct Hex as [k1 [Hin Hout]].
  exists k1. split; [exact Hin|]. intros Hin'.
  apply includes_In in Hin'. now rewrite Hin' in Hout.
- exfalso.
  assert (incl (k :: ks) ks') as Hincl.
  { intros x [<-|Hx]; [exact Hk'|].
    destruct (includes ks' x) eqn:Hx'; [now apply includes_In|].
    assert (existsb (fun x => negb (includes ks' x)) ks = true) as Hex'
      by (apply existsb_exists; exists x; now rewrite Hx').
    congruence. }
  assert (NoDup (k :: ks)) as Hnd' by now constructor.
  pose proof (NoDup_incl_length Hnd' Hincl) as Hle. cbn [List.length] in Hle.
  lia.
Qed.

Section Missing.
Context {I : ObjectIdentity} {Sound : SoundIdentity I}.

(** Two objects of which one has a property that the other has not are
    found different. *)
Lemma isDeepEqual_at_detects_missing (b : nat) (p q : object) (k : string) :
NoDup (map fst p) -> p <> [] -> q <> [] ->
has_own (VObj p) k <> has_own (VObj q) k ->
isDeepEqual_at b (VObj p) (VObj q) = Ok false.
Proof.
intros Hp Hpn Hqn Hk. rewrite isDeepEqual_at_eq.
assert (strict_equal (VObj p) (VObj q) = false) as ->.
{ destruct (strict_equal (VObj p) (VObj q)) eqn:Hs; [|reflexivity].
  apply strict_equal_objects_sound in Hs; [|reflexivity].
  injection Hs as ->. now elim Hk. }
rewrite andb_false_r.
rewrite (proj2 (isEmptyObject_obj p) Hpn), (proj2 (isEmptyObject_obj q) Hqn).
cbn [andb orb negb object_keys nullish is_undefined is_null bind].
destruct (List.length (own_keys (VObj p)) =? List.length (own_keys (VObj q)))%nat
  eqn:Hlen; [|reflexivity].
cbn [negb]. apply Nat.eqb_eq in Hlen.
assert (exists k1, In k1 (own_keys (VObj p)) /\ has_own (VObj q) k1 = false)
  as [k1 [Hin Hout]].
{ destruct (has_own (VObj p) k) eqn:Hpk.
  - exists k. split; [now apply In_own_keys_has_own_obj|].
    destruct (has_own (VObj q) k); [now elim Hk | reflexivity].
  - assert (has_own (VObj q) k = true) as Hqk
      by (destruct (has_own (VObj q) k); [reflexivity | now elim Hk]).
    destruct (element_of_the_first_only (own_keys (VObj p))
                (own_keys (VObj q)) k) as [k1 [Hin Hout]].
    + apply (NoDup_incl_NoDup Hp).
      * cbn [own_keys]. now rewrite length_ordered_keys.
      * intros x Hx. now apply In_own_keys_obj.
    + exact Hlen.
    + now apply In_own_keys_has_own_obj.
    + intros Hin. apply In_own_keys_has_own_obj in Hin. congruence.
    + exists k1. split; [exact Hin|].
      destruct (has_own (VObj q) k1) eqn:Hq1; [|reflexivity].
      elim Hout. now apply In_own_keys_has_own_obj. }
destruct (compare_keys_detects
            (match b with S b' => Some (isDeepEqual_at b') | O => None end)
            (VObj p) (VObj q) (own_keys (VObj p)) k1) as [ds [-> Hex]].
- apply nested_total.
- exact Hin.
- right.
  assert (_isPropertyNestedObject (VObj q) k1 = false) as Hnq
    by (unfold _isPropertyNestedObject; rewrite Hout; reflexivity).
  assert (prop (VObj q) k1 = VUndefined) as Hund.
  { cbn [has_own] in Hout. cbn [prop].
    now destruct (lookup k1 q). }
  rewrite Hnq, andb_false_r, Hout, Hund. split; [reflexivity|].
  change (isEmptyObject VUndefined) with false.
  now rewrite andb_false_r.
- cbn [bind]. now rewrite Hex.
Qed.
End Missing.

(** C6 (as amended). For ordinary next props and an ordinary state
    ([ordinary]: no object within them owns a property under the name of an
    inherited member, such as [hasOwnProperty], and every number in them is
    an integer below 2^53), the nodes being objects with primitive ids and
    the links exactly the pairs of ids of the links of the current state:
    when a property of some node that is not discarded has changed from one
    primitive value to another (its color, say), or is a property of only
    one of the node of the props and the node of the state (as
    [highlighted], which initialization sets on the nodes of the state,
    when the props do not carry it), [graphElementsUpdated] is [true] and
    [newGraphElements] is [false]; when the nodes are those of the current
    state but for the discarded fields [x], [y], [vx], [vy] and [index],
    and are not nested deeper than the cutoff, both are [false].  When the
    number of nodes is not that of the state (a node was added), both are
    [true]. *)
Theorem checkForGraphElementsChanges_cases
    {E : Environment} {I : ObjectIdentity} {Sound : SoundIdentity I} :
(forall nextProps currentState ns ls sns sls i pn ps k x x',
    ordinary nextProps = true -> ordinary currentState = true ->
    observed nextProps currentState ns ls sns sls ->
    same_links ls sls ->
    primitive_ids ns ->
    List.length ns = List.length sns ->
    map (fun n => prop n "id") ns = map (fun n => prop n "id") sns ->
    i < List.length ns ->
    nth i ns VUndefined = VObj pn -> nth i sns VUndefined = VObj ps ->
    includes NODE_PROPERTIES_DISCARD_TO_COMPARE k = false ->
    lookup k pn = Some x -> lookup k ps = Some x' ->
    is_primitive x = true -> is_primitive x' = true -> x <> x' ->
    checkForGraphElementsChanges nextProps currentState
    = Ok (changes true false))
/\ (forall nextProps currentState ns ls sns sls i pn ps k,
      ordinary nextProps = true -> ordinary currentState = true ->
      observed nextProps currentState ns ls sns sls ->
      same_links ls sls ->
      primitive_ids ns ->
      List.length ns = List.length sns ->
      map (fun n => prop n "id") ns = map (fun n => prop n "id") sns ->
      i < List.length ns ->
      nth i ns VUndefined = VObj pn -> nth i sns VUndefined = VObj ps ->
      has_id (VObj pn) = true ->
      includes NODE_PROPERTIES_DISCARD_TO_COMPARE k = false ->
      has_own (VObj pn) k <> has_own (VObj ps) k ->
      checkForGraphElementsChanges nextProps currentState
      = Ok (changes true false))
/\ (forall nextProps currentState ns ls sns sls,
      ordinary nextProps = true -> ordinary currentState = true ->
      observed nextProps currentState ns ls sns sls ->
      List.length ns <> List.length sns ->
      checkForGraphElementsChanges nextProps currentState
      = Ok (changes true true))
/\ (forall nextProps currentState ns ls sns sls,
      ordinary nextProps = true -> ordinary currentState = true ->
      observed nextProps currentState ns ls sns sls ->
      same_links ls sls ->
      primitive_ids ns ->
      map comparable ns = map comparable sns ->
      plain MAX_DEPTH (VArr (map comparable ns)) = true ->
      checkForGraphElementsChanges nextProps currentState
      = Ok (changes false false)).
Proof.
split; [|split; [|split]].
- intros nextProps currentState ns ls sns sls i pn ps k x x'
    Hordinary Hordinary'
    ([data (Hd & Hn & Hl)] & Hsn & Hsl & Hns & Hsns & Hsls)
    Hlinks Hprim Hlen Hids Hi Hni Hsi Hk Hx Hx' Hpx Hpx' Hne.
  rewrite (checkForGraphElementsChanges_eq _ _ data ns ls sns sls)
    by assumption.
  destruct (comparable_object pn) as [o [Ho [_ Hko]]].
  destruct (comparable_object ps) as [o' [Ho' [_ Hko']]].
  assert (lookup k o = Some x) as Hox by (now rewrite Hko, Hk).
  assert (lookup k o' = Some x') as Hox' by (now rewrite Hko', Hk).
  assert (forall l r, nth i l VUndefined = VObj r ->
                      nth i (map comparable l) VUndefined
                      = comparable (VObj r)) as Hnth.
  { intros l r Hr. rewrite <- Hr.
    change VUndefined with (comparable VUndefined) at 1. apply map_nth. }
  rewrite (isDeepEqual_detects_element
             (map comparable ns) (map comparable sns) i o o').
  + cbn [bind negb].
    rewrite (no_new_elements ns ls sns sls) by assumption. reflexivity.
  + now rewrite !length_map.
  + now rewrite length_map.
  + now rewrite (Hnth ns pn Hni).
  + now rewrite (Hnth sns ps Hsi).
  + intros ->. discriminate.
  + intros ->. discriminate.
  + intros ->. congruence.
  + now apply (isDeepEqual_at_detects_property 19 o o' k x x').
- intros nextProps currentState ns ls sns sls i pn ps k
    Hordinary Hordinary'
    ([data (Hd & Hn & Hl)] & Hsn & Hsl & Hns & Hsns & Hsls)
    Hlinks Hprim Hlen Hids Hi Hni Hsi Hid Hk Hown.
  rewrite (checkForGraphElementsChanges_eq _ _ data ns ls sns sls)
    by assumption.
  destruct (comparable_object pn) as [o [Ho [Hanti Hko]]].
  destruct (comparable_object ps) as [o' [Ho' [_ Hko']]].
  assert (forall l r, nth i l VUndefined = VObj r ->
                      nth i (map comparable l) VUndefined
                      = comparable (VObj r)) as Hnth.
  { intros l r Hr. rewrite <- Hr.
    change VUndefined with (comparable VUndefined) at 1. apply map_nth. }
  assert (prop (VObj ps) "id" = prop (VObj pn) "id") as Hsame.
  { rewrite <- Hni, <- Hsi.
    pose proof (map_nth (fun n => prop n "id") ns VUndefined i) as Hn'.
    pose proof (map_nth (fun n => prop n "id") sns VUndefined i) as Hs'.
    cbv beta in Hn', Hs'. now rewrite <- Hn', <- Hs', Hids. }
  assert (forall r c, (forall f, lookup f c
                                 = if includes
                                        NODE_PROPERTIES_DISCARD_TO_COMPARE f
                                   then None else lookup f r) ->
                      has_id (VObj r) = true -> c <> []) as Hnonempty.
  { intros r c Hc Hr ->. specialize (Hc "id"). cbn in Hc.
    unfold has_id in Hr. cbn [prop] in Hr. rewrite <- Hc in Hr.
    discriminate Hr. }
  assert (forall r c, (forall f, lookup f c
                                 = if includes
                                        NODE_PROPERTIES_DISCARD_TO_COMPARE f
                                   then None else lookup f r) ->
                      has_own (VObj c) k = has_own (VObj r) k) as Hhas.
  { intros r c Hc. cbn [has_own]. now rewrite Hc, Hk. }
  assert (has_own (VObj o) k <> has_own (VObj o') k) as Hown'
    by (now rewrite (Hhas pn o Hko), (Hhas ps o' Hko')).
  rewrite (isDeepEqual_detects_element
             (map comparable ns) (map comparable sns) i o o').
  + cbn [bind negb].
    rewrite (no_new_elements ns ls sns sls) by assumption. reflexivity.
  + now rewrite !length_map.
  + now rewrite length_map.
  + now rewrite (Hnth ns pn Hni).
  + now rewrite (Hnth sns ps Hsi).
  + now apply (Hnonempty pn).
  + apply (Hnonempty ps); [exact Hko'|]. unfold has_id in *.
    now rewrite Hsame.
  + intros ->. now elim Hown'.
  + apply (isDeepEqual_at_detects_missing 19 o o' k).
    * exact (antiPick_NoDup _ _ _ Hanti).
    * now apply (Hnonempty pn).
    * apply (Hnonempty ps); [exact Hko'|]. unfold has_id in *.
      now rewrite Hsame.
    * exact Hown'.
- intros nextProps currentState ns ls sns sls Hordinary Hordinary'
    ([data (Hd & Hn & Hl)] & Hsn & Hsl & Hns & Hsns & Hsls) Hlen.
  rewrite (checkForGraphElementsChanges_eq _ _ data ns ls sns sls)
    by assumption.
  rewrite isDeepEqual_detects_length by (now rewrite !length_map).
  cbn [bind negb]. apply Nat.eqb_neq in Hlen. now rewrite Hlen.
- intros nextProps currentState ns ls sns sls Hordinary Hordinary'
    ([data (Hd & Hn & Hl)] & Hsn & Hsl & Hns & Hsns & Hsls)
    Hlinks Hprim Hsame Hplain.
  rewrite (checkForGraphElementsChanges_eq _ _ data ns ls sns sls)
    by assumption.
  assert (List.length ns = List.length sns) as Hlen
    by (rewrite <- (length_map comparable ns), Hsame; apply length_map).
  assert (map (fun n => prop n "id") ns = map (fun n => prop n "id") sns)
    as Hids.
  { assert (map id_only (map comparable ns)
            = map id_only (map comparable sns)) as Hio by (now rewrite Hsame).
    rewrite (id_only_comparable ns Hns), (id_only_comparable sns Hsns) in Hio.
    clear -Hio. revert Hio.
    generalize (map (fun n => prop n "id") ns) as a.
    generalize (map (fun n => prop n "id") sns) as b.
    intros b a. revert b. induction a as [|x a IH]; intros [|y b] H;
      try discriminate; [reflexivity|].
    cbn [map] in H. injection H as -> H. f_equal. now apply IH. }
  rewrite (no_new_elements ns ls sns sls) by assumption.
  rewrite <- Hsame, (isDeepEqual_plain_array _ Hplain). cbn [bind].
  rewrite (proj2 (same_links_deep_equal ls sls Hlinks)). reflexivity.
Qed.

(** The state of the examples: nodes [A] and [B] as initialization leaves
    them and the simulation has placed them, one link whose ends the
    simulation has resolved to nodes. *)
Lemma elements_changes_examples :
let state :=
  VObj [("d3Nodes",
         VArr [VObj [("id", VStr "A"); ("color", VStr "blue");
                     ("highlighted", VBool false);
                     ("x", VNum 1); ("y", VNum 2)];
               VObj [("id", VStr "B"); ("highlighted", VBool false);
                     ("x", VNum 3); ("y", VNum 4)]]);
        ("d3Links",
         VArr [VObj [("source", VObj [("id", VStr "A")]);
                     ("target", VObj [("id", VStr "B")])]])] in
let recoloured :=
  [VObj [("id", VStr "A"); ("color", VStr "red")]; node_named "B"] in
let as_given :=
  [VObj [("id", VStr "A"); ("color", VStr "blue")]; node_named "B"] in
let as_stored :=
  [VObj [("id", VStr "A"); ("color", VStr "blue");
         ("highlighted", VBool false)];
   VObj [("id", VStr "B"); ("highlighted", VBool false)]] in
let grown := [node_named "A"; node_named "B"; node_named "C"] in
let run ns :=
  @checkForGraphElementsChanges all_distinct
    (graph_props "g" VUndefined ns [link_between "A" "B"]) state in
run recoloured = Ok (changes true false)
/\ run as_given = Ok (changes true false)
/\ run grown = Ok (changes true true)
/\ run as_stored = Ok (changes false false).
Proof.
intros state recoloured as_given as_stored grown run.
assert (forall ns,
           Forall (fun n => is_object n = true) ns ->
           observed (graph_props "g" VUndefined ns [link_between "A" "B"])
             state ns [link_between "A" "B"]
             [VObj [("id", VStr "A"); ("color", VStr "blue");
                    ("highlighted", VBool false);
                    ("x", VNum 1); ("y", VNum 2)];
              VObj [("id", VStr "B"); ("highlighted", VBool false);
                    ("x", VNum 3); ("y", VNum 4)]]
             [VObj [("source", VObj [("id", VStr "A")]);
                    ("target", VObj [("id", VStr "B")])]]) as Hobs.
{ intros ns Hns. split.
  - exists (VObj [("nodes", VArr ns);
                  ("links", VArr [link_between "A" "B"])]).
    repeat split.
  - repeat split; try assumption; repeat constructor. }
assert (same_links [link_between "A" "B"]
          [VObj [("source", VObj [("id", VStr "A")]);
                 ("target", VObj [("id", VStr "B")])]]) as Hlinks
  by (split; [reflexivity | repeat constructor]).
pose proof (@checkForGraphElementsChanges_cases
              sample_environment all_distinct all_distinct_sound)
  as (Hchanged & Hmissing & Hgrown & Hsame).
split; [|split; [|split]].
- eapply Hchanged
    with (i := 0) (k := "color") (x := VStr "red") (x' := VStr "blue").
  + reflexivity.
  + reflexivity.
  + apply Hobs. repeat constructor.
  + exact Hlinks.
  + repeat constructor.
  + reflexivity.
  + reflexivity.
  + simpl. lia.
  + reflexivity.
  + reflexivity.
  + reflexivity.
  + reflexivity.
  + reflexivity.
  + reflexivity.
  + reflexivity.
  + discriminate.
- eapply Hmissing with (i := 0) (k := "highlighted").
  + reflexivity.
  + reflexivity.
  + apply Hobs. repeat constructor.
  + exact Hlinks.
  + repeat constructor.
  + reflexivity.
  + reflexivity.
  + simpl. lia.
  + reflexivity.
  + reflexivity.
  + reflexivity.
  + reflexivity.
  + discriminate.
- eapply Hgrown.
  + reflexivity.
  + reflexivity.
  + apply Hobs. repeat constructor.
  + simpl. lia.
- eapply Hsame.
  + reflexivity.
  + reflexivity.
  + apply Hobs. repeat constructor.
  + exact Hlinks.
  + repeat constructor.
  + reflexivity.
  + reflexivity.
Defined.


(** ** Orphan nodes and the weights of the matrix *)

Lemma lookup_row_None (k : string) (m : matrix) :
lookup_row k m = None <-> ~ In k (map fst m).
Proof.
induction m as [|[k' row] m IH]; cbn [lookup_row map fst In].
- tauto.
- destruct (String.eqb_spec k' k) as [->|Hne].
  + split; [discriminate|]. intros H. elim H. now left.
  + rewrite IH. tauto.
Qed.

Lemma lookup_row_In (k : string) (m : matrix) (row : object) :
lookup_row k m = Some row -> In (k, row) m.
Proof.
induction m as [|[k' row'] m IH]; cbn [lookup_row]; [discriminate|].
destruct (String.eqb_spec k' k) as [->|Hne].
- intros H. injection H as ->. now left.
- intros H. right. now apply IH.
Qed.

Lemma In_lookup_row (k : string) (m : matrix) (row : object) :
NoDup (map fst m) -> In (k, row) m -> lookup_row k m = Some row.
Proof.
induction m as [|[k' row'] m IH]; intros Hnd Hin; [contradiction|].
cbn [map fst] in Hnd. inversion Hnd as [|? ? Hk' Hnd']; subst.
cbn [lookup_row]. destruct Hin as [Heq|Hin].
- injection Heq as -> ->. now rewrite String.eqb_refl.
- destruct (String.eqb_spec k' k) as [->|Hne]; [|now apply IH].
  elim Hk'. apply in_map_iff. exists (k, row). auto.
Qed.

Lemma In_lookup {V : Type} (k : string) (v : V) (p : list (string * V)) :
NoDup (map fst p) -> In (k, v) p -> lookup k p = Some v.
Proof.
induction p as [|[k' v'] p IH]; intros Hnd Hin; [contradiction|].
cbn [map fst] in Hnd. inversion Hnd as [|? ? Hk' Hnd']; subst.
cbn [lookup]. destruct Hin as [Heq|Hin].
- injection Heq as -> ->. now rewrite String.eqb_refl.
- destruct (String.eqb_spec k' k) as [->|Hne]; [|now apply IH].
  elim Hk'. apply in_map_iff. exists (k, v). auto.
Qed.

Lemma well_keyed_ensure_row (k : string) (m : matrix) :
well_keyed m -> well_keyed (ensure_row k m).
Proof.
intros [Hm Hrows]. unfold ensure_row.
destruct (lookup_row k m) eqn:Hk; [now split|].
apply lookup_row_None in Hk. split.
- rewrite map_app. cbn [map fst].
  apply NoDup_app; [exact Hm | constructor; [intros []|constructor] |].
  intros x Hx [<-|[]]. contradiction.
- apply Forall_app. split; [exact Hrows|].
  constructor; [constructor|constructor].
Qed.

Lemma well_keyed_set_entry (s t : string) (v : value) (m : matrix) :
well_keyed m -> well_keyed (set_entry s t v m).
Proof.
intros [Hm Hrows]. split; [now rewrite keys_set_entry|].
clear Hm. induction Hrows as [|[k row] m Hrow Hrows IH]; [constructor|].
cbn [set_entry]. destruct (k =? s).
- constructor; [|exact Hrows]. cbn [snd] in *. now apply NoDup_keys_assign.
- constructor; assumption.
Qed.

Section OrphanNodes.
Context {E : Environment} {I : ObjectIdentity}.

Lemma well_keyed_initializeLinks_step (config : value) (m m' : matrix)
    (l : value) :
_initializeLinks_step config m l = Ok m' -> well_keyed m -> well_keyed m'.
Proof.
unfold _initializeLinks_step. intros H Hm. inv_bind H. subst m'.
repeat match goal with
       | |- well_keyed (if ?c then _ else _) => destruct c
       | |- well_keyed (set_entry _ _ _ _) => apply well_keyed_set_entry
       | |- well_keyed (ensure_row _ _) => apply well_keyed_ensure_row
       end; exact Hm.
Qed.

Lemma well_keyed_initializeLinks (config : value) (ls : list value)
    (acc m : matrix) :
reduceM (_initializeLinks_step config) ls acc = Ok m ->
well_keyed acc -> well_keyed m.
Proof.
revert acc. induction ls as [|l ls IH]; intros acc H Hacc; cbn in H.
- now injection H as <-.
- destruct (_initializeLinks_step config acc l) as [m1|] eqn:Hstep;
    [|discriminate H].
  cbn [bind] in H. apply (IH m1 H).
  exact (well_keyed_initializeLinks_step _ _ _ _ Hstep Hacc).
Qed.
End OrphanNodes.

Lemma filter_none {A : Type} (f : A -> bool) (l : list A) :
(forall x, In x l -> f x = false) <-> filter f l = [].
Proof.
induction l as [|x l IH]; cbn [filter].
- split; [reflexivity | intros _ x []].
- destruct (f x) eqn:Hx.
  + split; [|discriminate]. intros H.
    rewrite (H x (or_introl eq_refl)) in Hx. discriminate Hx.
  + rewrite <- IH. split.
    * intros H y Hy. apply H. now right.
    * intros H y [<-|Hy]; [exact Hx | now apply H].
Qed.

(** A node has both degrees zero exactly when every weight in its row and
    in its column of the matrix is zero. *)
Lemma is_orphan_zero_weights (k : string) (m : matrix) :
well_keyed m ->
(is_orphan k m = true
 <-> forall b w, entry m k b = Some w \/ entry m b k = Some w ->
                 nonzero w = false).
Proof.
intros [Hm Hrows]. unfold is_orphan, computeNodeDegree.
cbn [inDegree outDegree].
rewrite andb_true_iff, !Nat.eqb_eq, length_zero_iff_nil, <- filter_none.
split.
- intros [Hin Hout] b w [Hw|Hw]; unfold entry in Hw.
  + destruct (lookup_row k m) as [row|] eqn:Hrow; [|discriminate Hw].
    apply length_zero_iff_nil in Hout.
    apply (proj2 (filter_none _ row) Hout (b, w)).
    now apply lookup_In.
  + destruct (lookup_row b m) as [row|] eqn:Hrow; [|discriminate Hw].
    specialize (Hin (b, row) (lookup_row_In _ _ _ Hrow)).
    cbn [snd] in Hin. now rewrite Hw in Hin.
- intros H. split.
  + intros [a row] Hin. cbn [snd].
    destruct (lookup k row) as [w|] eqn:Hw; [|reflexivity].
    apply (H a w). right. unfold entry.
    now rewrite (In_lookup_row a m row Hm Hin).
  + destruct (lookup_row k m) as [row|] eqn:Hrow; [|reflexivity].
    apply length_zero_iff_nil, filter_none. intros [b w] Hin. cbn [snd].
    apply (H b w). left. unfold entry. rewrite Hrow.
    apply In_lookup; [|exact Hin].
    exact (proj1 (Forall_forall _ _) Hrows (k, row)
             (lookup_row_In _ _ _ Hrow)).
Qed.

Lemma truthy_nonzero (w : value) : truthy w = true -> nonzero w = true.
Proof. destruct w; try reflexivity; intros H; exact H. Qed.

(** C4 (as amended). In the node map that [initializeGraphState] returns for
    ordinary props ([ordinary_graph]: no object of the props, of the default
    configuration or of the previous state owns a property under the name
    of an inherited member, every number in them is an integer below 2^53,
    the configuration is no function, and no id of a node and no end of a
    link is the name of an inherited member) whose nodes do not themselves
    carry [_orphan = true], with a matrix that has no negative weight, a
    node carries [_orphan = true] if and only if its in-degree and its
    out-degree in the adjacency matrix are both zero, that is, if and only
    if every weight in its row and in its column of the matrix is zero.
    Every node with no incident link among the links of the returned graph
    is tagged; and unless the graph is collapsible, every node with an
    incident link among them is not.  (In a collapsible graph a hidden link
    weighs zero, and a node all of whose links are hidden is tagged.) *)
Theorem orphan_iff_zero_degrees
    {E : Environment} {I : ObjectIdentity}
    (props state data : value) (ns : list value) (st : GraphState.t) :
ordinary_graph props state = true ->
get props "data" = Ok data ->
prop data "nodes" = VArr ns ->
Forall (fun n => prop n "_orphan" <> VBool true) ns ->
initializeGraphState props state = Ok st ->
no_negative_weight (GraphState.links st) = true ->
forall k,
  In k (own_keys (VObj (GraphState.nodes st))) ->
  (prop (prop (VObj (GraphState.nodes st)) k) "_orphan" = VBool true
   <-> (inDegree (computeNodeDegree k (GraphState.links st)) = 0
        /\ outDegree (computeNodeDegree k (GraphState.links st)) = 0))
  /\ (prop (prop (VObj (GraphState.nodes st)) k) "_orphan" = VBool true
      <-> forall b w,
            entry (GraphState.links st) k b = Some w
            \/ entry (GraphState.links st) b k = Some w ->
            nonzero w = false)
  /\ ((forall l, In l (GraphState.d3Links st) -> ~ incident k l) ->
      prop (prop (VObj (GraphState.nodes st)) k) "_orphan" = VBool true)
  /\ (truthy (prop (VObj (GraphState.config st)) "collapsible") = false ->
      (exists l, In l (GraphState.d3Links st) /\ incident k l) ->
      prop (prop (VObj (GraphState.nodes st)) k) "_orphan" <> VBool true).
Proof.
intros Hordinary Hd Hns Hflags H Hweights k Hk.
destruct (initializeGraphState_node _ _ _ _ _ _ Hd Hns H Hk)
  as (n & o & stored & Hin & Hg & _ & Hlook & ->).
assert (prop (VObj (initialized_node o)) "_orphan" <> VBool true) as Hflag.
{ cbn [prop]. rewrite initialized_node_prop by discriminate.
  change (prop (VObj o) "_orphan" <> VBool true).
  rewrite (graph_node_not_whitelisted state n o "_orphan" Hg).
  - now apply (proj1 (Forall_forall _ _) Hflags).
  - simpl. intuition discriminate.
  - reflexivity.
  - discriminate. }
pose proof (orphan_flag_of_tagged_node stored (GraphState.links st) k _
              Hlook Hflag) as Hiff.
assert (is_orphan k (GraphState.links st) = true
        <-> inDegree (computeNodeDegree k (GraphState.links st)) = 0
            /\ outDegree (computeNodeDegree k (GraphState.links st)) = 0)
  as Hdeg.
{ unfold is_orphan. now rewrite andb_true_iff, !Nat.eqb_eq. }
destruct (initializeGraphState_Ok _ _ _ H)
  as (_ & _ & _ & graph & merged & _ & _ & _ & _ & _ & _ & _ & Hl & _ & _ & _
      & Hd3 & Hcfg & _).
assert (well_keyed (GraphState.links st)) as Hkeyed.
{ apply (well_keyed_initializeLinks _ _ [] _ Hl).
  split; constructor. }
pose proof (is_orphan_zero_weights k _ Hkeyed) as Hzero.
split; [now rewrite Hiff|]. split; [now rewrite Hiff|]. split.
- intros Hnone. apply Hiff.
  apply _initializeLinks_rows in Hl. destruct Hl as [_ Hw].
  apply (is_orphan_absent k _ _ Hw).
  intros [l [Hl Hinc]]. rewrite <- Hd3 in Hl. exact (Hnone l Hl Hinc).
- intros Hcollapsible [l [Hin' (s & t & Hends & Hst)]] Htagged.
  rewrite Hd3 in Hin'.
  assert (entry (GraphState.links st) s t <> None) as Hdefined.
  { apply (reduce_initializeLinks_defined _ _ [] _ Hl). right.
    exists l. split; [exact Hin'|]. now left. }
  destruct (entry (GraphState.links st) s t) as [w|] eqn:Hw;
    [|now elim Hdefined].
  destruct (reduce_initializeLinks_entries _ _ _ _ Hl s t w Hw)
    as [Hacc | (l' & _ & _ & Hwl)]; [discriminate Hacc|].
  assert (nonzero w = true) as Hnonzero.
  { rewrite Hwl. apply truthy_nonzero. unfold weight.
    assert (prop (VObj (object_assign [] [merged])) "collapsible"
            = prop (VObj (GraphState.config st)) "collapsible") as ->.
    { rewrite Hcfg. cbn [prop].
      now rewrite clamp_focusZoom_other by discriminate. }
    unfold js_and. rewrite Hcollapsible. rewrite Hcollapsible.
    unfold js_or.
    destruct (truthy (prop l' "value")) eqn:Hv; [exact Hv | reflexivity]. }
  assert (nonzero w = false) as Hzero'.
  { destruct Hst as [-> | ->].
    - apply (proj1 Hzero (proj1 Hiff Htagged) t w). now left.
    - apply (proj1 Hzero (proj1 Hiff Htagged) s w). now right. }
  congruence.
Qed.


Lemma orphan_iff_zero_degrees_example :
exists st,
  @initializeGraphState sample_environment all_distinct
    (graph_props "g" VUndefined
       [node_named "A"; node_named "B"; node_named "C"]
       [link_between "A" "B"]) VUndefined = Ok st
  /\ (prop (prop (VObj (GraphState.nodes st)) "C") "_orphan" = VBool true
      <-> (inDegree (computeNodeDegree "C" (GraphState.links st)) = 0
           /\ outDegree (computeNodeDegree "C" (GraphState.links st)) = 0))
  /\ (prop (prop (VObj (GraphState.nodes st)) "C") "_orphan" = VBool true
      <-> forall b w,
            entry (GraphState.links st) "C" b = Some w
            \/ entry (GraphState.links st) b "C" = Some w ->
            nonzero w = false)
  /\ ((forall l, In l (GraphState.d3Links st) -> ~ incident "C" l) ->
      prop (prop (VObj (GraphState.nodes st)) "C") "_orphan" = VBool true)
  /\ (truthy (prop (VObj (GraphState.config st)) "collapsible") = false ->
      (exists l, In l (GraphState.d3Links st) /\ incident "C" l) ->
      prop (prop (VObj (GraphState.nodes st)) "C") "_orphan" <> VBool true).
Proof.
eexists. split; [vm_compute; reflexivity|].
apply (@orphan_iff_zero_degrees sample_environment all_distinct
         (graph_props "g" VUndefined
            [node_named "A"; node_named "B"; node_named "C"]
            [link_between "A" "B"]) VUndefined
         (VObj [("nodes", VArr [node_named "A"; node_named "B";
                                node_named "C"]);
                ("links", VArr [link_between "A" "B"])])
         [node_named "A"; node_named "B"; node_named "C"]).
- reflexivity.
- reflexivity.
- reflexivity.
- repeat constructor; discriminate.
- vm_compute. reflexivity.
- reflexivity.
- vm_compute. auto.
Defined.
